(* ===== verification/_CoqProject ===== *)
-Q . S2P
Prelude.v
GoLib.v
Duration.v
Parse.v
Timer.v
Machine.v
Run.v
Sweep.v
Manager.v
Display.v
Command.v
Dialogue.v
Concurrency.v
Schedule.v
Persist.v
World.v
Stdin.v
