(* ===== verification/Prelude.v ===== *)
(** * multi-timer: a verification development

    The program (src/main.go, one Go file) is a terminal Pomodoro manager:
    a list of work/break timers, a one-second ticker goroutine that advances
    every timer, a renderer goroutine woken through a one-slot channel, and
    a command loop on standard input (add, pause, reset, delete, quit).
    Timer programmes are saved to and loaded from a JSON file.

    ** Files and what they model

    - [Prelude] (this file): what the components share.  Go's 64-bit
      integers as [Z] with the wrap-around [wrap64] written out; the
      outcome of a Go call ([Ok] or [Panicked]); the monad [GoM] that
      carries the events a call emits and stops at a panic; Go's indexing
      [s[i]] and the removal idiom [append(s[:i], s[i+1:]...)] with their
      bounds checks; the hint databases and tactics of the development.
    - [GoLib]: the library functions main.go calls on text
      (strings.TrimSpace, Contains, Split, ToLower, strconv.Atoi,
      fmt.Sscanf with a letter and the verb %d), modelled from Go's
      documentation and library source; spec_modelled in the map.
    - [Duration]: time.Duration as int64 nanoseconds, the decrement by a
      second and the truncating conversions of the status line.
    - [Parse]: [parseDuration] (main.go, parseDuration), a sum of its
      errors and the duration.
    - [Timer]: the records TimerPhase, TimerState, Timer, TimerConfig,
      [timerFromConfig], the transition function [update]
      (main.go, method update of Timer) and the status line
      [Timer_String] (method String of Timer); the invariant [wf_timer];
      [notice], the notification the specification's transition table
      gives for a tick of a timer.
    - [Machine]: the abstract machine of the specification (Working,
      OnBreak, Completed) as a labelled step relation [astep], and the
      refinement of [update] to it.
    - [Run]: [ticks n], the calls of [update] the ticker makes on one
      timer, and the measure [ticks_left].
    - [Sweep]: the ticker's loop over a slice, from the last index down
      with removal in place ([sweep_loop]), generic in the element, its
      reference [sweep_ref], and the interface [Steppable] between the
      loop and the element.
    - [Manager]: TimerManager, one iteration of the ticker [tick]
      (startUpdateLoop), [startup] (the loading loop of main), the
      critical sections of the commands, the invariants [wf_manager] and
      [lockstep].
    - [Display]: [displayTimers] and [clearDisplay] as the text written
      to the terminal.
    - [Command]: the loop of main ([command], [main_loop], [main]), the
      commands [cmd_pause], [cmd_reset], [cmd_delete], [cmd_add] and the
      dialogue [createTimer] with [readLine].
    - [Dialogue]: createTimer as a machine that stands at a readLine
      ([dstate]) and takes one line per step ([answer], [dialogue_step],
      [run_dialogue]), without fuel.
    - [Concurrency]: the three goroutines on one manager as a labelled
      step relation [cstep] on [sys] (the manager, a program counter for
      the command loop, the ticker and the renderer, and the panic that
      ended the process).  [initial] is the system right after the go
      statements: main has its first screen and its first prompt still
      to print ([first_screen]), and the ticker may move before it does;
      [at_prompt] is the system when main reads.  What runs between
      tm.mu.Lock() and
      tm.mu.Unlock() is one step: the sweep of startUpdateLoop ([sweep]),
      the critical section of a command ([act]).  What runs outside the
      lock is a step of its own: the send on displayChan, the receive,
      the redraw, and the range check of p, r and d, which main.go makes
      before it takes the lock; so are the save, the redraw and the
      prompt of a command, every line of the dialogue of an add
      (createTimer runs without the lock; its steps are those of
      [Dialogue]) and its two appends.  [emits] is what a step
      sends to the outside, [cstep_fun] is the relation as a function of
      the label, [csteps], [run] and [trace] are runs.
    - [Schedule]: the steps main takes for its input ([plan_command],
      [plan_add], [plan_loop]): the command loop of [Command] as one
      schedule of [Concurrency], in which no other goroutine moves.
    - [Persist]: the file timers.json as the JSON value it holds
      ([json], [file]), TimerPhase's MarshalJSON and UnmarshalJSON, the
      default encoding and decoding of TimerConfig by encoding/json,
      [saveTimerConfigs] with the answer of the file system (success, the
      error of os.Create, the error of a write), [loadTimerConfigs], and
      the file after the saves of a run ([store_after]).
    - [World]: the outside, as the three goroutines act on it: the text
      on the terminal, the file, the notifications shown, and the answers
      the file system and the notification sink give to the calls to
      come.  A handler per kind of event ([Handler], [handle]): notify
      with the report of beeep's error (main.go, notify), fmt.Print, and
      the call of saveTimerConfigs in the cases a and d with the report
      of its error.  [interp] handles the events of a run in order.
    - [Stdin]: standard input as bytes: the chunks the reads of the file
      descriptor return ([stdin]), the buffer of a bufio.Reader ([bufio]),
      ReadString on the two ([bufio_ReadString]), and the two readers of
      the program, main's and the one each call of createTimer makes
      ([NewReader], [read_all]).

    ** Conventions

    - Go's [int] and [int64] are both 64 bits wide (the usual targets);
      every arithmetic operation of the source is wrapped by [wrap64].
    - A slice of pointers to Timer is a list of values: no two slots of
      activeTimers ever alias, since every timer is allocated by
      createTimer or timerFromConfig and stored once.  A mutation through
      the pointer is a list insert at the slot's index.
    - A call returns [GoM E A]: the events emitted so far and either a
      value or the panic that ended it.  A panic in any goroutine ends
      the process, so nothing runs after it.  The events of the ticker
      are the notifications ([Notify]); the events of the main goroutine
      are the texts printed and the configuration lists saved
      ([Print], [SaveConfigs]).
    - A run of the three goroutines is a list of labels, one per step,
      naming the goroutine that moves; the scheduler may choose any list
      the relation admits.
    - A call that can fail for a reason outside the program (os.Create,
      a write, beeep.Notify) fails when the world says so: the world
      holds the list of answers to the calls to come, and no theorem
      assumes anything of that list unless it says so.
    - A Go string is a [string] of bytes; white space and letter case are
      ASCII.
    - In [Command] standard input is the list of lines still to come; at
      its end every read returns the empty text, as ReadString does at
      EOF when its error is dropped.  createTimer's own bufio.Reader is
      identified with main's: input is taken to arrive line by line, as
      from a terminal.  [Stdin] has the bytes and the two readers, and
      proves that the identification is exact for such input and what
      happens for other input.

    ** Bounds and fuel

    The ticker's loop is structural (it counts down from
    [len(activeTimers)]) and [ticks] is indexed by the number of ticks: no
    fuel.  The two loops that read input, the phase loop of createTimer
    ([read_phases]) and the loop of main ([main_loop]), take fuel, one
    unit per iteration, because at the end of input they do not end: the
    result [None] means the fuel ran out.  That they return is proved
    with the fuel that suffices (one unit per phase for a well-formed
    dialogue); that they do not return at end of input is proved for
    every amount of fuel.  Durations are exact up to 153722867 minutes
    ([max_minutes]), the largest whole number of minutes an int64 of
    nanoseconds holds.

    ** Theorems

    - Timer, Machine, Run: the result of [update] on every branch; the
      invariant and its preservation along every run; no panic and no
      wrap-around on well-formed timers; the refinement to the abstract
      machine; a period of k seconds lasts k+1 ticks; a bounded timer
      completes after exactly [ticks_left] ticks, an unlimited one never.
    - Sweep, Manager: the in-place loop equals the reference sweep; a
      tick preserves [wf_manager]; redraw requests coalesce; startup
      establishes lock-step and panics exactly on an empty phase list; a
      tick keeps lock-step exactly when no timer completes.
    - Parse: the five branches of the parser, the examples of the
      specification, the round trip with decimal notation, the inputs
      outside the data model (negative, wrapped).
    - Display: what the status line shows of a well-formed timer.
    - Command: each command on every branch; the loop alone keeps
      lock-step and never panics; the dialogue builds what was typed and
      agrees with timerFromConfig; the letter of a command is scanned
      with regard to case; at the end of input the loops spin; after a
      completion the delete command removes another timer's
      configuration.
    - Dialogue: createTimer returns a timer exactly when the machine
      ends with it, after the same texts, whatever the fuel.
    - Concurrency: from the start of the goroutines on a well-formed
      manager, [wf_manager] holds in every state of every interleaving in
      which the dialogues of the adds end in well-formed timers
      ([wf_label]; createTimer itself accepts negative durations, and
      with those the invariant is false), and only the critical section
      of a command can panic; a tick in which a timer completes,
      scheduled between the range check of a command and its critical
      section, makes the command index past the end of the slice; when
      every timer is unlimited, and so is every timer added, no
      interleaving of ticks, redraws and commands panics.
    - Schedule: the command loop refines the concurrent system: its plan
      is a run of main alone, from its first read, that ends in the state
      the loop returns (or in its panic) and sends what the loop prints
      and saves; with the first screen before it, it is a run from the
      start of the goroutines; a step of
      the ticker or the renderer commutes with a step of the dialogue; in
      every running state the ticker and main each have a step, and the
      renderer has one exactly when it draws or a request is pending.
    - Persist: what is saved is loaded back, durations and cycle bound
      exactly, texts coerced to valid UTF-8; the decoder returns int64
      values whatever the file holds; a file with a configuration without
      phases passes the decoder and makes main panic; after a run of main
      that returned, the file loads to the configurations the run ended
      with.
    - World: under every schedule and every answer of the file system
      and the sink, the file loads to the configurations of the manager
      unless a save is due or the last one failed; a delete whose save
      fails is reported, stays in memory and is undone by the next start;
      a tick on well-formed timers sends one notification per timer that
      runs with its countdown at zero, the last timer's first, with the
      text of its transition, and each is shown or its error reported;
      with no faults the file is the one [store_after] computes; the ticker
      and the renderer never touch the configurations or the file, so a
      timer that completed is built again at the next start.
    - Stdin: a reader returns the lines of the bytes ahead of it; when
      every read returns one line, two readers used in any order read the
      lines in order; when the read of a command empties the input, the
      dialogue's reader is at the end of file and createTimer does not
      return.

    ** Not modelled

    The text of the JSON file (escapes, white space, the final newline):
    the file is the value encoding/json reads from it, and a write that
    fails leaves either the whole value or a text the decoder rejects.
    What beeep.Notify does on each platform, and what os.Create and a
    write do below their result: they answer as the world says.  In
    [Command] and [Persist], [main] is the main goroutine alone;
    [Schedule] relates it to the system of three.  What a step prints
    it prints at once: a redraw comes between two steps of the dialogue,
    not inside the texts of one.  In particular displayTimers is one
    text, read and written in one step, although main.go holds the lock
    only for the loop over the timers and prints the heading and the
    list of commands outside it: the bytes of a redraw and of a print of
    main do not interleave here, and the list shown is never older than
    the heading above it.  Memory is sequentially consistent and the
    lock is fair enough for every goroutine to run: the relation has no
    step that waits.  The float64 arithmetic of Duration.Minutes and
    Seconds is replaced by the integer quotient, which it equals on whole
    seconds.  A read of the descriptor returns a whole chunk of [stdin]:
    a chunk larger than the space left in bufio's 4096-byte buffer would
    be split by the reader, which is not modelled.  White space and
    letter case are those of ASCII: strings.TrimSpace and the matching
    of field names by encoding/json also know the Unicode ones.  The unlocked reads of
    len(tm.activeTimers) and tm.configs
    by main are steps like the others: the data race they are in Go's
    memory model is not modelled. *)

From Stdlib Require Import ZArith Lia.
From stdpp Require Import base tactics option list numbers strings.

#[local] Open Scope Z_scope.

(** ** Hint databases *)

Create HintDb go discriminated.
Create HintDb int64 discriminated.
Create Rewrite HintDb int64_rw.
Create Rewrite HintDb go_rw.

(** ** 64-bit integers *)

Definition int64_min : Z := - 2 ^ 63.
Definition int64_max : Z := 2 ^ 63 - 1.

(** [in_int64 z]: [z] is representable as an int64. *)
Definition in_int64 (z : Z) : Prop := int64_min <= z <= int64_max.

#[export] Instance in_int64_dec z : Decision (in_int64 z).
Proof. unfold in_int64. apply _. Defined.

(** Two's-complement wrap-around of a mathematical integer into int64. *)
Definition wrap64 (z : Z) : Z := (z + 2 ^ 63) mod 2 ^ 64 - 2 ^ 63.

Lemma wrap64_range z : in_int64 (wrap64 z).
Proof.
  unfold in_int64, wrap64, int64_min, int64_max.
  pose proof (Z.mod_pos_bound (z + 2 ^ 63) (2 ^ 64) ltac:(lia)). lia.
Qed.

Lemma wrap64_id z : in_int64 z -> wrap64 z = z.
Proof.
  unfold in_int64, wrap64, int64_min, int64_max. intros H.
  rewrite Z.mod_small; lia.
Qed.

(** Just above the int64 range the value is taken modulo 2^64. *)
Lemma wrap64_above z : int64_max < z <= 2 ^ 64 + int64_max -> wrap64 z = z - 2 ^ 64.
Proof.
  unfold wrap64, int64_max. intros Hz.
  replace (z + 2 ^ 63) with (z - 2 ^ 64 + 2 ^ 63 + 1 * 2 ^ 64) by lia.
  rewrite Z.mod_add by lia. rewrite Z.mod_small by lia. lia.
Qed.

Lemma wrap64_idem z : wrap64 (wrap64 z) = wrap64 z.
Proof. apply wrap64_id, wrap64_range. Qed.

Lemma wrap64_eqm z : (wrap64 z) mod 2 ^ 64 = z mod 2 ^ 64.
Proof.
  unfold wrap64.
  rewrite <- (Zminus_mod_idemp_l _ (2 ^ 63)), Z.mod_mod by lia.
  rewrite Zminus_mod_idemp_l. f_equal. lia.
Qed.

Lemma wrap64_congr a b : a mod 2 ^ 64 = b mod 2 ^ 64 -> wrap64 a = wrap64 b.
Proof.
  intros H. unfold wrap64.
  rewrite <- (Zplus_mod_idemp_l a), <- (Zplus_mod_idemp_l b), H. reflexivity.
Qed.

Lemma wrap64_add_l a b : wrap64 (wrap64 a + b) = wrap64 (a + b).
Proof.
  apply wrap64_congr.
  rewrite <- Zplus_mod_idemp_l, wrap64_eqm, Zplus_mod_idemp_l. reflexivity.
Qed.

Lemma wrap64_add_r a b : wrap64 (a + wrap64 b) = wrap64 (a + b).
Proof. rewrite Z.add_comm, wrap64_add_l. f_equal. lia. Qed.

Lemma wrap64_mul_l a b : wrap64 (wrap64 a * b) = wrap64 (a * b).
Proof.
  apply wrap64_congr.
  rewrite <- Zmult_mod_idemp_l, wrap64_eqm, Zmult_mod_idemp_l. reflexivity.
Qed.

#[export] Hint Resolve wrap64_range : int64.
#[export] Hint Rewrite wrap64_idem wrap64_add_l wrap64_add_r wrap64_mul_l : int64_rw.

(** Proves a closed decidable proposition by evaluating its decision. *)
Ltac by_decide :=
  apply (bool_decide_unpack _); vm_compute; exact I.

(** Closes a range goal about [wrap64] or [in_int64] by unfolding. *)
Ltac int64_lia :=
  unfold in_int64, int64_min, int64_max in *; lia.

(** ** Outcomes and the monad of Go calls *)

(** The run-time panics the modelled code can raise. *)
Inductive panic : Type :=
  | IndexOutOfRange (i : Z) (len : nat)
  | SliceBoundsOutOfRange (i : Z) (len : nat).

#[export] Instance panic_eq_dec : EqDecision panic.
Proof. solve_decision. Defined.

Inductive outcome (A : Type) : Type :=
  | Ok (a : A)
  | Panicked (p : panic).
Arguments Ok {A} a.
Arguments Panicked {A} p.

#[export] Instance outcome_eq_dec {A} `{EqDecision A} : EqDecision (outcome A).
Proof. solve_decision. Defined.

(** A call that emits events of type [E] and returns an [A] or panics.
    The events emitted before a panic are kept: they have happened. *)
Record GoM (E A : Type) : Type := mkGoM {
  events : list E;
  result : outcome A
}.
Arguments mkGoM {E A} events result.
Arguments events {E A} g.
Arguments result {E A} g.

#[export] Instance GoM_ret {E} : MRet (GoM E) := fun A a => mkGoM [] (Ok a).

#[export] Instance GoM_bind {E} : MBind (GoM E) := fun A B f m =>
  match result m with
  | Ok a => let r := f a in mkGoM (events m ++ events r) (result r)
  | Panicked p => mkGoM (events m) (Panicked p)
  end.

Definition emit {E} (e : E) : GoM E unit := mkGoM [e] (Ok tt).
Definition raise {E A} (p : panic) : GoM E A := mkGoM [] (Panicked p).

#[global] Arguments mbind : simpl never.
#[global] Arguments mret : simpl never.
#[global] Arguments GoM_ret : simpl never.
#[global] Arguments GoM_bind : simpl never.
#[global] Arguments emit : simpl never.
#[global] Arguments raise : simpl never.

(** [returns g a]: the call ends normally with value [a]. *)
Definition returns {E A} (g : GoM E A) (a : A) : Prop := result g = Ok a.
(** [panics g]: the call ends in a run-time panic. *)
Definition panics {E A} (g : GoM E A) : Prop := exists p, result g = Panicked p.

#[export] Instance returns_dec {E} `{EqDecision A} (g : GoM E A) a : Decision (returns g a).
Proof. unfold returns. apply _. Defined.

Lemma GoM_eta {E A} (m : GoM E A) : mkGoM (events m) (result m) = m.
Proof. by destruct m. Qed.

Section GoM_laws.
Context {E A B C : Type}.
Implicit Types (m : GoM E A) (f : A -> GoM E B) (g : B -> GoM E C).

Lemma bind_ret_l (a : A) f : mret a ≫= f = f a.
Proof. unfold mbind, GoM_bind, mret, GoM_ret. simpl. apply GoM_eta. Qed.

Lemma bind_ret_r m : m ≫= mret = m.
Proof.
  destruct m as [es [a|p]]; unfold mbind, GoM_bind, mret, GoM_ret; simpl;
    by rewrite ?app_nil_r.
Qed.

Lemma bind_assoc m f g : (m ≫= f) ≫= g = m ≫= (fun a => f a ≫= g).
Proof.
  destruct m as [es [a|p]]; unfold mbind, GoM_bind; simpl; [|done].
  destruct (f a) as [es' [b|p]]; simpl; [|done].
  by rewrite app_assoc.
Qed.

Lemma bind_ext m f f' : (forall a, f a = f' a) -> m ≫= f = m ≫= f'.
Proof.
  intros Hf. destruct m as [es [a|p]]; unfold mbind, GoM_bind; simpl; [|done].
  by rewrite Hf.
Qed.

Lemma bind_emit (e : E) (k : unit -> GoM E B) :
  emit e ≫= k = mkGoM (e :: events (k tt)) (result (k tt)).
Proof. done. Qed.

Lemma bind_raise (p : panic) f : @raise E A p ≫= f = raise p.
Proof. done. Qed.

Lemma bind_Ok es (a : A) f :
  mkGoM es (Ok a) ≫= f = mkGoM (es ++ events (f a)) (result (f a)).
Proof. done. Qed.

Lemma bind_Panicked es p f :
  mkGoM es (Panicked p) ≫= f = mkGoM es (Panicked p).
Proof. done. Qed.

Lemma result_bind m f :
  result (m ≫= f) =
  match result m with Ok a => result (f a) | Panicked p => Panicked p end.
Proof. unfold mbind, GoM_bind. by destruct (result m). Qed.

Lemma events_bind m f :
  events (m ≫= f) =
  events m ++ match result m with Ok a => events (f a) | Panicked _ => [] end.
Proof. unfold mbind, GoM_bind. destruct (result m); simpl; [done|by rewrite app_nil_r]. Qed.

Lemma panics_bind_l m f : panics m -> panics (m ≫= f).
Proof. intros [p Hp]. exists p. by rewrite result_bind, Hp. Qed.

Lemma returns_bind m f a b : returns m a -> returns (f a) b -> returns (m ≫= f) b.
Proof. unfold returns. intros Hm Hf. by rewrite result_bind, Hm. Qed.

Lemma returns_bind_inv m f b :
  returns (m ≫= f) b -> exists a, returns m a /\ returns (f a) b.
Proof.
  unfold returns. rewrite result_bind. destruct (result m) as [a|p]; [by exists a|done].
Qed.

Lemma returns_mret (a a' : A) : returns (@mret (GoM E) _ A a) a' -> a = a'.
Proof. by intros [= ->]. Qed.

End GoM_laws.

Lemma returns_not_panics {E A} (g : GoM E A) a : returns g a -> ~ panics g.
Proof. intros H [p Hp]. unfold returns in H. congruence. Qed.

#[export] Hint Rewrite @bind_ret_l @bind_ret_r @bind_emit @bind_raise
  @bind_Ok @bind_Panicked : go_rw.

(** Unfolds the monad's operations in the goal; used where a definition
    must be evaluated on a symbolic state. *)
Ltac go_unfold :=
  unfold mbind, GoM_bind, mret, GoM_ret, emit, raise in *; simpl in *.

(** ** Slices *)

(** Go's [len(s)], an int. *)
Definition len {A} (s : list A) : Z := Z.of_nat (length s).

(** Go's [s[i]]: panics unless [0 <= i < len(s)]. *)
Definition index {E A} (s : list A) (i : Z) : GoM E A :=
  if decide (0 <= i) then
    match s !! Z.to_nat i with
    | Some x => mret x
    | None => raise (IndexOutOfRange i (length s))
    end
  else raise (IndexOutOfRange i (length s)).

(** Go's [append(s[:i], s[i+1:]...)]: [s[:i]] panics unless [0 <= i] and
    [s[i+1:]] unless [i+1 <= len(s)]; the result is [s] without slot [i]. *)
Definition remove_at {E A} (s : list A) (i : Z) : GoM E (list A) :=
  if decide (0 <= i /\ i + 1 <= len s) then
    mret (take (Z.to_nat i) s ++ drop (Z.to_nat (i + 1)) s)
  else raise (SliceBoundsOutOfRange i (length s)).

Section slices.
Context {E A : Type}.
Implicit Types (s : list A) (i : Z) (n : nat) (x : A).

Lemma len_nonneg s : 0 <= len s.
Proof. unfold len. lia. Qed.

Lemma len_app s1 s2 : len (s1 ++ s2) = len s1 + len s2.
Proof. unfold len. rewrite length_app. lia. Qed.

Lemma index_lookup s n x : s !! n = Some x -> @index E A s (Z.of_nat n) = mret x.
Proof.
  intros H. unfold index. rewrite decide_True by lia.
  by rewrite Nat2Z.id, H.
Qed.

Lemma index_in_range s i :
  0 <= i < len s -> exists x, s !! Z.to_nat i = Some x /\ @index E A s i = mret x.
Proof.
  unfold len. intros Hi.
  destruct (lookup_lt_is_Some_2 s (Z.to_nat i)) as [x Hx]; [lia|].
  exists x. split; [done|]. unfold index. rewrite decide_True by lia. by rewrite Hx.
Qed.

Lemma index_out_of_range s i :
  ~ (0 <= i < len s) -> @index E A s i = raise (IndexOutOfRange i (length s)).
Proof.
  unfold len, index. intros Hi. case_decide; [|done].
  rewrite lookup_ge_None_2; [done|lia].
Qed.

Lemma index_panics_iff s i : panics (@index E A s i) <-> ~ (0 <= i < len s).
Proof.
  split.
  - intros Hp Hi. destruct (index_in_range s i Hi) as (x & _ & Hx).
    rewrite Hx in Hp. by destruct Hp.
  - intros Hi. rewrite index_out_of_range by done. by eexists.
Qed.

Lemma remove_at_delete s n :
  (n < length s)%nat -> @remove_at E A s (Z.of_nat n) = mret (delete n s).
Proof.
  intros Hn. unfold remove_at, len. rewrite decide_True by lia.
  rewrite delete_take_drop. do 3 f_equal; lia.
Qed.

Lemma remove_at_out_of_range s i :
  ~ (0 <= i < len s) ->
  @remove_at E A s i = raise (SliceBoundsOutOfRange i (length s)).
Proof. unfold remove_at, len. intros Hi. rewrite decide_False; [done|lia]. Qed.

(** What an index or a removal that returned has read. *)
Lemma index_returns s i x :
  returns (@index E A s i) x -> 0 <= i < len s /\ s !! Z.to_nat i = Some x.
Proof.
  unfold returns. intros Hr. destruct (decide (0 <= i < len s)) as [Hi|Hi].
  - destruct (index_in_range s i Hi) as (y & Hy & Heq). rewrite Heq in Hr.
    by injection Hr as ->.
  - by rewrite index_out_of_range in Hr.
Qed.

Lemma remove_at_returns s i s' :
  returns (@remove_at E A s i) s' -> 0 <= i < len s /\ s' = delete (Z.to_nat i) s.
Proof.
  unfold returns. intros Hr. destruct (decide (0 <= i < len s)) as [Hi|Hi].
  - split; [done|]. unfold len in Hi. rewrite <- (Z2Nat.id i), remove_at_delete in Hr by lia.
    by injection Hr as <-.
  - by rewrite remove_at_out_of_range in Hr.
Qed.

(** Neither logs an event. *)
Lemma events_index s i : events (@index E A s i) = [].
Proof. unfold index. case_decide; [|done]. by destruct (s !! _). Qed.

Lemma events_remove_at s i : events (@remove_at E A s i) = [].
Proof. unfold remove_at. by case_decide. Qed.

Lemma insert_middle s1 s2 x y : <[length s1 := y]> (s1 ++ x :: s2) = s1 ++ y :: s2.
Proof. rewrite insert_app_r_alt by lia. by rewrite Nat.sub_diag. Qed.

Lemma length_delete_lt s n : (n < length s)%nat -> length (delete n s) = pred (length s).
Proof.
  intros Hn. rewrite length_delete; [lia|]. by apply lookup_lt_is_Some_2.
Qed.

(** Removing the same position of two slices keeps the shorter one shorter. *)
Lemma length_delete_mono {B} s (s' : list B) n :
  (length s <= length s')%nat -> (length (delete n s) <= length (delete n s'))%nat.
Proof.
  revert s' n. induction s as [|x s IH]; intros [|y s'] [|n]; simpl; try lia.
  intros H. specialize (IH s' n). lia.
Qed.

End slices.

#[export] Hint Rewrite @len_app : go_rw.
#[export] Hint Resolve len_nonneg : go.
