(* ===== verification/GoLib.v ===== *)
(** * GoLib: the functions of strings and strconv that main.go calls

    main.go reads lines and numbers with strings.TrimSpace,
    strings.Contains, strings.Split, strings.ToLower and strconv.Atoi.
    Their code is Go's standard library, not this repository: the
    definitions below follow the library's documentation and source
    (strconv.ParseInt for Atoi) and are marked spec_modelled in the map.

    A Go string is a sequence of bytes, here a [string] of Rocq.  White
    space is the ASCII white space of the library's fast path (tab, line
    feed, vertical tab, form feed, carriage return, space); input with
    other Unicode white space or upper-case letters outside ASCII is
    outside the model. *)

From Stdlib Require Import ZArith Lia Ascii String.
From stdpp Require Import base tactics option list numbers strings pretty.
From S2P Require Import Prelude.

#[local] Open Scope Z_scope.

(** ** Predicates on the characters of a string *)

Fixpoint all_chars (p : ascii -> bool) (s : string) : bool :=
  match s with
  | EmptyString => true
  | String c s' => p c && all_chars p s'
  end.

Definition is_digit (c : ascii) : bool := bool_decide (is_Some (Ascii.is_nat c)).

(** ** strings.TrimSpace *)

Fixpoint trim_left (s : string) : string :=
  match s with
  | EmptyString => EmptyString
  | String c s' => if Ascii.is_space c then trim_left s' else s
  end.

Fixpoint trim_right (s : string) : string :=
  match s with
  | EmptyString => EmptyString
  | String c s' =>
      match trim_right s' with
      | EmptyString => if Ascii.is_space c then EmptyString else String c EmptyString
      | r => String c r
      end
  end.

Definition TrimSpace (s : string) : string := trim_right (trim_left s).

(** ** strings.Contains and strings.Split, for a separator of one byte *)

Fixpoint Contains (s : string) (sep : ascii) : bool :=
  match s with
  | EmptyString => false
  | String c s' => bool_decide (c = sep) || Contains s' sep
  end.

(** [Split s sep]: the pieces of [s] between the occurrences of [sep]; one
    piece more than there are separators, so never empty. *)
Fixpoint Split (s : string) (sep : ascii) : list string :=
  match s with
  | EmptyString => [EmptyString]
  | String c s' =>
      if decide (c = sep) then EmptyString :: Split s' sep
      else match Split s' sep with
           | p :: ps => String c p :: ps
           | [] => [String c EmptyString]
           end
  end.

(** The inverse of [Split]: strings.Join. *)
Fixpoint Join (ps : list string) (sep : ascii) : string :=
  match ps with
  | [] => EmptyString
  | [p] => p
  | p :: ps' => p +:+ String sep (Join ps' sep)
  end.

(** ** strings.ToLower, on ASCII *)

Definition lower_char (c : ascii) : ascii :=
  let n := nat_of_ascii c in
  if decide (65 <= n <= 90)%nat then ascii_of_nat (n + 32) else c.

Fixpoint ToLower (s : string) : string :=
  match s with
  | EmptyString => EmptyString
  | String c s' => String (lower_char c) (ToLower s')
  end.

(** ** strconv.Atoi *)

(** The two errors of strconv: the text is not a number, or the number
    does not fit. *)
Inductive NumError : Type :=
  | ErrSyntax
  | ErrRange.

#[export] Instance NumError_eq_dec : EqDecision NumError.
Proof. solve_decision. Defined.

Definition uint64_max : Z := 2 ^ 64 - 1.

(** strconv.ParseUint in base 10 from the accumulator [n]: a byte that is
    no digit is a syntax error where it stands; the value going past 64
    bits is a range error where it happens. *)
Fixpoint parse_uint (s : string) (n : Z) : NumError + Z :=
  match s with
  | EmptyString => inr n
  | String c s' =>
      match Ascii.is_nat c with
      | None => inl ErrSyntax
      | Some d =>
          if decide (uint64_max / 10 + 1 <= n) then inl ErrRange
          else if decide (uint64_max < n * 10 + Z.of_nat d) then inl ErrRange
          else parse_uint s' (n * 10 + Z.of_nat d)
      end
  end.

(** strconv.ParseInt(s, 10, 64), which Atoi is: an optional sign, at least
    one digit, the value within int64. *)
Definition Atoi (s : string) : NumError + Z :=
  match s with
  | EmptyString => inl ErrSyntax
  | String c s' =>
      let neg := bool_decide (c = "-"%char) in
      let digits := if bool_decide (c = "-"%char \/ c = "+"%char) then s' else s in
      match digits with
      | EmptyString => inl ErrSyntax
      | _ =>
          match parse_uint digits 0 with
          | inl ErrSyntax => inl ErrSyntax
          | inl ErrRange => inl ErrRange
          | inr un =>
              if decide (neg = false /\ 2 ^ 63 <= un) then inl ErrRange
              else if decide (neg = true /\ 2 ^ 63 < un) then inl ErrRange
              else inr (if neg then - un else un)
          end
      end
  end.

(** ** Lemmas: TrimSpace *)

Section trim.
Implicit Types (s : string) (c : ascii).

Definition no_space (c : ascii) : bool := negb (Ascii.is_space c).

Lemma trim_left_no_space c s : Ascii.is_space c = false -> trim_left (String c s) = String c s.
Proof. intros H. simpl. by rewrite H. Qed.

Lemma trim_left_idem s : trim_left (trim_left s) = trim_left s.
Proof.
  induction s as [|c s IH]; [done|]. simpl.
  destruct (Ascii.is_space c) eqn:Hc; [done|]. by apply trim_left_no_space.
Qed.

Lemma trim_right_idem s : trim_right (trim_right s) = trim_right s.
Proof.
  induction s as [|c s IH]; [done|]. simpl.
  destruct (trim_right s) as [|c' r] eqn:Hr.
  - destruct (Ascii.is_space c) eqn:Hc; [done|]. simpl. by rewrite Hc.
  - change (trim_right (String c (String c' r))) with
      (match trim_right (String c' r) with
       | EmptyString => if Ascii.is_space c then EmptyString else String c EmptyString
       | r' => String c r'
       end).
    by rewrite IH.
Qed.

(** Trimming on the right keeps the first character of a string that
    starts with no white space. *)
Lemma trim_right_head c s :
  Ascii.is_space c = false -> exists r, trim_right (String c s) = String c r.
Proof. intros Hc. simpl. destruct (trim_right s); rewrite ?Hc; eauto. Qed.

Lemma trim_left_trim_right s : trim_left (trim_right (trim_left s)) = trim_right (trim_left s).
Proof.
  induction s as [|c s IH]; [done|]. simpl.
  destruct (Ascii.is_space c) eqn:Hc; [done|].
  destruct (trim_right_head c s Hc) as [r ->]. by apply trim_left_no_space.
Qed.

Lemma TrimSpace_idem s : TrimSpace (TrimSpace s) = TrimSpace s.
Proof. unfold TrimSpace. by rewrite trim_left_trim_right, trim_right_idem. Qed.

Lemma trim_right_all_no_space s : all_chars no_space s = true -> trim_right s = s.
Proof.
  induction s as [|c s IH]; [done|]. simpl. intros [Hc Hs]%andb_true_iff.
  rewrite IH by done. unfold no_space in Hc. apply negb_true_iff in Hc.
  destruct s; by rewrite ?Hc.
Qed.

Lemma trim_left_all_no_space s : all_chars no_space s = true -> trim_left s = s.
Proof.
  destruct s as [|c s]; [done|]. simpl. intros [Hc _]%andb_true_iff.
  unfold no_space in Hc. apply negb_true_iff in Hc. by rewrite Hc.
Qed.

(** A string without white space is its own trimming. *)
Lemma TrimSpace_no_space s : all_chars no_space s = true -> TrimSpace s = s.
Proof.
  intros H. unfold TrimSpace. by rewrite trim_left_all_no_space, trim_right_all_no_space.
Qed.

(** Trimming on the right stops at a last part without white space. *)
Lemma trim_right_app s1 s2 :
  s2 <> EmptyString -> all_chars no_space s2 = true -> trim_right (s1 +:+ s2) = s1 +:+ s2.
Proof.
  intros Hne Hs2. induction s1 as [|c s1 IH]; [by apply trim_right_all_no_space|].
  change (String c s1 +:+ s2) with (String c (s1 +:+ s2)). simpl. rewrite IH.
  destruct (s1 +:+ s2) eqn:Happ; [|done]. by destruct s1, s2.
Qed.

(** A text that starts with no white space and ends in a part without
    white space is its own trimming. *)
Lemma TrimSpace_app c s1 s2 :
  Ascii.is_space c = false -> s2 <> EmptyString -> all_chars no_space s2 = true ->
  TrimSpace (String c s1 +:+ s2) = String c s1 +:+ s2.
Proof.
  intros Hc Hne Hs2. unfold TrimSpace.
  change (String c s1 +:+ s2) with (String c (s1 +:+ s2)).
  rewrite trim_left_no_space by done.
  change (String c (s1 +:+ s2)) with (String c s1 +:+ s2). by apply trim_right_app.
Qed.

Lemma all_chars_impl (p q : ascii -> bool) s :
  (forall c, p c = true -> q c = true) -> all_chars p s = true -> all_chars q s = true.
Proof.
  intros Hpq. induction s as [|c s IH]; [done|]. simpl.
  intros [Hc Hs]%andb_true_iff. by rewrite (Hpq c Hc), IH.
Qed.

Lemma all_chars_app p s1 s2 :
  all_chars p (s1 +:+ s2) = all_chars p s1 && all_chars p s2.
Proof. induction s1 as [|c s1 IH]; [done|]. simpl. by rewrite IH, andb_assoc. Qed.

End trim.

(** ** Lemmas: Contains, Split and Join *)

Section split.
Implicit Types (s : string) (sep c : ascii).

Lemma Split_nonempty s sep : Split s sep <> [].
Proof. induction s as [|c s IH]; [done|]. simpl. case_decide; [done|]. by destruct (Split s sep). Qed.

Lemma Split_cons_ne c s sep :
  c <> sep -> exists p ps, Split s sep = p :: ps /\ Split (String c s) sep = String c p :: ps.
Proof.
  intros Hc. simpl. rewrite decide_False by done.
  destruct (Split s sep) as [|p ps] eqn:Hs; [by destruct (Split_nonempty s sep)|eauto].
Qed.

(** Without a separator there is one piece, the string. *)
Lemma Split_no_sep s sep : Contains s sep = false -> Split s sep = [s].
Proof.
  induction s as [|c s IH]; [done|]. simpl. intros [Hc Hs]%orb_false_iff.
  apply bool_decide_eq_false in Hc. rewrite decide_False by done. by rewrite IH.
Qed.

(** One piece more than separators: a string that contains the separator
    splits into at least two pieces. *)
Lemma Split_Contains s sep : Contains s sep = true -> (2 <= length (Split s sep))%nat.
Proof.
  induction s as [|c s IH]; [done|]. simpl. case_decide as Hc.
  - intros _. pose proof (Split_nonempty s sep). destruct (Split s sep); simpl; [done|lia].
  - rewrite bool_decide_eq_false_2 by done. simpl. intros Hs. specialize (IH Hs).
    destruct (Split s sep); simpl in *; lia.
Qed.

(** The piece before the first separator. *)
Lemma Split_app s1 s2 sep :
  Contains s1 sep = false -> Split (s1 +:+ String sep s2) sep = s1 :: Split s2 sep.
Proof.
  induction s1 as [|c s1 IH]; simpl.
  - intros _. by rewrite decide_True.
  - intros [Hc Hs]%orb_false_iff. apply bool_decide_eq_false in Hc.
    rewrite decide_False by done. change (String.append s1 (String sep s2)) with (s1 +:+ String sep s2).
    by rewrite IH.
Qed.

(** Splitting loses nothing: joining the pieces gives the string back. *)
Lemma Join_Split s sep : Join (Split s sep) sep = s.
Proof.
  induction s as [|c s IH]; [done|]. simpl. case_decide as Hc.
  - subst c. pose proof (Split_nonempty s sep). destruct (Split s sep) eqn:Hs; [done|].
    simpl in *. by rewrite IH.
  - destruct (Split s sep) as [|p [|q ps]] eqn:Hs; [by destruct (Split_nonempty s sep)|..];
      simpl in *; by rewrite <- IH.
Qed.

(** No piece contains the separator. *)
Lemma Split_pieces s sep : Forall (fun p => Contains p sep = false) (Split s sep).
Proof.
  induction s as [|c s IH]; [by repeat constructor|]. simpl. case_decide as Hc.
  - by constructor.
  - destruct (Split s sep) as [|p ps]; [repeat constructor; simpl|].
    + by rewrite bool_decide_eq_false_2.
    + apply Forall_cons in IH as [Hp Hps]. constructor; [|done]. simpl.
      by rewrite bool_decide_eq_false_2.
Qed.

Lemma Contains_all_chars s sep (p : ascii -> bool) :
  p sep = false -> all_chars p s = true -> Contains s sep = false.
Proof.
  intros Hsep. induction s as [|c s IH]; [done|]. simpl. intros [Hc Hs]%andb_true_iff.
  rewrite IH by done. rewrite bool_decide_eq_false_2; [done|]. intros ->. congruence.
Qed.

End split.

(** ** Lemmas: Atoi *)

Section atoi.
Implicit Types (s : string) (c : ascii) (n un : Z) (x : N).

Lemma is_nat_pretty_char x :
  (x < 10)%N -> Ascii.is_nat (pretty_N_char x) = Some (N.to_nat x).
Proof.
  intros Hx. assert (N.to_nat x < 10)%nat as Hn by lia.
  rewrite <- (N2Nat.id x) at 1. revert Hn. generalize (N.to_nat x). intros n Hn.
  do 10 (destruct n as [|n]; [done|]). lia.
Qed.

Lemma is_digit_pretty_char x : (x < 10)%N -> is_digit (pretty_N_char x) = true.
Proof.
  intros Hx. unfold is_digit. apply bool_decide_eq_true. by rewrite is_nat_pretty_char.
Qed.

Lemma is_digit_not_sign c : is_digit c = true -> c <> "-"%char /\ c <> "+"%char.
Proof. intros Hc. split; intros ->; done. Qed.

Lemma is_digit_no_space c : is_digit c = true -> no_space c = true.
Proof.
  unfold is_digit, no_space. intros [d Hd]%bool_decide_eq_true.
  destruct c as [[] [] [] [] [] [] [] []]; done.
Qed.

Lemma is_digit_not_colon c : is_digit c = true -> c <> ":"%char.
Proof. by intros Hc ->. Qed.

(** One more digit, when it fits. *)
Lemma parse_uint_digit c s n d :
  Ascii.is_nat c = Some d -> 0 <= n -> n * 10 + Z.of_nat d <= uint64_max ->
  parse_uint (String c s) n = parse_uint s (n * 10 + Z.of_nat d).
Proof.
  intros Hc Hn Hfit. simpl. rewrite Hc.
  change (uint64_max / 10 + 1) with 1844674407370955162.
  change uint64_max with 18446744073709551615 in *.
  rewrite decide_False by lia. by rewrite decide_False by lia.
Qed.

(** Linear arithmetic with the quotient and remainder of [x] by 10 as
    unknowns. *)
Ltac qr_lia x :=
  generalize dependent (x `div` 10)%N; generalize dependent (x `mod` 10)%N; lia.

(** The decimal digits of [x], as [pretty] writes them, parse to [x]. *)
Lemma parse_uint_pretty_go x s :
  Z.of_N x <= uint64_max -> parse_uint (pretty_N_go x s) 0 = parse_uint s (Z.of_N x).
Proof.
  change uint64_max with 18446744073709551615.
  revert s. induction (N.lt_wf_0 x) as [x _ IH]; intros s Hx.
  destruct (decide (x = 0)%N) as [->|Hne]; [done|].
  rewrite pretty_N_go_step by lia.
  pose proof (N.div_mod x 10 ltac:(done)) as Hdm.
  pose proof (N.mod_lt x 10 ltac:(done)) as Hlt.
  rewrite IH; [|apply N.div_lt; lia|qr_lia x].
  rewrite (parse_uint_digit _ _ _ (N.to_nat (x `mod` 10)));
    [|by apply is_nat_pretty_char|lia|change uint64_max with 18446744073709551615].
  - f_equal. qr_lia x.
  - qr_lia x.
Qed.

(** The digits of a positive number start with a digit. *)
Lemma pretty_N_go_head x s :
  (0 < x)%N -> exists c r, pretty_N_go x s = String c r /\ is_digit c = true.
Proof.
  revert s. induction (N.lt_wf_0 x) as [x _ IH]; intros s Hx.
  rewrite pretty_N_go_step by done.
  destruct (decide (x `div` 10 = 0)%N) as [->|Hne].
  - rewrite pretty_N_go_0. eexists _, _. split; [done|].
    by apply is_digit_pretty_char, N.mod_lt.
  - apply IH; [apply N.div_lt; lia|qr_lia x].
Qed.

Lemma pretty_N_go_digits x s :
  all_chars is_digit s = true -> all_chars is_digit (pretty_N_go x s) = true.
Proof.
  revert s. induction (N.lt_wf_0 x) as [x _ IH]; intros s Hs.
  destruct (decide (x = 0)%N) as [->|Hne]; [done|].
  rewrite pretty_N_go_step by lia. apply IH; [apply N.div_lt; lia|]. simpl.
  by rewrite Hs, is_digit_pretty_char by (by apply N.mod_lt).
Qed.

(** Atoi on a text that starts with a digit. *)
Lemma Atoi_unsigned c r :
  is_digit c = true ->
  Atoi (String c r) =
    match parse_uint (String c r) 0 with
    | inl e => inl e
    | inr un => if decide (2 ^ 63 <= un) then inl ErrRange else inr un
    end.
Proof.
  intros [Hm Hp]%is_digit_not_sign. unfold Atoi.
  rewrite (bool_decide_eq_false_2 (c = "-"%char)) by done.
  rewrite bool_decide_eq_false_2 by (by intros [|]).
  destruct (parse_uint (String c r) 0) as [[]|un]; [done..|].
  repeat case_decide; destruct_and?; try done; exfalso; auto.
Qed.

(** Atoi on a minus sign followed by a digit. *)
Lemma Atoi_negative c r :
  is_digit c = true ->
  Atoi (String "-" (String c r)) =
    match parse_uint (String c r) 0 with
    | inl e => inl e
    | inr un => if decide (2 ^ 63 < un) then inl ErrRange else inr (- un)
    end.
Proof.
  intros _. unfold Atoi. rewrite !bool_decide_eq_true_2 by (done || by left).
  destruct (parse_uint (String c r) 0) as [[]|un]; [done..|].
  repeat case_decide; destruct_and?; try done; exfalso; auto.
Qed.

(** Atoi reads back every int that [pretty] (fmt's %d, strconv.Itoa)
    writes. *)
Lemma Atoi_pretty n : in_int64 n -> Atoi (pretty n) = inr n.
Proof.
  unfold in_int64, int64_min, int64_max. intros Hn. destruct n as [|p|p].
  - done.
  - change (pretty (Z.pos p)) with (pretty_N_go (N.pos p) "").
    destruct (pretty_N_go_head (N.pos p) "") as (c & r & Hs & Hc); [done|].
    rewrite Hs, Atoi_unsigned, <- Hs, parse_uint_pretty_go by (done || unfold uint64_max; lia).
    simpl. by rewrite decide_False by lia.
  - change (pretty (Z.neg p)) with ("-" +:+ pretty_N_go (N.pos p) "").
    destruct (pretty_N_go_head (N.pos p) "") as (c & r & Hs & Hc); [done|].
    rewrite Hs. change ("-" +:+ String c r) with (String "-" (String c r)).
    rewrite Atoi_negative, <- Hs, parse_uint_pretty_go by (done || unfold uint64_max; lia).
    simpl. by rewrite decide_False by lia.
Qed.

(** The value ParseUint returns fits 64 bits and is at least the
    accumulator it started from. *)
Lemma parse_uint_range s n un :
  0 <= n <= uint64_max -> parse_uint s n = inr un -> n <= un <= uint64_max.
Proof.
  revert n. induction s as [|c s IH]; intros n Hn; simpl.
  - intros [= <-]. lia.
  - destruct (Ascii.is_nat c) as [d|]; [|done]. repeat case_decide; try done.
    intros Hs. apply IH in Hs; change uint64_max with 18446744073709551615 in *; lia.
Qed.

(** What Atoi returns is an int. *)
Lemma Atoi_in_int64 s n : Atoi s = inr n -> in_int64 n.
Proof.
  unfold Atoi, in_int64, int64_min, int64_max. destruct s as [|c s]; [done|].
  destruct (if bool_decide (c = "-"%char \/ c = "+"%char) then s else String c s)
    as [|c' s']; [done|].
  destruct (parse_uint (String c' s') 0) as [[]|un] eqn:Hun; [done..|].
  apply parse_uint_range in Hun; [|unfold uint64_max; lia].
  destruct (bool_decide (c = "-"%char)); repeat case_decide; try done; intros [= <-]; lia.
Qed.

End atoi.

(** ** fmt.Sscanf with a format of one letter, a space and the verb %d

    main.go reads the number of a command with
    [fmt.Sscanf(command, "p %d", &num)].  The letter of the format must be
    the first byte of the input; the space of the format matches one or
    more spaces of the input, or its end; the verb skips spaces, accepts a
    sign, reads the longest run of digits and underscores and hands it to
    strconv.ParseInt in base 10.  Text after the number is left unread. *)

(** The token scanNumber reads: the longest prefix of digits and
    underscores. *)
Fixpoint number_token (s : string) : string :=
  match s with
  | EmptyString => EmptyString
  | String c s' =>
      if is_digit c || bool_decide (c = "_"%char) then String c (number_token s')
      else EmptyString
  end.

(** The verb %d on the rest of the input; [None] when the scan fails. *)
Definition scan_int (s : string) : option Z :=
  let s := trim_left s in
  let '(sign, s) :=
    match s with
    | String c s' =>
        if bool_decide (c = "-"%char \/ c = "+"%char) then (String c EmptyString, s')
        else (EmptyString, s)
    | EmptyString => (EmptyString, EmptyString)
    end in
  match number_token s with
  | EmptyString => None
  | tok =>
      match Atoi (sign +:+ tok) with
      | inr n => Some n
      | inl _ => None
      end
  end.

Definition Sscanf_d (input : string) (letter : ascii) : option Z :=
  match input with
  | EmptyString => None
  | String c rest =>
      if decide (c = letter) then
        match rest with
        | EmptyString => None
        | String c' _ => if Ascii.is_space c' then scan_int rest else None
        end
      else None
  end.

Section scan.
Implicit Types (s : string) (c : ascii) (n : Z).

Lemma number_token_digits s : all_chars is_digit s = true -> number_token s = s.
Proof.
  induction s as [|c s IH]; [done|]. simpl. intros [Hc Hs]%andb_true_iff.
  by rewrite Hc, IH.
Qed.

Lemma scan_int_unsigned c r :
  is_digit c = true -> all_chars is_digit r = true ->
  scan_int (String c r) = match Atoi (String c r) with inr n => Some n | inl _ => None end.
Proof.
  intros Hc Hr. unfold scan_int.
  rewrite trim_left_no_space by (apply is_digit_no_space in Hc; by apply negb_true_iff).
  destruct (is_digit_not_sign c Hc) as [Hm Hp].
  rewrite bool_decide_eq_false_2 by (by intros [|]).
  rewrite number_token_digits by (simpl; by rewrite Hc, Hr). done.
Qed.

Lemma scan_int_negative c r :
  is_digit c = true -> all_chars is_digit r = true ->
  scan_int (String "-" (String c r)) =
    match Atoi (String "-" (String c r)) with inr n => Some n | inl _ => None end.
Proof.
  intros Hc Hr. unfold scan_int. rewrite trim_left_no_space by done.
  rewrite bool_decide_eq_true_2 by (by left).
  rewrite number_token_digits by (simpl; by rewrite Hc, Hr). done.
Qed.

(** The verb reads back what [pretty] writes. *)
Lemma scan_int_pretty n : in_int64 n -> scan_int (pretty n) = Some n.
Proof.
  intros Hn. pose proof (Atoi_pretty n Hn) as Ha. destruct n as [|p|p]; [done|..].
  - change (pretty (Z.pos p)) with (pretty_N_go (N.pos p) "") in *.
    pose proof (pretty_N_go_digits (N.pos p) "" eq_refl) as Hd.
    destruct (pretty_N_go (N.pos p) "") as [|c r]; [done|].
    simpl in Hd. apply andb_true_iff in Hd as [Hc Hr].
    by rewrite scan_int_unsigned, Ha.
  - change (pretty (Z.neg p)) with ("-" +:+ pretty_N_go (N.pos p) "") in *.
    pose proof (pretty_N_go_digits (N.pos p) "" eq_refl) as Hd.
    destruct (pretty_N_go_head (N.pos p) "") as (c & r & Hs & Hc); [done|].
    rewrite Hs in *. simpl in Hd. apply andb_true_iff in Hd as [_ Hr].
    change ("-" +:+ String c r) with (String "-" (String c r)) in *.
    by rewrite scan_int_negative, Ha.
Qed.

Lemma scan_int_space c s : Ascii.is_space c = true -> scan_int (String c s) = scan_int s.
Proof. intros Hc. unfold scan_int. simpl. by rewrite Hc. Qed.

(** A command written as its letter, a space and a number scans to the
    number. *)
Lemma Sscanf_d_pretty c n :
  in_int64 n -> Sscanf_d (String c (" " +:+ pretty n)) c = Some n.
Proof.
  intros Hn. unfold Sscanf_d. rewrite decide_True by done.
  change (" " +:+ pretty n) with (String " " (pretty n)). simpl.
  by rewrite scan_int_space, scan_int_pretty.
Qed.

End scan.
