(* ===== verification/Duration.v ===== *)
(** * Duration: Go's time.Duration

    A [Duration] is an int64 count of nanoseconds.  This file holds the
    constants main.go uses ([Second], [Minute]), the decrement of the
    countdown, and the two conversions of the status line,
    [int(d.Minutes())] and [int(d.Seconds())].

    Go computes [Minutes()] and [Seconds()] in float64 and [int(...)]
    truncates toward zero.  On a duration that is a whole number of seconds
    (every value the countdown takes on a well-formed timer) both floats are
    exact below 2^53 seconds, far above the int64 range of nanoseconds, and
    the truncation is the integer quotient [Z.quot]; the definitions below
    are that quotient. *)

From Stdlib Require Import ZArith Lia.
From stdpp Require Import base tactics numbers.
From S2P Require Import Prelude.

#[local] Open Scope Z_scope.

Definition Duration : Type := Z.

Definition Nanosecond : Duration := 1.
Definition Second : Duration := 1000000000.
Definition Minute : Duration := 60 * Second.

(** A duration that is a whole, non-negative number of seconds. *)
Definition whole_seconds (d : Duration) : Prop := 0 <= d /\ d mod Second = 0.

#[export] Instance whole_seconds_dec d : Decision (whole_seconds d).
Proof. unfold whole_seconds. apply _. Defined.

(** [d -= time.Second] on an int64. *)
Definition sub_second (d : Duration) : Duration := wrap64 (d - Second).

(** [int(d.Minutes())]. *)
Definition int_Minutes (d : Duration) : Z := Z.quot d Minute.

(** [int(d.Seconds())]. *)
Definition int_Seconds (d : Duration) : Z := Z.quot d Second.

(** [time.Duration(n) * time.Second] for an int [n]. *)
Definition of_seconds (n : Z) : Duration := wrap64 (n * Second).

(** [time.Duration(n) * time.Minute] for an int [n]. *)
Definition of_minutes (n : Z) : Duration := wrap64 (n * Minute).

(** The largest number of seconds whose nanoseconds fit an int64. *)
Definition max_seconds : Z := 9223372036.
(** The largest number of minutes whose nanoseconds fit an int64. *)
Definition max_minutes : Z := 153722867.

Section duration_lemmas.
Implicit Types (d : Duration) (n : Z).

Lemma Second_pos : 0 < Second.
Proof. done. Qed.

Lemma whole_seconds_0 : whole_seconds 0.
Proof. done. Qed.

Lemma whole_seconds_mul n : 0 <= n -> whole_seconds (n * Second).
Proof. intros Hn. split; [unfold Second; lia|]. apply Z.mod_mul. done. Qed.

Lemma whole_seconds_inv d : whole_seconds d -> exists n, 0 <= n /\ d = n * Second.
Proof.
  intros [Hd Hm]. exists (d / Second). split; [by apply Z.div_pos|].
  rewrite (Z.div_mod d Second) at 1 by done. lia.
Qed.

Lemma whole_seconds_pos_ge d : whole_seconds d -> 0 < d -> Second <= d.
Proof.
  intros (n & Hn & ->)%whole_seconds_inv Hd. unfold Second in *. lia.
Qed.

(** The decrement never wraps when the countdown is positive. *)
Lemma sub_second_exact d : in_int64 d -> 0 < d -> sub_second d = d - Second.
Proof.
  intros Hd Hpos. unfold sub_second. apply wrap64_id.
  unfold Second. int64_lia.
Qed.

Lemma sub_second_whole d :
  in_int64 d -> whole_seconds d -> 0 < d -> whole_seconds (sub_second d).
Proof.
  intros Hd Hw Hpos. rewrite sub_second_exact by done.
  pose proof (whole_seconds_pos_ge d Hw Hpos).
  destruct (whole_seconds_inv d Hw) as (n & Hn & ->).
  replace (n * Second - Second) with ((n - 1) * Second) by lia.
  apply whole_seconds_mul. unfold Second in *. lia.
Qed.

Lemma sub_second_lt d : in_int64 d -> 0 < d -> sub_second d < d.
Proof. intros Hd Hpos. rewrite sub_second_exact by done. unfold Second. lia. Qed.

Lemma of_seconds_exact n :
  - max_seconds <= n <= max_seconds -> of_seconds n = n * Second.
Proof.
  intros Hn. apply wrap64_id. unfold max_seconds, Second in *. int64_lia.
Qed.

Lemma of_minutes_exact n :
  - max_minutes <= n <= max_minutes -> of_minutes n = n * Minute.
Proof.
  intros Hn. apply wrap64_id. unfold max_minutes, Minute, Second in *. int64_lia.
Qed.

Lemma int_Seconds_whole n : int_Seconds (n * Second) = n.
Proof. unfold int_Seconds. by rewrite Z.quot_mul. Qed.

Lemma int_Minutes_whole n : 0 <= n -> int_Minutes (n * Second) = n / 60.
Proof.
  intros Hn. unfold int_Minutes, Minute.
  rewrite Z.quot_div_nonneg by (unfold Second; lia).
  rewrite Z.div_mul_cancel_r; [done| |]; by unfold Second.
Qed.

End duration_lemmas.

#[export] Hint Resolve whole_seconds_0 whole_seconds_mul sub_second_whole : go.
