(* ===== verification/Parse.v ===== *)
(** * Parse: the duration parser

    [parseDuration] of main.go reads what the user types for a work or
    break time: MM:SS, or minutes alone.  The fields are read by
    strconv.Atoi, so a sign is accepted, and the products with
    time.Minute and time.Second are int64 products: they wrap around.

    The theorems give the result on every branch (the three errors
    included), the values of the specification's examples, the round trip
    with the decimal notation that fmt writes, and the bound up to which
    the result is the exact number of seconds. *)

From Stdlib Require Import ZArith Lia Ascii String.
From stdpp Require Import base tactics option list numbers strings pretty.
From S2P Require Import Prelude GoLib Duration.

#[local] Open Scope Z_scope.

(** The errors of [parseDuration]: the two it makes with fmt.Errorf and
    the error of Atoi it passes on. *)
Inductive parse_error : Type :=
  | InvalidFormat
  | InvalidNumbers
  | NumErr (e : NumError).

#[export] Instance parse_error_eq_dec : EqDecision parse_error.
Proof. solve_decision. Defined.

(** [parseDuration]: the pair (duration, error) of the source is a sum;
    the duration beside an error is 0 and no caller reads it. *)
Definition parseDuration (input : string) : parse_error + Duration :=
  let input := TrimSpace input in
  if Contains input ":" then
    match Split input ":" with
    | [p0; p1] =>
        match Atoi p0, Atoi p1 with
        | inr minutes, inr seconds => inr (wrap64 (of_minutes minutes + of_seconds seconds))
        | _, _ => inl InvalidNumbers
        end
    | _ => inl InvalidFormat
    end
  else
    match Atoi input with
    | inr minutes => inr (of_minutes minutes)
    | inl e => inl (NumErr e)
    end.

(** ** The characters [pretty] writes *)

Definition is_num_char (c : ascii) : bool := is_digit c || bool_decide (c = "-"%char).

Lemma pretty_Z_chars (n : Z) : all_chars is_num_char (pretty n) = true.
Proof.
  assert (forall x : N, all_chars is_num_char (pretty_N_go x "") = true) as Hgo.
  { intros x. eapply all_chars_impl, pretty_N_go_digits; [|done].
    intros c Hc. unfold is_num_char. by rewrite Hc. }
  destruct n as [|p|p]; [done|apply Hgo|]. apply (Hgo (N.pos p)).
Qed.

Lemma is_num_char_no_space c : is_num_char c = true -> no_space c = true.
Proof.
  unfold is_num_char. intros [Hc|Hc%bool_decide_eq_true]%orb_true_iff;
    [by apply is_digit_no_space|by subst c].
Qed.

Lemma pretty_Z_no_space (n : Z) : all_chars no_space (pretty n) = true.
Proof. eapply all_chars_impl, pretty_Z_chars. apply is_num_char_no_space. Qed.

Lemma pretty_Z_no_colon (n : Z) : Contains (pretty n) ":" = false.
Proof. by eapply Contains_all_chars, pretty_Z_chars. Qed.

Lemma pretty_Z_nonempty (n : Z) : pretty n <> EmptyString.
Proof.
  destruct n as [|p|p]; [done|..].
  - change (pretty (Z.pos p)) with (pretty_N_go (N.pos p) "").
    by destruct (pretty_N_go_head (N.pos p) "") as (c & r & -> & _).
  - done.
Qed.

(** ** The parser on the notation of numbers *)

Section parse_lemmas.
Implicit Types (m s : Z).

Lemma parseDuration_minutes m :
  in_int64 m -> parseDuration (pretty m) = inr (of_minutes m).
Proof.
  intros Hm. unfold parseDuration.
  by rewrite TrimSpace_no_space, pretty_Z_no_colon, Atoi_pretty by (done || apply pretty_Z_no_space).
Qed.

Lemma parseDuration_minutes_seconds m s :
  in_int64 m -> in_int64 s ->
  parseDuration (pretty m +:+ ":" +:+ pretty s) =
    inr (wrap64 (of_minutes m + of_seconds s)).
Proof.
  intros Hm Hs. unfold parseDuration.
  rewrite TrimSpace_no_space
    by (by rewrite !all_chars_app, !pretty_Z_no_space).
  change (pretty m +:+ ":" +:+ pretty s) with (pretty m +:+ String ":" (pretty s)).
  rewrite Split_app, Split_no_sep by apply pretty_Z_no_colon.
  rewrite !Atoi_pretty by done.
  destruct (Contains _ _) eqn:Hc; [done|]. exfalso.
  pose proof (Split_no_sep _ _ Hc) as Hsplit.
  rewrite Split_app, Split_no_sep in Hsplit by apply pretty_Z_no_colon. done.
Qed.

End parse_lemmas.

(** ** The result of the parser, branch by branch *)

(** What [parseDuration] returns on the trimmed input [t]: the five ways
    through the function. *)
Variant parse_view (t : string) : parse_error + Duration -> Prop :=
  | parse_minutes m :
      Contains t ":" = false -> Atoi t = inr m ->
      parse_view t (inr (of_minutes m))
  | parse_bad_number e :
      Contains t ":" = false -> Atoi t = inl e ->
      parse_view t (inl (NumErr e))
  | parse_mm_ss p0 p1 m s :
      t = p0 +:+ String ":" p1 -> Contains p0 ":" = false -> Contains p1 ":" = false ->
      Atoi p0 = inr m -> Atoi p1 = inr s ->
      parse_view t (inr (wrap64 (of_minutes m + of_seconds s)))
  | parse_bad_fields p0 p1 :
      t = p0 +:+ String ":" p1 -> Contains p0 ":" = false -> Contains p1 ":" = false ->
      (exists e, Atoi p0 = inl e \/ Atoi p1 = inl e) ->
      parse_view t (inl InvalidNumbers)
  | parse_too_many :
      (3 <= length (Split t ":"))%nat ->
      parse_view t (inl InvalidFormat).

(** Two pieces are the text before and after the only separator. *)
Lemma Split_two t sep p0 p1 :
  Split t sep = [p0; p1] ->
  t = p0 +:+ String sep p1 /\ Contains p0 sep = false /\ Contains p1 sep = false.
Proof.
  intros Hs. pose proof (Join_Split t sep) as Hj. pose proof (Split_pieces t sep) as Hp.
  rewrite Hs in Hj, Hp. apply Forall_cons in Hp as [H0 [H1 _]%Forall_cons]. done.
Qed.

Lemma parseDuration_view input : parse_view (TrimSpace input) (parseDuration input).
Proof.
  unfold parseDuration. set (t := TrimSpace input). destruct (Contains t ":") eqn:Hc.
  - pose proof (Split_Contains t _ Hc) as Hlen.
    destruct (Split t ":") as [|p0 [|p1 [|p2 ps]]] eqn:Hs; simpl in Hlen; try lia.
    + destruct (Split_two _ _ _ _ Hs) as (Ht & H0 & H1).
      destruct (Atoi p0) as [e0|m] eqn:Hm; [by eapply parse_bad_fields; eauto|].
      destruct (Atoi p1) as [e1|s] eqn:Hsec; [by eapply parse_bad_fields; eauto|].
      by eapply parse_mm_ss.
    + apply parse_too_many. rewrite Hs. simpl. lia.
  - destruct (Atoi t) as [e|m] eqn:Hm; [by apply parse_bad_number|by apply parse_minutes].
Qed.

(** ** Theorems *)

(** C21: parseDuration on every input takes one of five ways, decided by
    the trimmed text: without a colon it is Atoi's number of minutes or
    Atoi's error; with one colon it is minutes and seconds, or 'invalid
    numbers' when a field is no integer; with two colons or more it is
    'invalid format'.  The products and the sum are int64 arithmetic. *)
Theorem parseDuration_branches input :
  parse_view (TrimSpace input) (parseDuration input) /\
  parseDuration (TrimSpace input) = parseDuration input.
Proof.
  split; [apply parseDuration_view|]. unfold parseDuration. by rewrite TrimSpace_idem.
Qed.

(** The examples of the specification: 5 is five minutes, 1:30 is
    ninety seconds, bad and 1:2:3 are errors; white space around the text
    is ignored, white space inside a field is an error, an empty line is
    an error. *)
Example parseDuration_examples :
  parseDuration "5" = inr (5 * Minute) /\
  parseDuration "1:30" = inr (90 * Second) /\
  parseDuration "bad" = inl (NumErr ErrSyntax) /\
  parseDuration "1:2:3" = inl InvalidFormat /\
  parseDuration "  25 " = inr (25 * Minute) /\
  parseDuration "1: 30" = inl InvalidNumbers /\
  parseDuration "" = inl (NumErr ErrSyntax) /\
  parseDuration "99999999999999999999" = inl (NumErr ErrRange).
Proof. by vm_compute. Qed.

(** C22: round trip with the decimal notation: for m minutes and s seconds
    in the range a clock shows (0 <= s < 60, m below 153722867, the
    largest number of minutes an int64 of nanoseconds holds), the text
    m:s parses to exactly m*60+s seconds, the text m to exactly m minutes,
    and the status line's conversions read m and s back. *)
Theorem parseDuration_round_trip m s :
  0 <= m < max_minutes -> 0 <= s < 60 ->
  parseDuration (pretty m +:+ ":" +:+ pretty s) = inr ((m * 60 + s) * Second) /\
  parseDuration (pretty m) = inr (m * Minute) /\
  int_Minutes ((m * 60 + s) * Second) = m /\
  Z.rem (int_Seconds ((m * 60 + s) * Second)) 60 = s.
Proof.
  unfold max_minutes. intros Hm Hs.
  assert (in_int64 m /\ in_int64 s) as [Hm64 Hs64] by (split; int64_lia).
  rewrite parseDuration_minutes_seconds, parseDuration_minutes by done.
  rewrite of_minutes_exact, of_seconds_exact by (unfold max_minutes, max_seconds; lia).
  rewrite wrap64_id by (unfold Minute, Second; int64_lia).
  rewrite int_Minutes_whole, int_Seconds_whole by lia.
  split_and!; [f_equal; unfold Minute; lia|done|symmetry; apply Z.div_unique with s; lia|].
  rewrite Z.rem_mod_nonneg by lia. symmetry. apply Z.mod_unique with m; lia.
Qed.

Lemma parseDuration_round_trip_witness :
  parseDuration (pretty 25 +:+ ":" +:+ pretty 7) = inr ((25 * 60 + 7) * Second) /\
  parseDuration (pretty 25) = inr (25 * Minute) /\
  int_Minutes ((25 * 60 + 7) * Second) = 25 /\
  Z.rem (int_Seconds ((25 * 60 + 7) * Second)) 60 = 7.
Proof. apply (parseDuration_round_trip 25 7); by_decide. Defined.

(** C37: the parser accepts what the data model excludes.  Every int m
    typed as minutes is accepted and gives the int64 product of m and a
    minute, wrapped: a negative duration for m from -153722867 to -1, and
    for m from 153722868 to twice 153722867 the product wraps around, so
    a large positive input gives a negative duration as well.  Outside
    these two ranges the product wraps further and may have either
    sign. *)
Theorem parseDuration_out_of_domain m :
  in_int64 m ->
  parseDuration (pretty m) = inr (of_minutes m) /\
  (- max_minutes <= m < 0 -> of_minutes m = m * Minute /\ of_minutes m < 0) /\
  (max_minutes < m <= 2 * max_minutes ->
   of_minutes m = m * Minute - 2 ^ 64 /\ of_minutes m < 0).
Proof.
  intros Hm. split; [by apply parseDuration_minutes|]. unfold of_minutes, max_minutes, Minute, Second.
  split; intros Hr.
  - rewrite wrap64_id by int64_lia. lia.
  - rewrite wrap64_above by (unfold int64_max, int64_min; lia). lia.
Qed.

Lemma parseDuration_out_of_domain_witness :
  parseDuration (pretty (-5)) = inr (of_minutes (-5)) /\
  (- max_minutes <= -5 < 0 -> of_minutes (-5) = -5 * Minute /\ of_minutes (-5) < 0) /\
  (max_minutes < -5 <= 2 * max_minutes ->
   of_minutes (-5) = -5 * Minute - 2 ^ 64 /\ of_minutes (-5) < 0).
Proof. apply (parseDuration_out_of_domain (-5)). by_decide. Defined.

(** Negative seconds are accepted too, and the first minute count that
    wraps around. *)
Example parseDuration_negative_examples :
  parseDuration "-5" = inr (- (5 * Minute)) /\
  parseDuration "1:-30" = inr (30 * Second) /\
  parseDuration "153722867" = inr (153722867 * Minute) /\
  parseDuration "153722868" = inr (153722868 * Minute - 2 ^ 64) /\
  153722868 * Minute - 2 ^ 64 < 0.
Proof. by vm_compute. Qed.
