(* ===== verification/Timer.v ===== *)
(** * Timer: one work/break timer

    The records of main.go (TimerPhase, TimerState, Timer, TimerConfig),
    the constructor [timerFromConfig], the per-second transition
    [update] and the status line [Timer_String].

    [update] returns in [GoM Notification]: the notifications sent by
    [notify] are the events, and the index expression
    [t.phases[t.state.currentPhase]] can panic.  The receiver is a pointer
    in the source; here [update] returns the timer after the call together
    with the boolean the method returns.

    The theorems give the result of [update] on every branch, the
    invariant [wf_timer] and its preservation by one call, and the
    absence of panics and of integer wrap-around on well-formed timers.
    The refinement to the abstract machine is in Machine.v, runs of many
    ticks are in Run.v. *)

From Stdlib Require Import ZArith Lia.
From stdpp Require Import base tactics option list numbers strings pretty.
From S2P Require Import Prelude Duration.

#[local] Open Scope Z_scope.

(** ** Data *)

Record TimerPhase : Type := mkTimerPhase {
  WorkDuration : Duration;
  BreakDuration : Duration
}.

Record TimerState : Type := mkTimerState {
  isWork : bool;
  currentTime : Duration;
  cycles : Z;
  currentPhase : Z;
  name : string;
  notifText : string
}.

Record Timer : Type := mkTimer {
  state : TimerState;
  phases : list TimerPhase;
  maxCycles : Z;
  isPaused : bool
}.

Record TimerConfig : Type := mkTimerConfig {
  Name : string;
  NotifText : string;
  Phases : list TimerPhase;
  MaxCycles : Z
}.

#[export] Instance TimerPhase_eq_dec : EqDecision TimerPhase.
Proof. solve_decision. Defined.
#[export] Instance TimerState_eq_dec : EqDecision TimerState.
Proof. solve_decision. Defined.
#[export] Instance Timer_eq_dec : EqDecision Timer.
Proof. solve_decision. Defined.
#[export] Instance TimerConfig_eq_dec : EqDecision TimerConfig.
Proof. solve_decision. Defined.

(** A desktop notification, the event of [notify]. *)
Inductive Notification : Type :=
  | Notify (title message : string).

#[export] Instance Notification_eq_dec : EqDecision Notification.
Proof. solve_decision. Defined.

(** [notify(title, message)]: fire and forget. *)
Definition notify (title message : string) : GoM Notification unit :=
  emit (Notify title message).

#[global] Arguments notify : simpl never.

(** ** Field assignments *)

Definition set_isWork (b : bool) (s : TimerState) : TimerState :=
  mkTimerState b (currentTime s) (cycles s) (currentPhase s) (name s) (notifText s).
Definition set_currentTime (d : Duration) (s : TimerState) : TimerState :=
  mkTimerState (isWork s) d (cycles s) (currentPhase s) (name s) (notifText s).
Definition set_cycles (c : Z) (s : TimerState) : TimerState :=
  mkTimerState (isWork s) (currentTime s) c (currentPhase s) (name s) (notifText s).
Definition set_currentPhase (i : Z) (s : TimerState) : TimerState :=
  mkTimerState (isWork s) (currentTime s) (cycles s) i (name s) (notifText s).

(** An assignment to a field of [t.state]. *)
Definition with_state (f : TimerState -> TimerState) (t : Timer) : Timer :=
  mkTimer (f (state t)) (phases t) (maxCycles t) (isPaused t).

Definition set_isPaused (b : bool) (t : Timer) : Timer :=
  mkTimer (state t) (phases t) (maxCycles t) b.

(** ** Operations *)

(** [timerFromConfig]: a fresh timer at the start of its first phase.
    [config.Phases[0]] panics on an empty programme. *)
Definition timerFromConfig {E} (config : TimerConfig) : GoM E Timer :=
  p0 ← index (Phases config) 0;
  mret (mkTimer
          (mkTimerState true (WorkDuration p0) 1 0 (Name config) (NotifText config))
          (Phases config) (MaxCycles config) false).

(** The end of the break branch of [update]: announce the work period
    and start the countdown of the current phase. *)
Definition start_work (t : Timer) : GoM Notification (bool * Timer) :=
  _ ← notify (name (state t)) (notifText (state t));
  let t := with_state (set_isWork true) t in
  w ← index (phases t) (currentPhase (state t));
  mret (false, with_state (set_currentTime (WorkDuration w)) t).

(** [update]: one tick.  The boolean is true when the timer has run
    through its last phase. *)
Definition update (t : Timer) : GoM Notification (bool * Timer) :=
  if isPaused t then mret (false, t)
  else if decide (currentTime (state t) <= 0) then
    cur ← index (phases t) (currentPhase (state t));
    if isWork (state t) then
      _ ← notify (name (state t)) ("Break: " +:+ notifText (state t));
      let t := with_state (set_isWork false) t in
      mret (false, with_state (set_currentTime (BreakDuration cur)) t)
    else
      let t := with_state (set_cycles (wrap64 (cycles (state t) + 1))) t in
      if decide (maxCycles t <> -1 /\ maxCycles t < cycles (state t)) then
        let t := with_state (set_currentPhase (wrap64 (currentPhase (state t) + 1))) t in
        if decide (len (phases t) <= currentPhase (state t)) then
          _ ← notify (name (state t)) ("All phases completed: " +:+ notifText (state t));
          mret (true, t)
        else start_work (with_state (set_cycles 1) t)
      else start_work t
  else mret (false, with_state (set_currentTime (sub_second (currentTime (state t)))) t).

(** [%02d]: at least two characters, padded with a zero on the left. *)
Definition fmt_02d (n : Z) : string :=
  if decide (0 <= n < 10) then "0" +:+ pretty n else pretty n.

(** [String]: the status line of a timer. *)
Definition Timer_String (t : Timer) : string :=
  let st := if isWork (state t) then "Work" else "Break" in
  let minutes := int_Minutes (currentTime (state t)) in
  let seconds := Z.rem (int_Seconds (currentTime (state t))) 60 in
  let cycleStr := pretty (cycles (state t)) in
  let cycleStr :=
    if decide (maxCycles t = -1) then cycleStr +:+ " (∞)"
    else cycleStr +:+ "/" +:+ pretty (maxCycles t) in
  let phaseStr :=
    "Phase " +:+ pretty (wrap64 (currentPhase (state t) + 1)) +:+ "/"
      +:+ pretty (len (phases t)) in
  name (state t) +:+ " - " +:+ st +:+ ": " +:+ fmt_02d minutes +:+ ":"
    +:+ fmt_02d seconds +:+ " (Cycle " +:+ cycleStr +:+ ") " +:+ phaseStr.

(** ** The result of [update], branch by branch *)

(** The timer after a work-to-break transition into a break of [d]. *)
Definition enter_break (d : Duration) (t : Timer) : Timer :=
  with_state (set_currentTime d) (with_state (set_isWork false) t).

(** The timer after a break-to-work transition: cycle counter [c], phase
    index [i], a work period of [d]. *)
Definition enter_work (c i : Z) (d : Duration) (t : Timer) : Timer :=
  with_state (set_currentTime d)
    (with_state (set_isWork true)
      (with_state (set_currentPhase i) (with_state (set_cycles c) t))).

(** The timer as [update] leaves it when it reports completion: the cycle
    counter and the phase index have both been incremented. *)
Definition overshoot (t : Timer) : Timer :=
  with_state (set_currentPhase (wrap64 (currentPhase (state t) + 1)))
    (with_state (set_cycles (wrap64 (cycles (state t) + 1))) t).

(** [phase_done t]: the break that ends is the last cycle of its phase. *)
Definition phase_done (t : Timer) : Prop :=
  maxCycles t <> -1 /\ maxCycles t < wrap64 (cycles (state t) + 1).

#[export] Instance phase_done_dec t : Decision (phase_done t).
Proof. unfold phase_done. apply _. Defined.

(** [at_zero t]: the timer runs and its countdown has reached zero. *)
Definition at_zero (t : Timer) : Prop :=
  isPaused t = false /\ currentTime (state t) <= 0.

(** [cur_phase t p]: the phase index is in range and names phase [p]. *)
Definition cur_phase (t : Timer) (p : TimerPhase) : Prop :=
  0 <= currentPhase (state t) /\
  phases t !! Z.to_nat (currentPhase (state t)) = Some p.

#[export] Instance at_zero_dec t : Decision (at_zero t).
Proof. unfold at_zero. apply _. Defined.
#[export] Instance cur_phase_dec t p : Decision (cur_phase t p).
Proof. unfold cur_phase. apply _. Defined.

Variant update_view (t : Timer) : GoM Notification (bool * Timer) -> Prop :=
  | update_is_paused :
      isPaused t = true ->
      update_view t (mret (false, t))
  | update_is_countdown :
      isPaused t = false -> 0 < currentTime (state t) ->
      update_view t
        (mret (false, with_state (set_currentTime (sub_second (currentTime (state t)))) t))
  | update_is_panic :
      at_zero t -> ~ (0 <= currentPhase (state t) < len (phases t)) ->
      update_view t (raise (IndexOutOfRange (currentPhase (state t)) (length (phases t))))
  | update_is_break p :
      at_zero t -> cur_phase t p -> isWork (state t) = true ->
      update_view t
        (mkGoM [Notify (name (state t)) ("Break: " +:+ notifText (state t))]
               (Ok (false, enter_break (BreakDuration p) t)))
  | update_is_next_cycle p :
      at_zero t -> cur_phase t p -> isWork (state t) = false -> ~ phase_done t ->
      update_view t
        (mkGoM [Notify (name (state t)) (notifText (state t))]
               (Ok (false, enter_work (wrap64 (cycles (state t) + 1))
                                      (currentPhase (state t)) (WorkDuration p) t)))
  | update_is_next_phase p q :
      at_zero t -> cur_phase t p -> isWork (state t) = false -> phase_done t ->
      0 <= wrap64 (currentPhase (state t) + 1) < len (phases t) ->
      phases t !! Z.to_nat (wrap64 (currentPhase (state t) + 1)) = Some q ->
      update_view t
        (mkGoM [Notify (name (state t)) (notifText (state t))]
               (Ok (false, enter_work 1 (wrap64 (currentPhase (state t) + 1))
                                      (WorkDuration q) t)))
  | update_is_completed p :
      at_zero t -> cur_phase t p -> isWork (state t) = false -> phase_done t ->
      len (phases t) <= wrap64 (currentPhase (state t) + 1) ->
      update_view t
        (mkGoM [Notify (name (state t)) ("All phases completed: " +:+ notifText (state t))]
               (Ok (true, overshoot t)))
  | update_is_wrapped p :
      at_zero t -> cur_phase t p -> isWork (state t) = false -> phase_done t ->
      wrap64 (currentPhase (state t) + 1) < 0 ->
      update_view t
        (mkGoM [Notify (name (state t)) (notifText (state t))]
               (Panicked (IndexOutOfRange (wrap64 (currentPhase (state t) + 1))
                                          (length (phases t))))).

(** Evaluates [update] and its helpers on a symbolic timer. *)
Ltac update_unfold :=
  unfold update, start_work, notify; simpl.

Lemma index_cur_phase {E} t p : cur_phase t p -> @index E _ (phases t) (currentPhase (state t)) = mret p.
Proof.
  intros [H0 Hp]. unfold index. rewrite decide_True by done. by rewrite Hp.
Qed.

Lemma cur_phase_in_range t p : cur_phase t p -> 0 <= currentPhase (state t) < len (phases t).
Proof.
  intros [H0 Hp]. apply lookup_lt_Some in Hp. unfold len. lia.
Qed.

Lemma cur_phase_exists t :
  0 <= currentPhase (state t) < len (phases t) -> exists p, cur_phase t p.
Proof.
  intros Hi. destruct (@index_in_range unit _ (phases t) _ Hi) as (p & Hp & _).
  exists p. split; [lia|done].
Qed.

(** [update] computes one of the eight results of [update_view]. *)
Lemma update_spec t : update_view t (update t).
Proof.
  unfold update. destruct (isPaused t) eqn:Hpaused; [by constructor|].
  case_decide as Hzero; [|constructor; [done|lia]].
  assert (at_zero t) as Hz by done.
  destruct (decide (0 <= currentPhase (state t) < len (phases t))) as [Hi|Hi];
    [|rewrite index_out_of_range by done; by constructor].
  destruct (cur_phase_exists t Hi) as [p Hp].
  rewrite (index_cur_phase t p Hp), bind_ret_l.
  destruct (isWork (state t)) eqn:Hwork; [by apply (update_is_break t p)|].
  simpl. fold (phase_done t). unfold start_work, notify. simpl.
  rewrite !bind_emit. simpl.
  case_decide as Hdone;
    [|rewrite (index_cur_phase t p Hp); by apply (update_is_next_cycle t p)].
  case_decide as Hlast; [by apply (update_is_completed t p)|].
  destruct (decide (0 <= wrap64 (currentPhase (state t) + 1))) as [Hnn|Hneg].
  - destruct (@index_in_range Notification _ (phases t) (wrap64 (currentPhase (state t) + 1)))
      as (q & Hq & ->); [lia|].
    rewrite bind_ret_l. apply (update_is_next_phase t p q); auto; lia.
  - rewrite index_out_of_range by lia. apply (update_is_wrapped t p); auto; lia.
Qed.

(** ** Well-formed timers *)

(** A duration the countdown can hold: whole seconds, within int64. *)
Definition wf_duration (d : Duration) : Prop := whole_seconds d /\ in_int64 d.

Definition wf_phase (p : TimerPhase) : Prop :=
  wf_duration (WorkDuration p) /\ wf_duration (BreakDuration p).

(** The cycle policy createTimer produces: unlimited ([-1]) or positive. *)
Definition wf_maxCycles (m : Z) : Prop := m = -1 \/ 1 <= m < int64_max.

(** A programme: at least one phase, as many as an int can count. *)
Definition wf_program (ps : list TimerPhase) (m : Z) : Prop :=
  Forall wf_phase ps /\ 0 < len ps <= int64_max /\ wf_maxCycles m.

Definition wf_timer (t : Timer) : Prop :=
  wf_program (phases t) (maxCycles t) /\
  0 <= currentPhase (state t) < len (phases t) /\
  in_int64 (cycles (state t)) /\
  (maxCycles t <> -1 -> 1 <= cycles (state t) <= maxCycles t) /\
  wf_duration (currentTime (state t)).

(** An unlimited timer has room for one more cycle in its int counter;
    a bounded one always has. *)
Definition cycle_room (t : Timer) : Prop :=
  maxCycles t = -1 -> cycles (state t) < int64_max.

Definition wf_config (c : TimerConfig) : Prop := wf_program (Phases c) (MaxCycles c).

#[export] Instance wf_duration_dec d : Decision (wf_duration d).
Proof. unfold wf_duration. apply _. Defined.
#[export] Instance wf_phase_dec p : Decision (wf_phase p).
Proof. unfold wf_phase. apply _. Defined.
#[export] Instance wf_maxCycles_dec m : Decision (wf_maxCycles m).
Proof. unfold wf_maxCycles. apply _. Defined.
#[export] Instance wf_program_dec ps m : Decision (wf_program ps m).
Proof. unfold wf_program. apply _. Defined.
#[export] Instance wf_timer_dec t : Decision (wf_timer t).
Proof. unfold wf_timer. apply _. Defined.
#[export] Instance cycle_room_dec t : Decision (cycle_room t).
Proof. unfold cycle_room. apply _. Defined.
#[export] Instance wf_config_dec c : Decision (wf_config c).
Proof. unfold wf_config. apply _. Defined.

Section wf_lemmas.
Implicit Types (t : Timer) (p : TimerPhase) (d : Duration).

Lemma wf_duration_0 : wf_duration 0.
Proof. done. Qed.

Lemma wf_timer_cur_phase t :
  wf_timer t -> exists p, cur_phase t p /\ wf_phase p.
Proof.
  intros ((Hps & _) & Hi & _). destruct (cur_phase_exists t Hi) as [p Hp].
  exists p. split; [done|]. destruct Hp as [_ Hp].
  by eapply Forall_lookup_1 in Hps.
Qed.

Lemma wf_timer_phase_at t n q :
  wf_timer t -> phases t !! n = Some q -> wf_phase q.
Proof. intros ((Hps & _) & _) Hq. by eapply Forall_lookup_1 in Hps. Qed.

(** On a well-formed timer the two increments of [update] do not wrap. *)
Lemma wf_timer_cycles_exact t :
  wf_timer t -> cycle_room t -> wrap64 (cycles (state t) + 1) = cycles (state t) + 1.
Proof.
  intros ((_ & _ & Hm) & _ & Hc & Hb & _) Hroom. apply wrap64_id.
  unfold cycle_room, wf_maxCycles in *.
  destruct (decide (maxCycles t = -1)) as [Hu|Hu]; [specialize (Hroom Hu)|specialize (Hb Hu)];
    int64_lia.
Qed.

Lemma cycle_room_bounded t : maxCycles t <> -1 -> cycle_room t.
Proof. by intros ? ?. Qed.

Lemma wf_timer_phase_exact t :
  wf_timer t -> wrap64 (currentPhase (state t) + 1) = currentPhase (state t) + 1.
Proof.
  intros ((_ & Hlen & _) & Hi & _). apply wrap64_id. int64_lia.
Qed.

Lemma wf_timer_phase_done t :
  wf_timer t -> phase_done t <-> maxCycles t <> -1 /\ cycles (state t) = maxCycles t.
Proof.
  intros Hwf. unfold phase_done. split; intros [H1 H2]; (split; [done|]).
  - rewrite wf_timer_cycles_exact in H2 by auto using cycle_room_bounded.
    destruct Hwf as (_ & _ & _ & Hm & _). specialize (Hm H1). lia.
  - rewrite wf_timer_cycles_exact by auto using cycle_room_bounded. lia.
Qed.

End wf_lemmas.

(** ** [update] on a well-formed timer: exact arithmetic, no panic *)

(** [more_cycles t]: the phase has a cycle left after the current one. *)
Definition more_cycles (t : Timer) : Prop :=
  maxCycles t = -1 \/ cycles (state t) < maxCycles t.

(** [last_cycle t]: the current cycle is the last of its phase. *)
Definition last_cycle (t : Timer) : Prop :=
  maxCycles t <> -1 /\ cycles (state t) = maxCycles t.

(** [ringing t]: the timer runs and its countdown is exactly zero. *)
Definition ringing (t : Timer) : Prop :=
  isPaused t = false /\ currentTime (state t) = 0.

#[export] Instance more_cycles_dec t : Decision (more_cycles t).
Proof. unfold more_cycles. apply _. Defined.
#[export] Instance last_cycle_dec t : Decision (last_cycle t).
Proof. unfold last_cycle. apply _. Defined.
#[export] Instance ringing_dec t : Decision (ringing t).
Proof. unfold ringing. apply _. Defined.

(** The notification a tick sends for a well-formed timer: none while the
    timer is paused or counts down; when it rings, the break that follows
    a work period, the completion after the last cycle of the last phase,
    and the next work period otherwise. *)
Definition notice (t : Timer) : option Notification :=
  if decide (ringing t) then
    Some (Notify (name (state t))
            (if isWork (state t) then "Break: " +:+ notifText (state t)
             else if decide (last_cycle t /\ currentPhase (state t) + 1 = len (phases t))
                  then "All phases completed: " +:+ notifText (state t)
                  else notifText (state t)))
  else None.

Variant update_wf_view (t : Timer) : GoM Notification (bool * Timer) -> Prop :=
  | uwf_paused :
      isPaused t = true ->
      update_wf_view t (mret (false, t))
  | uwf_countdown :
      isPaused t = false -> 0 < currentTime (state t) ->
      update_wf_view t
        (mret (false, with_state (set_currentTime (currentTime (state t) - Second)) t))
  | uwf_break p :
      ringing t -> cur_phase t p -> isWork (state t) = true ->
      update_wf_view t
        (mkGoM [Notify (name (state t)) ("Break: " +:+ notifText (state t))]
               (Ok (false, enter_break (BreakDuration p) t)))
  | uwf_next_cycle p :
      ringing t -> cur_phase t p -> isWork (state t) = false -> more_cycles t ->
      update_wf_view t
        (mkGoM [Notify (name (state t)) (notifText (state t))]
               (Ok (false, enter_work (wrap64 (cycles (state t) + 1))
                                      (currentPhase (state t)) (WorkDuration p) t)))
  | uwf_next_phase p q :
      ringing t -> cur_phase t p -> isWork (state t) = false -> last_cycle t ->
      currentPhase (state t) + 1 < len (phases t) ->
      phases t !! S (Z.to_nat (currentPhase (state t))) = Some q ->
      update_wf_view t
        (mkGoM [Notify (name (state t)) (notifText (state t))]
               (Ok (false, enter_work 1 (currentPhase (state t) + 1) (WorkDuration q) t)))
  | uwf_completed p :
      ringing t -> cur_phase t p -> isWork (state t) = false -> last_cycle t ->
      currentPhase (state t) + 1 = len (phases t) ->
      update_wf_view t
        (mkGoM [Notify (name (state t)) ("All phases completed: " +:+ notifText (state t))]
               (Ok (true, overshoot t))).

Section update_wf.
Implicit Types (t : Timer).

Lemma wf_timer_ringing t : wf_timer t -> at_zero t -> ringing t.
Proof.
  intros (_ & _ & _ & _ & [[Hct _] _]) [Hp Hz]. split; [done|lia].
Qed.

Lemma wf_timer_more_cycles t : wf_timer t -> ~ phase_done t -> more_cycles t.
Proof.
  intros Hwf Hnd. rewrite wf_timer_phase_done in Hnd by done.
  destruct Hwf as (_ & _ & _ & Hm & _). unfold more_cycles.
  destruct (decide (maxCycles t = -1)) as [|Hb]; [by left|right].
  specialize (Hm Hb). destruct (decide (cycles (state t) = maxCycles t)); [tauto|lia].
Qed.

Lemma update_wf_spec t : wf_timer t -> update_wf_view t (update t).
Proof.
  intros Hwf. pose proof (wf_timer_phase_exact t Hwf) as Hi.
  destruct (update_spec t) as [| |Hz Hr|p Hz|p Hz Hp Hw Hd|p q Hz Hp Hw Hd Hr Hq
                               |p Hz Hp Hw Hd Hr|p Hz Hp Hw Hd Hr].
  - by constructor.
  - rewrite sub_second_exact; [by constructor| |done].
    by destruct Hwf as (_ & _ & _ & _ & [_ ?]).
  - by destruct Hwf as (_ & ? & _).
  - apply (uwf_break t p); auto using wf_timer_ringing.
  - apply (uwf_next_cycle t p); auto using wf_timer_ringing, wf_timer_more_cycles.
  - rewrite Hi in *. apply (uwf_next_phase t p q); auto using wf_timer_ringing.
    + by apply wf_timer_phase_done.
    + lia.
    + rewrite <- Hq. f_equal. destruct Hp. lia.
  - rewrite Hi in Hr. apply (uwf_completed t p); auto using wf_timer_ringing.
    + by apply wf_timer_phase_done.
    + apply cur_phase_in_range in Hp. lia.
  - rewrite Hi in Hr. destruct Hp. lia.
Qed.

(** What [update] sends for a well-formed timer is its notice. *)
Lemma update_notice t : wf_timer t -> events (update t) = option_list (notice t).
Proof.
  intros Hwf. unfold notice.
  destruct (update_wf_spec t Hwf) as [Hp|Hp Hpos|p Hr _ Hw|p Hr _ Hw Hm|p q Hr _ Hw Hl Hi _
                                      |p Hr _ Hw Hl Hi]; simpl.
  - rewrite decide_False; [done|]. intros [? _]. congruence.
  - rewrite decide_False; [done|]. intros [_ ?]. lia.
  - by rewrite decide_True, Hw.
  - rewrite decide_True, Hw, decide_False; [done| |done].
    intros [[? ?] _]. destruct Hm; [done|lia].
  - rewrite decide_True, Hw, decide_False; [done| |done]. intros [_ ?]. lia.
  - by rewrite decide_True, Hw, decide_True.
Qed.

End update_wf.

(** ** What [update] leaves unchanged, and the invariant *)

(** The immutable part of a timer: its programme, names and pause flag. *)
Definition same_program (t t' : Timer) : Prop :=
  phases t' = phases t /\ maxCycles t' = maxCycles t /\ isPaused t' = isPaused t /\
  name (state t') = name (state t) /\ notifText (state t') = notifText (state t).

Lemma wf_duration_pred d : wf_duration d -> 0 < d -> wf_duration (d - Second).
Proof.
  intros [Hw Hr] Hpos. rewrite <- sub_second_exact by done.
  split; [by apply sub_second_whole|]. rewrite sub_second_exact by done.
  unfold Second. int64_lia.
Qed.

Section update_inv.
Implicit Types (t : Timer) (b : bool).

Lemma update_frame t b t' : returns (update t) (b, t') -> same_program t t'.
Proof.
  unfold returns. intros Hr.
  destruct (update_spec t); simpl in Hr; simplify_eq; done.
Qed.

Lemma wf_phase_at ps n p : Forall wf_phase ps -> ps !! n = Some p -> wf_phase p.
Proof. intros Hps Hp. by eapply Forall_lookup_1 in Hps. Qed.

Lemma update_wf_inv t t' :
  wf_timer t -> returns (update t) (false, t') -> wf_timer t'.
Proof.
  unfold returns. intros Hwf Hr.
  pose proof Hwf as (Hprog & Hidx & Hcyc & Hmax & Hdur).
  pose proof Hprog as (Hps & Hlen & Hm).
  destruct (update_wf_spec t Hwf) as [| |p _ Hp|p _ Hp _ Hmore|p q _ Hp _ [Hb Hl] Hi Hq|];
    simpl in Hr; simplify_eq; [done|..]; unfold wf_timer; simpl; split_and!;
    try done; try lia; auto using wrap64_range.
  - by apply wf_duration_pred.
  - destruct Hp as [_ Hp]. by apply (wf_phase_at _ _ _ Hps) in Hp as [_ ?].
  - intros Hb. rewrite wf_timer_cycles_exact by auto using cycle_room_bounded.
    specialize (Hmax Hb). unfold more_cycles in *. lia.
  - destruct Hp as [_ Hp]. by apply (wf_phase_at _ _ _ Hps) in Hp as [? _].
  - by apply (wf_phase_at _ _ _ Hps) in Hq as [? _].
Qed.

(** A well-formed timer's [update] returns: neither index is out of range. *)
Lemma update_wf_returns t : wf_timer t -> exists b t', returns (update t) (b, t').
Proof.
  intros Hwf. destruct (update_wf_spec t Hwf); by eexists _, _.
Qed.

End update_inv.

(** ** Theorems: construction *)

(** TimerFromConfig on a well-formed configuration returns a
    well-formed timer at the start of its first phase: working, not paused,
    cycle 1, phase index 0, the countdown at the first work duration, name
    and notification text taken from the configuration. *)
Theorem timerFromConfig_wf {E} (c : TimerConfig) :
  wf_config c ->
  exists p0, Phases c !! 0%nat = Some p0 /\
    @timerFromConfig E c =
      mret (mkTimer (mkTimerState true (WorkDuration p0) 1 0 (Name c) (NotifText c))
                    (Phases c) (MaxCycles c) false) /\
    forall t, returns (@timerFromConfig E c) t -> wf_timer t /\ cycle_room t.
Proof.
  intros (Hps & Hlen & Hm). unfold timerFromConfig.
  destruct (@index_in_range E _ (Phases c) 0) as (p0 & Hp0 & ->); [lia|].
  exists p0. rewrite bind_ret_l. split_and!; [done..|].
  unfold returns. intros t [= <-]. pose proof (wf_phase_at _ _ _ Hps Hp0) as [? _].
  unfold wf_timer, wf_program, cycle_room, wf_maxCycles, int64_max in *. simpl.
  split_and!; try done; lia.
Qed.

Lemma timerFromConfig_wf_witness :
  exists p0, [mkTimerPhase (25 * Minute) (5 * Minute)] !! 0%nat = Some p0 /\
    @timerFromConfig unit
      (mkTimerConfig "deep work" "stretch" [mkTimerPhase (25 * Minute) (5 * Minute)] 4) =
      mret (mkTimer (mkTimerState true (WorkDuration p0) 1 0 "deep work" "stretch")
                    [mkTimerPhase (25 * Minute) (5 * Minute)] 4 false) /\
    forall t, returns (@timerFromConfig unit
      (mkTimerConfig "deep work" "stretch" [mkTimerPhase (25 * Minute) (5 * Minute)] 4)) t ->
      wf_timer t /\ cycle_room t.
Proof.
  apply (timerFromConfig_wf
    (mkTimerConfig "deep work" "stretch" [mkTimerPhase (25 * Minute) (5 * Minute)] 4)).
  by_decide.
Defined.

(** TimerFromConfig panics exactly on a configuration with no phase
    (the index expression config.Phases[0]); nothing validates a loaded
    configuration before it. *)
Theorem timerFromConfig_panics_iff {E} (c : TimerConfig) :
  panics (@timerFromConfig E c) <-> Phases c = [].
Proof.
  unfold timerFromConfig. split.
  - intros Hp. destruct (Phases c) as [|p ps] eqn:Hc; [done|].
    rewrite (index_lookup _ 0%nat p), bind_ret_l in Hp by done. by destruct Hp.
  - intros ->. apply panics_bind_l. rewrite index_out_of_range by (unfold len; simpl; lia).
    by eexists.
Qed.

(** ** Theorems: the branches of [update] *)

(** Closes a case of [update_view] that the hypotheses exclude. *)
Ltac absurd_case :=
  exfalso;
  unfold at_zero, ringing, cur_phase, phase_done, more_cycles, last_cycle, len in *;
  simpl in *;
  destruct_and?;
  repeat match goal with H : _ !! _ = Some _ |- _ => apply lookup_lt_Some in H end;
  (congruence || lia).

(** While the countdown is positive a running timer only counts down, and
    the int64 subtraction does not wrap. *)
Lemma update_tick_down t :
  in_int64 (currentTime (state t)) -> isPaused t = false -> 0 < currentTime (state t) ->
  update t =
    mret (false, with_state (set_currentTime (currentTime (state t) - Second)) t).
Proof.
  intros Hr Hp Hpos. rewrite <- (sub_second_exact _ Hr Hpos).
  destruct (update_spec t); try absurd_case. done.
Qed.

(** When the countdown of a work period has run out, [update] sends
    the notification "Break: <text>", switches to the break of the current
    phase with its break duration as the countdown, keeps the cycle count
    and the phase index, and returns false. *)
Theorem update_work_to_break t p :
  at_zero t -> cur_phase t p -> isWork (state t) = true ->
  update t =
    mkGoM [Notify (name (state t)) ("Break: " +:+ notifText (state t))]
          (Ok (false, enter_break (BreakDuration p) t)).
Proof.
  intros Hz Hp Hw. destruct (update_spec t); try absurd_case.
  unfold cur_phase in *. destruct_and?. by simplify_eq.
Qed.

Lemma update_work_to_break_witness :
  update (mkTimer (mkTimerState true 0 1 0 "tea" "drink") 
                  [mkTimerPhase (3 * Second) (2 * Second)] (-1) false) =
    mkGoM [Notify "tea" "Break: drink"]
          (Ok (false, mkTimer (mkTimerState false (2 * Second) 1 0 "tea" "drink") 
                              [mkTimerPhase (3 * Second) (2 * Second)] (-1) false)).
Proof.
  apply (update_work_to_break
    (mkTimer (mkTimerState true 0 1 0 "tea" "drink") 
             [mkTimerPhase (3 * Second) (2 * Second)] (-1) false)
    (mkTimerPhase (3 * Second) (2 * Second))); by_decide.
Defined.

(** C18: when a break has run out on a well-formed timer whose phase has
    cycles left (unlimited, or cycle counter below maxCycles), [update]
    sends the work notification, increments the cycle counter by exactly
    one (no wrap-around: a bounded counter is below its bound, an unlimited
    one is assumed below the largest int), returns to work in the same
    phase with its work duration as the countdown, and returns false. *)
Theorem update_break_to_work t p :
  wf_timer t -> cycle_room t -> ringing t -> cur_phase t p ->
  isWork (state t) = false -> more_cycles t ->
  update t =
    mkGoM [Notify (name (state t)) (notifText (state t))]
          (Ok (false, enter_work (cycles (state t) + 1) (currentPhase (state t))
                                 (WorkDuration p) t)).
Proof.
  intros Hwf Hroom Hz Hp Hw Hm. destruct (update_wf_spec t Hwf); try absurd_case.
  rewrite wf_timer_cycles_exact by done.
  unfold cur_phase in *. destruct_and?. by simplify_eq.
Qed.

Lemma update_break_to_work_witness :
  update (mkTimer (mkTimerState false 0 1 0 "tea" "drink") 
                  [mkTimerPhase (3 * Second) (2 * Second)] (-1) false) =
    mkGoM [Notify "tea" "drink"]
          (Ok (false, mkTimer (mkTimerState true (3 * Second) 2 0 "tea" "drink") 
                              [mkTimerPhase (3 * Second) (2 * Second)] (-1) false)).
Proof.
  apply (update_break_to_work
    (mkTimer (mkTimerState false 0 1 0 "tea" "drink") 
             [mkTimerPhase (3 * Second) (2 * Second)] (-1) false)
    (mkTimerPhase (3 * Second) (2 * Second))); by_decide.
Defined.

(** C17: when the last break of a phase has run out on a well-formed
    bounded timer and a next phase exists, [update] sends the work
    notification, moves to the next phase, resets the cycle counter to 1,
    starts that phase's work duration, and returns false. *)
Theorem update_next_phase t q :
  wf_timer t -> ringing t -> isWork (state t) = false -> last_cycle t ->
  phases t !! S (Z.to_nat (currentPhase (state t))) = Some q ->
  update t =
    mkGoM [Notify (name (state t)) (notifText (state t))]
          (Ok (false, enter_work 1 (currentPhase (state t) + 1) (WorkDuration q) t)).
Proof.
  intros Hwf Hz Hw Hl Hq. pose proof Hwf as (_ & Hi & _).
  destruct (update_wf_spec t Hwf); try absurd_case. by simplify_eq.
Qed.

Lemma update_next_phase_witness :
  update (mkTimer (mkTimerState false 0 2 0 "tea" "drink") 
                  [mkTimerPhase (3 * Second) (2 * Second); mkTimerPhase (5 * Second) Second]
                  2 false) =
    mkGoM [Notify "tea" "drink"]
          (Ok (false, mkTimer (mkTimerState true (5 * Second) 1 1 "tea" "drink") 
                 [mkTimerPhase (3 * Second) (2 * Second); mkTimerPhase (5 * Second) Second]
                 2 false)).
Proof.
  apply (update_next_phase
    (mkTimer (mkTimerState false 0 2 0 "tea" "drink") 
             [mkTimerPhase (3 * Second) (2 * Second); mkTimerPhase (5 * Second) Second]
             2 false)
    (mkTimerPhase (5 * Second) Second)); by_decide.
Defined.

(** C16: when the last break of the last phase has run out on a
    well-formed bounded timer, [update] sends "All phases completed: <text>"
    and returns true; the timer it leaves behind has its cycle counter and
    its phase index both one past their bounds (cycles = maxCycles + 1,
    currentPhase = len(phases)). *)
Theorem update_completed t :
  wf_timer t -> ringing t -> isWork (state t) = false -> last_cycle t ->
  currentPhase (state t) + 1 = len (phases t) ->
  update t =
    mkGoM [Notify (name (state t)) ("All phases completed: " +:+ notifText (state t))]
          (Ok (true, with_state (set_currentPhase (len (phases t)))
                       (with_state (set_cycles (maxCycles t + 1)) t))).
Proof.
  intros Hwf Hz Hw [Hb Hl] Hi. destruct (update_wf_spec t Hwf); try absurd_case.
  unfold overshoot.
  rewrite wf_timer_cycles_exact, wf_timer_phase_exact by auto using cycle_room_bounded.
  by rewrite Hl, Hi.
Qed.

Lemma update_completed_witness :
  update (mkTimer (mkTimerState false 0 2 0 "tea" "drink") 
                  [mkTimerPhase (3 * Second) (2 * Second)] 2 false) =
    mkGoM [Notify "tea" "All phases completed: drink"]
          (Ok (true, mkTimer (mkTimerState false 0 3 1 "tea" "drink") 
                             [mkTimerPhase (3 * Second) (2 * Second)] 2 false)).
Proof.
  apply (update_completed
    (mkTimer (mkTimerState false 0 2 0 "tea" "drink") 
             [mkTimerPhase (3 * Second) (2 * Second)] 2 false)); by_decide.
Defined.

(** C40: [update] panics exactly when the timer runs, its countdown is at
    or below zero, and either the phase index is outside the phase list, or
    a break ends the last cycle of a phase whose index is the largest int
    (the incremented index wraps to a negative one). *)
Theorem update_panics_iff t :
  panics (update t) <->
  at_zero t /\
  (~ (0 <= currentPhase (state t) < len (phases t)) \/
   (isWork (state t) = false /\ phase_done t /\
    wrap64 (currentPhase (state t) + 1) < 0)).
Proof.
  split.
  - intros [e He]. destruct (update_spec t); simpl in He; try done; auto.
  - intros [Hz Hc]. destruct (update_spec t); try (by eexists); try absurd_case.
    all: exfalso; destruct Hc as [Hc|Hc]; [|absurd_case].
    all: match goal with H : cur_phase _ _ |- _ => apply cur_phase_in_range in H end; lia.
Qed.
