(* ===== verification/Machine.v ===== *)
(** * Machine: the abstract timer and the refinement of [update]

    The specification describes a timer as a machine with the states
    Working(phase), OnBreak(phase) and Completed, stepped once per tick.
    [astep] is that machine as a labelled transition relation over a
    programme (the phase list and the cycle bound); the label says which
    notification the step sends.  [abs] maps a timer of main.go to its
    abstract state, and [update_refines] shows that every call of [update]
    on a running, well-formed timer is exactly one step of the machine. *)

From Stdlib Require Import ZArith Lia.
From stdpp Require Import base tactics option list numbers strings.
From S2P Require Import Prelude Duration Timer.

#[local] Open Scope Z_scope.

(** ** The abstract machine *)

Inductive astate : Type :=
  | Working (i : nat) (c : Z) (r : Duration)
  | OnBreak (i : nat) (c : Z) (r : Duration)
  | Completed.

Inductive alabel : Type :=
  | Silent
  | BreakStarts
  | WorkStarts
  | AllDone.

#[export] Instance astate_eq_dec : EqDecision astate.
Proof. solve_decision. Defined.
#[export] Instance alabel_eq_dec : EqDecision alabel.
Proof. solve_decision. Defined.

Section machine.
Context (prog : list TimerPhase) (maxC : Z).

(** One tick of a running timer.  [i] is the phase index, [c] the cycle
    counter and [r] the remaining time of the current period. *)
Inductive astep : astate -> alabel -> astate -> Prop :=
  | astep_work_tick i c r :
      0 < r ->
      astep (Working i c r) Silent (Working i c (r - Second))
  | astep_break_tick i c r :
      0 < r ->
      astep (OnBreak i c r) Silent (OnBreak i c (r - Second))
  | astep_break i c p :
      prog !! i = Some p ->
      astep (Working i c 0) BreakStarts (OnBreak i c (BreakDuration p))
  | astep_cycle i c p :
      prog !! i = Some p -> maxC = -1 \/ c < maxC ->
      astep (OnBreak i c 0) WorkStarts (Working i (c + 1) (WorkDuration p))
  | astep_phase i c q :
      maxC <> -1 -> maxC <= c -> prog !! S i = Some q ->
      astep (OnBreak i c 0) WorkStarts (Working (S i) 1 (WorkDuration q))
  | astep_done i c :
      maxC <> -1 -> maxC <= c -> (length prog <= S i)%nat ->
      astep (OnBreak i c 0) AllDone Completed.

(** The machine is deterministic: a state has at most one step. *)
Lemma astep_deterministic s l1 s1 l2 s2 :
  astep s l1 s1 -> astep s l2 s2 -> l1 = l2 /\ s1 = s2.
Proof.
  intros H1 H2.
  destruct H1; inversion H2; simplify_eq; try done; try lia.
  all: match goal with H : _ !! _ = Some _ |- _ => apply lookup_lt_Some in H end; lia.
Qed.

(** Completed is final. *)
Lemma astep_Completed_final l s : ~ astep Completed l s.
Proof. inversion 1. Qed.

(** A state whose phase exists and whose countdown is not negative steps. *)
Lemma astep_progress_working i c r p :
  prog !! i = Some p -> 0 <= r -> exists l s, astep (Working i c r) l s.
Proof.
  intros Hp Hr. destruct (decide (r = 0)) as [->|]; [|eexists _, _; constructor; lia].
  eexists _, _. by eapply astep_break.
Qed.

Lemma astep_progress_break i c r p :
  prog !! i = Some p -> 0 <= r -> exists l s, astep (OnBreak i c r) l s.
Proof.
  intros Hp Hr. destruct (decide (r = 0)) as [->|]; [|eexists _, _; constructor; lia].
  destruct (decide (maxC = -1 \/ c < maxC)); [eexists _, _; by eapply astep_cycle|].
  destruct (prog !! S i) as [q|] eqn:Hq.
  - eexists _, _. eapply astep_phase; [lia..|done].
  - eexists _, _. apply astep_done; [lia..|]. by apply lookup_ge_None.
Qed.

End machine.

(** ** Abstraction *)

(** The abstract state of a timer of main.go. *)
Definition abs (t : Timer) : astate :=
  if isWork (state t)
  then Working (Z.to_nat (currentPhase (state t))) (cycles (state t)) (currentTime (state t))
  else OnBreak (Z.to_nat (currentPhase (state t))) (cycles (state t)) (currentTime (state t)).

(** The notifications a step with label [l] sends for timer [t]. *)
Definition notifications (t : Timer) (l : alabel) : list Notification :=
  match l with
  | Silent => []
  | BreakStarts => [Notify (name (state t)) ("Break: " +:+ notifText (state t))]
  | WorkStarts => [Notify (name (state t)) (notifText (state t))]
  | AllDone =>
      [Notify (name (state t)) ("All phases completed: " +:+ notifText (state t))]
  end.

(** The abstract state after a call of [update] that returned [b]. *)
Definition abs_after (b : bool) (t' : Timer) : astate :=
  if b then Completed else abs t'.

(** ** Refinement *)

(** C1: every call of update on a running, well-formed timer is one step
    of the abstract machine: it returns without panic, the notifications
    it sends are those of the step's label, the state it leaves abstracts
    to the step's target (Completed when it returns true), and the
    programme, the names and the pause flag are unchanged.  The machine
    counts cycles in unbounded integers, so an unlimited timer is assumed
    to have room for one more cycle in its int counter. *)
Theorem update_refines t :
  wf_timer t -> cycle_room t -> isPaused t = false ->
  exists l b t',
    update t = mkGoM (notifications t l) (Ok (b, t')) /\
    astep (phases t) (maxCycles t) (abs t) l (abs_after b t') /\
    same_program t t'.
Proof.
  intros Hwf Hroom Hrun. pose proof Hwf as (_ & Hidx & _).
  destruct (update_wf_spec t Hwf)
    as [|_ Hpos|p [_ Hz] [_ Hp] Hw|p [_ Hz] [_ Hp] Hw Hm
        |p q [_ Hz] _ Hw [Hb Hl] Hi Hq|p [_ Hz] _ Hw [Hb Hl] Hi]; [congruence|..].
  - exists Silent, false. eexists. split_and!; [done| |done].
    unfold abs_after, abs. simpl. destruct (isWork (state t)); by constructor.
  - exists BreakStarts, false. eexists. split_and!; [done| |done].
    unfold abs_after, abs. simpl. rewrite Hw, Hz. by constructor.
  - exists WorkStarts, false. eexists. split_and!; [done| |done].
    unfold abs_after, abs. simpl. rewrite Hw, Hz, wf_timer_cycles_exact by done.
    by constructor.
  - exists WorkStarts, false. eexists. split_and!; [done| |done].
    unfold abs_after, abs. simpl. rewrite Hw, Hz.
    replace (Z.to_nat (currentPhase (state t) + 1)) with (S (Z.to_nat (currentPhase (state t))))
      by lia.
    constructor; [done|lia|done].
  - exists AllDone, true. eexists. split_and!; [done| |done].
    unfold abs_after, abs. rewrite Hw, Hz. constructor; [done|lia|]. unfold len in Hi. lia.
Qed.

Lemma update_refines_witness :
  exists l b t',
    update (mkTimer (mkTimerState false 0 2 0 "tea" "drink")
                    [mkTimerPhase (3 * Second) (2 * Second)] 2 false) =
      mkGoM (notifications (mkTimer (mkTimerState false 0 2 0 "tea" "drink")
                                    [mkTimerPhase (3 * Second) (2 * Second)] 2 false) l)
            (Ok (b, t')) /\
    astep [mkTimerPhase (3 * Second) (2 * Second)] 2
          (abs (mkTimer (mkTimerState false 0 2 0 "tea" "drink")
                        [mkTimerPhase (3 * Second) (2 * Second)] 2 false))
          l (abs_after b t') /\
    same_program (mkTimer (mkTimerState false 0 2 0 "tea" "drink")
                          [mkTimerPhase (3 * Second) (2 * Second)] 2 false) t'.
Proof.
  apply (update_refines
    (mkTimer (mkTimerState false 0 2 0 "tea" "drink")
             [mkTimerPhase (3 * Second) (2 * Second)] 2 false)); by_decide.
Defined.
