(* ===== verification/Run.v ===== *)
(** * Run: a timer over many ticks

    The ticker goroutine calls [update] on a timer once per second until the
    call returns true, and then drops the timer.  [ticks n t] is that
    sequence of calls for one timer: [n] calls, stopping at the first that
    reports completion or panics.

    The theorems: a paused timer is not changed by any number of ticks; the
    invariant [wf_timer] holds along every run; a period of [k] seconds
    lasts [k + 1] ticks; a bounded timer completes after exactly
    [ticks_left] ticks and an unlimited one never does. *)

From Stdlib Require Import ZArith Lia.
From stdpp Require Import base tactics option list numbers strings.
From S2P Require Import Prelude Duration Timer.

#[local] Open Scope Z_scope.

(** [n] consecutive ticks of one timer. *)
Fixpoint ticks (n : nat) (t : Timer) : GoM Notification (bool * Timer) :=
  match n with
  | O => mret (false, t)
  | S n =>
      update t ≫= fun r : bool * Timer => if r.1 then mret r else ticks n r.2
  end.

(** ** The number of ticks a bounded timer has left *)

(** A period of [d] lasts [d / Second] ticks of countdown and one tick
    at zero, on which the transition happens. *)
Definition period_ticks (d : Duration) : Z := d / Second + 1.

Definition cycle_ticks (p : TimerPhase) : Z :=
  period_ticks (WorkDuration p) + period_ticks (BreakDuration p).

(** The ticks of [m] cycles of each phase of [ps]. *)
Definition program_ticks (m : Z) (ps : list TimerPhase) : Z :=
  foldr (fun p acc => m * cycle_ticks p + acc) 0 ps.

Definition ticks_left (t : Timer) : Z :=
  match phases t !! Z.to_nat (currentPhase (state t)) with
  | None => 0
  | Some p =>
      period_ticks (currentTime (state t))
      + (if isWork (state t) then period_ticks (BreakDuration p) else 0)
      + (maxCycles t - cycles (state t)) * cycle_ticks p
      + program_ticks (maxCycles t) (drop (S (Z.to_nat (currentPhase (state t)))) (phases t))
  end.

Section run_lemmas.
Implicit Types (t : Timer) (n : nat) (d : Duration).

Lemma ticks_S n t :
  ticks (S n) t =
    update t ≫= fun r : bool * Timer => if r.1 then mret r else ticks n r.2.
Proof. done. Qed.

Lemma ticks_S_false n t es t' :
  update t = mkGoM es (Ok (false, t')) ->
  ticks (S n) t = mkGoM (es ++ events (ticks n t')) (result (ticks n t')).
Proof. intros H. by rewrite ticks_S, H, bind_Ok. Qed.

Lemma ticks_S_true n t es t' :
  update t = mkGoM es (Ok (true, t')) ->
  ticks (S n) t = mkGoM es (Ok (true, t')).
Proof. intros H. rewrite ticks_S, H, bind_Ok. simpl. by rewrite app_nil_r. Qed.

Lemma period_ticks_pos d : 0 <= d -> 1 <= period_ticks d.
Proof.
  intros Hd. unfold period_ticks. pose proof (Z.div_pos d Second Hd Second_pos). lia.
Qed.

Lemma period_ticks_0 : period_ticks 0 = 1.
Proof. done. Qed.

Lemma period_ticks_pred d : period_ticks (d - Second) = period_ticks d - 1.
Proof.
  unfold period_ticks. replace (d - Second) with (d + (-1) * Second) by lia.
  rewrite Z.div_add by done. lia.
Qed.

Lemma cycle_ticks_pos p : wf_phase p -> 2 <= cycle_ticks p.
Proof.
  intros [[[Hw _] _] [[Hb _] _]]. unfold cycle_ticks.
  pose proof (period_ticks_pos _ Hw). pose proof (period_ticks_pos _ Hb). lia.
Qed.

Lemma program_ticks_nonneg m ps : 0 <= m -> Forall wf_phase ps -> 0 <= program_ticks m ps.
Proof.
  intros Hm. induction 1 as [|p ps Hp _ IH]; simpl; [done|].
  pose proof (cycle_ticks_pos p Hp). nia.
Qed.

Lemma program_ticks_cons m p ps :
  program_ticks m (p :: ps) = m * cycle_ticks p + program_ticks m ps.
Proof. done. Qed.

End run_lemmas.

(** ** One tick against the measure *)

Section measure.
Implicit Types (t : Timer) (n : nat).

Lemma ticks_left_at t p :
  cur_phase t p ->
  ticks_left t =
    period_ticks (currentTime (state t))
    + (if isWork (state t) then period_ticks (BreakDuration p) else 0)
    + (maxCycles t - cycles (state t)) * cycle_ticks p
    + program_ticks (maxCycles t) (drop (S (Z.to_nat (currentPhase (state t)))) (phases t)).
Proof. intros [_ Hp]. unfold ticks_left. by rewrite Hp. Qed.

Lemma ticks_left_pos t : wf_timer t -> maxCycles t <> -1 -> 1 <= ticks_left t.
Proof.
  intros Hwf Hb. destruct (wf_timer_cur_phase t Hwf) as (p & Hp & Hwp).
  rewrite (ticks_left_at t p Hp).
  destruct Hwf as ((Hps & _ & Hm) & _ & _ & Hmax & [[Hct _] _]).
  pose proof (period_ticks_pos _ Hct). pose proof (cycle_ticks_pos p Hwp).
  assert (0 <= program_ticks (maxCycles t)
                 (drop (S (Z.to_nat (currentPhase (state t)))) (phases t))).
  { apply program_ticks_nonneg; [unfold wf_maxCycles in Hm; lia|by apply Forall_drop]. }
  specialize (Hmax Hb). destruct Hwp as [_ [[Hbr _] _]].
  pose proof (period_ticks_pos _ Hbr). destruct (isWork (state t)); nia.
Qed.

(** The state of the measure after a step that does not complete. *)
Definition counts_down (t t' : Timer) : Prop :=
  wf_timer t' /\ maxCycles t' <> -1 /\ isPaused t' = false /\
  ticks_left t' = ticks_left t - 1.

(** On a running bounded timer [update] either completes, with one tick
    left, or takes exactly one tick off the measure. *)
Lemma update_ticks_left t :
  wf_timer t -> maxCycles t <> -1 -> isPaused t = false ->
  exists es b t', update t = mkGoM es (Ok (b, t')) /\
    if b then ticks_left t = 1 else counts_down t t'.
Proof.
  intros Hwf Hb Hrun.
  assert (forall t', returns (update t) (false, t') ->
            wf_timer t' /\ maxCycles t' <> -1 /\ isPaused t' = false) as Hinv.
  { intros t' Hr. split; [by eapply update_wf_inv|].
    apply update_frame in Hr as (_ & -> & -> & _). done. }
  destruct (update_wf_spec t Hwf)
    as [|_ Hpos|p [_ Hz] Hp Hw|p [_ Hz] Hp Hw Hm
        |p q [_ Hz] Hp Hw [_ Hl] Hi Hq|p [_ Hz] Hp Hw [_ Hl] Hi]; [congruence|..];
    eexists _, _, _; (split; [done|]); simpl;
    try (destruct (Hinv _ eq_refl) as (Hwf' & Hb' & Hrun'); split_and!; try done).
  - destruct (wf_timer_cur_phase t Hwf) as (p & Hp & _).
    rewrite (ticks_left_at t p Hp), (ticks_left_at _ p) by done. simpl.
    rewrite period_ticks_pred. lia.
  - rewrite (ticks_left_at t p Hp), (ticks_left_at _ p) by done. simpl.
    rewrite Hw, Hz, period_ticks_0. lia.
  - rewrite (ticks_left_at t p Hp), (ticks_left_at _ p) by done. simpl.
    rewrite Hw, Hz, period_ticks_0, wf_timer_cycles_exact by auto using cycle_room_bounded.
    unfold cycle_ticks. lia.
  - assert (cur_phase (enter_work 1 (currentPhase (state t) + 1) (WorkDuration q) t) q).
    { destruct Hp as [Hp0 _]. split; simpl; [lia|]. rewrite <- Hq. f_equal. lia. }
    rewrite (ticks_left_at t p Hp), (ticks_left_at _ q) by done. simpl.
    rewrite Hw, Hz, Hl, period_ticks_0.
    replace (Z.to_nat (currentPhase (state t) + 1)) with (S (Z.to_nat (currentPhase (state t))))
      by (destruct Hp; lia).
    rewrite (drop_S (phases t) q _ Hq), program_ticks_cons. unfold cycle_ticks. lia.
  - rewrite (ticks_left_at t p Hp), Hw, Hz, Hl, period_ticks_0.
    rewrite drop_ge; [simpl; lia|]. unfold len in Hi. lia.
Qed.

End measure.

(** ** Composition of runs *)

Section runs.
Implicit Types (t : Timer) (n m : nat).

Lemma ticks_add n m t :
  ticks (n + m) t =
    ticks n t ≫= fun r : bool * Timer => if r.1 then mret r else ticks m r.2.
Proof.
  revert t. induction n as [|n IH]; intros t; simpl; [by rewrite bind_ret_l|].
  rewrite bind_assoc. apply bind_ext.
  intros [[] t']; simpl; [by rewrite bind_ret_l|apply IH].
Qed.

Lemma update_paused_eq t : isPaused t = true -> update t = mret (false, t).
Proof. intros Hp. unfold update. by rewrite Hp. Qed.

Lemma ticks_countdown k t :
  isPaused t = false -> in_int64 (currentTime (state t)) ->
  currentTime (state t) = Z.of_nat k * Second ->
  ticks k t = mret (false, with_state (set_currentTime 0) t).
Proof.
  revert t. induction k as [|k IH]; intros t Hrun Hr Hct.
  - simpl. f_equal. f_equal. destruct t as [[] ? ? ?]. simpl in *. by subst.
  - rewrite ticks_S, update_tick_down, bind_ret_l; [|done..|unfold Second in *; lia].
    simpl. rewrite IH; [done|done|simpl..].
    + unfold Second in *. int64_lia.
    + lia.
Qed.

End runs.

(** ** Theorems *)

(** Ticks while a timer is paused change nothing: after any number
    of ticks the timer is the same (countdown, work flag, cycle counter and
    phase index included), no notification has been sent and no call has
    reported completion. *)
Theorem ticks_paused n t : isPaused t = true -> ticks n t = mret (false, t).
Proof.
  intros Hp. induction n as [|n IH]; [done|].
  by rewrite ticks_S, update_paused_eq, bind_ret_l.
Qed.

Lemma ticks_paused_witness :
  ticks 90 (mkTimer (mkTimerState true (3 * Second) 1 0 "tea" "drink")
                    [mkTimerPhase (3 * Second) (2 * Second)] (-1) true) =
    mret (false, mkTimer (mkTimerState true (3 * Second) 1 0 "tea" "drink")
                         [mkTimerPhase (3 * Second) (2 * Second)] (-1) true).
Proof.
  apply (ticks_paused 90
    (mkTimer (mkTimerState true (3 * Second) 1 0 "tea" "drink")
             [mkTimerPhase (3 * Second) (2 * Second)] (-1) true)).
  reflexivity.
Defined.

(** C19: a work period of k seconds lasts k + 1 ticks: the first k ticks
    only count down, one second each without wrap-around, and leave the
    countdown at zero with the timer still working; the transition to the
    break, with its notification, happens on tick k + 1. *)
Theorem work_period_lasts k t p :
  isPaused t = false -> isWork (state t) = true -> cur_phase t p ->
  in_int64 (currentTime (state t)) -> currentTime (state t) = Z.of_nat k * Second ->
  ticks k t = mret (false, with_state (set_currentTime 0) t) /\
  ticks (S k) t =
    mkGoM [Notify (name (state t)) ("Break: " +:+ notifText (state t))]
          (Ok (false, enter_break (BreakDuration p) t)).
Proof.
  intros Hrun Hw Hp Hr Hct. pose proof (ticks_countdown k t Hrun Hr Hct) as Hk.
  split; [done|]. replace (S k) with (k + 1)%nat by lia.
  rewrite ticks_add, Hk, bind_ret_l. simpl.
  destruct (update_spec (with_state (set_currentTime 0) t)) as [| | |p'| | | |];
    try absurd_case.
  rewrite bind_Ok. simpl. destruct Hp as [_ Hp]. unfold cur_phase in *. simpl in *.
  destruct_and?. by simplify_eq.
Qed.

Lemma work_period_lasts_witness :
  ticks 2 (mkTimer (mkTimerState true (2 * Second) 1 0 "tea" "drink")
                   [mkTimerPhase (2 * Second) (1 * Second)] (-1) false) =
    mret (false, with_state (set_currentTime 0)
                   (mkTimer (mkTimerState true (2 * Second) 1 0 "tea" "drink")
                            [mkTimerPhase (2 * Second) (1 * Second)] (-1) false)) /\
  ticks 3 (mkTimer (mkTimerState true (2 * Second) 1 0 "tea" "drink")
                   [mkTimerPhase (2 * Second) (1 * Second)] (-1) false) =
    mkGoM [Notify "tea" "Break: drink"]
          (Ok (false, enter_break (1 * Second)
                        (mkTimer (mkTimerState true (2 * Second) 1 0 "tea" "drink")
                                 [mkTimerPhase (2 * Second) (1 * Second)] (-1) false))).
Proof.
  apply (work_period_lasts 2
    (mkTimer (mkTimerState true (2 * Second) 1 0 "tea" "drink")
             [mkTimerPhase (2 * Second) (1 * Second)] (-1) false)
    (mkTimerPhase (2 * Second) (1 * Second))); by_decide.
Defined.

(** ** Completion *)

(** [completed g]: the run ended with a call that reported completion. *)
Definition completed (g : GoM Notification (bool * Timer)) : bool :=
  match result g with
  | Ok (true, _) => true
  | _ => false
  end.

Section completion.
Implicit Types (t : Timer) (n m : nat).

Lemma completed_ticks_S n t :
  completed (ticks (S n) t) =
    match result (update t) with
    | Ok (true, _) => true
    | Ok (false, t') => completed (ticks n t')
    | Panicked _ => false
    end.
Proof.
  unfold completed. rewrite ticks_S, result_bind.
  by destruct (result (update t)) as [[[] t']|].
Qed.

Lemma returns_ticks_S n t b t1 t' :
  returns (update t) (false, t1) -> returns (ticks n t1) (b, t') ->
  returns (ticks (S n) t) (b, t').
Proof. intros H1 H2. rewrite ticks_S. by eapply returns_bind. Qed.

(** A running bounded timer with [S n] ticks left completes on tick
    [S n] and not before. *)
Lemma ticks_complete_at n t :
  wf_timer t -> maxCycles t <> -1 -> isPaused t = false ->
  ticks_left t = Z.of_nat (S n) ->
  (exists t', returns (ticks (S n) t) (true, t')) /\
  (forall m, (m <= n)%nat -> exists t', returns (ticks m t) (false, t')).
Proof.
  revert t. induction n as [|n IH]; intros t Hwf Hb Hrun Hl;
    destruct (update_ticks_left t Hwf Hb Hrun) as (es & [] & t1 & Hu & Ht1).
  - split; [exists t1; by rewrite (ticks_S_true _ _ _ _ Hu)|].
    intros m Hm. replace m with 0%nat by lia. by exists t.
  - destruct Ht1 as (Hwf1 & Hb1 & _ & Hl1).
    pose proof (ticks_left_pos t1 Hwf1 Hb1). lia.
  - lia.
  - destruct Ht1 as (Hwf1 & Hb1 & Hrun1 & Hl1).
    destruct (IH t1 Hwf1 Hb1 Hrun1 ltac:(lia)) as [[t' Hdone] Hbefore].
    assert (returns (update t) (false, t1)) as Hr by (by rewrite Hu).
    split; [exists t'; by eapply returns_ticks_S|].
    intros [|m] Hm; [by exists t|].
    destruct (Hbefore m ltac:(lia)) as [t2 Ht2]. exists t2. by eapply returns_ticks_S.
Qed.

End completion.

(** C2: a running, well-formed timer with a cycle bound completes after
    exactly [ticks_left] ticks: the call on that tick returns true, and
    every shorter run ends with a call that returned false.  The count is
    one tick per second of every work and break period, plus one tick per
    period for its transition. *)
Theorem bounded_timer_completes t :
  wf_timer t -> maxCycles t <> -1 -> isPaused t = false ->
  (exists t', returns (ticks (Z.to_nat (ticks_left t)) t) (true, t')) /\
  (forall m, (m < Z.to_nat (ticks_left t))%nat ->
     exists t', returns (ticks m t) (false, t')).
Proof.
  intros Hwf Hb Hrun. pose proof (ticks_left_pos t Hwf Hb) as Hpos.
  destruct (ticks_complete_at (pred (Z.to_nat (ticks_left t))) t Hwf Hb Hrun ltac:(lia))
    as [Hdone Hbefore].
  replace (S (pred (Z.to_nat (ticks_left t)))) with (Z.to_nat (ticks_left t)) in Hdone by lia.
  split; [done|]. intros m Hm. apply Hbefore. lia.
Qed.

Lemma bounded_timer_completes_witness :
  (exists t', returns
     (ticks 16 (mkTimer (mkTimerState true (2 * Second) 1 0 "tea" "drink")
                        [mkTimerPhase (2 * Second) (1 * Second);
                         mkTimerPhase (1 * Second) 0] 2 false))
     (true, t')) /\
  (forall m, (m < 16)%nat ->
     exists t', returns
       (ticks m (mkTimer (mkTimerState true (2 * Second) 1 0 "tea" "drink")
                         [mkTimerPhase (2 * Second) (1 * Second);
                          mkTimerPhase (1 * Second) 0] 2 false))
       (false, t')).
Proof.
  apply (bounded_timer_completes
    (mkTimer (mkTimerState true (2 * Second) 1 0 "tea" "drink")
             [mkTimerPhase (2 * Second) (1 * Second);
              mkTimerPhase (1 * Second) 0] 2 false)); by_decide.
Defined.

(** A call of [update] on an unlimited timer does not report completion. *)
Lemma update_unlimited t b t' : maxCycles t = -1 -> returns (update t) (b, t') -> b = false.
Proof.
  intros Hu Hr. destruct b; [|done]. unfold returns in Hr.
  destruct (update_spec t); simpl in Hr; simplify_eq. absurd_case.
Qed.

(** A timer with unlimited cycles (maxCycles = -1) never reports
    completion, however many ticks it is given. *)
Theorem unlimited_never_completes n t :
  maxCycles t = -1 -> completed (ticks n t) = false.
Proof.
  revert t. induction n as [|n IH]; intros t Hu; [done|].
  rewrite completed_ticks_S.
  destruct (result (update t)) as [[[] t']|] eqn:Hr; [|apply IH|done].
  - destruct (update_spec t); simpl in Hr; simplify_eq. absurd_case.
  - apply update_frame in Hr as (_ & -> & _). done.
Qed.

Lemma unlimited_never_completes_witness :
  completed (ticks 500 (mkTimer (mkTimerState true (2 * Second) 1 0 "tea" "drink")
                                [mkTimerPhase (2 * Second) (1 * Second)] (-1) false))
  = false.
Proof.
  apply (unlimited_never_completes 500
    (mkTimer (mkTimerState true (2 * Second) 1 0 "tea" "drink")
             [mkTimerPhase (2 * Second) (1 * Second)] (-1) false)).
  reflexivity.
Defined.

(** ** The invariant along a run *)

(** The outcome of a run of a well-formed timer. *)
Definition run_ok (t : Timer) (g : GoM Notification (bool * Timer)) : Prop :=
  exists b t', returns g (b, t') /\ (b = false -> wf_timer t') /\ same_program t t'.

Lemma same_program_trans t1 t2 t3 :
  same_program t1 t2 -> same_program t2 t3 -> same_program t1 t3.
Proof. unfold same_program. intros (?&?&?&?&?) (?&?&?&?&?). split_and!; congruence. Qed.

Lemma same_program_refl t : same_program t t.
Proof. done. Qed.

(** C5: no run of a well-formed timer panics and the invariant holds
    along it: after any number of ticks the calls have all returned, the
    programme, names and pause flag are those of the start, and unless the
    last call reported completion the timer is well formed (phase index in
    range, a bounded cycle counter between 1 and maxCycles, countdown a
    whole non-negative number of seconds within int64). *)
Theorem ticks_preserve_wf n t : wf_timer t -> run_ok t (ticks n t).
Proof.
  revert t. induction n as [|n IH]; intros t Hwf; [exists false, t; by split_and!|].
  destruct (update_wf_returns t Hwf) as ([] & t1 & Hu).
  - exists true, t1. split_and!; [|done|by eapply update_frame].
    rewrite ticks_S. by eapply returns_bind.
  - pose proof (update_frame _ _ _ Hu) as Hsame.
    destruct (IH t1) as (b & t' & Hrun & Hwf' & Hsame'); [by eapply update_wf_inv|].
    exists b, t'. split_and!; [by eapply returns_ticks_S|done|].
    by eapply same_program_trans.
Qed.

Lemma ticks_preserve_wf_witness :
  run_ok (mkTimer (mkTimerState true (2 * Second) 1 0 "tea" "drink")
                  [mkTimerPhase (2 * Second) (1 * Second)] (-1) false)
         (ticks 40 (mkTimer (mkTimerState true (2 * Second) 1 0 "tea" "drink")
                            [mkTimerPhase (2 * Second) (1 * Second)] (-1) false)).
Proof.
  apply (ticks_preserve_wf 40
    (mkTimer (mkTimerState true (2 * Second) 1 0 "tea" "drink")
             [mkTimerPhase (2 * Second) (1 * Second)] (-1) false)); by_decide.
Defined.
