(* ===== verification/Sweep.v ===== *)
(** * Sweep: the loop of the ticker goroutine

    startUpdateLoop walks the slice of timers from the last index down to
    0, calls [update] on each element and, when the call reports
    completion, removes the element in place with
    [append(s[:i], s[i+1:]...)].  [sweep_loop] is that loop, generic in the
    element type and in the step it calls; [sweep_ref] is its reference
    definition, a recursion over the list that keeps the elements whose
    step returned false.

    What the loop needs from the element is the interface [Steppable]: on
    the element's invariant the step returns and preserves the invariant.
    The timer discharges it in Manager.v. *)

From Stdlib Require Import ZArith Lia.
From stdpp Require Import base tactics option list numbers.
From S2P Require Import Prelude.

#[local] Open Scope Z_scope.

(** What the sweep asks of the element's step. *)
Class Steppable {E T : Type} (step : T -> GoM E (bool * T)) (inv : T -> Prop) : Prop := {
  step_returns t : inv t -> exists b t', returns (step t) (b, t');
  step_inv t t' : inv t -> returns (step t) (false, t') -> inv t'
}.

Section loops.
Context {E T : Type} (step : T -> GoM E (bool * T)).
Implicit Types (s pre post kept : list T) (x : T) (flag : bool) (n i : nat).

(** The loop [for i := len(s)-1; i >= 0; i--] with [n = i + 1]: the
    element is read, stepped through its pointer, removed when done; [flag]
    is needsDisplay, set by every iteration. *)
Fixpoint sweep_loop n s flag : GoM E (list T * bool) :=
  match n with
  | O => mret (s, flag)
  | S i =>
      x ← index s (Z.of_nat i);
      step x ≫= fun r : bool * T =>
      let s := <[i := r.2]> s in
      s ← (if r.1 then remove_at s (Z.of_nat i) else mret s);
      sweep_loop i s true
  end.

(** The reference: the later elements first, then the head; an element
    stays, in its stepped state, unless its step reported completion. *)
Fixpoint sweep_ref s : GoM E (list T) :=
  match s with
  | [] => mret []
  | x :: s' =>
      kept ← sweep_ref s';
      step x ≫= fun r : bool * T => mret (if r.1 then kept else r.2 :: kept)
  end.

(** The element a step leaves in the slice, if any. *)
Definition survivor x : option T :=
  match result (step x) with
  | Ok (false, x') => Some x'
  | _ => None
  end.

Lemma sweep_ref_snoc pre x :
  sweep_ref (pre ++ [x]) =
    step x ≫= fun r : bool * T =>
    kept ← sweep_ref pre; mret (kept ++ if r.1 then [] else [r.2]).
Proof.
  induction pre as [|a pre IH]; simpl.
  - rewrite bind_ret_l. apply bind_ext. intros [[] x']; by rewrite bind_ret_l.
  - rewrite IH, bind_assoc. apply bind_ext. intros r.
    rewrite !bind_assoc. apply bind_ext. intros kept.
    rewrite bind_ret_l, bind_assoc. apply bind_ext. intros [[] a']; by rewrite bind_ret_l.
Qed.

(** The loop at index [length pre] over [pre ++ post] is the reference on
    [pre]; the elements of [post], already visited, stay as they are. *)
Lemma sweep_loop_app pre post flag :
  sweep_loop (length pre) (pre ++ post) flag =
    kept ← sweep_ref pre; mret (kept ++ post, flag || bool_decide (pre <> [])).
Proof.
  revert post flag. induction pre as [|x pre IH] using rev_ind; intros post flag.
  - simpl. rewrite bind_ret_l. by rewrite orb_false_r.
  - rewrite length_app, Nat.add_1_r, <- app_assoc. simpl.
    rewrite (index_lookup _ _ x) by (by rewrite lookup_app_r, Nat.sub_diag).
    rewrite bind_ret_l, sweep_ref_snoc, bind_assoc. apply bind_ext. intros [done x'].
    simpl. rewrite insert_middle.
    assert (bool_decide (pre ++ [x] <> []) = true) as ->
      by (apply bool_decide_eq_true; by destruct pre).
    rewrite orb_true_r, bind_assoc. destruct done.
    + rewrite remove_at_delete by (rewrite length_app; simpl; lia).
      rewrite bind_ret_l, delete_middle, IH. apply bind_ext. intros kept.
      by rewrite bind_ret_l, app_nil_r.
    + rewrite bind_ret_l, IH. apply bind_ext. intros kept.
      by rewrite bind_ret_l, <- app_assoc.
Qed.

(** The loop over the whole slice is the reference. *)
Lemma sweep_loop_ref s flag :
  sweep_loop (length s) s flag =
    kept ← sweep_ref s; mret (kept, flag || bool_decide (s <> [])).
Proof.
  pose proof (sweep_loop_app s [] flag) as H. rewrite app_nil_r in H. rewrite H.
  apply bind_ext. intros kept. by rewrite app_nil_r.
Qed.

(** The events of a sweep that does not panic: those of each step, the
    last element's first. *)
Definition sweep_events s : list E := flat_map (fun x => events (step x)) (reverse s).

(** When every step returns, the reference returns the survivors. *)
Lemma sweep_ref_returns s :
  Forall (fun x => exists r, returns (step x) r) s ->
  returns (sweep_ref s) (omap survivor s).
Proof.
  induction 1 as [|x s [[b x'] Hx] _ IH]; [done|]. simpl.
  eapply returns_bind; [done|]. eapply returns_bind; [done|].
  unfold survivor. unfold returns in Hx. rewrite Hx. csimpl. by destruct b.
Qed.

Section steppable.
Context (inv : T -> Prop) `{!Steppable step inv}.

(** On elements that satisfy the invariant the reference returns the
    survivors in order, they satisfy the invariant, and every step ran. *)
Lemma sweep_ref_inv s :
  Forall inv s ->
  sweep_ref s = mkGoM (sweep_events s) (Ok (omap survivor s)) /\
  Forall inv (omap survivor s).
Proof.
  unfold sweep_events. induction 1 as [|x s Hx Hs [IH Hkept]]; [done|].
  simpl. rewrite IH, bind_Ok, reverse_cons, flat_map_app. simpl. rewrite app_nil_r.
  destruct (step_returns x Hx) as (b & x' & Hr). unfold returns in Hr.
  unfold survivor. destruct (step x) as [es r] eqn:Hstep. simpl in *. subst r.
  rewrite bind_Ok. simpl. rewrite app_nil_r. destruct b; simpl; [done|].
  split; [done|]. constructor; [|done].
  apply (step_inv x x' Hx). unfold returns. by rewrite Hstep.
Qed.

Lemma length_omap_survivor s : (length (omap survivor s) <= length s)%nat.
Proof. induction s as [|x s IH]; csimpl; [done|]. destruct (survivor x); csimpl; lia. Qed.

End steppable.

(** A property that a step keeps whenever it returns holds of what a
    sweep leaves, whenever the sweep returns. *)
Section preserved.
Context (P : T -> Prop) (Hstep : forall x b x', P x -> returns (step x) (b, x') -> P x').

Lemma sweep_ref_preserves s kept :
  Forall P s -> returns (sweep_ref s) kept -> Forall P kept.
Proof.
  intros Hs. revert kept. induction Hs as [|x s Hx _ IH]; intros kept; simpl.
  { by intros <-%returns_mret. }
  intros (kept' & Hk & ([b x'] & Hr & <-%returns_mret)%returns_bind_inv)%returns_bind_inv.
  destruct b; simpl; [by apply IH|]. constructor; [by eapply Hstep|by apply IH].
Qed.

Lemma sweep_loop_preserves s flag s' flag' :
  Forall P s -> returns (sweep_loop (length s) s flag) (s', flag') -> Forall P s'.
Proof.
  rewrite sweep_loop_ref.
  intros Hs (kept & Hk & [= <- _]%returns_mret)%returns_bind_inv.
  by eapply sweep_ref_preserves.
Qed.

End preserved.

End loops.
