(* ===== verification/Manager.v ===== *)
(** * Manager: the timer registry, the tick and the critical sections

    TimerManager of main.go holds the slice of active timers, the parallel
    slice of their configurations and the display channel (capacity 1).
    Its mutex is not a field here: each operation below is one critical
    section, and the interleaving of critical sections is the step
    relation of Concurrency.v.

    - [tick] is one iteration of the ticker goroutine of startUpdateLoop:
      the sweep over activeTimers and the non-blocking send on
      displayChan.
    - [startup] is the loading loop of main.
    - [toggle_pause], [reset_timer], [delete_timer] and [add_timer] are the
      critical sections of the commands p, r, d and a of main's switch,
      and [in_range] is the check in front of them; the commands
      themselves are in Command.v.

    The invariants: [wf_manager] (every timer well formed, at most one
    redraw request pending, no more timers than configurations), which the
    tick and the critical sections preserve, and [lockstep] (slot i of
    activeTimers runs slot i of configs), which startup establishes and
    which a tick keeps exactly when no timer completes in it. *)

From Stdlib Require Import ZArith Lia.
From stdpp Require Import base tactics option list numbers strings.
From S2P Require Import Prelude Duration Timer Sweep.

#[local] Open Scope Z_scope.

(** ** Data *)

Record TimerManager : Type := mkTimerManager {
  activeTimers : list Timer;
  configs : list TimerConfig;
  displayChan : list bool
}.

#[export] Instance TimerManager_eq_dec : EqDecision TimerManager.
Proof. solve_decision. Defined.

(** [make(chan bool, 1)]: the capacity of the display channel. *)
Definition displayChan_cap : nat := 1.

Definition NewTimerManager : TimerManager := mkTimerManager [] [] [].

Definition set_activeTimers (ts : list Timer) (tm : TimerManager) : TimerManager :=
  mkTimerManager ts (configs tm) (displayChan tm).

(** ** The display channel *)

(** [select { case ch <- v: default: }]: a send that never blocks; the
    value is dropped when the buffer is full. *)
Definition try_send (ch : list bool) (v : bool) : list bool :=
  if decide (length ch < displayChan_cap)%nat then ch ++ [v] else ch.

(** One receive of [for range tm.displayChan]; [None] when it would block. *)
Definition recv (ch : list bool) : option (bool * list bool) :=
  match ch with
  | v :: ch' => Some (v, ch')
  | [] => None
  end.

(** ** The tick *)

(** One iteration of the ticker goroutine: under the lock, the sweep over
    the active timers; after it, the redraw request if the loop ran. *)
Definition tick (tm : TimerManager) : GoM Notification TimerManager :=
  sweep_loop update (length (activeTimers tm)) (activeTimers tm) false
    ≫= fun r : list Timer * bool =>
  mret (mkTimerManager r.1 (configs tm)
          (if r.2 then try_send (displayChan tm) true else displayChan tm)).

(** ** Startup *)

(** The loop of main that appends a timer for every loaded configuration. *)
Fixpoint load_timers {E} (cs : list TimerConfig) (ts : list Timer) : GoM E (list Timer) :=
  match cs with
  | [] => mret ts
  | c :: cs' => t ← timerFromConfig c; load_timers cs' (ts ++ [t])
  end.

(** main up to the start of the goroutines, from the loaded configurations. *)
Definition startup {E} (loaded : list TimerConfig) : GoM E TimerManager :=
  ts ← load_timers loaded (activeTimers NewTimerManager);
  mret (mkTimerManager ts loaded (displayChan NewTimerManager)).

(** ** The commands *)

(** [num > 0 && num <= len(tm.activeTimers)]. *)
Definition in_range (num : Z) (tm : TimerManager) : Prop :=
  0 < num /\ num <= len (activeTimers tm).

#[export] Instance in_range_dec num tm : Decision (in_range num tm).
Proof. unfold in_range. apply _. Defined.

(** [tm.activeTimers[num-1].isPaused = !tm.activeTimers[num-1].isPaused]. *)
Definition toggle_pause {E} (num : Z) (tm : TimerManager) : GoM E TimerManager :=
  t ← index (activeTimers tm) (wrap64 (num - 1));
  mret (set_activeTimers
          (<[Z.to_nat (wrap64 (num - 1)) := set_isPaused (negb (isPaused t)) t]>
             (activeTimers tm)) tm).

(** [tm.activeTimers[num-1].state.currentTime =
     tm.activeTimers[num-1].phases[0].WorkDuration]. *)
Definition reset_timer {E} (num : Z) (tm : TimerManager) : GoM E TimerManager :=
  t ← index (activeTimers tm) (wrap64 (num - 1));
  p0 ← index (phases t) 0;
  mret (set_activeTimers
          (<[Z.to_nat (wrap64 (num - 1)) := with_state (set_currentTime (WorkDuration p0)) t]>
             (activeTimers tm)) tm).

(** The two removals of the delete command, timers first. *)
Definition delete_timer {E} (num : Z) (tm : TimerManager) : GoM E TimerManager :=
  ts ← remove_at (activeTimers tm) (wrap64 (num - 1));
  cs ← remove_at (configs tm) (wrap64 (num - 1));
  mret (mkTimerManager ts cs (displayChan tm)).

(** The two appends of the add command. *)
Definition add_timer (t : Timer) (c : TimerConfig) (tm : TimerManager) : TimerManager :=
  mkTimerManager (activeTimers tm ++ [t]) (configs tm ++ [c]) (displayChan tm).

(** ** Invariants *)

(** [runs_config t c]: timer [t] runs the programme of configuration [c]. *)
Definition runs_config (t : Timer) (c : TimerConfig) : Prop :=
  phases t = Phases c /\ maxCycles t = MaxCycles c /\
  name (state t) = Name c /\ notifText (state t) = NotifText c.

(** The two slices in lock-step: same length, slot [i] of one runs slot
    [i] of the other. *)
Definition lockstep (tm : TimerManager) : Prop :=
  Forall2 runs_config (activeTimers tm) (configs tm).

(** The display channel holds nothing or one request. *)
Definition wf_chan (ch : list bool) : Prop := ch = [] \/ ch = [true].

Definition wf_manager (tm : TimerManager) : Prop :=
  Forall wf_timer (activeTimers tm) /\
  wf_chan (displayChan tm) /\
  (length (activeTimers tm) <= length (configs tm))%nat.

#[export] Instance runs_config_dec t c : Decision (runs_config t c).
Proof. unfold runs_config. apply _. Defined.
#[export] Instance wf_chan_dec ch : Decision (wf_chan ch).
Proof. unfold wf_chan. apply _. Defined.
#[export] Instance lockstep_dec tm : Decision (lockstep tm).
Proof. unfold lockstep. apply _. Defined.
#[export] Instance wf_manager_dec tm : Decision (wf_manager tm).
Proof. unfold wf_manager. apply _. Defined.

(** The timer provides what the sweep asks of its elements. *)
#[export] Instance update_steppable : Steppable update wf_timer.
Proof. split; [apply update_wf_returns|apply update_wf_inv]. Qed.

(** ** The display channel: requests coalesce *)

Section channel.
Implicit Types (ch : list bool).

Lemma try_send_empty v : try_send [] v = [v].
Proof. done. Qed.

Lemma try_send_full ch v : (displayChan_cap <= length ch)%nat -> try_send ch v = ch.
Proof. intros H. unfold try_send. rewrite decide_False; [done|lia]. Qed.

Lemma try_send_wf ch : wf_chan ch -> try_send ch true = [true].
Proof. by intros [-> | ->]. Qed.

Lemma try_send_length ch v : (length ch <= displayChan_cap)%nat ->
  (length (try_send ch v) <= displayChan_cap)%nat.
Proof.
  unfold try_send. intros H. case_decide; [|done]. rewrite length_app. simpl. lia.
Qed.

End channel.

(** ** The tick on a well-formed manager *)

(** The manager a tick leaves: the survivors, the same configurations, a
    redraw request pending if there was any timer. *)
Definition ticked (tm : TimerManager) : TimerManager :=
  mkTimerManager (omap (survivor update) (activeTimers tm)) (configs tm)
    (if bool_decide (activeTimers tm <> []) then try_send (displayChan tm) true
     else displayChan tm).

Section tick_lemmas.
Implicit Types (tm : TimerManager).

Lemma tick_eq_ref tm :
  tick tm =
    kept ← sweep_ref update (activeTimers tm);
    mret (mkTimerManager kept (configs tm)
            (if bool_decide (activeTimers tm <> []) then try_send (displayChan tm) true
             else displayChan tm)).
Proof.
  unfold tick. rewrite sweep_loop_ref, bind_assoc. apply bind_ext. intros kept.
  by rewrite bind_ret_l.
Qed.

(** A tick in which every update returns leaves [ticked]. *)
Lemma tick_returns_ticked tm :
  Forall (fun t => exists r, returns (update t) r) (activeTimers tm) ->
  returns (tick tm) (ticked tm).
Proof.
  intros H. rewrite tick_eq_ref. eapply returns_bind; [by apply sweep_ref_returns|done].
Qed.

Lemma tick_wf_eq tm :
  Forall wf_timer (activeTimers tm) ->
  tick tm = mkGoM (sweep_events update (activeTimers tm)) (Ok (ticked tm)).
Proof.
  intros Hts. unfold tick. rewrite sweep_loop_ref.
  destruct (sweep_ref_inv update wf_timer _ Hts) as [-> _].
  rewrite bind_Ok. simpl. rewrite bind_Ok. simpl. by rewrite !app_nil_r.
Qed.

Lemma ticked_wf tm : wf_manager tm -> wf_manager (ticked tm).
Proof.
  intros (Hts & Hch & Hlen). unfold wf_manager, ticked. simpl. split_and!.
  - by destruct (sweep_ref_inv update wf_timer _ Hts) as [_ ?].
  - case_bool_decide; [|done]. right. by apply try_send_wf.
  - pose proof (length_omap_survivor update (activeTimers tm)). lia.
Qed.

End tick_lemmas.

(** [n] consecutive ticks with no receive on the display channel between
    them. *)
Fixpoint ticks_all (n : nat) (tm : TimerManager) : GoM Notification TimerManager :=
  match n with
  | O => mret tm
  | S n => tm' ← tick tm; ticks_all n tm'
  end.

Lemma ticked_pending tm :
  wf_manager tm -> displayChan tm = [true] -> displayChan (ticked tm) = [true].
Proof.
  intros (_ & Hch & _) Hp. unfold ticked. simpl. case_bool_decide; [|done].
  by apply try_send_wf.
Qed.

Lemma ticks_all_pending n tm :
  wf_manager tm -> displayChan tm = [true] ->
  exists tm', returns (ticks_all n tm) tm' /\ displayChan tm' = [true] /\ wf_manager tm'.
Proof.
  revert tm. induction n as [|n IH]; intros tm Hwf Hp; [by exists tm|].
  destruct (IH (ticked tm)) as (tm' & Hr & Hp' & Hwf');
    [by apply ticked_wf|by apply ticked_pending|].
  exists tm'. split; [|done]. simpl.
  eapply returns_bind; [|done]. unfold returns. by rewrite tick_wf_eq by apply Hwf.
Qed.

(** ** Theorems: the tick *)

(** C4: the ticker's loop, which walks the slice from the last index to
    the first and removes completed timers in place, computes exactly the
    reference sweep: every timer is updated once, the later ones first;
    the timers whose update returned false stay, in their order and in
    their updated state; the configurations are untouched; and a redraw is
    requested, without blocking, if and only if the slice was not empty. *)
Theorem tick_sweep_ref tm :
  tick tm =
    kept ← sweep_ref update (activeTimers tm);
    mret (mkTimerManager kept (configs tm)
            (if bool_decide (activeTimers tm <> []) then try_send (displayChan tm) true
             else displayChan tm)).
Proof. apply tick_eq_ref. Qed.

(** A tick of a well-formed manager does not panic, sends the
    notifications of every timer's update (the last timer's first), leaves
    exactly the timers whose update returned false, and preserves the
    manager's invariant: every active timer well formed, at most one
    redraw request pending, no more timers than configurations. *)
Theorem tick_preserves_wf tm :
  wf_manager tm ->
  tick tm = mkGoM (sweep_events update (activeTimers tm)) (Ok (ticked tm)) /\
  wf_manager (ticked tm).
Proof. intros Hwf. split; [apply tick_wf_eq, Hwf|by apply ticked_wf]. Qed.

(** C36: redraw requests coalesce: however many ticks run before the
    renderer receives, starting from a well-formed manager with at least
    one timer, exactly one request is pending on the display channel. *)
Theorem redraw_coalesces n tm :
  wf_manager tm -> activeTimers tm <> [] ->
  exists tm', returns (ticks_all (S n) tm) tm' /\ displayChan tm' = [true].
Proof.
  intros Hwf Hne.
  destruct (ticks_all_pending n (ticked tm)) as (tm' & Hr & Hp & _).
  - by apply ticked_wf.
  - unfold ticked. simpl. rewrite bool_decide_eq_true_2 by done.
    apply try_send_wf, Hwf.
  - exists tm'. split; [|done]. simpl.
    eapply returns_bind; [|done]. unfold returns. by rewrite tick_wf_eq by apply Hwf.
Qed.

(** ** The commands on a manager *)

Section command_lemmas.
Context {E : Type}.
Implicit Types (tm : TimerManager) (num : Z) (t : Timer).

(** The index [num-1] of a command in range, as a position of the list. *)
Lemma in_range_index num tm :
  in_int64 num -> in_range num tm ->
  wrap64 (num - 1) = num - 1 /\ 0 <= num - 1 /\
  (Z.to_nat (num - 1) < length (activeTimers tm))%nat.
Proof.
  unfold in_range, len. intros Hn [H0 Hl]. split_and!; [|lia..].
  apply wrap64_id. int64_lia.
Qed.

Lemma index_at_nat {A} (s : list A) (i : Z) x :
  0 <= i -> s !! Z.to_nat i = Some x -> @index E A s i = mret x.
Proof. intros Hi Hx. unfold index. rewrite decide_True by done. by rewrite Hx. Qed.

Lemma remove_at_nat {A} (s : list A) (i : Z) :
  0 <= i -> (Z.to_nat i < length s)%nat ->
  @remove_at E A s i = mret (delete (Z.to_nat i) s).
Proof.
  intros Hi Hl. rewrite <- (remove_at_delete (E:=E)) by done. f_equal. lia.
Qed.

Lemma toggle_pause_eq num tm t :
  in_int64 num -> in_range num tm -> activeTimers tm !! Z.to_nat (num - 1) = Some t ->
  @toggle_pause E num tm =
    mret (set_activeTimers
            (<[Z.to_nat (num - 1) := set_isPaused (negb (isPaused t)) t]> (activeTimers tm))
            tm).
Proof.
  intros Hn Hr Ht. unfold toggle_pause.
  destruct (in_range_index num tm Hn Hr) as (-> & H0 & _). by rewrite (index_at_nat _ _ t), bind_ret_l.
Qed.

Lemma reset_timer_eq num tm t p0 :
  in_int64 num -> in_range num tm -> activeTimers tm !! Z.to_nat (num - 1) = Some t ->
  phases t !! 0%nat = Some p0 ->
  @reset_timer E num tm =
    mret (set_activeTimers
            (<[Z.to_nat (num - 1) := with_state (set_currentTime (WorkDuration p0)) t]>
               (activeTimers tm))
            tm).
Proof.
  intros Hn Hr Ht Hp. unfold reset_timer.
  destruct (in_range_index num tm Hn Hr) as (-> & H0 & _).
  by rewrite (index_at_nat _ _ t), bind_ret_l, (index_at_nat _ 0 p0), bind_ret_l.
Qed.

Lemma delete_timer_eq num tm :
  in_int64 num -> in_range num tm ->
  (length (activeTimers tm) <= length (configs tm))%nat ->
  @delete_timer E num tm =
    mret (mkTimerManager (delete (Z.to_nat (num - 1)) (activeTimers tm))
                         (delete (Z.to_nat (num - 1)) (configs tm)) (displayChan tm)).
Proof.
  intros Hn Hr Hlen. unfold delete_timer.
  destruct (in_range_index num tm Hn Hr) as (-> & H0 & Hl). rewrite !remove_at_nat, !bind_ret_l by (done || lia). done.
Qed.

End command_lemmas.

Lemma set_isPaused_negb_twice t :
  set_isPaused (negb (negb (isPaused t))) (set_isPaused (negb (isPaused t)) t) = t.
Proof. destruct t as [? ? ? []]; done. Qed.

Lemma wf_timer_set_isPaused b t : wf_timer t -> wf_timer (set_isPaused b t).
Proof. done. Qed.

Lemma wf_timer_reset t p0 :
  wf_timer t -> phases t !! 0%nat = Some p0 ->
  wf_timer (with_state (set_currentTime (WorkDuration p0)) t).
Proof.
  intros (Hprog & Hi & Hc & Hm & _) Hp. unfold wf_timer. simpl.
  split_and!; try done; try lia.
  destruct Hprog as (Hps & _). by apply (wf_phase_at _ _ _ Hps) in Hp as [? _].
Qed.

Lemma wf_timer_first_phase t : wf_timer t -> exists p0, phases t !! 0%nat = Some p0.
Proof.
  intros ((_ & Hlen & _) & _). apply lookup_lt_is_Some_2. unfold len in Hlen. lia.
Qed.

(** ** Example data for the witnesses *)

(** A bounded timer on the last tick of its only cycle. *)
Definition example_A : Timer :=
  mkTimer (mkTimerState false 0 1 0 "A" "stand up") [mkTimerPhase (2 * Second) Second] 1 false.
(** A timer in the break of its second phase, second cycle of four. *)
Definition example_B : Timer :=
  mkTimer (mkTimerState false (3 * Second) 2 1 "B" "drink")
          [mkTimerPhase (25 * Minute) (5 * Minute); mkTimerPhase (50 * Minute) (10 * Minute)]
          4 false.
Definition config_A : TimerConfig :=
  mkTimerConfig "A" "stand up" [mkTimerPhase (2 * Second) Second] 1.
Definition config_B : TimerConfig :=
  mkTimerConfig "B" "drink"
    [mkTimerPhase (25 * Minute) (5 * Minute); mkTimerPhase (50 * Minute) (10 * Minute)] 4.
Definition example_manager : TimerManager :=
  mkTimerManager [example_A; example_B] [config_A; config_B] [].

Lemma tick_preserves_wf_witness :
  tick example_manager =
    mkGoM (sweep_events update (activeTimers example_manager))
          (Ok (ticked example_manager)) /\
  wf_manager (ticked example_manager).
Proof. apply (tick_preserves_wf example_manager). by_decide. Defined.

Lemma redraw_coalesces_witness :
  exists tm', returns (ticks_all 8 example_manager) tm' /\ displayChan tm' = [true].
Proof. apply (redraw_coalesces 7 example_manager); by_decide. Defined.

(** ** Lock-step of timers and configurations *)

Lemma same_program_runs_config t t' c :
  same_program t t' -> runs_config t c -> runs_config t' c.
Proof.
  unfold same_program, runs_config. intros (Hp & Hm & _ & Hn & Ht) (? & ? & ? & ?).
  split_and!; congruence.
Qed.

Lemma survivor_same_program t t' : survivor update t = Some t' -> same_program t t'.
Proof.
  unfold survivor. destruct (result (update t)) as [[[] t'']|] eqn:Hr; [done| |done].
  intros [= ->]. by apply (update_frame t false).
Qed.

(** The survivors of a sweep run the configurations they ran before, as
    long as every timer survives. *)
Lemma survivors_lockstep ts cs :
  Forall2 runs_config ts cs -> Forall (fun t => is_Some (survivor update t)) ts ->
  Forall2 runs_config (omap (survivor update) ts) cs.
Proof.
  induction 1 as [|t c ts cs Htc _ IH]; [constructor|].
  intros [[t' Ht'] Hall]%Forall_cons. csimpl. rewrite Ht'. csimpl.
  constructor; [|by apply IH]. eapply same_program_runs_config; [|done].
  by apply survivor_same_program.
Qed.

(** A timer that does not survive makes the slice shorter. *)
Lemma length_omap_survivor_lt ts :
  Exists (fun t => survivor update t = None) ts ->
  (length (omap (survivor update) ts) < length ts)%nat.
Proof.
  induction 1 as [t ts Ht|t ts _ IH]; csimpl.
  - rewrite Ht. pose proof (length_omap_survivor update ts). lia.
  - destruct (survivor update t); csimpl; lia.
Qed.

Lemma delete_lockstep i tm :
  lockstep tm ->
  Forall2 runs_config (delete i (activeTimers tm)) (delete i (configs tm)).
Proof.
  unfold lockstep. generalize (activeTimers tm) (configs tm). intros ts cs H. revert i.
  induction H as [|t c ts cs Htc Hrest IH]; intros [|i]; simpl; try done; by constructor.
Qed.

(** ** Theorems: the tick and the lock-step *)

(** C8: a tick keeps the two slices in lock-step exactly when no timer
    completes in it: the ticker removes a completed timer from
    activeTimers and leaves its configuration in configs, so after a
    completion the slices differ in length and slot i of one no longer
    belongs to slot i of the other. *)
Theorem tick_lockstep_iff tm tm' :
  wf_manager tm -> lockstep tm -> returns (tick tm) tm' ->
  lockstep tm' <-> Forall (fun t => is_Some (survivor update t)) (activeTimers tm).
Proof.
  intros Hwf Hl Hr. unfold returns in Hr. rewrite tick_wf_eq in Hr by apply Hwf.
  injection Hr as <-. unfold lockstep, ticked. simpl. split; [|by apply survivors_lockstep].
  intros Hl'. apply Forall_forall. intros t Ht.
  destruct (survivor update t) eqn:Hs; [done|]. exfalso.
  assert (Exists (fun t => survivor update t = None) (activeTimers tm)) as Hex
    by (apply Exists_exists; eauto).
  apply length_omap_survivor_lt in Hex.
  apply Forall2_length in Hl, Hl'. unfold lockstep in Hl. lia.
Qed.

Lemma tick_lockstep_iff_witness :
  lockstep (mkTimerManager [with_state (set_currentTime (2 * Second)) example_B] [config_B] [true])
  <-> Forall (fun t => is_Some (survivor update t)) [example_B].
Proof.
  apply (tick_lockstep_iff (mkTimerManager [example_B] [config_B] [])); by_decide.
Defined.

(** ** The invariant under the commands' critical sections *)

Lemma wf_manager_insert i t tm :
  wf_manager tm -> wf_timer t ->
  wf_manager (set_activeTimers (<[i := t]> (activeTimers tm)) tm).
Proof.
  intros (Hts & Hch & Hlen) Ht. unfold wf_manager. simpl. rewrite length_insert.
  split_and!; [|done..]. by apply Forall_insert.
Qed.

Lemma wf_manager_delete i tm :
  wf_manager tm ->
  wf_manager (mkTimerManager (delete i (activeTimers tm)) (delete i (configs tm))
                             (displayChan tm)).
Proof.
  intros (Hts & Hch & Hlen). unfold wf_manager. simpl. split_and!; [|done|].
  - by apply Forall_delete.
  - by apply length_delete_mono.
Qed.

(** ** Startup *)

(** The timer [timerFromConfig] builds from a configuration whose first
    phase is [p0]. *)
Definition fresh_timer (c : TimerConfig) (p0 : TimerPhase) : Timer :=
  mkTimer (mkTimerState true (WorkDuration p0) 1 0 (Name c) (NotifText c))
          (Phases c) (MaxCycles c) false.

(** The timers of a list of configurations, for those that have a phase. *)
Definition fresh_timers (cs : list TimerConfig) : list Timer :=
  omap (fun c => fresh_timer c <$> head (Phases c)) cs.

Section startup_lemmas.
Context {E : Type}.
Implicit Types (c : TimerConfig) (cs : list TimerConfig) (ts : list Timer).

Lemma timerFromConfig_fresh c p0 :
  head (Phases c) = Some p0 -> @timerFromConfig E c = mret (fresh_timer c p0).
Proof.
  intros Hp. unfold timerFromConfig.
  rewrite (index_at_nat _ 0 p0), bind_ret_l; [done..|]. by rewrite <- head_lookup.
Qed.

Lemma timerFromConfig_empty c :
  Phases c = [] -> @timerFromConfig E c = raise (IndexOutOfRange 0 0).
Proof.
  intros Hp. unfold timerFromConfig.
  by rewrite Hp, index_out_of_range, bind_raise by (unfold len; simpl; lia).
Qed.

Lemma load_timers_fresh cs ts :
  Forall (fun c => Phases c <> []) cs ->
  @load_timers E cs ts = mret (ts ++ fresh_timers cs).
Proof.
  intros H. revert ts. induction H as [|c cs Hc _ IH]; intros ts; simpl.
  - by rewrite app_nil_r.
  - unfold fresh_timers. csimpl. destruct (Phases c) as [|p0 ps] eqn:Hp; [done|].
    rewrite (timerFromConfig_fresh c p0), bind_ret_l, IH by (by rewrite Hp).
    csimpl. by rewrite <- app_assoc.
Qed.

Lemma load_timers_panics cs ts :
  Exists (fun c => Phases c = []) cs -> panics (@load_timers E cs ts).
Proof.
  intros H. revert ts. induction H as [c cs Hc|c cs _ IH]; intros ts; simpl.
  - apply panics_bind_l. rewrite timerFromConfig_empty by done. by eexists.
  - destruct (Phases c) as [|p0 ps] eqn:Hp.
    + apply panics_bind_l. rewrite timerFromConfig_empty by done. by eexists.
    + rewrite (timerFromConfig_fresh c p0), bind_ret_l by (by rewrite Hp). apply IH.
Qed.

End startup_lemmas.

Lemma fresh_timers_lockstep cs :
  Forall (fun c => Phases c <> []) cs -> Forall2 runs_config (fresh_timers cs) cs.
Proof.
  unfold fresh_timers. induction 1 as [|c cs Hc _ IH]; csimpl; [constructor|].
  destruct (Phases c) as [|p0 ps] eqn:Hp; [done|]. csimpl. constructor; [|done].
  unfold runs_config, fresh_timer. simpl. by rewrite Hp.
Qed.

Lemma fresh_timer_wf c p0 :
  wf_config c -> head (Phases c) = Some p0 -> wf_timer (fresh_timer c p0).
Proof.
  intros (Hps & Hlen & Hm) Hp. rewrite head_lookup in Hp.
  pose proof (wf_phase_at _ _ _ Hps Hp) as [? _].
  unfold wf_timer, wf_program, wf_maxCycles, int64_max in *. simpl.
  split_and!; try done; lia.
Qed.

Lemma wf_config_nonempty c : wf_config c -> Phases c <> [].
Proof. intros (_ & Hlen & _) Hp. rewrite Hp in Hlen. unfold len in Hlen. simpl in Hlen. lia. Qed.

Lemma fresh_timers_wf cs : Forall wf_config cs -> Forall wf_timer (fresh_timers cs).
Proof.
  unfold fresh_timers. induction 1 as [|c cs Hc _ IH]; csimpl; [constructor|].
  destruct (head (Phases c)) as [p0|] eqn:Hp; csimpl; [|done].
  constructor; [|done]. by apply fresh_timer_wf.
Qed.

Lemma startup_eq_fresh {E} (loaded : list TimerConfig) :
  Forall (fun c => Phases c <> []) loaded ->
  @startup E loaded = mret (mkTimerManager (fresh_timers loaded) loaded []).
Proof. intros H. unfold startup. by rewrite load_timers_fresh, bind_ret_l. Qed.

(** C34: startup on loaded configurations that all have a phase does not
    panic and builds the manager with one fresh timer per configuration, in
    order, the loaded configurations as they are and an empty display
    channel; the two slices are in lock-step, and the manager is well
    formed when the configurations are. *)
Theorem startup_lockstep {E} (loaded : list TimerConfig) :
  Forall (fun c => Phases c <> []) loaded ->
  @startup E loaded = mret (mkTimerManager (fresh_timers loaded) loaded []) /\
  lockstep (mkTimerManager (fresh_timers loaded) loaded []) /\
  (Forall wf_config loaded -> wf_manager (mkTimerManager (fresh_timers loaded) loaded [])).
Proof.
  intros H. split_and!; [by apply startup_eq_fresh|by apply fresh_timers_lockstep|].
  intros Hwf. unfold wf_manager. simpl. split_and!; [by apply fresh_timers_wf|by left|].
  by rewrite (Forall2_length _ _ _ (fresh_timers_lockstep loaded H)).
Qed.

Lemma startup_lockstep_witness :
  @startup unit [config_A; config_B] =
    mret (mkTimerManager (fresh_timers [config_A; config_B]) [config_A; config_B] []) /\
  lockstep (mkTimerManager (fresh_timers [config_A; config_B]) [config_A; config_B] []) /\
  (Forall wf_config [config_A; config_B] ->
   wf_manager (mkTimerManager (fresh_timers [config_A; config_B]) [config_A; config_B] [])).
Proof. apply (startup_lockstep [config_A; config_B]). by_decide. Defined.

(** Startup panics exactly when some loaded configuration has no
    phase: the file is decoded without validation, and timerFromConfig
    indexes Phases[0]. *)
Theorem startup_panics_iff {E} (loaded : list TimerConfig) :
  panics (@startup E loaded) <-> Exists (fun c => Phases c = []) loaded.
Proof.
  split.
  - intros Hp. destruct (decide (Exists (fun c => Phases c = []) loaded)) as [|Hn]; [done|].
    apply not_Exists_Forall in Hn; [|apply _].
    rewrite startup_eq_fresh in Hp by (eapply Forall_impl; [done|]; by intros c ?).
    by destruct Hp.
  - intros Hex. unfold startup. by apply panics_bind_l, load_timers_panics.
Qed.
