(* ===== verification/Display.v ===== *)
(** * Display: the status line and the screen

    [displayTimers] of main.go writes the list of timers and the command
    menu with ANSI escape sequences; [Timer_String] (Timer.v) is the line
    of one timer.  Here the screen is a pure function from the manager to
    the text written to the terminal: the bytes of all the fmt.Print calls
    of one call of displayTimers, in order.  The lock that displayTimers
    holds while it writes the timer lines makes that text a snapshot of
    one state of the manager.

    The theorems say what the status line shows of a well-formed timer
    (the clock mm:ss of the remaining whole seconds, the cycle counter,
    the phase number from 1). *)

From Stdlib Require Import ZArith Lia Ascii String.
From stdpp Require Import base tactics option list numbers strings pretty.
From S2P Require Import Prelude Duration Timer Sweep Manager.

#[local] Open Scope Z_scope.

(** ** The constants of main.go *)

Definition ESC : string := String "027" EmptyString.
Definition NL : string := String "010" EmptyString.

Definition clearScreen : string := ESC +:+ "[2J".
Definition moveToTop : string := ESC +:+ "[H".
Definition clearLine : string := ESC +:+ "[K".
Definition saveCursor : string := ESC +:+ "[s".
Definition restoreCursor : string := ESC +:+ "[u".
Definition clearToBottom : string := ESC +:+ "[J".
Definition configFile : string := "timers.json".

(** ** The screen *)

Definition clearDisplay : string := clearScreen +:+ moveToTop.

(** The body of the loop of displayTimers for the timer at index [i]. *)
Definition timer_line (i : nat) (t : Timer) : string :=
  let status := if isPaused t then " (PAUSED)" else "" in
  clearLine +:+ pretty (Z.of_nat i + 1) +:+ ". " +:+ Timer_String t +:+ status +:+ NL.

(** The five lines of the command menu. *)
Definition menu : string :=
  clearLine +:+ NL +:+ "Commands:" +:+ NL
  +:+ clearLine +:+ "a - Add new timer" +:+ NL
  +:+ clearLine +:+ "p <number> - Pause/Resume timer" +:+ NL
  +:+ clearLine +:+ "r <number> - Reset timer" +:+ NL
  +:+ clearLine +:+ "d <number> - Delete timer" +:+ NL
  +:+ clearLine +:+ "q - Quit" +:+ NL.

Definition concat_strings (ss : list string) : string := foldr String.app "" ss.

Definition displayTimers (preserveCommandLine : bool) (tm : TimerManager) : string :=
  (if preserveCommandLine then saveCursor +:+ moveToTop else clearDisplay)
  +:+ clearLine +:+ "=== Active Timers ===" +:+ NL
  +:+ concat_strings (imap timer_line (activeTimers tm))
  +:+ menu
  +:+ (if preserveCommandLine then restoreCursor else "").

(** ** The two-digit fields *)

Section fmt.
Implicit Types (n k : Z).

Lemma pretty_digit n :
  0 <= n < 10 -> pretty n = String (pretty_N_char (Z.to_N n)) EmptyString.
Proof.
  intros Hn. destruct n as [|p|p]; [done| |lia].
  change (pretty (Z.pos p)) with (pretty_N_go (N.pos p) "").
  rewrite pretty_N_go_step by done.
  by rewrite N.div_small, N.mod_small, pretty_N_go_0 by lia.
Qed.

Lemma pretty_two_digits n :
  10 <= n < 100 ->
  pretty n = String (pretty_N_char (Z.to_N (n / 10)))
               (String (pretty_N_char (Z.to_N (n mod 10))) EmptyString).
Proof.
  intros Hn. destruct n as [|p|p]; try lia.
  change (pretty (Z.pos p)) with (pretty_N_go (N.pos p) "").
  assert (0 < N.pos p `div` 10)%N as Hq.
  { apply N.div_str_pos. lia. }
  rewrite pretty_N_go_step, pretty_N_go_step by (done || lia).
  rewrite (N.div_small (_ `div` 10) 10), pretty_N_go_0, (N.mod_small (_ `div` 10) 10).
  - f_equal; [|f_equal]; f_equal; [by rewrite Z2N.inj_div|by rewrite Z2N.inj_mod].
  - apply N.Div0.div_lt_upper_bound. lia.
  - apply N.Div0.div_lt_upper_bound. lia.
Qed.

(** %02d of a number below one hundred is two characters. *)
Lemma fmt_02d_length n : 0 <= n < 100 -> String.length (fmt_02d n) = 2%nat.
Proof.
  intros Hn. unfold fmt_02d. case_decide.
  - by rewrite pretty_digit.
  - by rewrite pretty_two_digits by lia.
Qed.

End fmt.

(** ** The status line of a well-formed timer *)

(** The whole seconds a timer has left. *)
Definition seconds_left (t : Timer) : Z := currentTime (state t) / Second.

Lemma wf_timer_clock t :
  wf_timer t ->
  int_Minutes (currentTime (state t)) = seconds_left t / 60 /\
  Z.rem (int_Seconds (currentTime (state t))) 60 = seconds_left t mod 60 /\
  0 <= seconds_left t mod 60 < 60 /\
  wrap64 (currentPhase (state t) + 1) = currentPhase (state t) + 1.
Proof.
  intros ((_ & Hlen & _) & Hi & _ & _ & [Hw H64]). unfold seconds_left.
  destruct (whole_seconds_inv _ Hw) as (k & Hk & Hct). rewrite Hct.
  rewrite Z.div_mul by done.
  rewrite int_Minutes_whole, int_Seconds_whole by done.
  pose proof (Z.mod_pos_bound k 60 ltac:(lia)).
  split_and!; [done|by rewrite Z.rem_mod_nonneg by lia|lia..|].
  apply wrap64_id. int64_lia.
Qed.

(** ** Theorems *)

(** C38: the status line of a well-formed timer shows its name, Work or
    Break, the remaining whole seconds as a clock mm:ss (seconds always two
    digits, below 60), the cycle counter with the bound or the sign of
    infinity, and the phase number counted from 1, out of the number of
    phases. *)
Theorem Timer_String_clock t :
  wf_timer t ->
  Timer_String t =
    name (state t) +:+ " - " +:+ (if isWork (state t) then "Work" else "Break") +:+ ": "
    +:+ fmt_02d (seconds_left t / 60) +:+ ":" +:+ fmt_02d (seconds_left t mod 60)
    +:+ " (Cycle "
    +:+ (if decide (maxCycles t = -1) then pretty (cycles (state t)) +:+ " (∞)"
         else pretty (cycles (state t)) +:+ "/" +:+ pretty (maxCycles t))
    +:+ ") " +:+ ("Phase " +:+ pretty (currentPhase (state t) + 1) +:+ "/"
                  +:+ pretty (len (phases t))) /\
  String.length (fmt_02d (seconds_left t mod 60)) = 2%nat /\
  1 <= currentPhase (state t) + 1 <= len (phases t).
Proof.
  intros Hwf. destruct (wf_timer_clock t Hwf) as (Hm & Hs & Hlt & Hp).
  unfold Timer_String. rewrite Hm, Hs, Hp. destruct Hwf as (_ & Hi & _).
  split_and!; [done|apply fmt_02d_length; lia|lia..].
Qed.

Lemma Timer_String_clock_witness :
  Timer_String example_B =
    name (state example_B) +:+ " - "
    +:+ (if isWork (state example_B) then "Work" else "Break") +:+ ": "
    +:+ fmt_02d (seconds_left example_B / 60) +:+ ":"
    +:+ fmt_02d (seconds_left example_B mod 60)
    +:+ " (Cycle "
    +:+ (if decide (maxCycles example_B = -1) then pretty (cycles (state example_B)) +:+ " (∞)"
         else pretty (cycles (state example_B)) +:+ "/" +:+ pretty (maxCycles example_B))
    +:+ ") " +:+ ("Phase " +:+ pretty (currentPhase (state example_B) + 1) +:+ "/"
                  +:+ pretty (len (phases example_B))) /\
  String.length (fmt_02d (seconds_left example_B mod 60)) = 2%nat /\
  1 <= currentPhase (state example_B) + 1 <= len (phases example_B).
Proof. apply (Timer_String_clock example_B). by_decide. Defined.

(** The status line of the example, as the terminal shows it. *)
Example Timer_String_example :
  Timer_String example_B = "B - Break: 00:03 (Cycle 2/4) Phase 2/2" /\
  Timer_String (mkTimer (mkTimerState true (25 * Minute) 1 0 "deep work" "stretch")
                        [mkTimerPhase (25 * Minute) (5 * Minute)] (-1) false)
    = "deep work - Work: 25:00 (Cycle 1 (∞)) Phase 1/1".
Proof. by vm_compute. Qed.
