(* ===== verification/Command.v ===== *)
(** * Command: the command loop of main

    The loop of main reads a line, trims it and dispatches on its first
    byte: a (add, after the dialogue of createTimer), p, r and d with a
    number, q, anything else.  The events of the main goroutine are the
    texts it prints and the configuration lists it saves.

    - [cmd_pause], [cmd_reset], [cmd_delete], [cmd_add]: the cases of the
      switch from the scanned number on: range check, critical section
      (Manager.v), save, redraw, prompt.
    - [createTimer]: the dialogue, reading from the lines still to come.
    - [command], [main_loop]: one iteration of the loop and the loop.

    Standard input is the list of the lines not yet read; at its end
    every read returns the empty text at once, as ReadString does at EOF
    (main.go discards its error).  The loops that can then spin for ever
    take fuel: one unit per iteration. *)

From Stdlib Require Import ZArith Lia Ascii String.
From stdpp Require Import base tactics option list numbers strings pretty.
From S2P Require Import Prelude GoLib Duration Parse Timer Sweep Manager Display.

#[local] Open Scope Z_scope.

(** ** Events of the main goroutine *)

Inductive MainEvent : Type :=
  | Print (s : string)
  | SaveConfigs (cs : list TimerConfig).

#[export] Instance MainEvent_eq_dec : EqDecision MainEvent.
Proof. solve_decision. Defined.

(** [fmt.Print("\nEnter command: ")]. *)
Definition prompt : string := NL +:+ "Enter command: ".

(** [tm.displayTimers(false)]. *)
Definition show (tm : TimerManager) : GoM MainEvent unit :=
  emit (Print (displayTimers false tm)).

#[global] Arguments show : simpl never.

(** ** The cases of the switch, from the number on *)

Definition cmd_pause (num : Z) (tm : TimerManager) : GoM MainEvent TimerManager :=
  tm ← (if decide (in_range num tm) then
          tm ← toggle_pause num tm;
          _ ← show tm;
          mret tm
        else mret tm);
  _ ← emit (Print prompt);
  mret tm.

Definition cmd_reset (num : Z) (tm : TimerManager) : GoM MainEvent TimerManager :=
  tm ← (if decide (in_range num tm) then
          tm ← reset_timer num tm;
          _ ← show tm;
          mret tm
        else mret tm);
  _ ← emit (Print prompt);
  mret tm.

Definition cmd_delete (num : Z) (tm : TimerManager) : GoM MainEvent TimerManager :=
  tm ← (if decide (in_range num tm) then
          tm ← delete_timer num tm;
          _ ← emit (SaveConfigs (configs tm));
          _ ← show tm;
          mret tm
        else mret tm);
  _ ← emit (Print prompt);
  mret tm.

(** The case a after createTimer has returned the timer and its
    configuration. *)
Definition cmd_add (t : Timer) (c : TimerConfig) (tm : TimerManager)
  : GoM MainEvent TimerManager :=
  let tm := add_timer t c tm in
  _ ← emit (SaveConfigs (configs tm));
  _ ← show tm;
  _ ← emit (Print prompt);
  mret tm.

(** What a command that changed the manager to [tm'] printed. *)
Definition shown (tm' : TimerManager) : list MainEvent :=
  [Print (displayTimers false tm'); Print prompt].

(** ** The commands, case by case *)

Section cmd_lemmas.
Implicit Types (tm : TimerManager) (num : Z) (t : Timer).

Lemma cmd_pause_out_of_range num tm :
  ~ in_range num tm -> cmd_pause num tm = mkGoM [Print prompt] (Ok tm).
Proof. intros Hr. unfold cmd_pause. by rewrite decide_False. Qed.

Lemma cmd_reset_out_of_range num tm :
  ~ in_range num tm -> cmd_reset num tm = mkGoM [Print prompt] (Ok tm).
Proof. intros Hr. unfold cmd_reset. by rewrite decide_False. Qed.

Lemma cmd_delete_out_of_range num tm :
  ~ in_range num tm -> cmd_delete num tm = mkGoM [Print prompt] (Ok tm).
Proof. intros Hr. unfold cmd_delete. by rewrite decide_False. Qed.

Lemma cmd_pause_eq num tm t :
  in_int64 num -> in_range num tm -> activeTimers tm !! Z.to_nat (num - 1) = Some t ->
  let tm' := set_activeTimers
    (<[Z.to_nat (num - 1) := set_isPaused (negb (isPaused t)) t]> (activeTimers tm)) tm in
  cmd_pause num tm = mkGoM (shown tm') (Ok tm').
Proof.
  intros Hn Hr Ht. unfold cmd_pause. rewrite decide_True by done.
  by rewrite (toggle_pause_eq num tm t).
Qed.

Lemma cmd_reset_eq num tm t p0 :
  in_int64 num -> in_range num tm -> activeTimers tm !! Z.to_nat (num - 1) = Some t ->
  phases t !! 0%nat = Some p0 ->
  let tm' := set_activeTimers
    (<[Z.to_nat (num - 1) := with_state (set_currentTime (WorkDuration p0)) t]>
       (activeTimers tm)) tm in
  cmd_reset num tm = mkGoM (shown tm') (Ok tm').
Proof.
  intros Hn Hr Ht Hp. unfold cmd_reset. rewrite decide_True by done.
  by rewrite (reset_timer_eq num tm t p0).
Qed.

Lemma cmd_delete_eq num tm :
  in_int64 num -> in_range num tm ->
  (length (activeTimers tm) <= length (configs tm))%nat ->
  let tm' := mkTimerManager (delete (Z.to_nat (num - 1)) (activeTimers tm))
                            (delete (Z.to_nat (num - 1)) (configs tm)) (displayChan tm) in
  cmd_delete num tm = mkGoM (SaveConfigs (configs tm') :: shown tm') (Ok tm').
Proof.
  intros Hn Hr Hlen. unfold cmd_delete. rewrite decide_True by done.
  by rewrite delete_timer_eq.
Qed.

End cmd_lemmas.

(** ** Theorems: pause, reset, delete, add *)

(** The pause command with a number in range flips the pause flag of
    that timer and of no other, touches neither the timer's state nor the
    configurations, redraws the screen and prompts; given twice it
    restores the manager. *)
Theorem cmd_pause_toggles num tm t :
  in_int64 num -> in_range num tm -> activeTimers tm !! Z.to_nat (num - 1) = Some t ->
  cmd_pause num tm =
    mkGoM (shown (set_activeTimers
             (<[Z.to_nat (num - 1) := set_isPaused (negb (isPaused t)) t]> (activeTimers tm))
             tm))
          (Ok (set_activeTimers
             (<[Z.to_nat (num - 1) := set_isPaused (negb (isPaused t)) t]> (activeTimers tm))
             tm)) /\
  returns (cmd_pause num tm ≫= cmd_pause num) tm.
Proof.
  intros Hn Hr Ht. pose proof (lookup_lt_Some _ _ _ Ht) as Hlt.
  pose proof (cmd_pause_eq num tm t Hn Hr Ht) as Hfirst. simpl in Hfirst.
  split; [done|]. eapply returns_bind; [by rewrite Hfirst|].
  erewrite cmd_pause_eq; [|done| |by apply list_lookup_insert_eq].
  - unfold returns, set_activeTimers. simpl.
    rewrite list_insert_insert_eq, set_isPaused_negb_twice, list_insert_id by done.
    by destruct tm.
  - unfold in_range, len in *. simpl. rewrite length_insert. lia.
Qed.

Lemma cmd_pause_toggles_witness :
  cmd_pause 2 example_manager =
    mkGoM (shown (set_activeTimers
             (<[Z.to_nat (2 - 1) := set_isPaused (negb (isPaused example_B)) example_B]>
                (activeTimers example_manager))
             example_manager))
          (Ok (set_activeTimers
             (<[Z.to_nat (2 - 1) := set_isPaused (negb (isPaused example_B)) example_B]>
                (activeTimers example_manager))
             example_manager)) /\
  returns (cmd_pause 2 example_manager ≫= cmd_pause 2) example_manager.
Proof. apply (cmd_pause_toggles 2 example_manager example_B); by_decide. Defined.

(** C33: the reset command with a number in range sets that timer's
    countdown to the work duration of its first phase and changes nothing
    else: the work flag, the cycle counter and the phase index stay, so a
    timer reset during a break, or in a later phase, keeps counting there
    with the first phase's work duration. *)
Theorem cmd_reset_only_countdown num tm t p0 :
  in_int64 num -> in_range num tm -> activeTimers tm !! Z.to_nat (num - 1) = Some t ->
  phases t !! 0%nat = Some p0 ->
  returns (cmd_reset num tm)
    (set_activeTimers
       (<[Z.to_nat (num - 1) :=
            mkTimer (mkTimerState (isWork (state t)) (WorkDuration p0) (cycles (state t))
                       (currentPhase (state t)) (name (state t)) (notifText (state t)))
                    (phases t) (maxCycles t) (isPaused t)]>
          (activeTimers tm))
       tm).
Proof. intros Hn Hr Ht Hp. unfold returns. by rewrite (cmd_reset_eq num tm t p0). Qed.

Lemma cmd_reset_only_countdown_witness :
  returns (cmd_reset 2 example_manager)
    (set_activeTimers
       (<[Z.to_nat (2 - 1) :=
            mkTimer (mkTimerState false (25 * Minute) 2 1 "B" "drink")
                    (phases example_B) 4 false]>
          (activeTimers example_manager))
       example_manager).
Proof.
  apply (cmd_reset_only_countdown 2 example_manager example_B
           (mkTimerPhase (25 * Minute) (5 * Minute))); by_decide.
Defined.

(** C27: the delete command with a number in range removes slot num-1 of
    both slices, saves the remaining configurations, redraws and prompts;
    on a manager in lock-step the result is in lock-step, so the
    configuration removed is the deleted timer's. *)
Theorem cmd_delete_removes_slot num tm :
  in_int64 num -> in_range num tm -> lockstep tm ->
  cmd_delete num tm =
    mkGoM (SaveConfigs (delete (Z.to_nat (num - 1)) (configs tm))
           :: shown (mkTimerManager (delete (Z.to_nat (num - 1)) (activeTimers tm))
                       (delete (Z.to_nat (num - 1)) (configs tm)) (displayChan tm)))
          (Ok (mkTimerManager (delete (Z.to_nat (num - 1)) (activeTimers tm))
                              (delete (Z.to_nat (num - 1)) (configs tm)) (displayChan tm))) /\
  lockstep (mkTimerManager (delete (Z.to_nat (num - 1)) (activeTimers tm))
                           (delete (Z.to_nat (num - 1)) (configs tm)) (displayChan tm)).
Proof.
  intros Hn Hr Hl. split; [|by apply delete_lockstep].
  by rewrite cmd_delete_eq by (done || by rewrite (Forall2_length _ _ _ Hl)).
Qed.

Lemma cmd_delete_removes_slot_witness :
  cmd_delete 1 example_manager =
    mkGoM (SaveConfigs (delete (Z.to_nat (1 - 1)) (configs example_manager))
           :: shown (mkTimerManager (delete (Z.to_nat (1 - 1)) (activeTimers example_manager))
                       (delete (Z.to_nat (1 - 1)) (configs example_manager))
                       (displayChan example_manager)))
          (Ok (mkTimerManager (delete (Z.to_nat (1 - 1)) (activeTimers example_manager))
                              (delete (Z.to_nat (1 - 1)) (configs example_manager))
                              (displayChan example_manager))) /\
  lockstep (mkTimerManager (delete (Z.to_nat (1 - 1)) (activeTimers example_manager))
                           (delete (Z.to_nat (1 - 1)) (configs example_manager))
                           (displayChan example_manager)).
Proof. apply (cmd_delete_removes_slot 1 example_manager); by_decide. Defined.

(** C6: after a timer has completed, the delete command removes the
    wrong configuration.  With two timers in lock-step, the first
    completing in this tick and the second going on, d 1 addresses the
    second timer (now first on the display): it is removed from
    activeTimers, but the configuration removed and lost is the completed
    timer's, and the configuration saved to disk is still the deleted
    timer's, which comes back at the next start. *)
Theorem delete_after_completion_keeps_config tm a a' b b' ca cb :
  activeTimers tm = [a; b] -> configs tm = [ca; cb] ->
  returns (update a) (true, a') -> returns (update b) (false, b') ->
  exists tm', returns (tick tm) tm' /\ activeTimers tm' = [b'] /\
    returns (cmd_delete 1 tm') (mkTimerManager [] [cb] (displayChan tm')) /\
    In (SaveConfigs [cb]) (events (cmd_delete 1 tm')).
Proof.
  intros Hts Hcs Ha Hb. exists (ticked tm).
  assert (activeTimers (ticked tm) = [b']) as Hact.
  { unfold ticked, survivor, returns in *. rewrite Hts. csimpl. by rewrite Ha, Hb. }
  assert (configs (ticked tm) = [ca; cb]) as Hcfg by done.
  split_and!; [apply tick_returns_ticked; rewrite Hts; repeat constructor; eauto|done|..].
  all: generalize dependent (ticked tm); intros tm' Hact Hcfg.
  all: rewrite cmd_delete_eq;
    [|by_decide|unfold in_range, len; rewrite Hact; simpl; lia|rewrite Hact, Hcfg; simpl; lia].
  all: change (Z.to_nat (1 - 1)) with 0%nat; rewrite Hact, Hcfg; by try left.
Qed.

Lemma delete_after_completion_keeps_config_witness :
  exists tm', returns (tick example_manager) tm' /\
    activeTimers tm' = [with_state (set_currentTime (2 * Second)) example_B] /\
    returns (cmd_delete 1 tm') (mkTimerManager [] [config_B] (displayChan tm')) /\
    In (SaveConfigs [config_B]) (events (cmd_delete 1 tm')).
Proof.
  apply (delete_after_completion_keeps_config example_manager example_A
           (with_state (set_currentPhase 1) (with_state (set_cycles 2) example_A))
           example_B (with_state (set_currentTime (2 * Second)) example_B) config_A config_B);
    by_decide.
Defined.

(** C32: on a well-formed manager the commands p, r and d return for every
    number and keep the manager well formed; a number out of range (zero,
    negative, or past the last timer) changes nothing, saves nothing and
    only prints the prompt. *)
Theorem commands_total num tm :
  in_int64 num -> wf_manager tm ->
  (exists tm', returns (cmd_pause num tm) tm' /\ wf_manager tm') /\
  (exists tm', returns (cmd_reset num tm) tm' /\ wf_manager tm') /\
  (exists tm', returns (cmd_delete num tm) tm' /\ wf_manager tm') /\
  (~ in_range num tm ->
   cmd_pause num tm = mkGoM [Print prompt] (Ok tm) /\
   cmd_reset num tm = mkGoM [Print prompt] (Ok tm) /\
   cmd_delete num tm = mkGoM [Print prompt] (Ok tm)).
Proof.
  intros Hn Hwf. destruct (decide (in_range num tm)) as [Hr|Hr].
  - destruct (in_range_index num tm Hn Hr) as (_ & _ & Hlt).
    destruct (lookup_lt_is_Some_2 _ _ Hlt) as [t Ht].
    assert (wf_timer t) as Hwt by (by eapply Forall_lookup_1; [apply Hwf|]).
    destruct (wf_timer_first_phase t Hwt) as [p0 Hp0].
    unfold returns. rewrite (cmd_pause_eq num tm t), (cmd_reset_eq num tm t p0) by done.
    rewrite cmd_delete_eq by (done || apply Hwf).
    split_and!; [eexists; split; [done|]..|done].
    + by apply wf_manager_insert, wf_timer_set_isPaused.
    + by apply wf_manager_insert, wf_timer_reset.
    + by apply wf_manager_delete.
  - rewrite cmd_pause_out_of_range, cmd_reset_out_of_range, cmd_delete_out_of_range by done.
    split_and!; by try exists tm.
Qed.

Lemma commands_total_witness :
  (exists tm', returns (cmd_pause 3 example_manager) tm' /\ wf_manager tm') /\
  (exists tm', returns (cmd_reset 3 example_manager) tm' /\ wf_manager tm') /\
  (exists tm', returns (cmd_delete 3 example_manager) tm' /\ wf_manager tm') /\
  (~ in_range 3 example_manager ->
   cmd_pause 3 example_manager = mkGoM [Print prompt] (Ok example_manager) /\
   cmd_reset 3 example_manager = mkGoM [Print prompt] (Ok example_manager) /\
   cmd_delete 3 example_manager = mkGoM [Print prompt] (Ok example_manager)).
Proof. apply (commands_total 3 example_manager); by_decide. Defined.

(** The add command appends the timer and its configuration at the
    end of the two slices, saves all configurations, redraws and prompts;
    the numbers of the timers already there do not change, and a manager
    in lock-step stays in lock-step (and well formed) when the new timer
    runs the new configuration. *)
Theorem cmd_add_appends t c tm :
  runs_config t c ->
  cmd_add t c tm =
    mkGoM (SaveConfigs (configs tm ++ [c]) :: shown (add_timer t c tm))
          (Ok (mkTimerManager (activeTimers tm ++ [t]) (configs tm ++ [c]) (displayChan tm))) /\
  (forall i t0, activeTimers tm !! i = Some t0 -> activeTimers (add_timer t c tm) !! i = Some t0) /\
  (lockstep tm -> lockstep (add_timer t c tm)) /\
  (wf_manager tm -> wf_timer t -> wf_manager (add_timer t c tm)).
Proof.
  intros Htc. split_and!; [done|..].
  - intros i t0 Hi. simpl. by apply lookup_app_l_Some.
  - intros Hl. apply Forall2_app; [done|]. by constructor.
  - intros (Hts & Hch & Hlen) Ht. unfold wf_manager. simpl. rewrite !length_app. simpl.
    split_and!; [|done|lia]. apply Forall_app. split; [done|]. by constructor.
Qed.

Lemma cmd_add_appends_witness :
  cmd_add example_B config_B example_manager =
    mkGoM (SaveConfigs (configs example_manager ++ [config_B])
           :: shown (add_timer example_B config_B example_manager))
          (Ok (mkTimerManager (activeTimers example_manager ++ [example_B])
                              (configs example_manager ++ [config_B])
                              (displayChan example_manager))) /\
  (forall i t0, activeTimers example_manager !! i = Some t0 ->
                activeTimers (add_timer example_B config_B example_manager) !! i = Some t0) /\
  (lockstep example_manager -> lockstep (add_timer example_B config_B example_manager)) /\
  (wf_manager example_manager -> wf_timer example_B ->
   wf_manager (add_timer example_B config_B example_manager)).
Proof. apply (cmd_add_appends example_B config_B example_manager). by_decide. Defined.

(** The number in front of a timer's line is the number the
    commands take for it: line i (from 0) of the list shows the timer at
    index i with the number i+1, in the order of the slice, and p with
    that number toggles that timer's pause flag. *)
Theorem display_numbers_commands tm i t :
  activeTimers tm !! i = Some t -> len (activeTimers tm) <= int64_max ->
  imap timer_line (activeTimers tm) !! i =
    Some (clearLine +:+ pretty (Z.of_nat i + 1) +:+ ". " +:+ Timer_String t
          +:+ (if isPaused t then " (PAUSED)" else "") +:+ NL) /\
  length (imap timer_line (activeTimers tm)) = length (activeTimers tm) /\
  returns (cmd_pause (Z.of_nat i + 1) tm)
    (set_activeTimers (<[i := set_isPaused (negb (isPaused t)) t]> (activeTimers tm)) tm).
Proof.
  intros Ht Hlen. pose proof (lookup_lt_Some _ _ _ Ht) as Hlt. unfold len in Hlen.
  split_and!; [by rewrite list_lookup_imap, Ht|by rewrite length_imap|].
  pose proof (cmd_pause_eq (Z.of_nat i + 1) tm t) as Heq.
  replace (Z.to_nat (Z.of_nat i + 1 - 1)) with i in Heq by lia.
  unfold returns. rewrite Heq; [done|int64_lia|unfold in_range, len; lia|done].
Qed.

Lemma display_numbers_commands_witness :
  imap timer_line (activeTimers example_manager) !! 1%nat =
    Some (clearLine +:+ pretty (Z.of_nat 1 + 1) +:+ ". " +:+ Timer_String example_B
          +:+ (if isPaused example_B then " (PAUSED)" else "") +:+ NL) /\
  length (imap timer_line (activeTimers example_manager)) =
    length (activeTimers example_manager) /\
  returns (cmd_pause (Z.of_nat 1 + 1) example_manager)
    (set_activeTimers
       (<[1%nat := set_isPaused (negb (isPaused example_B)) example_B]>
          (activeTimers example_manager)) example_manager).
Proof. apply (display_numbers_commands example_manager 1 example_B); by_decide. Defined.

(** ** Standard input *)

(** The lines not yet read, without their line ends; [[]] is end of
    input. *)
Definition reader : Type := list string.

(** [text, _ := reader.ReadString('\n')]: at end of input the text is
    empty and the error is dropped. *)
Definition ReadString (r : reader) : string * reader :=
  match r with
  | [] => (EmptyString, [])
  | l :: r' => (l, r')
  end.

Definition readLine (r : reader) (prompt : string) : GoM MainEvent (string * reader) :=
  _ ← emit (Print prompt);
  mret (TrimSpace (ReadString r).1, (ReadString r).2).

#[global] Arguments readLine : simpl never.

(** ** createTimer *)

Definition invalid_duration : string := "Invalid duration format. Try again." +:+ NL.

(** The loop of createTimer that collects the phases; one unit of fuel
    per iteration.  [None]: the fuel ran out. *)
Fixpoint read_phases (fuel : nat) (r : reader) (phases : list TimerPhase)
  : GoM MainEvent (option (list TimerPhase * reader)) :=
  match fuel with
  | O => mret None
  | S fuel =>
      _ ← emit (Print (NL +:+ "Phase " +:+ pretty (wrap64 (len phases + 1)) +:+ NL));
      _ ← emit (Print ("Enter work time (MM:SS or just minutes): " +:+ NL));
      w ← readLine r "";
      match parseDuration w.1 with
      | inl _ => _ ← emit (Print invalid_duration); read_phases fuel w.2 phases
      | inr workDur =>
          _ ← emit (Print ("Enter break time (MM:SS or just minutes): " +:+ NL));
          b ← readLine w.2 "";
          match parseDuration b.1 with
          | inl _ => _ ← emit (Print invalid_duration); read_phases fuel b.2 phases
          | inr breakDur =>
              let phases := phases ++ [mkTimerPhase workDur breakDur] in
              _ ← emit (Print "Add another phase? (y/n): ");
              a ← readLine b.2 "";
              if decide (ToLower a.1 <> "y") then mret (Some (phases, a.2))
              else read_phases fuel a.2 phases
          end
      end
  end.

(** The cycle policy read from the last answer. *)
Definition read_maxCycles (cycleType : string) : Z :=
  if decide (cycleType <> "u") then
    match Atoi cycleType with
    | inr cycles => if decide (0 < cycles) then cycles else -1
    | inl _ => -1
    end
  else -1.

Definition createTimer (fuel : nat) (r : reader)
  : GoM MainEvent (option (Timer * TimerConfig * reader)) :=
  n ← readLine r "Enter timer name: ";
  t ← readLine n.2 "Enter notification text: ";
  ps ← read_phases fuel t.2 [];
  match ps with
  | None => mret None
  | Some (phases, r) =>
      c ← readLine r "Enter cycle type (u for unlimited, number for fixed cycles): ";
      let maxCycles := read_maxCycles c.1 in
      let config := mkTimerConfig n.1 t.1 phases maxCycles in
      p0 ← index phases 0;
      let timer :=
        mkTimer (mkTimerState true (WorkDuration p0) 1 0 n.1 t.1) phases maxCycles false in
      mret (Some (timer, config, c.2))
  end.

(** ** The loop of main *)

Inductive control : Type :=
  | Continue
  | Quit.

#[export] Instance control_eq_dec : EqDecision control.
Proof. solve_decision. Defined.

(** [var num int; fmt.Sscanf(command, "p %d", &num)]: the number stays 0
    when the scan fails. *)
Definition scan_num (command : string) (letter : ascii) : Z :=
  default 0 (Sscanf_d command letter).

(** One iteration of the loop of main.  [None]: the dialogue of
    createTimer ran out of fuel. *)
Definition command (fuel : nat) (r : reader) (tm : TimerManager)
  : GoM MainEvent (option (control * reader * TimerManager)) :=
  let line := ReadString r in
  let cmd := TrimSpace line.1 in
  match cmd with
  | EmptyString =>
      _ ← emit (Print "Enter command: ");
      mret (Some (Continue, line.2, tm))
  | String c _ =>
      let c := lower_char c in
      if decide (c = "a"%char) then
        created ← createTimer fuel line.2;
        match created with
        | None => mret None
        | Some (timer, config, r) =>
            tm ← cmd_add timer config tm;
            mret (Some (Continue, r, tm))
        end
      else if decide (c = "p"%char) then
        tm ← cmd_pause (scan_num cmd "p") tm;
        mret (Some (Continue, line.2, tm))
      else if decide (c = "r"%char) then
        tm ← cmd_reset (scan_num cmd "r") tm;
        mret (Some (Continue, line.2, tm))
      else if decide (c = "d"%char) then
        tm ← cmd_delete (scan_num cmd "d") tm;
        mret (Some (Continue, line.2, tm))
      else if decide (c = "q"%char) then mret (Some (Quit, line.2, tm))
      else
        _ ← emit (Print "Enter command: ");
        mret (Some (Continue, line.2, tm))
  end.

(** The loop of main; one unit of fuel per iteration, and the rest of the
    fuel for the dialogue of an add.  [Some]: main returned (after q). *)
Fixpoint main_loop (fuel : nat) (r : reader) (tm : TimerManager)
  : GoM MainEvent (option (reader * TimerManager)) :=
  match fuel with
  | O => mret None
  | S fuel =>
      res ← command fuel r tm;
      match res with
      | None => mret None
      | Some (Quit, r, tm) => mret (Some (r, tm))
      | Some (Continue, r, tm) => main_loop fuel r tm
      end
  end.

(** main on the main goroutine, from the configurations (or the error)
    that loadTimerConfigs returned. *)
Definition main (fuel : nat) (loaded : string + list TimerConfig) (r : reader)
  : GoM MainEvent (option (reader * TimerManager)) :=
  configs ← match loaded with
            | inl err =>
                _ ← emit (Print ("Error loading timer configurations: " +:+ err +:+ NL));
                mret (configs NewTimerManager)
            | inr cs => mret cs
            end;
  tm ← startup configs;
  _ ← emit (Print clearDisplay);
  _ ← show tm;
  _ ← emit (Print prompt);
  main_loop fuel r tm.

(** ** End of input *)

Section eof.
Implicit Types (fuel : nat) (tm : TimerManager) (phases : list TimerPhase).

(** What one iteration of the phase loop prints at end of input. *)
Definition eof_iteration phases : list MainEvent :=
  [Print (NL +:+ "Phase " +:+ pretty (wrap64 (len phases + 1)) +:+ NL);
   Print ("Enter work time (MM:SS or just minutes): " +:+ NL);
   Print ""; Print invalid_duration].

Lemma read_phases_eof fuel phases :
  read_phases fuel [] phases =
    mkGoM (concat (replicate fuel (eof_iteration phases))) (Ok None).
Proof.
  induction fuel as [|fuel IH]; [done|].
  change (read_phases (S fuel) [] phases) with
    (mkGoM (eof_iteration phases) (Ok tt) ≫= fun _ => read_phases fuel [] phases).
  by rewrite IH.
Qed.

Lemma command_eof fuel tm :
  command fuel [] tm = mkGoM [Print "Enter command: "] (Ok (Some (Continue, [], tm))).
Proof. done. Qed.

Lemma main_loop_eof fuel tm :
  main_loop fuel [] tm = mkGoM (replicate fuel (Print "Enter command: ")) (Ok None).
Proof.
  induction fuel as [|fuel IH]; [done|]. simpl. by rewrite command_eof, bind_Ok, IH.
Qed.

End eof.

Lemma createTimer_eof fuel :
  createTimer fuel [] =
    mkGoM (Print "Enter timer name: " :: Print "Enter notification text: "
           :: concat (replicate fuel (eof_iteration [])))
          (Ok None).
Proof.
  change (createTimer fuel []) with
    (mkGoM [Print "Enter timer name: "; Print "Enter notification text: "] (Ok tt) ≫= fun _ =>
     ps ← read_phases fuel [] [];
     match ps with
     | None => mret None
     | Some (phases, r) =>
         c ← readLine r "Enter cycle type (u for unlimited, number for fixed cycles): ";
         p0 ← index phases 0;
         mret (Some (mkTimer (mkTimerState true (WorkDuration p0) 1 0 "" "") phases
                             (read_maxCycles c.1) false,
                     mkTimerConfig "" "" phases (read_maxCycles c.1), c.2))
     end).
  rewrite read_phases_eof, !bind_Ok. simpl. by rewrite app_nil_r.
Qed.

(** C14: at the end of standard input neither loop ends.  Every read
    returns the empty line at once; the loop of main prints its prompt and
    reads again, and the phase loop of createTimer, for which the empty
    line is no duration, prints its complaint and asks again.  However
    many iterations are run, neither has returned, the manager has not
    changed, and every iteration has printed its texts. *)
Theorem input_end_spins fuel tm :
  main_loop fuel [] tm = mkGoM (replicate fuel (Print "Enter command: ")) (Ok None) /\
  command fuel [] tm = mkGoM [Print "Enter command: "] (Ok (Some (Continue, [], tm))) /\
  createTimer fuel [] =
    mkGoM (Print "Enter timer name: " :: Print "Enter notification text: "
           :: concat (replicate fuel (eof_iteration [])))
          (Ok None).
Proof. split_and!; [apply main_loop_eof|apply command_eof|apply createTimer_eof]. Qed.

(** ** The letter and the number of a command *)

Section letters.
Implicit Types (n : Z) (c : ascii) (r : reader) (tm : TimerManager).

(** A command written as a letter, one space and a number is its own
    trimming. *)
Lemma TrimSpace_command c n :
  Ascii.is_space c = false ->
  TrimSpace (String c (" " +:+ pretty n)) = String c (" " +:+ pretty n).
Proof.
  intros Hc. apply (TrimSpace_app c " " (pretty n) Hc);
    [apply pretty_Z_nonempty|apply pretty_Z_no_space].
Qed.

Lemma scan_num_pretty c n : in_int64 n -> scan_num (String c (" " +:+ pretty n)) c = n.
Proof. intros Hn. unfold scan_num. by rewrite Sscanf_d_pretty. Qed.

(** The number of a line whose first byte is not the letter of the
    format stays 0. *)
Lemma scan_num_other_letter c c' s : c <> c' -> scan_num (String c s) c' = 0.
Proof. intros Hc. unfold scan_num, Sscanf_d. by rewrite decide_False. Qed.

Lemma not_in_range_0 tm : ~ in_range 0 tm.
Proof. unfold in_range. lia. Qed.

End letters.

(** C26: the letter of a command is matched without regard to case by the
    switch, but with regard to case by the scan of the number.  The line
    p n, for every int n, runs the pause command with n; the line P n
    selects the same case, fails to scan, leaves the number 0 and only
    prompts again: the manager is unchanged whatever n is.  The same holds
    for R and D. *)
Theorem command_letter_case fuel n r tm :
  in_int64 n ->
  command fuel (("p " +:+ pretty n) :: r) tm =
    (tm' ← cmd_pause n tm; mret (Some (Continue, r, tm'))) /\
  command fuel (("P " +:+ pretty n) :: r) tm = mkGoM [Print prompt] (Ok (Some (Continue, r, tm))) /\
  command fuel (("R " +:+ pretty n) :: r) tm = mkGoM [Print prompt] (Ok (Some (Continue, r, tm))) /\
  command fuel (("D " +:+ pretty n) :: r) tm = mkGoM [Print prompt] (Ok (Some (Continue, r, tm))).
Proof.
  intros Hn. unfold command. simpl.
  change ("p " +:+ pretty n) with (String "p" (" " +:+ pretty n)).
  change ("P " +:+ pretty n) with (String "P" (" " +:+ pretty n)).
  change ("R " +:+ pretty n) with (String "R" (" " +:+ pretty n)).
  change ("D " +:+ pretty n) with (String "D" (" " +:+ pretty n)).
  rewrite !TrimSpace_command by done. simpl.
  rewrite scan_num_pretty, !scan_num_other_letter by done.
  rewrite (cmd_pause_out_of_range 0), (cmd_reset_out_of_range 0), (cmd_delete_out_of_range 0)
    by apply not_in_range_0.
  done.
Qed.

Lemma command_letter_case_witness :
  command 0 (("p " +:+ pretty 2) :: []) example_manager =
    (tm' ← cmd_pause 2 example_manager; mret (Some (Continue, [], tm'))) /\
  command 0 (("P " +:+ pretty 2) :: []) example_manager =
    mkGoM [Print prompt] (Ok (Some (Continue, [], example_manager))) /\
  command 0 (("R " +:+ pretty 2) :: []) example_manager =
    mkGoM [Print prompt] (Ok (Some (Continue, [], example_manager))) /\
  command 0 (("D " +:+ pretty 2) :: []) example_manager =
    mkGoM [Print prompt] (Ok (Some (Continue, [], example_manager))).
Proof. apply (command_letter_case 0 2 [] example_manager). by_decide. Defined.

(** ** createTimer returns a timer that runs its configuration *)

Section create.
Implicit Types (fuel : nat) (r : reader) (phases ps : list TimerPhase).

(** The result of one iteration of the phase loop. *)
Lemma read_phases_result_S fuel r phases :
  result (read_phases (S fuel) r phases) =
    match parseDuration (TrimSpace (ReadString r).1) with
    | inl _ => result (read_phases fuel (ReadString r).2 phases)
    | inr w =>
        let r1 := (ReadString r).2 in
        match parseDuration (TrimSpace (ReadString r1).1) with
        | inl _ => result (read_phases fuel (ReadString r1).2 phases)
        | inr b =>
            let r2 := (ReadString r1).2 in
            if decide (ToLower (TrimSpace (ReadString r2).1) <> "y")
            then Ok (Some (phases ++ [mkTimerPhase w b], (ReadString r2).2))
            else result (read_phases fuel (ReadString r2).2 (phases ++ [mkTimerPhase w b]))
        end
    end.
Proof.
  simpl. destruct (parseDuration _) as [e|w]; [done|]. simpl.
  destruct (parseDuration _) as [e|b]; [done|]. simpl. by case_decide.
Qed.

(** The phase loop never panics, and what it returns has the phases it
    started with and at least one more. *)
Lemma read_phases_returns fuel r phases :
  exists res, returns (read_phases fuel r phases) res /\
    forall ps r', res = Some (ps, r') -> exists more, ps = phases ++ more /\ more <> [].
Proof.
  unfold returns. revert r phases. induction fuel as [|fuel IH]; intros r phases.
  { by exists None. }
  rewrite read_phases_result_S. destruct (parseDuration _) as [e|w]; [apply IH|]. simpl.
  destruct (parseDuration _) as [e|b]; [apply IH|]. case_decide.
  - eexists. split; [done|]. intros ps r' [= <- <-]. by eexists [_].
  - destruct (IH (ReadString (ReadString (ReadString r).2).2).2
                 (phases ++ [mkTimerPhase w b])) as (res & Hres & Hmore).
    exists res. split; [done|]. intros ps r' Hps.
    destruct (Hmore ps r' Hps) as (more & -> & _).
    exists (mkTimerPhase w b :: more). by rewrite <- app_assoc.
Qed.

Lemma read_maxCycles_range s :
  read_maxCycles s = -1 \/ 0 < read_maxCycles s <= int64_max.
Proof.
  unfold read_maxCycles. case_decide; [|by left].
  destruct (Atoi s) as [e|n] eqn:Hn; [by left|]. case_decide; [|by left].
  right. apply Atoi_in_int64 in Hn. int64_lia.
Qed.

(** The timer and the configuration createTimer builds from what it read. *)
Definition created (name text : string) ps (maxCycles : Z) (p0 : TimerPhase)
  : Timer * TimerConfig :=
  (mkTimer (mkTimerState true (WorkDuration p0) 1 0 name text) ps maxCycles false,
   mkTimerConfig name text ps maxCycles).

Lemma createTimer_result fuel r :
  let r2 := (ReadString (ReadString r).2).2 in
  result (createTimer fuel r) =
    match result (read_phases fuel r2 []) with
    | Ok None => Ok None
    | Ok (Some (ps, r3)) =>
        match ps with
        | p0 :: _ =>
            Ok (Some (created (TrimSpace (ReadString r).1)
                        (TrimSpace (ReadString (ReadString r).2).1) ps
                        (read_maxCycles (TrimSpace (ReadString r3).1)) p0,
                      (ReadString r3).2))
        | [] => Panicked (IndexOutOfRange 0 0)
        end
    | Panicked p => Panicked p
    end.
Proof.
  unfold createTimer. simpl. rewrite result_bind.
  destruct (result (read_phases _ _ _)) as [[[ps r3]|]|p]; [|done..].
  simpl. by destruct ps.
Qed.

End create.

Lemma createTimer_returns fuel r :
  exists res, returns (createTimer fuel r) res /\
    forall t c r', res = Some (t, c, r') ->
      @timerFromConfig MainEvent c = mret t /\ runs_config t c /\ Phases c <> [] /\
      (MaxCycles c = -1 \/ 0 < MaxCycles c <= int64_max).
Proof.
  unfold returns. rewrite createTimer_result. simpl.
  destruct (read_phases_returns fuel (ReadString (ReadString r).2).2 [])
    as (res & Hres & Hmore). unfold returns in Hres. rewrite Hres.
  destruct res as [[ps r3]|]; [|by exists None].
  destruct (Hmore ps r3 eq_refl) as (more & -> & Hne). simpl.
  destruct more as [|p0 more]; [done|]. eexists. split; [done|].
  intros t c r' [= <- <- <-]. split_and!; [done..|apply read_maxCycles_range].
Qed.

(** C25: createTimer never panics, and when it returns, the timer it
    returns is the timer timerFromConfig builds from the configuration
    it returns: at the start of the first phase, running the
    configuration, which has at least one phase and a cycle bound that is
    -1 or a positive int.  So an added timer and the timer rebuilt from
    the saved file at the next start are the same. *)
Theorem createTimer_consistent fuel r :
  exists res, returns (createTimer fuel r) res /\
    forall t c r', res = Some (t, c, r') ->
      @timerFromConfig MainEvent c = mret t /\ runs_config t c /\ Phases c <> [] /\
      (MaxCycles c = -1 \/ 0 < MaxCycles c <= int64_max).
Proof. apply createTimer_returns. Qed.

(** ** The main goroutine alone keeps the slices in lock-step *)

(** What the command loop keeps of the manager when no tick runs between
    its commands: the two slices in lock-step, and a first phase in every
    timer (the reset command reads it). *)
Definition main_inv (tm : TimerManager) : Prop :=
  lockstep tm /\ Forall (fun t => phases t <> []) (activeTimers tm).

#[export] Instance main_inv_dec tm : Decision (main_inv tm).
Proof. unfold main_inv. apply _. Defined.

Section main_inv_lemmas.
Implicit Types (tm : TimerManager) (num : Z) (t : Timer) (r : reader) (fuel : nat).

(** Replacing a timer by one with the same programme and names. *)
Lemma main_inv_insert i t t' tm :
  main_inv tm -> activeTimers tm !! i = Some t ->
  phases t' = phases t -> maxCycles t' = maxCycles t ->
  name (state t') = name (state t) -> notifText (state t') = notifText (state t) ->
  main_inv (set_activeTimers (<[i := t']> (activeTimers tm)) tm).
Proof.
  intros [Hl Hp] Ht Hph Hm Hn Hx. unfold main_inv, lockstep in *. simpl. split.
  - destruct (Forall2_lookup_l _ _ _ _ _ Hl Ht) as (c & Hc & Htc).
    rewrite <- (list_insert_id (configs tm) i c) by done.
    apply Forall2_insert; [done|]. unfold runs_config in *. by rewrite Hph, Hm, Hn, Hx.
  - apply Forall_insert; [done|]. rewrite Hph. by eapply Forall_lookup_1 in Hp.
Qed.

Lemma main_inv_delete i tm :
  main_inv tm ->
  main_inv (mkTimerManager (delete i (activeTimers tm)) (delete i (configs tm))
                           (displayChan tm)).
Proof.
  intros [Hl Hp]. split; [by apply delete_lockstep|]. by apply Forall_delete.
Qed.

Lemma main_inv_add t c tm :
  main_inv tm -> runs_config t c -> phases t <> [] -> main_inv (add_timer t c tm).
Proof.
  intros [Hl Hp] Htc Hne. split.
  - apply Forall2_app; [done|]. by constructor.
  - apply Forall_app. split; [done|]. by constructor.
Qed.

Lemma scan_int_in_int64 s n : scan_int s = Some n -> in_int64 n.
Proof.
  unfold scan_int. destruct (trim_left s) as [|c s']; [done|].
  destruct (bool_decide _); destruct (number_token _); try done;
    destruct (Atoi _) eqn:Ha; try done; intros [= <-]; by eapply Atoi_in_int64.
Qed.

Lemma scan_num_in_int64 s c : in_int64 (scan_num s c).
Proof.
  unfold scan_num, Sscanf_d. destruct s as [|c' [|c'' s]]; try done;
    case_decide; try done. destruct (Ascii.is_space c''); [|done].
  destruct (scan_int _) eqn:Hs; [|done]. by eapply scan_int_in_int64.
Qed.

(** The three commands with a number. *)
Lemma cmd_num_inv num tm :
  in_int64 num -> main_inv tm ->
  (exists tm', returns (cmd_pause num tm) tm' /\ main_inv tm') /\
  (exists tm', returns (cmd_reset num tm) tm' /\ main_inv tm') /\
  (exists tm', returns (cmd_delete num tm) tm' /\ main_inv tm').
Proof.
  intros Hn Hinv. unfold returns. destruct (decide (in_range num tm)) as [Hr|Hr].
  - destruct (in_range_index num tm Hn Hr) as (_ & _ & Hlt).
    destruct (lookup_lt_is_Some_2 _ _ Hlt) as [t Ht].
    assert (exists p0, phases t !! 0%nat = Some p0) as [p0 Hp0].
    { destruct Hinv as [_ Hp]. eapply Forall_lookup_1 in Hp; [|done].
      destruct (phases t); [done|by eexists]. }
    rewrite (cmd_pause_eq num tm t), (cmd_reset_eq num tm t p0) by done.
    rewrite cmd_delete_eq by (done || by rewrite (Forall2_length _ _ _ (proj1 Hinv))).
    split_and!; eexists; (split; [done|]);
      [by eapply main_inv_insert..|by apply main_inv_delete].
  - rewrite cmd_pause_out_of_range, cmd_reset_out_of_range, cmd_delete_out_of_range by done.
    split_and!; by exists tm.
Qed.

End main_inv_lemmas.

Section loop_inv.
Implicit Types (tm : TimerManager) (r : reader) (fuel : nat).

Lemma command_inv fuel r tm :
  main_inv tm ->
  exists res, returns (command fuel r tm) res /\
    forall ctl r' tm', res = Some (ctl, r', tm') -> main_inv tm'.
Proof.
  intros Hinv. unfold returns, command.
  destruct (TrimSpace (ReadString r).1) as [|c s] eqn:Hcmd; [by eexists; split; [done|intros ??? [= <- <- <-]]|].
  set (cmd := String c s).
  destruct (cmd_num_inv (scan_num cmd "p") tm (scan_num_in_int64 _ _) Hinv)
    as ((tp & Hp & Hip) & _).
  destruct (cmd_num_inv (scan_num cmd "r") tm (scan_num_in_int64 _ _) Hinv)
    as (_ & (tr & Hr & Hir) & _).
  destruct (cmd_num_inv (scan_num cmd "d") tm (scan_num_in_int64 _ _) Hinv)
    as (_ & _ & (td & Hd & Hid)).
  unfold returns in *. repeat case_decide; rewrite ?result_bind, ?Hp, ?Hr, ?Hd;
    [|by eexists; split; [done|intros ??? [= <- <- <-]]..].
  destruct (createTimer_returns fuel (ReadString r).2) as (res & Hres & Hok).
  unfold returns in Hres. rewrite Hres. destruct res as [[[t cfg] r']|]; [|by exists None].
  destruct (Hok t cfg r' eq_refl) as (_ & Htc & Hne & _). simpl.
  eexists. split; [done|]. intros ??? [= <- <- <-].
  apply main_inv_add; [done..|]. by rewrite (proj1 Htc).
Qed.

Lemma main_loop_inv fuel r tm :
  main_inv tm ->
  exists res, returns (main_loop fuel r tm) res /\
    forall r' tm', res = Some (r', tm') -> main_inv tm'.
Proof.
  revert r tm. induction fuel as [|fuel IH]; intros r tm Hinv; [by exists None|].
  destruct (command_inv fuel r tm Hinv) as (res & Hres & Hok).
  unfold returns in *. simpl. rewrite result_bind, Hres.
  destruct res as [[[[] r'] tm']|]; [| |by exists None].
  - apply IH. by eapply Hok.
  - eexists. split; [done|]. intros r'' tm'' [= <- <-]. by eapply Hok.
Qed.

End loop_inv.

(** C10: the command loop on its own never breaks the lock-step and never
    panics: started on a manager whose slices are in lock-step (every
    timer with a first phase), whatever the lines of input are, every
    iteration returns, and if the loop ends (by q) the slices are still
    in lock-step.  Only the ticker, which removes completed timers from
    one slice, can break it. *)
Theorem main_loop_keeps_lockstep fuel r tm :
  main_inv tm ->
  exists res, returns (main_loop fuel r tm) res /\
    forall r' tm', res = Some (r', tm') -> lockstep tm' /\ main_inv tm'.
Proof.
  intros Hinv. destruct (main_loop_inv fuel r tm Hinv) as (res & Hres & Hok).
  exists res. split; [done|]. intros r' tm' Hr. split; [|by eapply Hok].
  by eapply (proj1 (Hok _ _ Hr)).
Qed.

(** A session: a timer is added by the dialogue (with one answer that is
    no duration), paused, reset, and deleted; the loop ends at q and
    leaves the line after it unread. *)
Definition example_session : reader :=
  ["a"; " tea "; "drink"; "0:02"; "x"; "0:02"; "0:01"; "n"; "2";
   "p 1"; "P 1"; "r 1"; "d 2"; "d 1"; ""; "zzz"; "q"; "never read"].

Lemma main_loop_keeps_lockstep_witness :
  exists res, returns (main_loop 20 example_session NewTimerManager) res /\
    forall r' tm', res = Some (r', tm') -> lockstep tm' /\ main_inv tm'.
Proof. apply (main_loop_keeps_lockstep 20 example_session NewTimerManager). by_decide. Defined.

Example example_session_result :
  result (main_loop 20 example_session NewTimerManager) =
    Ok (Some (["never read"], NewTimerManager)) /\
  omap (fun e => match e with SaveConfigs cs => Some cs | Print _ => None end)
       (events (main_loop 20 example_session NewTimerManager)) =
    [[mkTimerConfig "tea" "drink" [mkTimerPhase (2 * Second) (1 * Second)] 2]; []].
Proof. by vm_compute. Qed.

(** ** The dialogue of createTimer on well-formed answers *)

(** The lines a user types for the phases [phs], given as minutes of work
    and of break: y after every phase but the last. *)
Fixpoint phase_lines (phs : list (Z * Z)) : list string :=
  match phs with
  | [] => []
  | wb :: phs' =>
      pretty wb.1 :: pretty wb.2 :: (if decide (phs' = []) then "n" else "y") :: phase_lines phs'
  end.

Definition dialogue (name text : string) (phs : list (Z * Z)) (cycles : Z) : list string :=
  name :: text :: phase_lines phs ++ [pretty cycles].

Definition phases_of (phs : list (Z * Z)) : list TimerPhase :=
  map (fun wb => mkTimerPhase (wb.1 * Minute) (wb.2 * Minute)) phs.

Definition valid_minutes (wb : Z * Z) : Prop :=
  0 <= wb.1 <= max_minutes /\ 0 <= wb.2 <= max_minutes.

#[export] Instance valid_minutes_dec wb : Decision (valid_minutes wb).
Proof. unfold valid_minutes. apply _. Defined.

Section dialogue_lemmas.
Implicit Types (phs : list (Z * Z)) (acc : list TimerPhase) (rest : reader) (m : Z).

Lemma parse_typed_minutes m :
  0 <= m <= max_minutes -> parseDuration (TrimSpace (pretty m)) = inr (m * Minute).
Proof.
  intros Hm. rewrite TrimSpace_no_space by apply pretty_Z_no_space.
  rewrite parseDuration_minutes by (unfold max_minutes in Hm; int64_lia).
  by rewrite of_minutes_exact by lia.
Qed.

Lemma wf_duration_minutes m : 0 <= m <= max_minutes -> wf_duration (m * Minute).
Proof.
  unfold max_minutes, Minute. intros Hm. split.
  - rewrite Z.mul_assoc. apply whole_seconds_mul. lia.
  - unfold Second. int64_lia.
Qed.

Lemma phases_of_wf phs : Forall valid_minutes phs -> Forall wf_phase (phases_of phs).
Proof.
  induction 1 as [|wb phs [Hw Hb] _ IH]; constructor; [|done].
  split; by apply wf_duration_minutes.
Qed.

(** With one unit of fuel per phase the loop reads all the phases. *)
Lemma read_phases_script phs acc rest :
  phs <> [] -> Forall valid_minutes phs ->
  returns (read_phases (length phs) (phase_lines phs ++ rest) acc)
          (Some (acc ++ phases_of phs, rest)).
Proof.
  intros Hne Hall. revert acc. induction Hall as [|[w b] phs [Hw Hb] Hall IH]; [done|].
  intros acc. unfold returns. simpl length. rewrite read_phases_result_S. simpl in *.
  rewrite !parse_typed_minutes by done. destruct (decide (phs = [])) as [->|Hphs].
  - done.
  - rewrite decide_False by (by intros H; apply H). rewrite IH by done. simpl.
    by rewrite <- app_assoc.
Qed.

Lemma read_maxCycles_typed m : 0 < m <= int64_max -> read_maxCycles (TrimSpace (pretty m)) = m.
Proof.
  intros Hm. rewrite TrimSpace_no_space by apply pretty_Z_no_space.
  pose proof (Atoi_pretty m ltac:(int64_lia)) as Ha. unfold read_maxCycles.
  rewrite decide_True by (intros Hu; by rewrite Hu in Ha).
  rewrite Ha. by rewrite decide_True by lia.
Qed.

End dialogue_lemmas.

(** C24: the dialogue of createTimer on well-formed answers ends and
    builds what was typed.  For a name and a notification text without
    surrounding white space, at least one phase with work and break given
    as minutes between 0 and 153722867, and a positive number of cycles,
    createTimer with one unit of fuel per phase returns the timer with
    those phases in order, at the start of the first, and its
    configuration; it leaves the rest of the input unread; the timer and
    the configuration are well formed. *)
Theorem createTimer_dialogue name text phs cycles rest :
  TrimSpace name = name -> TrimSpace text = text ->
  phs <> [] -> len phs <= int64_max -> Forall valid_minutes phs -> 0 < cycles < int64_max ->
  exists p0 t c,
    head (phases_of phs) = Some p0 /\
    (t, c) = created name text (phases_of phs) cycles p0 /\
    returns (createTimer (length phs) (dialogue name text phs cycles ++ rest))
            (Some (t, c, rest)) /\
    wf_timer t /\ wf_config c.
Proof.
  intros Hname Htext Hne Hlen Hall Hc.
  assert (len (phases_of phs) = len phs) as Hlen' by (unfold len, phases_of; by rewrite length_map).
  destruct (phases_of phs) as [|p0 ps] eqn:Hps; [by destruct phs|].
  exists p0. eexists _, _. split_and!; [done..| | |].
  - unfold returns. rewrite createTimer_result. simpl.
    unfold dialogue. rewrite <- app_assoc.
    pose proof (read_phases_script phs [] ([pretty cycles] ++ rest) Hne Hall) as Hr.
    unfold returns in Hr. rewrite Hr. simpl. rewrite Hps, Hname, Htext.
    by rewrite read_maxCycles_typed by lia.
  - pose proof (phases_of_wf phs Hall) as Hwf. rewrite Hps in Hwf.
    pose proof Hwf as [[Hw ?] ?]%Forall_cons.
    unfold wf_timer, wf_program, wf_maxCycles. unfold len in *. simpl in *.
    split_and!; first [done|lia|int64_lia|right; lia|intros; lia].
  - pose proof (phases_of_wf phs Hall) as Hwf. rewrite Hps in Hwf.
    unfold wf_config, wf_program, wf_maxCycles. unfold len in *. simpl in *.
    split_and!; first [done|lia|int64_lia|right; lia].
Qed.

Lemma createTimer_dialogue_witness :
  exists p0 t c,
    head (phases_of [(25, 5); (50, 10)]) = Some p0 /\
    (t, c) = created "deep work" "stretch" (phases_of [(25, 5); (50, 10)]) 4 p0 /\
    returns (createTimer (length [(25, 5); (50, 10)])
               (dialogue "deep work" "stretch" [(25, 5); (50, 10)] 4 ++ ["p 1"]))
            (Some (t, c, ["p 1"])) /\
    wf_timer t /\ wf_config c.
Proof.
  apply (createTimer_dialogue "deep work" "stretch" [(25, 5); (50, 10)] 4 ["p 1"]); by_decide.
Defined.

Section any_answer.
Implicit Types (w b n : Z) (rest : reader).

(** Minutes of either sign are a duration. *)
Lemma parse_typed_int w : in_int64 w -> parseDuration (TrimSpace (pretty w)) = inr (of_minutes w).
Proof.
  intros Hw. rewrite TrimSpace_no_space by apply pretty_Z_no_space.
  by apply parseDuration_minutes.
Qed.

(** A number of cycles that is not positive means unlimited. *)
Lemma read_maxCycles_int n :
  in_int64 n -> read_maxCycles (TrimSpace (pretty n)) = if decide (0 < n) then n else -1.
Proof.
  intros Hn. rewrite TrimSpace_no_space by apply pretty_Z_no_space.
  pose proof (Atoi_pretty n Hn) as Ha. unfold read_maxCycles.
  rewrite decide_True by (intros Hu; by rewrite Hu in Ha). by rewrite Ha.
Qed.

End any_answer.

(** C39: createTimer validates nothing but the syntax.  For any int typed
    as the work and the break minutes of a single phase and any int typed
    as the number of cycles, createTimer returns a timer: its countdown is
    the int64 product of the work minutes and a minute, wrapped; it is
    negative when the minutes typed are between -153722867 and -1, outside
    the invariant of the data model (remaining >= 0); a number of cycles
    that is zero or negative silently means unlimited. *)
Theorem createTimer_accepts_negative name text w b n rest :
  TrimSpace name = name -> TrimSpace text = text ->
  in_int64 w -> in_int64 b -> in_int64 n ->
  let p0 := mkTimerPhase (of_minutes w) (of_minutes b) in
  returns (createTimer 1 (dialogue name text [(w, b)] n ++ rest))
          (Some (created name text [p0] (if decide (0 < n) then n else -1) p0, rest)) /\
  (- max_minutes <= w < 0 ->
   currentTime (state (created name text [p0] (if decide (0 < n) then n else -1) p0).1) < 0).
Proof.
  intros Hname Htext Hw Hb Hn p0. split.
  - unfold returns. rewrite createTimer_result. cbv zeta. rewrite read_phases_result_S.
    simpl. rewrite !parse_typed_int by done. simpl. rewrite Hname, Htext.
    by rewrite read_maxCycles_int by done.
  - simpl. unfold of_minutes, max_minutes, Minute, Second. intros Hr.
    rewrite wrap64_id by int64_lia. lia.
Qed.

Lemma createTimer_accepts_negative_witness :
  let p0 := mkTimerPhase (of_minutes (-5)) (of_minutes 1) in
  returns (createTimer 1 (dialogue "t" "x" [(-5, 1)] 0 ++ ["q"]))
          (Some (created "t" "x" [p0] (if decide (0 < 0) then 0 else -1) p0, ["q"])) /\
  (- max_minutes <= -5 < 0 ->
   currentTime (state (created "t" "x" [p0] (if decide (0 < 0) then 0 else -1) p0).1) < 0).
Proof. apply (createTimer_accepts_negative "t" "x" (-5) 1 0 ["q"]); by_decide. Defined.

(** An answer that is no number means unlimited as well, and so does an
    upper-case U. *)
Example read_maxCycles_examples :
  read_maxCycles "-3" = -1 /\ read_maxCycles "many" = -1 /\ read_maxCycles "U" = -1 /\
  read_maxCycles "u" = -1 /\ read_maxCycles "3" = 3.
Proof. by vm_compute. Qed.
