(* ===== verification/Dialogue.v ===== *)
(** * Dialogue: createTimer, one line at a time

    createTimer asks for a name, a notification text, the phases and the
    cycle policy, and reads one line after each question.  Command.v has
    it as one call with fuel for its phase loop.  Here it is a machine
    that stands at a question ([dstate]): a step reads the answer, prints
    what the code prints up to the next question, and stands there
    ([dialogue_step]); the last answer ends it with the timer and its
    configuration.  Every step is total, and the phase loop is the cycle
    of the three questions of a phase.

    The theorems: whenever createTimer returns a timer, the machine run
    on the same input prints the same texts in the same order and ends
    with the same timer, configuration and rest of the input; when the
    fuel of createTimer runs out, the machine stands at a work-time
    question; the machine needs at most three lines per iteration of the
    phase loop and three more. *)

From Stdlib Require Import ZArith Lia String.
From stdpp Require Import base tactics option list numbers strings pretty.
From S2P Require Import Prelude GoLib Duration Parse Timer Display Command.

#[local] Open Scope Z_scope.

(** ** The machine *)

(** The question the dialogue stands at, with what it has read: the name,
    the text, the phases so far, the work time of the phase begun. *)
Inductive dstate : Type :=
  | AskName
  | AskText (name : string)
  | AskWork (name text : string) (phases : list TimerPhase)
  | AskBreak (name text : string) (phases : list TimerPhase) (workDur : Duration)
  | AskMore (name text : string) (phases : list TimerPhase)
  | AskCycles (name text : string) (phases : list TimerPhase).

#[export] Instance dstate_eq_dec : EqDecision dstate.
Proof. solve_decision. Defined.

(** What is printed on the way to a question, the prompt of its readLine
    included. *)
Definition ask (st : dstate) : list MainEvent :=
  match st with
  | AskName => [Print "Enter timer name: "]
  | AskText _ => [Print "Enter notification text: "]
  | AskWork _ _ phases =>
      [Print (NL +:+ "Phase " +:+ pretty (wrap64 (len phases + 1)) +:+ NL);
       Print ("Enter work time (MM:SS or just minutes): " +:+ NL); Print ""]
  | AskBreak _ _ _ _ => [Print ("Enter break time (MM:SS or just minutes): " +:+ NL); Print ""]
  | AskMore _ _ _ => [Print "Add another phase? (y/n): "; Print ""]
  | AskCycles _ _ _ =>
      [Print "Enter cycle type (u for unlimited, number for fixed cycles): "]
  end.

(** What the answer [text] (trimmed by readLine) leads to: the next
    question, or the timer and the configuration. *)
Definition answer (st : dstate) (text : string)
  : GoM MainEvent (dstate + Timer * TimerConfig) :=
  match st with
  | AskName => mret (inl (AskText text))
  | AskText name => mret (inl (AskWork name text []))
  | AskWork name notifText phases =>
      match parseDuration text with
      | inl _ => _ ← emit (Print invalid_duration); mret (inl (AskWork name notifText phases))
      | inr workDur => mret (inl (AskBreak name notifText phases workDur))
      end
  | AskBreak name notifText phases workDur =>
      match parseDuration text with
      | inl _ => _ ← emit (Print invalid_duration); mret (inl (AskWork name notifText phases))
      | inr breakDur =>
          mret (inl (AskMore name notifText (phases ++ [mkTimerPhase workDur breakDur])))
      end
  | AskMore name notifText phases =>
      if decide (ToLower text <> "y") then mret (inl (AskCycles name notifText phases))
      else mret (inl (AskWork name notifText phases))
  | AskCycles name notifText phases =>
      p0 ← index phases 0;
      mret (inr (created name notifText phases (read_maxCycles text) p0))
  end.

(** The texts of a list, printed in order. *)
Definition print_all (es : list MainEvent) : GoM MainEvent unit := mkGoM es (Ok tt).

(** One step: the line is read, the answer taken, and the dialogue goes
    on to the next question. *)
Definition dialogue_step (st : dstate) (r : reader)
  : GoM MainEvent ((dstate + Timer * TimerConfig) * reader) :=
  x ← answer st (TrimSpace (ReadString r).1);
  match x with
  | inl st' => _ ← print_all (ask st'); mret (inl st', (ReadString r).2)
  | inr tc => mret (inr tc, (ReadString r).2)
  end.

(** At most [k] steps from the question [st]: the question reached, or
    the result. *)
Fixpoint run_dialogue (k : nat) (st : dstate) (r : reader)
  : GoM MainEvent (dstate * reader + Timer * TimerConfig * reader) :=
  match k with
  | O => mret (inl (st, r))
  | S k =>
      x ← dialogue_step st r;
      match x.1 with
      | inl st' => run_dialogue k st' x.2
      | inr tc => mret (inr (tc, x.2))
      end
  end.

(** The dialogue from the point where it goes to the question [st]. *)
Definition dialogue_from (st : dstate) (k : nat) (r : reader)
  : GoM MainEvent (dstate * reader + Timer * TimerConfig * reader) :=
  _ ← print_all (ask st); run_dialogue k st r.

#[global] Arguments print_all : simpl never.

(** The phases the dialogue has collected, and the work time of the
    phase it has begun. *)
Definition so_far (st : dstate) : list TimerPhase :=
  match st with
  | AskName | AskText _ => []
  | AskWork _ _ phases | AskBreak _ _ phases _ | AskMore _ _ phases | AskCycles _ _ phases =>
      phases
  end.

Definition begun (st : dstate) : option Duration :=
  match st with
  | AskBreak _ _ _ workDur => Some workDur
  | _ => None
  end.

(** [collected P Q st]: the phases collected satisfy [P], the work time
    of the phase begun satisfies [Q]. *)
Definition collected (P : TimerPhase -> Prop) (Q : Duration -> Prop) (st : dstate) : Prop :=
  Forall P (so_far st) /\ from_option Q True (begun st).

#[export] Instance collected_dec P Q `{!forall p, Decision (P p)} `{!forall d, Decision (Q d)}
  st : Decision (collected P Q st).
Proof. unfold collected. destruct st; simpl; apply _. Defined.

(** Unfolds the monad: both sides of an equation become a list of
    events and an outcome. *)
Ltac unfold_monad :=
  unfold print_all, emit, mbind, GoM_bind, mret, GoM_ret; simpl.

(** ** The steps, unfolded *)

Section unfold.
Implicit Types (st : dstate) (k fuel : nat) (r : reader) (ps : list TimerPhase).

(** Where the dialogue stands after the iterations of the phase loop: at
    the question of the cycles when the loop has ended, at the work time
    of the next phase when the fuel has run out. *)
Definition after_phases (name text : string) (stop : list TimerPhase * reader)
    (res : option (list TimerPhase * reader))
  : GoM MainEvent (dstate * reader + Timer * TimerConfig * reader) :=
  match res with
  | Some (ps, r) => dialogue_from (AskCycles name text ps) 0 r
  | None => dialogue_from (AskWork name text stop.1) 0 stop.2
  end.

Lemma dialogue_from_O st r : dialogue_from st 0 r = mkGoM (ask st) (Ok (inl (st, r))).
Proof. unfold dialogue_from. simpl. unfold print_all. by rewrite bind_Ok, app_nil_r. Qed.

Lemma dialogue_from_S st k r :
  dialogue_from st (S k) r =
    _ ← print_all (ask st);
    x ← answer st (TrimSpace (ReadString r).1);
    match x with
    | inl st' => dialogue_from st' k (ReadString r).2
    | inr tc => mret (inr (tc, (ReadString r).2))
    end.
Proof.
  unfold dialogue_from. apply bind_ext. intros _. simpl. unfold dialogue_step.
  rewrite bind_assoc. apply bind_ext. intros [st'|tc].
  - by rewrite bind_assoc, bind_ext with (f' := fun _ => run_dialogue k st' (ReadString r).2)
      by (intros; by rewrite bind_ret_l).
  - by rewrite bind_ret_l.
Qed.

(** One iteration of the phase loop, question by question. *)
Lemma read_phases_S name text fuel r ps :
  read_phases (S fuel) r ps =
    _ ← print_all (ask (AskWork name text ps));
    match parseDuration (TrimSpace (ReadString r).1) with
    | inl _ => _ ← emit (Print invalid_duration); read_phases fuel (ReadString r).2 ps
    | inr w =>
        let r1 := (ReadString r).2 in
        _ ← print_all (ask (AskBreak name text ps w));
        match parseDuration (TrimSpace (ReadString r1).1) with
        | inl _ => _ ← emit (Print invalid_duration); read_phases fuel (ReadString r1).2 ps
        | inr b =>
            let r2 := (ReadString r1).2 in
            _ ← print_all (ask (AskMore name text (ps ++ [mkTimerPhase w b])));
            if decide (ToLower (TrimSpace (ReadString r2).1) <> "y")
            then mret (Some (ps ++ [mkTimerPhase w b], (ReadString r2).2))
            else read_phases fuel (ReadString r2).2 (ps ++ [mkTimerPhase w b])
        end
    end.
Proof.
  simpl. unfold readLine, print_all, emit, mbind, GoM_bind, mret, GoM_ret. simpl.
  destruct (parseDuration _) as [e|w]; [done|]. simpl.
  destruct (parseDuration _) as [e|b]; [done|]. simpl. by case_decide.
Qed.

(** The six answers of the phase loop. *)
Lemma from_work_invalid name text ps k r e :
  parseDuration (TrimSpace (ReadString r).1) = inl e ->
  dialogue_from (AskWork name text ps) (S k) r =
    _ ← print_all (ask (AskWork name text ps));
    _ ← emit (Print invalid_duration);
    dialogue_from (AskWork name text ps) k (ReadString r).2.
Proof. intros H. rewrite dialogue_from_S. cbn [answer]. rewrite H. by unfold_monad. Qed.

Lemma from_work_valid name text ps k r w :
  parseDuration (TrimSpace (ReadString r).1) = inr w ->
  dialogue_from (AskWork name text ps) (S k) r =
    _ ← print_all (ask (AskWork name text ps));
    dialogue_from (AskBreak name text ps w) k (ReadString r).2.
Proof. intros H. rewrite dialogue_from_S. cbn [answer]. rewrite H. by unfold_monad. Qed.

Lemma from_break_invalid name text ps w k r e :
  parseDuration (TrimSpace (ReadString r).1) = inl e ->
  dialogue_from (AskBreak name text ps w) (S k) r =
    _ ← print_all (ask (AskBreak name text ps w));
    _ ← emit (Print invalid_duration);
    dialogue_from (AskWork name text ps) k (ReadString r).2.
Proof. intros H. rewrite dialogue_from_S. cbn [answer]. rewrite H. by unfold_monad. Qed.

Lemma from_break_valid name text ps w k r b :
  parseDuration (TrimSpace (ReadString r).1) = inr b ->
  dialogue_from (AskBreak name text ps w) (S k) r =
    _ ← print_all (ask (AskBreak name text ps w));
    dialogue_from (AskMore name text (ps ++ [mkTimerPhase w b])) k (ReadString r).2.
Proof. intros H. rewrite dialogue_from_S. cbn [answer]. rewrite H. by unfold_monad. Qed.

Lemma from_more_yes name text ps k r :
  ToLower (TrimSpace (ReadString r).1) = "y" ->
  dialogue_from (AskMore name text ps) (S k) r =
    _ ← print_all (ask (AskMore name text ps));
    dialogue_from (AskWork name text ps) k (ReadString r).2.
Proof.
  intros H. rewrite dialogue_from_S. cbn [answer]. rewrite decide_False by (by intros []).
  by unfold_monad.
Qed.

Lemma from_more_no name text ps k r :
  ToLower (TrimSpace (ReadString r).1) <> "y" ->
  dialogue_from (AskMore name text ps) (S k) r =
    _ ← print_all (ask (AskMore name text ps));
    dialogue_from (AskCycles name text ps) k (ReadString r).2.
Proof.
  intros H. rewrite dialogue_from_S. cbn [answer]. rewrite decide_True by done.
  by unfold_monad.
Qed.

End unfold.

(** ** The phase loop is the cycle of three questions *)

Section simulation.
Implicit Types (st : dstate) (k fuel : nat) (r : reader) (ps : list TimerPhase).

Lemma read_phases_sim name text fuel r ps :
  exists k stop, (k <= 3 * fuel)%nat /\
    (returns (read_phases fuel r ps) None -> (fuel <= k)%nat) /\
    dialogue_from (AskWork name text ps) k r =
      read_phases fuel r ps ≫= after_phases name text stop.
Proof.
  revert r ps. induction fuel as [|fuel IH]; intros r ps.
  { exists O, (ps, r). split_and!; [lia..|]. simpl. by rewrite bind_ret_l. }
  unfold returns. rewrite read_phases_result_S, (read_phases_S name text).
  destruct (parseDuration _) as [e|w] eqn:Hw.
  { destruct (IH (ReadString r).2 ps) as (k & stop & Hk & Hlow & Heq). exists (S k), stop.
    split_and!; [lia|intros ?%Hlow; lia|].
    by rewrite (from_work_invalid _ _ _ _ _ e), Heq, !bind_assoc. }
  cbv zeta. destruct (parseDuration (TrimSpace (ReadString (ReadString r).2).1))
    as [e|b] eqn:Hb.
  { destruct (IH (ReadString (ReadString r).2).2 ps) as (k & stop & Hk & Hlow & Heq).
    exists (S (S k)), stop. split_and!; [lia|intros ?%Hlow; lia|].
    by rewrite (from_work_valid _ _ _ _ _ w), (from_break_invalid _ _ _ _ _ _ e), Heq,
      !bind_assoc. }
  case_decide as Hy.
  - exists 3%nat, (ps, r). split_and!; [lia|done|].
    rewrite (from_work_valid _ _ _ _ _ w), (from_break_valid _ _ _ _ _ _ b),
      from_more_no by done.
    by rewrite !bind_assoc, bind_ret_l.
  - destruct (IH (ReadString (ReadString (ReadString r).2).2).2 (ps ++ [mkTimerPhase w b]))
      as (k & stop & Hk & Hlow & Heq).
    exists (S (S (S k))), stop. split_and!; [lia|intros ?%Hlow; lia|].
    rewrite (from_work_valid _ _ _ _ _ w), (from_break_valid _ _ _ _ _ _ b),
      from_more_yes, Heq by done.
    by rewrite !bind_assoc.
Qed.

Lemma from_name k r :
  dialogue_from AskName (S k) r =
    _ ← print_all (ask AskName);
    dialogue_from (AskText (TrimSpace (ReadString r).1)) k (ReadString r).2.
Proof. rewrite dialogue_from_S. by unfold_monad. Qed.

Lemma from_text name k r :
  dialogue_from (AskText name) (S k) r =
    _ ← print_all (ask (AskText name));
    dialogue_from (AskWork name (TrimSpace (ReadString r).1) []) k (ReadString r).2.
Proof. rewrite dialogue_from_S. by unfold_monad. Qed.

Lemma from_cycles name text ps k r :
  dialogue_from (AskCycles name text ps) (S k) r =
    _ ← print_all (ask (AskCycles name text ps));
    p0 ← index ps 0;
    mret (inr (created name text ps (read_maxCycles (TrimSpace (ReadString r).1)) p0,
               (ReadString r).2)).
Proof.
  rewrite dialogue_from_S. cbn [answer]. apply bind_ext. intros _.
  rewrite bind_assoc. apply bind_ext. intros p0. by rewrite bind_ret_l.
Qed.

(** Steps taken one after the other. *)
Lemma dialogue_from_add st k j r :
  dialogue_from st (k + j) r =
    x ← dialogue_from st k r;
    match x with
    | inl (st', r') => run_dialogue j st' r'
    | inr res => mret (inr res)
    end.
Proof.
  unfold dialogue_from. rewrite bind_assoc. apply bind_ext. intros _. revert st r.
  induction k as [|k IH]; intros st r; simpl; [by rewrite bind_ret_l|].
  rewrite bind_assoc. apply bind_ext. intros [[st'|tc] r1]; simpl; [apply IH|].
  by rewrite bind_ret_l.
Qed.

(** createTimer, question by question. *)
Lemma createTimer_eq fuel r :
  let name := TrimSpace (ReadString r).1 in
  let text := TrimSpace (ReadString (ReadString r).2).1 in
  createTimer fuel r =
    _ ← print_all (ask AskName);
    _ ← print_all (ask (AskText name));
    res ← read_phases fuel (ReadString (ReadString r).2).2 [];
    match res with
    | None => mret None
    | Some (ps, r3) =>
        _ ← print_all (ask (AskCycles name text ps));
        p0 ← index ps 0;
        mret (Some (created name text ps (read_maxCycles (TrimSpace (ReadString r3).1)) p0,
                    (ReadString r3).2))
    end.
Proof.
  unfold createTimer, readLine. cbv zeta. rewrite !bind_assoc. unfold_monad.
  by destruct (read_phases _ _ _) as [es [[[ps r3]|]|p]].
Qed.

End simulation.

(** ** What an answer keeps *)

Section keeps.
Context (P : TimerPhase -> Prop) (Q : Duration -> Prop).
Context (HPQ : forall w b, Q w -> Q b -> P (mkTimerPhase w b)).

(** A property of the durations typed so far, and of the phases made of
    them, holds after an answer whose duration has it, and of the
    phases of the timer the last answer builds. *)
Lemma answer_keeps st text :
  (forall d, parseDuration text = inr d -> Q d) -> collected P Q st ->
  match result (answer st text) with
  | Ok (inl st') => collected P Q st'
  | Ok (inr tc) => exists p0 ps',
      tc = created (match st with AskCycles name _ _ => name | _ => EmptyString end)
                   (match st with AskCycles _ notifText _ => notifText | _ => EmptyString end)
                   (p0 :: ps') (read_maxCycles text) p0 /\ Forall P (p0 :: ps')
  | Panicked _ => True
  end.
Proof.
  intros Hd [Hps Hw]. destruct st as [|name|name t ps|name t ps w|name t ps|name t ps]; simpl.
  - by split.
  - by split.
  - destruct (parseDuration text) as [e|d] eqn:Hp; simpl; [by split|]. split; [done|].
    by apply Hd.
  - destruct (parseDuration text) as [e|d] eqn:Hp; simpl; [by split|]. split; [|done].
    apply Forall_app. split; [done|]. constructor; [|done]. apply HPQ; [done|by apply Hd].
  - by case_decide.
  - destruct ps as [|p0 ps]; [done|]. by exists p0, ps.
Qed.

End keeps.

(** ** The run, step by step *)

Section steps.
Implicit Types (st : dstate) (k : nat) (r : reader).

(** A step reads one line: what it prints depends on that line only. *)
Lemma dialogue_step_events st r :
  events (dialogue_step st r) = events (dialogue_step st [(ReadString r).1]).
Proof.
  unfold dialogue_step. rewrite !events_bind. f_equal.
  by destruct (result (answer _ _)) as [[st'|tc]|p].
Qed.

Lemma run_dialogue_result st k r :
  result (run_dialogue (S k) st r) =
    match result (answer st (TrimSpace (ReadString r).1)) with
    | Ok (inl st') => result (run_dialogue k st' (ReadString r).2)
    | Ok (inr tc) => Ok (inr (tc, (ReadString r).2))
    | Panicked p => Panicked p
    end.
Proof.
  simpl. unfold dialogue_step. rewrite !result_bind.
  by destruct (result (answer _ _)) as [[st'|tc]|p].
Qed.

Lemma run_dialogue_events st k r :
  events (run_dialogue (S k) st r) =
    events (dialogue_step st r) ++
    match result (answer st (TrimSpace (ReadString r).1)) with
    | Ok (inl st') => events (run_dialogue k st' (ReadString r).2)
    | _ => []
    end.
Proof.
  simpl. rewrite events_bind. f_equal. unfold dialogue_step. rewrite !result_bind.
  by destruct (result (answer _ _)) as [[st'|tc]|p].
Qed.

End steps.

(** ** Runs that have ended, runs out of fuel *)

Section ended.
Implicit Types (st : dstate) (k j fuel : nat) (r : reader).

(** A dialogue that has ended takes no further step. *)
Lemma dialogue_from_ended st k j r x :
  returns (dialogue_from st k r) (inr x) -> dialogue_from st (k + j) r = dialogue_from st k r.
Proof.
  unfold returns. intros Hx. rewrite dialogue_from_add.
  destruct (dialogue_from st k r) as [es res]. simpl in Hx. subst res.
  by rewrite bind_Ok, app_nil_r.
Qed.

(** When the fuel of createTimer has run out, the machine stands at the
    work time of a phase, after at least one line per iteration. *)
Lemma createTimer_out_of_fuel fuel r :
  returns (createTimer fuel r) None ->
  exists k st r', (fuel + 2 <= k)%nat /\
    dialogue_from AskName k r = mkGoM (events (createTimer fuel r) ++ ask st) (Ok (inl (st, r'))).
Proof.
  intros Hret.
  destruct (read_phases_sim (TrimSpace (ReadString r).1)
              (TrimSpace (ReadString (ReadString r).2).1) fuel
              (ReadString (ReadString r).2).2 []) as (k & stop & _ & Hlow & Heq).
  unfold returns in *. rewrite createTimer_eq in *. cbv zeta in *.
  exists (S (S k)), (AskWork (TrimSpace (ReadString r).1)
                       (TrimSpace (ReadString (ReadString r).2).1) stop.1), stop.2.
  rewrite from_name, from_text, Heq. clear Heq.
  destruct (read_phases _ _ _) as [es [[[[|p0 ps] r3]|]|p]]; try done.
  split; [specialize (Hlow eq_refl); lia|].
  unfold after_phases. rewrite dialogue_from_O. unfold_monad. by rewrite app_nil_r.
Qed.

End ended.

(** ** createTimer is the run of the machine *)

(** Whenever createTimer returns a timer, the machine has ended with it
    after the same texts. *)
Lemma createTimer_run fuel r x :
  returns (createTimer fuel r) (Some x) ->
  exists k, (k <= 3 * fuel + 3)%nat /\
    dialogue_from AskName k r = mkGoM (events (createTimer fuel r)) (Ok (inr x)).
Proof.
  intros Hret.
  destruct (read_phases_sim (TrimSpace (ReadString r).1)
              (TrimSpace (ReadString (ReadString r).2).1) fuel
              (ReadString (ReadString r).2).2 []) as (k & stop & Hk & _ & Heq).
  exists (S (S (k + 1))). split; [lia|].
  rewrite from_name, from_text, dialogue_from_add, Heq. clear Heq.
  unfold returns in Hret. rewrite createTimer_eq in *. cbv zeta in *.
  destruct (read_phases _ _ _) as [es [[[[|p0 ps] r3]|]|p]]; try done.
  unfold after_phases, dialogue_from. simpl run_dialogue. unfold dialogue_step.
  cbn [answer]. unfold_monad.
  unfold print_all, mbind, GoM_bind, mret, GoM_ret in Hret. simpl in Hret.
  injection Hret as <-. by rewrite app_nil_r.
Qed.

(** Three lines per iteration and three more are enough. *)
Lemma createTimer_run_full fuel r x :
  returns (createTimer fuel r) (Some x) ->
  dialogue_from AskName (3 * fuel + 3) r = mkGoM (events (createTimer fuel r)) (Ok (inr x)).
Proof.
  intros (k & Hk & Heq)%createTimer_run.
  replace (3 * fuel + 3)%nat with (k + (3 * fuel + 3 - k))%nat by lia.
  rewrite (dialogue_from_ended _ _ _ _ x); [done|]. unfold returns. by rewrite Heq.
Qed.

(** Whenever the machine has ended within [k] lines, createTimer with
    fuel [k] returns what it ended with, after the same texts. *)
Lemma run_createTimer k r x :
  returns (dialogue_from AskName k r) (inr x) ->
  createTimer k r = mkGoM (events (dialogue_from AskName k r)) (Ok (Some x)).
Proof.
  intros Hk. destruct (createTimer_returns k r) as ([x'|] & Hret & _).
  - destruct (createTimer_run k r x' Hret) as (k' & _ & Hk').
    assert (dialogue_from AskName k r = dialogue_from AskName k' r) as Heq.
    { rewrite <- (dialogue_from_ended _ k k' r x Hk), Nat.add_comm.
      apply (dialogue_from_ended _ k' k r x'). unfold returns. by rewrite Hk'. }
    unfold returns in Hk, Hret. rewrite Heq, Hk' in Hk |- *. cbn [events result] in *.
    injection Hk as <-. by rewrite <- Hret, GoM_eta.
  - destruct (createTimer_out_of_fuel k r Hret) as (k' & st & r' & Hlow & Hk').
    replace k' with (k + (k' - k))%nat in Hk' by lia.
    rewrite (dialogue_from_ended _ _ _ _ x Hk) in Hk'. unfold returns in Hk.
    by rewrite Hk' in Hk.
Qed.

(** C23: createTimer is the run of the machine.  Whenever createTimer
    returns a timer, the machine started at the question of the name and
    run on the same input has printed the same texts in the same order
    and ended with the same timer, configuration and rest of the input,
    after at most three lines per iteration of the phase loop and three
    more; and whenever the machine ends within k lines, createTimer with
    fuel k returns what it ended with.  So whether the dialogue ends, and
    with what, does not depend on the fuel. *)
Theorem createTimer_line_by_line r x :
  (forall fuel, returns (createTimer fuel r) (Some x) ->
     exists k, (k <= 3 * fuel + 3)%nat /\
       dialogue_from AskName k r = mkGoM (events (createTimer fuel r)) (Ok (inr x))) /\
  (forall k, returns (dialogue_from AskName k r) (inr x) ->
     createTimer k r = mkGoM (events (dialogue_from AskName k r)) (Ok (Some x))).
Proof. split; [intros fuel; apply createTimer_run|intros k; apply run_createTimer]. Qed.

(** The dialogue of the session of Command.v: one answer is no duration
    and the phase is asked again. *)
Example example_dialogue_run :
  result (dialogue_from AskName 8
            [" tea "; "drink"; "0:02"; "x"; "0:02"; "0:01"; "n"; "2"; "p 1"])
    = Ok (inr (created "tea" "drink" [mkTimerPhase (2 * Second) Second] 2
                 (mkTimerPhase (2 * Second) Second), ["p 1"])) /\
  dialogue_from AskName 8 [" tea "; "drink"; "0:02"; "x"; "0:02"; "0:01"; "n"; "2"; "p 1"]
    = mkGoM (events (createTimer 2 [" tea "; "drink"; "0:02"; "x"; "0:02"; "0:01"; "n"; "2"; "p 1"]))
            (Ok (inr (created "tea" "drink" [mkTimerPhase (2 * Second) Second] 2
                        (mkTimerPhase (2 * Second) Second), ["p 1"]))).
Proof. by vm_compute. Qed.
