(* ===== verification/Concurrency.v ===== *)
(** * Concurrency: the three goroutines and the lock

    main.go runs three goroutines on one TimerManager: the ticker
    (startUpdateLoop), the renderer (the loop over displayChan) and the
    command loop of main.  Everything between tm.mu.Lock() and
    tm.mu.Unlock() is one atomic step here; what a goroutine does outside
    the lock is a step of its own, so that steps of the others can come in
    between.  In particular the range check of the commands p, r and d
    reads len(tm.activeTimers) before the lock is taken: the check and the
    critical section are two steps, and so are the save, the redraw and
    the prompt that follow the critical section.  createTimer runs
    outside the lock, one line of the dialogue per step (Dialogue.v).
    The system starts when the goroutines have been started, with the
    first screen of main still to come: the ticker may sweep before main
    has printed anything.

    [cstep] is the step relation of the system, [csteps] its traces; a
    label names the goroutine that moves and what main has read.  A panic
    in any goroutine ends the process: a crashed system has no step, and
    neither has one whose main has returned.  [emits] is what a step
    sends to the outside: notifications, text for the terminal, a save.

    The theorems: the manager's invariant holds in every reachable state,
    as long as the timers added are well formed, and only a command's
    critical section can panic; a tick that removes a
    completed timer between a command's check and its critical section
    makes the command panic; with timers that never complete no
    interleaving panics. *)

From Stdlib Require Import ZArith Lia.
From stdpp Require Import base tactics option list numbers strings.
From S2P Require Import Prelude GoLib Duration Timer Run Sweep Manager Display Command.
From S2P Require Import Dialogue.

#[local] Open Scope Z_scope.

(** ** The state of the system *)

(** The commands that take a number. *)
Inductive cmd : Type :=
  | CPause
  | CReset
  | CDelete.

(** Where main is: past the go statements and before its first screen;
    reading a line; in createTimer, at a question of the dialogue; past
    createTimer and before the lock of the add; past the range check of a
    command and before its lock; past a critical section and before the
    save, the redraw, the prompt; returned. *)
Inductive main_pc : Type :=
  | MStart
  | MRead
  | MDialogue (st : dstate)
  | MCreated (t : Timer) (c : TimerConfig)
  | MChecked (c : cmd) (num : Z)
  | MSave
  | MShow
  | MPrompt
  | MReturned.

(** Where the ticker is: waiting for the next second; past the sweep with
    needsDisplay set, before the send. *)
Inductive ticker_pc : Type :=
  | TWait
  | TSend.

(** Where the renderer is: waiting on displayChan; about to draw. *)
Inductive renderer_pc : Type :=
  | RWait
  | RDraw.

#[export] Instance cmd_eq_dec : EqDecision cmd.
Proof. solve_decision. Defined.
#[export] Instance main_pc_eq_dec : EqDecision main_pc.
Proof. solve_decision. Defined.
#[export] Instance ticker_pc_eq_dec : EqDecision ticker_pc.
Proof. solve_decision. Defined.
#[export] Instance renderer_pc_eq_dec : EqDecision renderer_pc.
Proof. solve_decision. Defined.

Record sys : Type := mkSys {
  mgr : TimerManager;
  mpc : main_pc;
  tpc : ticker_pc;
  rpc : renderer_pc;
  crash : option panic
}.

#[export] Instance sys_eq_dec : EqDecision sys.
Proof. solve_decision. Defined.

(** The system when the goroutines have been started: main has its
    first screen and its first prompt still to print. *)
Definition initial (tm : TimerManager) : sys := mkSys tm MStart TWait RWait None.

(** The system when main reads a line and the other goroutines wait. *)
Definition at_prompt (tm : TimerManager) : sys := mkSys tm MRead TWait RWait None.

Definition set_mgr (tm : TimerManager) (s : sys) : sys :=
  mkSys tm (mpc s) (tpc s) (rpc s) (crash s).
Definition set_mpc (pc : main_pc) (s : sys) : sys :=
  mkSys (mgr s) pc (tpc s) (rpc s) (crash s).
Definition set_tpc (pc : ticker_pc) (s : sys) : sys :=
  mkSys (mgr s) (mpc s) pc (rpc s) (crash s).
Definition set_rpc (pc : renderer_pc) (s : sys) : sys :=
  mkSys (mgr s) (mpc s) (tpc s) pc (crash s).
Definition set_crash (p : panic) (s : sys) : sys :=
  mkSys (mgr s) (mpc s) (tpc s) (rpc s) (Some p).
Definition set_displayChan (ch : list bool) (tm : TimerManager) : TimerManager :=
  mkTimerManager (activeTimers tm) (configs tm) ch.

(** The process goes on: no goroutine has panicked and main has not
    returned. *)
Definition running (s : sys) : Prop := crash s = None /\ mpc s <> MReturned.

#[export] Instance running_dec s : Decision (running s).
Proof. unfold running. apply _. Defined.

(** ** The steps *)

(** The critical section of the ticker: the sweep, with needsDisplay. *)
Definition sweep (tm : TimerManager) : GoM Notification (list Timer * bool) :=
  sweep_loop update (length (activeTimers tm)) (activeTimers tm) false.

(** The critical section of a command. *)
Definition act {E} (c : cmd) (num : Z) (tm : TimerManager) : GoM E TimerManager :=
  match c with
  | CPause => toggle_pause num tm
  | CReset => reset_timer num tm
  | CDelete => delete_timer num tm
  end.

(** Where main goes after the critical section of a command: the delete
    saves before it redraws. *)
Definition after_act (c : cmd) : main_pc :=
  match c with
  | CDelete => MSave
  | _ => MShow
  end.

(** The text main prints when the line is empty or names no command. *)
Definition idle_prompt : string := "Enter command: ".

(** The goroutine that moves, and for main what it has read: the command
    and its number, or the question of the dialogue it stood at and the
    line that answered it. *)
Inductive label : Type :=
  | LTick
  | LSend
  | LRecv
  | LDraw (text : string)
  | LStart
  | LCheck (c : cmd) (num : Z)
  | LAct
  | LOpen
  | LLine (st : dstate) (line : string)
  | LAdd
  | LSave
  | LShow
  | LPrompt
  | LOther
  | LQuit.

(** The steps of main from the go statements to its first read: it clears
    the screen, draws the list and prints the prompt. *)
Definition first_screen : list label := [LStart; LShow; LPrompt].

Inductive cstep : sys -> label -> sys -> Prop :=
  | step_tick s ts flag :
      running s -> tpc s = TWait -> returns (sweep (mgr s)) (ts, flag) ->
      cstep s LTick
        (set_tpc (if flag then TSend else TWait) (set_mgr (set_activeTimers ts (mgr s)) s))
  | step_tick_panic s p :
      running s -> tpc s = TWait -> result (sweep (mgr s)) = Panicked p ->
      cstep s LTick (set_crash p s)
  | step_send s :
      running s -> tpc s = TSend ->
      cstep s LSend
        (set_tpc TWait (set_mgr (set_displayChan (try_send (displayChan (mgr s)) true) (mgr s)) s))
  | step_recv s v ch :
      running s -> rpc s = RWait -> recv (displayChan (mgr s)) = Some (v, ch) ->
      cstep s LRecv (set_rpc RDraw (set_mgr (set_displayChan ch (mgr s)) s))
  | step_draw s :
      running s -> rpc s = RDraw ->
      cstep s (LDraw (displayTimers true (mgr s))) (set_rpc RWait s)
  | step_start s :
      running s -> mpc s = MStart -> cstep s LStart (set_mpc MShow s)
  | step_check_in s c num :
      running s -> mpc s = MRead -> in_int64 num -> in_range num (mgr s) ->
      cstep s (LCheck c num) (set_mpc (MChecked c num) s)
  | step_check_out s c num :
      running s -> mpc s = MRead -> in_int64 num -> ~ in_range num (mgr s) ->
      cstep s (LCheck c num) (set_mpc MPrompt s)
  | step_act s c num tm' :
      running s -> mpc s = MChecked c num ->
      returns (@act MainEvent c num (mgr s)) tm' ->
      cstep s LAct (set_mpc (after_act c) (set_mgr tm' s))
  | step_act_panic s c num p :
      running s -> mpc s = MChecked c num ->
      result (@act MainEvent c num (mgr s)) = Panicked p ->
      cstep s LAct (set_crash p s)
  | step_open s :
      running s -> mpc s = MRead -> cstep s LOpen (set_mpc (MDialogue AskName) s)
  | step_line s st line st' :
      running s -> mpc s = MDialogue st ->
      returns (answer st (TrimSpace line)) (inl st') ->
      cstep s (LLine st line) (set_mpc (MDialogue st') s)
  | step_line_end s st line t c :
      running s -> mpc s = MDialogue st ->
      returns (answer st (TrimSpace line)) (inr (t, c)) ->
      cstep s (LLine st line) (set_mpc (MCreated t c) s)
  | step_line_panic s st line p :
      running s -> mpc s = MDialogue st ->
      result (answer st (TrimSpace line)) = Panicked p ->
      cstep s (LLine st line) (set_crash p s)
  | step_add s t c :
      running s -> mpc s = MCreated t c ->
      cstep s LAdd (set_mpc MSave (set_mgr (add_timer t c (mgr s)) s))
  | step_save s :
      running s -> mpc s = MSave -> cstep s LSave (set_mpc MShow s)
  | step_show s :
      running s -> mpc s = MShow -> cstep s LShow (set_mpc MPrompt s)
  | step_prompt s :
      running s -> mpc s = MPrompt -> cstep s LPrompt (set_mpc MRead s)
  | step_other s :
      running s -> mpc s = MRead -> cstep s LOther s
  | step_quit s :
      running s -> mpc s = MRead ->
      cstep s LQuit (set_mpc MReturned s).

(** Traces. *)
Inductive csteps : sys -> list label -> sys -> Prop :=
  | csteps_nil s : csteps s [] s
  | csteps_cons s l s' ls s'' :
      cstep s l s' -> csteps s' ls s'' -> csteps s (l :: ls) s''.

(** ** What a step sends to the outside *)

(** A notification of the ticker, an event of main (text for the
    terminal, a save), a redraw of the renderer. *)
Inductive io : Type :=
  | Popup (n : Notification)
  | Main (e : MainEvent)
  | Draw (text : string).

#[export] Instance io_eq_dec : EqDecision io.
Proof. solve_decision. Defined.

(** What the step with label [l] sends from the state [s].  A sweep that
    panics has sent the notifications up to the panic. *)
Definition emits (s : sys) (l : label) : list io :=
  match l with
  | LTick => map Popup (events (sweep (mgr s)))
  | LDraw text => [Draw text]
  | LStart => [Main (Print clearDisplay)]
  | LOpen => map Main (ask AskName)
  | LLine st line => map Main (events (dialogue_step st [line]))
  | LSave => [Main (SaveConfigs (configs (mgr s)))]
  | LShow => [Main (Print (displayTimers false (mgr s)))]
  | LPrompt => [Main (Print prompt)]
  | LOther => [Main (Print idle_prompt)]
  | LSend | LRecv | LCheck _ _ | LAct | LAdd | LQuit => []
  end.

(** ** The critical sections, when they return *)

Section act_lemmas.
Context {E : Type}.
Implicit Types (tm : TimerManager) (num : Z) (c : cmd).

(** The ticker's two steps together are [tick]. *)
Lemma tick_sweep_send tm :
  tick tm =
    sweep tm ≫= fun r : list Timer * bool =>
    mret (mkTimerManager r.1 (configs tm)
            (if r.2 then try_send (displayChan tm) true else displayChan tm)).
Proof. done. Qed.

(** On well-formed timers the sweep returns the survivors. *)
Lemma sweep_wf tm :
  Forall wf_timer (activeTimers tm) ->
  sweep tm = mkGoM (sweep_events update (activeTimers tm))
                   (Ok (omap (survivor update) (activeTimers tm),
                        bool_decide (activeTimers tm <> []))).
Proof.
  intros Hts. unfold sweep. rewrite sweep_loop_ref.
  destruct (sweep_ref_inv update wf_timer _ Hts) as [-> _].
  rewrite bind_Ok. simpl. by rewrite app_nil_r.
Qed.

(** A critical section that returned has found its timer. *)
Lemma act_returns c num tm tm' :
  returns (@act E c num tm) tm' ->
  0 <= wrap64 (num - 1) < len (activeTimers tm) /\
  match c with
  | CPause => exists t,
      activeTimers tm !! Z.to_nat (wrap64 (num - 1)) = Some t /\
      tm' = set_activeTimers
              (<[Z.to_nat (wrap64 (num - 1)) := set_isPaused (negb (isPaused t)) t]>
                 (activeTimers tm)) tm
  | CReset => exists t p0,
      activeTimers tm !! Z.to_nat (wrap64 (num - 1)) = Some t /\
      phases t !! 0%nat = Some p0 /\
      tm' = set_activeTimers
              (<[Z.to_nat (wrap64 (num - 1)) := with_state (set_currentTime (WorkDuration p0)) t]>
                 (activeTimers tm)) tm
  | CDelete =>
      tm' = mkTimerManager (delete (Z.to_nat (wrap64 (num - 1))) (activeTimers tm))
                           (delete (Z.to_nat (wrap64 (num - 1))) (configs tm))
                           (displayChan tm)
  end.
Proof.
  destruct c; simpl; unfold toggle_pause, reset_timer, delete_timer.
  - intros (t & [Hi Ht]%index_returns & <-%returns_mret)%returns_bind_inv. eauto.
  - intros (t & [Hi Ht]%index_returns & (p0 & [_ Hp]%index_returns & <-%returns_mret)
              %returns_bind_inv)%returns_bind_inv.
    split; [done|]. by exists t, p0.
  - intros (ts & [Hi ->]%remove_at_returns & (cs & [_ ->]%remove_at_returns & <-%returns_mret)
              %returns_bind_inv)%returns_bind_inv.
    done.
Qed.

Lemma act_wf c num tm tm' :
  wf_manager tm -> returns (@act E c num tm) tm' -> wf_manager tm'.
Proof.
  intros Hwf Hr. apply act_returns in Hr as [Hi Hc]. destruct c.
  - destruct Hc as (t & Ht & ->). apply wf_manager_insert; [done|].
    apply wf_timer_set_isPaused. by eapply Forall_lookup_1; [apply Hwf|].
  - destruct Hc as (t & p0 & Ht & Hp & ->). apply wf_manager_insert; [done|].
    apply wf_timer_reset; [|done]. by eapply Forall_lookup_1; [apply Hwf|].
  - subst tm'. by apply wf_manager_delete.
Qed.

(** In range, on a well-formed manager, the critical section returns. *)
Lemma act_in_range c num tm :
  wf_manager tm -> in_int64 num -> in_range num tm ->
  exists tm', returns (@act E c num tm) tm' /\
    length (activeTimers tm') = (if c is CDelete then pred else id) (length (activeTimers tm)).
Proof.
  intros Hwf Hn Hr. destruct (in_range_index num tm Hn Hr) as (_ & _ & Hlt).
  destruct (lookup_lt_is_Some_2 _ _ Hlt) as [t Ht].
  assert (wf_timer t) as Hwt by (by eapply Forall_lookup_1; [apply Hwf|]).
  destruct (wf_timer_first_phase t Hwt) as [p0 Hp0].
  unfold returns. destruct c; simpl.
  - rewrite (toggle_pause_eq num tm t) by done. eexists. split; [done|]. simpl.
    by rewrite length_insert.
  - rewrite (reset_timer_eq num tm t p0) by done. eexists. split; [done|]. simpl.
    by rewrite length_insert.
  - rewrite delete_timer_eq by (done || apply Hwf). eexists. split; [done|]. simpl.
    by rewrite length_delete_lt.
Qed.

End act_lemmas.

(** ** The steps as a function

    A state and a label have at most one successor: the scheduler chooses
    the label, the step is determined.  [cstep_fun] computes it, [run] a
    whole trace and [trace] what the trace sends to the outside. *)

Definition cstep_fun (l : label) (s : sys) : option sys :=
  if decide (running s) then
    match l with
    | LTick =>
        if decide (tpc s = TWait) then
          match result (sweep (mgr s)) with
          | Ok (ts, flag) =>
              Some (set_tpc (if flag then TSend else TWait)
                      (set_mgr (set_activeTimers ts (mgr s)) s))
          | Panicked p => Some (set_crash p s)
          end
        else None
    | LSend =>
        if decide (tpc s = TSend) then
          Some (set_tpc TWait
                  (set_mgr (set_displayChan (try_send (displayChan (mgr s)) true) (mgr s)) s))
        else None
    | LRecv =>
        if decide (rpc s = RWait) then
          match recv (displayChan (mgr s)) with
          | Some (v, ch) => Some (set_rpc RDraw (set_mgr (set_displayChan ch (mgr s)) s))
          | None => None
          end
        else None
    | LDraw text =>
        if decide (rpc s = RDraw /\ text = displayTimers true (mgr s))
        then Some (set_rpc RWait s) else None
    | LStart => if decide (mpc s = MStart) then Some (set_mpc MShow s) else None
    | LCheck c num =>
        if decide (mpc s = MRead /\ in_int64 num) then
          Some (set_mpc (if decide (in_range num (mgr s)) then MChecked c num else MPrompt) s)
        else None
    | LAct =>
        match mpc s with
        | MChecked c num =>
            match result (@act MainEvent c num (mgr s)) with
            | Ok tm' => Some (set_mpc (after_act c) (set_mgr tm' s))
            | Panicked p => Some (set_crash p s)
            end
        | _ => None
        end
    | LOpen => if decide (mpc s = MRead) then Some (set_mpc (MDialogue AskName) s) else None
    | LLine st line =>
        if decide (mpc s = MDialogue st) then
          match result (answer st (TrimSpace line)) with
          | Ok (inl st') => Some (set_mpc (MDialogue st') s)
          | Ok (inr (t, c)) => Some (set_mpc (MCreated t c) s)
          | Panicked p => Some (set_crash p s)
          end
        else None
    | LAdd =>
        match mpc s with
        | MCreated t c => Some (set_mpc MSave (set_mgr (add_timer t c (mgr s)) s))
        | _ => None
        end
    | LSave => if decide (mpc s = MSave) then Some (set_mpc MShow s) else None
    | LShow => if decide (mpc s = MShow) then Some (set_mpc MPrompt s) else None
    | LPrompt => if decide (mpc s = MPrompt) then Some (set_mpc MRead s) else None
    | LOther => if decide (mpc s = MRead) then Some s else None
    | LQuit => if decide (mpc s = MRead) then Some (set_mpc MReturned s) else None
    end
  else None.

Fixpoint run (ls : list label) (s : sys) : option sys :=
  match ls with
  | [] => Some s
  | l :: ls =>
      match cstep_fun l s with
      | Some s' => run ls s'
      | None => None
      end
  end.

(** What the steps of [ls] send, in order, as far as they can be taken. *)
Fixpoint trace (ls : list label) (s : sys) : list io :=
  match ls with
  | [] => []
  | l :: ls =>
      match cstep_fun l s with
      | Some s' => emits s l ++ trace ls s'
      | None => []
      end
  end.

Section functional.
Implicit Types (s : sys) (l : label) (ls : list label).

Lemma cstep_fun_sound s l s' : cstep_fun l s = Some s' -> cstep s l s'.
Proof.
  unfold cstep_fun. case_decide as Hrun; [|done]. destruct l.
  - case_decide; [|done]. destruct (result (sweep (mgr s))) as [[ts flag]|p] eqn:Hr;
      intros [= <-]; [by eapply step_tick|by eapply step_tick_panic].
  - case_decide; [|done]. intros [= <-]. by apply step_send.
  - case_decide; [|done]. destruct (recv _) as [[v ch]|] eqn:Hr; [|done].
    intros [= <-]. by eapply step_recv.
  - case_decide as H; [|done]. destruct H as [? ->]. intros [= <-]. by apply step_draw.
  - case_decide; [|done]. intros [= <-]. by apply step_start.
  - case_decide as H; [|done]. destruct H. intros [= <-].
    case_decide; [by apply step_check_in|by apply step_check_out].
  - destruct (mpc s) as [| | |? ?|c num| | | |] eqn:Hpc; try done.
    destruct (result (act c num (mgr s))) as [tm'|p] eqn:Hr; intros [= <-];
      [by eapply step_act|by eapply step_act_panic].
  - case_decide; [|done]. intros [= <-]. by apply step_open.
  - case_decide; [|done].
    destruct (result (answer st (TrimSpace line))) as [[st'|[t c]]|p] eqn:Hr; intros [= <-];
      [by apply step_line|by apply step_line_end|by apply step_line_panic].
  - destruct (mpc s) as [| | |t c|? ?| | | |] eqn:Hpc; try done. intros [= <-]. by apply step_add.
  - case_decide; [|done]. intros [= <-]. by apply step_save.
  - case_decide; [|done]. intros [= <-]. by apply step_show.
  - case_decide; [|done]. intros [= <-]. by apply step_prompt.
  - case_decide; [|done]. intros [= <-]. by apply step_other.
  - case_decide; [|done]. intros [= <-]. by apply step_quit.
Qed.

Lemma cstep_fun_complete s l s' : cstep s l s' -> cstep_fun l s = Some s'.
Proof.
  unfold cstep_fun, returns.
  destruct 1 as [s ts flag Hrun Hpc Hr|s p Hrun Hpc Hr|s Hrun Hpc|s v ch Hrun Hpc Hr
                 |s Hrun Hpc|s Hrun Hpc|s c num Hrun Hpc Hn Hi|s c num Hrun Hpc Hn Hi
                 |s c num tm' Hrun Hpc Hr|s c num p Hrun Hpc Hr|s Hrun Hpc
                 |s st line st' Hrun Hpc Hr|s st line t c Hrun Hpc Hr|s st line p Hrun Hpc Hr
                 |s t c Hrun Hpc|s Hrun Hpc|s Hrun Hpc|s Hrun Hpc|s Hrun Hpc|s Hrun Hpc];
    rewrite decide_True by done; rewrite ?Hpc, ?Hr; try done.
  - by rewrite decide_True.
  - by rewrite !decide_True.
  - by rewrite decide_True, decide_False.
  - by rewrite decide_True.
  - by rewrite decide_True.
  - by rewrite decide_True.
Qed.

Lemma cstep_iff s l s' : cstep s l s' <-> cstep_fun l s = Some s'.
Proof. split; [apply cstep_fun_complete|apply cstep_fun_sound]. Qed.

Lemma csteps_iff s ls s' : csteps s ls s' <-> run ls s = Some s'.
Proof.
  split.
  - induction 1 as [|s l s1 ls s2 H1 _ IH]; [done|]. simpl.
    by rewrite (cstep_fun_complete _ _ _ H1).
  - revert s. induction ls as [|l ls IH]; intros s; simpl.
    + intros [= <-]. constructor.
    + destruct (cstep_fun l s) as [s1|] eqn:H1; [|done]. intros Hr.
      econstructor; [by apply cstep_fun_sound|by apply IH].
Qed.

(** A schedule that starts with a step of the relation. *)
Lemma run_cons l ls s s' : cstep s l s' -> run (l :: ls) s = run ls s'.
Proof. intros H. simpl. by rewrite (cstep_fun_complete _ _ _ H). Qed.

Lemma trace_cons l ls s s' : cstep s l s' -> trace (l :: ls) s = emits s l ++ trace ls s'.
Proof. intros H. simpl. by rewrite (cstep_fun_complete _ _ _ H). Qed.

(** A run of two schedules, one after the other. *)
Lemma run_app ls1 ls2 s s1 : run ls1 s = Some s1 -> run (ls1 ++ ls2) s = run ls2 s1.
Proof.
  revert s. induction ls1 as [|l ls1 IH]; intros s; simpl; [by intros [= <-]|].
  destruct (cstep_fun l s) as [s'|]; [apply IH|done].
Qed.

Lemma trace_app ls1 ls2 s s1 :
  run ls1 s = Some s1 -> trace (ls1 ++ ls2) s = trace ls1 s ++ trace ls2 s1.
Proof.
  revert s. induction ls1 as [|l ls1 IH]; intros s; simpl; [by intros [= <-]|].
  destruct (cstep_fun l s) as [s'|]; [|done]. intros Hr.
  by rewrite (IH _ Hr), app_assoc.
Qed.

Lemma csteps_app ls1 ls2 s s1 s2 :
  csteps s ls1 s1 -> csteps s1 ls2 s2 -> csteps s (ls1 ++ ls2) s2.
Proof.
  rewrite !csteps_iff. intros H1 H2. by rewrite (run_app _ _ _ _ H1).
Qed.

(** Main alone prints its first screen and stands at the prompt. *)
Lemma first_screen_run tm :
  csteps (initial tm) first_screen (at_prompt tm) /\
  trace first_screen (initial tm) =
    [Main (Print clearDisplay); Main (Print (displayTimers false tm)); Main (Print prompt)].
Proof.
  assert (cstep (initial tm) LStart (set_mpc MShow (initial tm))) as H1
    by (by apply step_start).
  assert (cstep (set_mpc MShow (initial tm)) LShow (set_mpc MPrompt (initial tm))) as H2
    by (by apply (step_show (set_mpc MShow (initial tm)))).
  assert (cstep (set_mpc MPrompt (initial tm)) LPrompt (at_prompt tm)) as H3
    by (by apply (step_prompt (set_mpc MPrompt (initial tm)))).
  split; [by repeat (econstructor; [done|]); constructor|]. unfold first_screen.
  by rewrite (trace_cons _ _ _ _ H1), (trace_cons _ _ _ _ H2), (trace_cons _ _ _ _ H3).
Qed.

End functional.

(** Takes the first step of the schedule in the goal, in [run] and in
    [trace]; [rule] proves that the step is one of the relation. *)
Ltac take_step rule :=
  match goal with
  | |- context [run (?l :: ?ls) ?s] =>
      let H := fresh "Hstep" in
      eassert (cstep s l _) as H by rule;
      rewrite ?(run_cons _ _ _ _ H), ?(trace_cons _ _ _ _ H); clear H;
      cbn [emits app set_mpc set_mgr set_crash mgr mpc tpc rpc crash]
  end.

#[export] Instance cstep_dec s l s' : Decision (cstep s l s').
Proof. refine (cast_if (decide (cstep_fun l s = Some s'))); by rewrite cstep_iff. Defined.
#[export] Instance csteps_dec s ls s' : Decision (csteps s ls s').
Proof. refine (cast_if (decide (run ls s = Some s'))); by rewrite csteps_iff. Defined.

(** The system is deterministic in the schedule. *)
Lemma csteps_deterministic s ls s1 s2 : csteps s ls s1 -> csteps s ls s2 -> s1 = s2.
Proof. rewrite !csteps_iff. congruence. Qed.

(** ** The manager's invariant in every reachable state *)

(** What the answer of a label ends the dialogue with, if it does: the
    timer, [None] when the dialogue goes on, and no answer may panic. *)
Definition ends_with (P : Timer -> Prop) (l : label) : Prop :=
  match l with
  | LLine st line =>
      match result (answer st (TrimSpace line)) with
      | Ok (inl _) => True
      | Ok (inr (t, _)) => P t
      | Panicked _ => False
      end
  | _ => True
  end.

#[export] Instance ends_with_dec P `{!forall t, Decision (P t)} l : Decision (ends_with P l).
Proof. destruct l; simpl; try apply _. repeat case_match; apply _. Defined.

(** The timer the dialogue builds is well formed. *)
Definition wf_label (l : label) : Prop := ends_with wf_timer l.

#[export] Instance wf_label_dec l : Decision (wf_label l).
Proof. unfold wf_label. apply _. Defined.

(** The manager is well formed, and so is a timer that waits to be
    added. *)
Definition wf_sys (s : sys) : Prop :=
  wf_manager (mgr s) /\ forall t c, mpc s = MCreated t c -> wf_timer t.

Section invariant.
Implicit Types (s : sys) (l : label) (ls : list label) (tm : TimerManager).

Lemma crashed_no_step s l s' : cstep s l s' -> crash s = None.
Proof. destruct 1; match goal with H : running _ |- _ => apply H end. Qed.

Lemma wf_manager_set_displayChan ch tm :
  wf_manager tm -> wf_chan ch -> wf_manager (set_displayChan ch tm).
Proof. intros (Hts & _ & Hlen) Hch. by split_and!. Qed.

Lemma recv_wf ch v ch' : wf_chan ch -> recv ch = Some (v, ch') -> wf_chan ch'.
Proof. intros [-> | ->]; [done|]. intros [= <- <-]. by left. Qed.

Lemma wf_manager_add t c tm : wf_manager tm -> wf_timer t -> wf_manager (add_timer t c tm).
Proof.
  intros (Hts & Hch & Hlen) Ht. unfold wf_manager. simpl. rewrite !length_app. simpl.
  split_and!; [|done|lia]. apply Forall_app. split; [done|]. by constructor.
Qed.

Lemma wf_sys_initial tm : wf_manager tm -> wf_sys (initial tm).
Proof. by split. Qed.

(** A step of main outside its critical sections changes the program
    counter only. *)
Lemma wf_sys_set_mpc pc s :
  wf_sys s -> (forall t c, pc = MCreated t c -> wf_timer t) -> wf_sys (set_mpc pc s).
Proof. intros [Hwf _] Hpc. by split. Qed.

(** A step keeps the system well formed, and only the critical section
    of a command can end it in a panic. *)
Lemma cstep_wf s l s' :
  wf_sys s -> wf_label l -> cstep s l s' ->
  wf_sys s' /\ (crash s' <> None -> l = LAct).
Proof.
  intros [Hwf Hpc] Hl Hstep. pose proof (crashed_no_step _ _ _ Hstep) as Hc.
  destruct Hstep as [s ts flag _ _ Hr|s p _ _ Hr|s _ _|s v ch _ _ Hr|s _ _|s _ _
                     |s c num _ _ _ _
                     |s c num _ _ _ _|s c num tm' _ _ Hr|s c num p _ _ Hr
                     |s _ _|s st line st' _ _ Hr|s st line t c _ _ Hr|s st line p _ _ Hr
                     |s t c _ Hm|s _ _|s _ _|s _ _|s _ _|s _ _];
    simpl; try (split; [|done]); try done; try (by apply wf_sys_set_mpc).
  - unfold returns in Hr. rewrite sweep_wf in Hr by apply Hwf. injection Hr as <- <-.
    destruct (ticked_wf (mgr s) Hwf) as (Hts & _ & Hlen).
    split; [split_and!; [done|apply Hwf|done]|done].
  - by rewrite sweep_wf in Hr by apply Hwf.
  - split; [|done]. apply wf_manager_set_displayChan; [done|]. right. apply try_send_wf, Hwf.
  - split; [|done]. apply wf_manager_set_displayChan; [done|]. eapply recv_wf; [apply Hwf|done].
  - split; [by eapply act_wf|]. by destruct c.
  - split; [done|]. intros t' c' [= <- <-]. unfold wf_label, ends_with in Hl.
    unfold returns in Hr. by rewrite Hr in Hl.
  - unfold wf_label, ends_with in Hl. by rewrite Hr in Hl.
  - split; [|done]. apply wf_manager_add; [done|]. by eapply Hpc.
Qed.

Lemma csteps_wf s ls s' :
  crash s = None -> wf_sys s -> Forall wf_label ls -> csteps s ls s' ->
  wf_sys s' /\ (crash s' <> None -> last ls = Some LAct).
Proof.
  intros Hc Hwf Hls Hsteps. induction Hsteps as [s|s l s1 ls s2 H1 Hrest IH]; [done|].
  apply Forall_cons in Hls as [Hl Hls].
  destruct (cstep_wf _ _ _ Hwf Hl H1) as [Hwf1 Hcrash].
  destruct (crash s1) as [p|] eqn:Hc1.
  - destruct Hrest as [s1|s1 l' s1' ls s2 H2 _]; [by rewrite Hc1, Hcrash|].
    apply crashed_no_step in H2. congruence.
  - destruct (IH eq_refl Hwf1 Hls) as [Hwf2 Hlast]. split; [done|].
    intros Hc2. specialize (Hlast Hc2). destruct ls; [done|]. by rewrite last_cons, Hlast.
Qed.

End invariant.

(** ** Theorems *)

(** C7: in every state the three goroutines can reach from a well-formed
    manager, under any schedule and any commands (the dialogue building
    only well-formed timers), the manager is well formed: every active
    timer satisfies the timer invariant, at most one redraw request is
    pending, there are no more timers than configurations.  The ticker
    and the renderer never panic: if the process has panicked, the step
    that did it is the critical section of a command, and it is the last
    step. *)
Theorem reachable_wf tm ls s' :
  wf_manager tm -> Forall wf_label ls -> csteps (initial tm) ls s' ->
  wf_manager (mgr s') /\ (crash s' <> None -> last ls = Some LAct).
Proof.
  intros Hwf Hls Hsteps.
  destruct (csteps_wf (initial tm) ls s') as [[Hwf' _] Hc]; by try apply wf_sys_initial.
Qed.

(** A command is checked against two timers, the ticker removes the one
    that completes, and the command's critical section indexes past the
    end. *)
Definition example_race : list label := first_screen ++ [LCheck CPause 2; LTick; LAct].

Definition example_crashed : sys :=
  mkSys (mkTimerManager [with_state (set_currentTime (2 * Second)) example_B]
                        [config_A; config_B] [])
        (MChecked CPause 2) TSend RWait (Some (IndexOutOfRange 1 1)).

Lemma reachable_wf_witness :
  wf_manager (mgr example_crashed) /\
  (crash example_crashed <> None -> last example_race = Some LAct).
Proof. apply (reachable_wf example_manager example_race example_crashed); by_decide. Defined.

Section race.
Implicit Types (s : sys) (c : cmd) (num : Z) (tm : TimerManager).

Lemma act_out_of_range c num tm :
  ~ (0 <= wrap64 (num - 1) < len (activeTimers tm)) ->
  exists p, result (@act MainEvent c num tm) = Panicked p.
Proof.
  intros Hi. destruct (result (act c num tm)) as [tm'|p] eqn:Hr; [|by exists p].
  by apply act_returns in Hr as [? _].
Qed.

End race.

(** C3: the range check of a command is not protected by the lock, and a
    tick between the check and the critical section can make the command
    panic.  From the start of the goroutines on a well-formed manager in
    which some timer completes at the next tick, the schedule "main prints
    its first screen and checks the number of the last timer; the ticker
    sweeps; main enters its critical section" ends in a panic of the
    index or slice expression: the process crashes. *)
Theorem check_tick_act_panics tm c num :
  wf_manager tm -> in_int64 num -> num = len (activeTimers tm) ->
  Exists (fun t => survivor update t = None) (activeTimers tm) ->
  exists s' p,
    csteps (initial tm) (first_screen ++ [LCheck c num; LTick; LAct]) s' /\ crash s' = Some p.
Proof.
  intros Hwf Hn Hnum Hex.
  pose proof (length_omap_survivor_lt _ Hex) as Hlt.
  assert (in_range num tm) as Hr.
  { unfold in_range, len in *. destruct (activeTimers tm); [by inversion Hex|simpl in *; lia]. }
  set (s1 := set_mpc (MChecked c num) (at_prompt tm)).
  set (s2 := set_tpc (if bool_decide (activeTimers tm <> []) then TSend else TWait)
               (set_mgr (set_activeTimers (omap (survivor update) (activeTimers tm)) tm) s1)).
  destruct (act_out_of_range c num (mgr s2)) as [p Hp].
  { simpl. unfold len in *. rewrite wrap64_id by int64_lia. lia. }
  exists (set_crash p s2), p. split; [|done].
  eapply csteps_app; [apply first_screen_run|].
  eapply csteps_cons; [by apply step_check_in|].
  eapply csteps_cons; [|eapply csteps_cons; [|apply csteps_nil]].
  - apply (step_tick s1); [done..|]. unfold returns. simpl. by rewrite sweep_wf by apply Hwf.
  - by apply (step_act_panic s2 c num).
Qed.

Lemma check_tick_act_panics_witness :
  exists s' p,
    csteps (initial example_manager) (first_screen ++ [LCheck CDelete 2; LTick; LAct]) s' /\
    crash s' = Some p.
Proof. apply (check_tick_act_panics example_manager CDelete 2); by_decide. Defined.

(** ** No completion, no panic *)

Definition unlimited (t : Timer) : Prop := maxCycles t = -1.

(** A schedule in which the dialogue builds only well-formed timers with
    unlimited cycles. *)
Definition quiet_label (l : label) : Prop :=
  ends_with (fun t => wf_timer t /\ unlimited t) l.

#[export] Instance unlimited_dec t : Decision (unlimited t).
Proof. unfold unlimited. apply _. Defined.
#[export] Instance quiet_label_dec l : Decision (quiet_label l).
Proof. unfold quiet_label. apply _. Defined.

(** What holds of every state when no timer can complete: the process has
    not crashed, the manager is well formed, every timer is unlimited, a
    number that has passed its check is still in range, and a timer that
    waits to be added is well formed and unlimited. *)
Definition quiet_inv (s : sys) : Prop :=
  crash s = None /\ wf_manager (mgr s) /\ Forall unlimited (activeTimers (mgr s)) /\
  (forall c num, mpc s = MChecked c num -> in_int64 num /\ in_range num (mgr s)) /\
  (forall t c, mpc s = MCreated t c -> wf_timer t /\ unlimited t).

Section quiet.
Implicit Types (s : sys) (l : label) (ls : list label) (tm : TimerManager) (t : Timer).

(** An unlimited, well-formed timer survives its update, unlimited. *)
Lemma unlimited_survives t :
  wf_timer t -> unlimited t -> exists t', survivor update t = Some t' /\ unlimited t'.
Proof.
  intros Hwf Hu. destruct (update_wf_returns t Hwf) as (b & t' & Hr).
  pose proof (update_unlimited t b t' Hu Hr) as ->.
  exists t'. unfold survivor. unfold returns in Hr. rewrite Hr. split; [done|].
  apply update_frame in Hr as (_ & Hm & _). unfold unlimited. by rewrite Hm.
Qed.

Lemma unlimited_sweep ts :
  Forall wf_timer ts -> Forall unlimited ts ->
  length (omap (survivor update) ts) = length ts /\
  Forall unlimited (omap (survivor update) ts).
Proof.
  induction 1 as [|t ts Ht _ IH]; [done|]. intros [Hu Hus]%Forall_cons.
  destruct (unlimited_survives t Ht Hu) as (t' & Hs & Hu'). csimpl. rewrite Hs. csimpl.
  destruct (IH Hus) as [Hlen Hall]. split; [by rewrite Hlen|by constructor].
Qed.

Lemma act_unlimited c num tm tm' :
  Forall unlimited (activeTimers tm) -> returns (@act MainEvent c num tm) tm' ->
  Forall unlimited (activeTimers tm').
Proof.
  intros Hu Hr. apply act_returns in Hr as [Hi Hc]. destruct c.
  - destruct Hc as (t & Ht & ->). apply Forall_insert; [done|].
    exact (Forall_lookup_1 _ _ _ _ Hu Ht).
  - destruct Hc as (t & p0 & Ht & Hp & ->). apply Forall_insert; [done|].
    exact (Forall_lookup_1 _ _ _ _ Hu Ht).
  - subst tm'. by apply Forall_delete.
Qed.

Lemma quiet_label_wf l : quiet_label l -> wf_label l.
Proof.
  unfold quiet_label, wf_label. destruct l; try done. simpl.
  destruct (result _) as [[st'|[t c]]|p]; try done. by intros [? _].
Qed.

Lemma quiet_inv_wf s : quiet_inv s -> wf_sys s.
Proof. intros (_ & Hwf & _ & _ & Hcr). split; [done|]. intros t c Hm. by eapply Hcr. Qed.

(** A step of main outside its critical sections, to a program counter
    that holds no number and no timer. *)
Lemma quiet_inv_set_mpc pc s :
  quiet_inv s -> (forall c num, pc <> MChecked c num) -> (forall t c, pc <> MCreated t c) ->
  quiet_inv (set_mpc pc s).
Proof.
  intros (Hc & Hwf & Hu & _ & _) Hn Ht. split_and!; [done..| |]; simpl.
  - intros c num Hm. by destruct (Hn c num).
  - intros t c Hm. by destruct (Ht t c).
Qed.

Lemma cstep_quiet s l s' : quiet_inv s -> quiet_label l -> cstep s l s' -> quiet_inv s'.
Proof.
  intros Hinv Hl Hstep. pose proof Hinv as (Hc & Hwf & Hu & Hpc & Hcr).
  destruct (cstep_wf _ _ _ (quiet_inv_wf _ Hinv) (quiet_label_wf _ Hl) Hstep) as [[Hwf' _] _].
  unfold quiet_inv.
  destruct Hstep as [s ts flag _ _ Hr|s p _ _ Hr|s _ _|s v ch _ _ Hr|s _ _|s _ _
                     |s c num _ _ Hn Hi
                     |s c num _ _ _ _|s c num tm' _ Hm Hr|s c num p _ Hm Hr
                     |s _ _|s st line st' _ _ Hr|s st line t c _ _ Hr|s st line p _ _ Hr
                     |s t c _ Hm|s _ _|s _ _|s _ _|s _ _|s _ _];
    simpl in *; try (by apply quiet_inv_set_mpc); try (split_and!; by try done).
  - unfold returns in Hr. rewrite sweep_wf in Hr by apply Hwf. injection Hr as <- <-.
    destruct (unlimited_sweep _ (proj1 Hwf) Hu) as [Hlen Hall]. split_and!; [done..| |done].
    intros c num Hm. destruct (Hpc c num Hm) as [? Hi]. split; [done|].
    unfold in_range, len in *. simpl. by rewrite Hlen.
  - by rewrite sweep_wf in Hr by apply Hwf.
  - split_and!; [done..| |done]. by intros ?? [= <- <-].
  - split_and!; [done..|by eapply act_unlimited|by destruct c|by destruct c].
  - destruct (Hpc c num Hm) as [Hn Hi].
    destruct (act_in_range (E:=MainEvent) c num (mgr s) Hwf Hn Hi) as (tm' & Hret & _).
    unfold returns in Hret. congruence.
  - split_and!; [done..|]. intros t' c' [= <- <-]. unfold quiet_label, ends_with in Hl.
    unfold returns in Hr. by rewrite Hr in Hl.
  - unfold quiet_label, ends_with in Hl. by rewrite Hr in Hl.
  - destruct (Hcr t c Hm) as [Ht Hut]. split_and!; [done..| |done|done].
    apply Forall_app. split; [done|]. by constructor.
Qed.

Lemma csteps_quiet s ls s' :
  quiet_inv s -> Forall quiet_label ls -> csteps s ls s' -> quiet_inv s'.
Proof.
  intros Hinv Hls Hsteps. induction Hsteps as [s|s l s1 ls s2 H1 _ IH]; [done|].
  apply Forall_cons in Hls as [Hl Hls]. apply IH; [|done]. by eapply cstep_quiet.
Qed.

End quiet.

(** C20: when no timer can complete, no interleaving panics.  From a
    well-formed manager whose timers all have unlimited cycles, under any
    schedule of the three goroutines and any commands (the dialogue
    adding only well-formed unlimited timers), the process has not
    crashed, the manager is well formed, and a command that has passed its
    range check still finds its timer: the race between check and
    critical section needs the ticker to remove a timer. *)
Theorem unlimited_never_panics tm ls s' :
  wf_manager tm -> Forall unlimited (activeTimers tm) -> Forall quiet_label ls ->
  csteps (initial tm) ls s' ->
  crash s' = None /\ wf_manager (mgr s') /\
  forall c num, mpc s' = MChecked c num ->
    exists tm', returns (@act MainEvent c num (mgr s')) tm'.
Proof.
  intros Hwf Hu Hls Hsteps.
  destruct (csteps_quiet (initial tm) ls s') as (Hc & Hwf' & _ & Hpc & _); [|done..|].
  { by split_and!. }
  split_and!; [done..|]. intros c num Hm. destruct (Hpc c num Hm) as [Hn Hi].
  destruct (act_in_range (E:=MainEvent) c num (mgr s') Hwf' Hn Hi) as (tm' & Hret & _). eauto.
Qed.

(** An unlimited timer at the end of a work period; a reset whose check
    is overtaken by a tick, a send and a receive. *)
Definition example_unlimited : TimerManager :=
  mkTimerManager
    [mkTimer (mkTimerState true 0 1 0 "U" "go") [mkTimerPhase (2 * Second) Second] (-1) false]
    [mkTimerConfig "U" "go" [mkTimerPhase (2 * Second) Second] (-1)] [].

Definition example_schedule : list label :=
  first_screen ++ [LCheck CReset 1; LTick; LSend; LRecv; LAct; LTick].

Definition example_quiet_end : sys :=
  default (initial example_unlimited) (run example_schedule (initial example_unlimited)).

Lemma unlimited_never_panics_witness :
  crash example_quiet_end = None /\ wf_manager (mgr example_quiet_end) /\
  forall c num, mpc example_quiet_end = MChecked c num ->
    exists tm', returns (@act MainEvent c num (mgr example_quiet_end)) tm'.
Proof.
  apply (unlimited_never_panics example_unlimited example_schedule example_quiet_end);
    by_decide.
Defined.

(** The schedule of the example: the break starts at the tick, and the
    reset that was checked before it sets the countdown of the break to
    the work duration. *)
Example example_schedule_result :
  activeTimers (mgr example_quiet_end) =
    [mkTimer (mkTimerState false (1 * Second) 1 0 "U" "go")
             [mkTimerPhase (2 * Second) Second] (-1) false] /\
  displayChan (mgr example_quiet_end) = [] /\ tpc example_quiet_end = TSend /\
  rpc example_quiet_end = RDraw.
Proof. by vm_compute. Qed.
