(* ===== verification/Schedule.v ===== *)
(** * Schedule: the command loop as a schedule of the goroutines

    Command.v is the main goroutine on its own: [command], [main_loop].
    Concurrency.v is the three goroutines with the steps of main between
    which the others can run.  This file relates the two: [plan_loop]
    lists the steps main takes on its input when no other goroutine
    moves, and running that schedule from main's first read gives the
    manager and, step by step, the events of the sequential loop; with the
    first screen before it, it is a run from the start of the goroutines.  So what is proved of [main_loop]
    holds of the system exactly in the schedules where the ticker and the
    renderer stand still, and what differs in the others is due to their
    steps. *)

From Stdlib Require Import ZArith Lia Ascii String.
From stdpp Require Import base tactics option list numbers strings.
From S2P Require Import Prelude GoLib Duration Timer Sweep Manager Display Command.
From S2P Require Import Dialogue Concurrency.

#[local] Open Scope Z_scope.

(** ** The steps of main for a line *)

(** The command of Command.v whose critical section is [act c]. *)
Definition command_of (c : cmd) (num : Z) (tm : TimerManager) : GoM MainEvent TimerManager :=
  match c with
  | CPause => cmd_pause num tm
  | CReset => cmd_reset num tm
  | CDelete => cmd_delete num tm
  end.

(** What main does after the critical section of a command: the delete
    saves, all redraw and prompt. *)
Definition plan_after (c : cmd) : list label :=
  match c with
  | CDelete => [LSave; LShow; LPrompt]
  | _ => [LShow; LPrompt]
  end.

(** The steps of main for p, r or d with the number [num]; a critical
    section that panics is the last step. *)
Definition plan_num (c : cmd) (num : Z) (tm : TimerManager) : list label :=
  if decide (in_range num tm) then
    LCheck c num :: LAct ::
      match result (@act MainEvent c num tm) with
      | Ok _ => plan_after c
      | Panicked _ => []
      end
  else [LCheck c num; LPrompt].

(** The steps of the dialogue on the lines of [r], at most [k] of them:
    every line is the answer to the question the dialogue stands at. *)
Fixpoint dialogue_labels (k : nat) (st : dstate) (r : reader) : list label :=
  match k with
  | O => []
  | S k =>
      LLine st (ReadString r).1 ::
        match result (answer st (TrimSpace (ReadString r).1)) with
        | Ok (inl st') => dialogue_labels k st' (ReadString r).2
        | _ => []
        end
  end.

(** The steps of main for the command a: createTimer line by line (its
    phase loop reads at most three lines per iteration), the two appends,
    the save, the redraw and the prompt. *)
Definition plan_add (fuel : nat) (r : reader) : list label :=
  LOpen :: dialogue_labels (3 * fuel + 3) AskName r ++ [LAdd; LSave; LShow; LPrompt].

(** The steps of main for the next line of [r]: the dispatch of
    [command]. *)
Definition plan_command (fuel : nat) (r : reader) (tm : TimerManager) : list label :=
  let line := ReadString r in
  let cmd := TrimSpace line.1 in
  match cmd with
  | EmptyString => [LOther]
  | String c _ =>
      let c := lower_char c in
      if decide (c = "a"%char) then plan_add fuel line.2
      else if decide (c = "p"%char) then plan_num CPause (scan_num cmd "p") tm
      else if decide (c = "r"%char) then plan_num CReset (scan_num cmd "r") tm
      else if decide (c = "d"%char) then plan_num CDelete (scan_num cmd "d") tm
      else if decide (c = "q"%char) then [LQuit]
      else [LOther]
  end.

(** The steps of main for its whole input, as long as the loop runs. *)
Fixpoint plan_loop (fuel : nat) (r : reader) (tm : TimerManager) : list label :=
  match fuel with
  | O => []
  | S fuel =>
      plan_command fuel r tm ++
      match result (command fuel r tm) with
      | Ok (Some (Continue, r', tm')) => plan_loop fuel r' tm'
      | _ => []
      end
  end.

(** Only main moves in the schedule of a line. *)
Definition main_label (l : label) : Prop :=
  match l with
  | LTick | LSend | LRecv | LDraw _ => False
  | _ => True
  end.

#[export] Instance main_label_dec l : Decision (main_label l).
Proof. destruct l; apply _. Defined.

(** Where main is after an iteration. *)
Definition pc_after (ctl : control) : main_pc :=
  match ctl with
  | Continue => MRead
  | Quit => MReturned
  end.

(** ** The commands with a number *)

Section numbered.
Implicit Types (s : sys) (c : cmd) (num : Z) (tm : TimerManager).

(** A critical section sends nothing. *)
Lemma act_events {E} c num tm : events (@act E c num tm) = [].
Proof.
  destruct c; simpl; unfold toggle_pause, reset_timer, delete_timer;
    rewrite !events_bind, ?events_index, ?events_remove_at; simpl;
    repeat (destruct (result _); simpl; rewrite ?events_bind, ?events_index,
              ?events_remove_at; try done).
Qed.

Lemma command_of_result c num tm :
  in_range num tm -> result (command_of c num tm) = result (@act MainEvent c num tm).
Proof.
  intros Hr. destruct c; simpl; unfold cmd_pause, cmd_reset, cmd_delete;
    rewrite decide_True by done; rewrite !result_bind; by destruct (result _).
Qed.

Lemma command_of_out_of_range c num tm :
  ~ in_range num tm -> command_of c num tm = mkGoM [Print prompt] (Ok tm).
Proof.
  intros Hr. destruct c; simpl.
  - by rewrite cmd_pause_out_of_range.
  - by rewrite cmd_reset_out_of_range.
  - by rewrite cmd_delete_out_of_range.
Qed.

(** What a command in range prints and saves when its critical section
    has returned [tm']. *)
Lemma command_of_events c num tm tm' :
  in_range num tm -> returns (@act MainEvent c num tm) tm' ->
  events (command_of c num tm) =
    (if c is CDelete then [SaveConfigs (configs tm')] else []) ++ shown tm'.
Proof.
  intros Hr Ha. pose proof (act_events (E:=MainEvent) c num tm) as He. unfold returns in Ha.
  destruct c; simpl in *; unfold cmd_pause, cmd_reset, cmd_delete;
    rewrite decide_True by done;
    match goal with |- context [events (?m ≫= _)] =>
      match m with context [?a ≫= _] => destruct a as [es r]; simpl in *; by subst end
    end.
Qed.

(** In range, with a critical section that returns. *)
Lemma plan_num_returns c num tm' s :
  running s -> mpc s = MRead -> in_int64 num -> in_range num (mgr s) ->
  returns (@act MainEvent c num (mgr s)) tm' ->
  run (plan_num c num (mgr s)) s = Some (set_mgr tm' s) /\
  trace (plan_num c num (mgr s)) s = map Main (events (command_of c num (mgr s))).
Proof.
  intros [Hc Hm] Hpc Hn Hr Ha. rewrite (command_of_events c num (mgr s) tm') by done.
  unfold plan_num. rewrite decide_True by done. unfold returns in Ha. rewrite Ha.
  destruct s as [tm pc tp rp cr]. cbn [mgr mpc crash] in *. subst pc cr.
  take_step ltac:(by apply step_check_in). take_step ltac:(by eapply step_act).
  destruct c; simpl; repeat take_step ltac:(by constructor); done.
Qed.

(** In range, with a critical section that panics. *)
Lemma plan_num_panics c num p s :
  running s -> mpc s = MRead -> in_int64 num ->
  result (command_of c num (mgr s)) = Panicked p ->
  run (plan_num c num (mgr s)) s = Some (set_crash p (set_mpc (MChecked c num) s)) /\
  trace (plan_num c num (mgr s)) s = map Main (events (command_of c num (mgr s))).
Proof.
  intros [Hc Hm] Hpc Hn Hp. destruct (decide (in_range num (mgr s))) as [Hr|Hr];
    [|by rewrite command_of_out_of_range in Hp].
  pose proof Hp as Ha. rewrite command_of_result in Ha by done.
  unfold plan_num. rewrite decide_True, Ha by done.
  take_step ltac:(by apply step_check_in). take_step ltac:(by eapply step_act_panic).
  split; [done|]. pose proof (act_events (E:=MainEvent) c num (mgr s)) as He.
  destruct c; simpl in *; unfold cmd_pause, cmd_reset, cmd_delete;
    rewrite decide_True by done;
    match goal with |- context [events (?m ≫= _)] =>
      match m with context [?a ≫= _] => destruct a as [es r]; simpl in *; by subst end
    end.
Qed.

(** Out of range. *)
Lemma plan_num_out_of_range c num s :
  running s -> mpc s = MRead -> in_int64 num -> ~ in_range num (mgr s) ->
  run (plan_num c num (mgr s)) s = Some s /\
  trace (plan_num c num (mgr s)) s = map Main (events (command_of c num (mgr s))).
Proof.
  intros [Hc Hm] Hpc Hn Hr. rewrite command_of_out_of_range by done.
  unfold plan_num. rewrite decide_False by done.
  destruct s as [tm pc tp rp cr]. cbn [mgr mpc crash] in *. subst pc cr.
  take_step ltac:(by apply step_check_out). by take_step ltac:(by constructor).
Qed.

(** The three cases together, for a command that returns. *)
Lemma plan_num_refines c num tm' s :
  running s -> mpc s = MRead -> in_int64 num ->
  returns (command_of c num (mgr s)) tm' ->
  run (plan_num c num (mgr s)) s = Some (set_mgr tm' s) /\
  trace (plan_num c num (mgr s)) s = map Main (events (command_of c num (mgr s))).
Proof.
  intros Hrun Hpc Hn Hret. destruct (decide (in_range num (mgr s))) as [Hr|Hr].
  - apply plan_num_returns; try done. unfold returns in *.
    by rewrite command_of_result in Hret.
  - unfold returns in Hret. rewrite command_of_out_of_range in Hret by done.
    injection Hret as <-. destruct (plan_num_out_of_range c num s) as [H1 H2]; try done.
    split; [|done]. rewrite H1. by destruct s.
Qed.

End numbered.

(** ** A line, and the loop *)

Section lines.
Implicit Types (s : sys) (r : reader) (fuel : nat) (tm : TimerManager).

(** The events of a command followed by the return of the iteration. *)
Lemma events_then_ret {A B} (m : GoM MainEvent A) (f : A -> B) :
  events (m ≫= fun a => mret (f a)) = events m.
Proof. rewrite events_bind. destruct (result m); simpl; by rewrite app_nil_r. Qed.

Lemma set_mpc_read s : mpc s = MRead -> set_mpc MRead (set_mgr (mgr s) s) = s.
Proof. destruct s. simpl. by intros ->. Qed.

(** The steps of a dialogue that ends lead main to the timer it ends
    with, and send what it prints. *)
Lemma dialogue_labels_run k st r t c r' s rest :
  running s -> mpc s = MDialogue st -> returns (run_dialogue k st r) (inr (t, c, r')) ->
  run (dialogue_labels k st r ++ rest) s = run rest (set_mpc (MCreated t c) s) /\
  trace (dialogue_labels k st r ++ rest) s =
    map Main (events (run_dialogue k st r)) ++ trace rest (set_mpc (MCreated t c) s).
Proof.
  unfold returns. revert st r s. induction k as [|k IH]; intros st r s Hrun Hpc; [done|].
  rewrite run_dialogue_result, run_dialogue_events, dialogue_step_events. cbn [dialogue_labels].
  destruct (result (answer st _)) as [[st'|[t0 c0]]|p] eqn:Ha; [| |done]; cbn [app].
  - intros Hk. take_step ltac:(by apply step_line).
    destruct (IH st' (ReadString r).2 (set_mpc (MDialogue st') s)) as [-> ->];
      [by destruct Hrun|done..|]. by rewrite map_app, <- app_assoc.
  - intros [= -> -> <-]. take_step ltac:(by apply step_line_end). by rewrite app_nil_r.
Qed.

Lemma dialogue_labels_main k st r : Forall main_label (dialogue_labels k st r).
Proof.
  revert st r. induction k as [|k IH]; intros st r; [constructor|]. simpl.
  constructor; [done|]. by destruct (result _) as [[st'|tc]|p]; [apply IH|..].
Qed.

(** The case a: the dialogue, the critical section, the save, the redraw
    and the prompt. *)
Lemma plan_add_refines fuel r t c r' s :
  running s -> mpc s = MRead -> returns (createTimer fuel r) (Some (t, c, r')) ->
  run (plan_add fuel r) s = Some (set_mgr (add_timer t c (mgr s)) s) /\
  trace (plan_add fuel r) s =
    map Main (events (createTimer fuel r) ++ events (cmd_add t c (mgr s))).
Proof.
  intros Hrun Hpc Hr. pose proof (createTimer_run_full fuel r _ Hr) as Heq.
  unfold plan_add. set (K := (3 * fuel + 3)%nat) in *. clearbody K.
  apply (f_equal events) in Heq as Hev. apply (f_equal result) in Heq as Hres.
  unfold dialogue_from, print_all in Hev, Hres. rewrite bind_Ok in Hev, Hres.
  cbn [events result] in Hev, Hres. rewrite <- Hev.
  destruct Hrun as [Hc Hm]. destruct s as [tm pc tp rp cr]. cbn [mgr mpc crash] in *. subst pc cr.
  take_step ltac:(by apply step_open).
  match goal with |- context [run _ ?s1] =>
    destruct (dialogue_labels_run K AskName r t c r' s1 [LAdd; LSave; LShow; LPrompt])
      as [-> ->]; [done..|] end.
  repeat take_step ltac:(by constructor). by rewrite !map_app, <- !app_assoc.
Qed.

(** The numbered commands inside [command]. *)
Lemma plan_numbered_refines c num r' tm' s :
  running s -> mpc s = MRead -> in_int64 num ->
  returns (tm ← command_of c num (mgr s); mret (Some (Continue, r', tm)))
          (Some (Continue, r', tm')) ->
  run (plan_num c num (mgr s)) s = Some (set_mgr tm' s) /\
  trace (plan_num c num (mgr s)) s =
    map Main (events (tm ← command_of c num (mgr s); mret (Some (Continue, r', tm)))).
Proof.
  intros Hrun Hpc Hn (tm1 & Hret & [= <-])%returns_bind_inv.
  rewrite (events_then_ret _ (fun tm => Some (Continue, r', tm))).
  by apply plan_num_refines.
Qed.

(** One iteration of the loop of main, when it returns, is the schedule
    [plan_command], step by step. *)
Lemma plan_command_refines fuel r ctl r' tm' s :
  running s -> mpc s = MRead ->
  returns (command fuel r (mgr s)) (Some (ctl, r', tm')) ->
  run (plan_command fuel r (mgr s)) s = Some (set_mpc (pc_after ctl) (set_mgr tm' s)) /\
  trace (plan_command fuel r (mgr s)) s = map Main (events (command fuel r (mgr s))).
Proof.
  intros Hrun Hpc. unfold command, plan_command.
  destruct (TrimSpace (ReadString r).1) as [|c0 s0] eqn:Hcmd.
  { intros [= <- <- <-]. take_step ltac:(by apply step_other). by rewrite set_mpc_read. }
  set (cmd := String c0 s0). repeat case_decide; intros Hret.
  - apply returns_bind_inv in Hret as ([[[t cfg] r1]|] & Hcr & Hret'); [|done].
    apply returns_bind_inv in Hret' as (tm1 & Ha & [= <- <- <-]). injection Ha as <-.
    destruct (plan_add_refines fuel (ReadString r).2 t cfg r1 s) as [-> ->]; try done.
    split; [by destruct s; simpl in *; subst|]. unfold returns in Hcr.
    by rewrite events_bind, Hcr, (events_then_ret _ (fun tm => Some (Continue, r1, tm))).
  - pose proof Hret as (tm1 & _ & [= <- <- <-])%returns_bind_inv.
    destruct (plan_numbered_refines CPause (scan_num cmd "p") (ReadString r).2 tm1 s)
      as [-> ->]; try done; [apply scan_num_in_int64|]. split; [|done].
    by destruct s; simpl in *; subst.
  - pose proof Hret as (tm1 & _ & [= <- <- <-])%returns_bind_inv.
    destruct (plan_numbered_refines CReset (scan_num cmd "r") (ReadString r).2 tm1 s)
      as [-> ->]; try done; [apply scan_num_in_int64|]. split; [|done].
    by destruct s; simpl in *; subst.
  - pose proof Hret as (tm1 & _ & [= <- <- <-])%returns_bind_inv.
    destruct (plan_numbered_refines CDelete (scan_num cmd "d") (ReadString r).2 tm1 s)
      as [-> ->]; try done; [apply scan_num_in_int64|]. split; [|done].
    by destruct s; simpl in *; subst.
  - injection Hret as <- <- <-. take_step ltac:(by apply step_quit).
    by destruct s.
  - injection Hret as <- <- <-. take_step ltac:(by apply step_other).
    by rewrite set_mpc_read.
Qed.

(** The loop of main, when it returns, is the schedule [plan_loop]. *)
Lemma plan_loop_refines fuel r r' tm' s :
  running s -> mpc s = MRead ->
  returns (main_loop fuel r (mgr s)) (Some (r', tm')) ->
  run (plan_loop fuel r (mgr s)) s = Some (set_mpc MReturned (set_mgr tm' s)) /\
  trace (plan_loop fuel r (mgr s)) s = map Main (events (main_loop fuel r (mgr s))).
Proof.
  revert r s. induction fuel as [|fuel IH]; intros r s Hrun Hpc; [done|]. simpl.
  intros ([[[ctl r1] tm1]|] & Hc & Hret)%returns_bind_inv; [|done].
  destruct (plan_command_refines fuel r ctl r1 tm1 s Hrun Hpc Hc) as [Hr1 Ht1].
  unfold returns in Hc. rewrite Hc, events_bind, Hc, map_app.
  rewrite (run_app _ _ _ _ Hr1), (trace_app _ _ _ _ Hr1), Ht1. destruct ctl; simpl.
  - destruct (IH r1 (set_mpc MRead (set_mgr tm1 s))) as [H1 H2]; [by destruct Hrun|done..|].
    cbn [mgr set_mpc set_mgr] in H1, H2. rewrite H1, H2. split; [|done]. by destruct s.
  - injection Hret as <- <-. split; [done|]. by rewrite app_nil_r.
Qed.

(** A panic of an iteration is the panic of the critical section, the
    last step of its schedule. *)
Lemma plan_command_panics fuel r p s :
  running s -> mpc s = MRead ->
  result (command fuel r (mgr s)) = Panicked p ->
  exists s', run (plan_command fuel r (mgr s)) s = Some s' /\ crash s' = Some p /\
    trace (plan_command fuel r (mgr s)) s = map Main (events (command fuel r (mgr s))).
Proof.
  intros Hrun Hpc. unfold command, plan_command.
  destruct (TrimSpace (ReadString r).1) as [|c0 s0] eqn:Hcmd; [done|].
  set (cmd := String c0 s0).
  assert (forall c num (k : TimerManager -> option (control * reader * TimerManager)),
    result (tm ← command_of c num (mgr s); mret (k tm)) = Panicked p ->
    in_int64 num ->
    exists s', run (plan_num c num (mgr s)) s = Some s' /\ crash s' = Some p /\
      trace (plan_num c num (mgr s)) s =
        map Main (events (tm ← command_of c num (mgr s); mret (k tm)))) as Hnum.
  { intros c num k Hp Hn. rewrite result_bind in Hp.
    destruct (result (command_of c num (mgr s))) as [tm1|p1] eqn:Hc; [done|].
    injection Hp as ->. destruct (plan_num_panics c num p s Hrun Hpc Hn Hc) as [-> ->].
    eexists. split_and!; [done..|]. by rewrite (events_then_ret _ k). }
  repeat case_decide; try done; intros Hp.
  - destruct (createTimer_returns fuel (ReadString r).2) as (res & Hres & _).
    rewrite result_bind in Hp. unfold returns in Hres. rewrite Hres in Hp.
    by destruct res as [[[t cfg] r1]|].
  - by apply (Hnum CPause); [|apply scan_num_in_int64].
  - by apply (Hnum CReset); [|apply scan_num_in_int64].
  - by apply (Hnum CDelete); [|apply scan_num_in_int64].
Qed.

Lemma plan_loop_panics fuel r p s :
  running s -> mpc s = MRead ->
  result (main_loop fuel r (mgr s)) = Panicked p ->
  exists s', run (plan_loop fuel r (mgr s)) s = Some s' /\ crash s' = Some p /\
    trace (plan_loop fuel r (mgr s)) s = map Main (events (main_loop fuel r (mgr s))).
Proof.
  revert r s. induction fuel as [|fuel IH]; intros r s Hrun Hpc; [done|]. simpl.
  rewrite result_bind, events_bind.
  destruct (result (command fuel r (mgr s))) as [[[[ctl r1] tm1]|]|p1] eqn:Hc; [|done|].
  - destruct (plan_command_refines fuel r ctl r1 tm1 s Hrun Hpc Hc) as [Hr1 Ht1].
    rewrite (run_app _ _ _ _ Hr1), (trace_app _ _ _ _ Hr1), Ht1, map_app.
    destruct ctl; [|done]. cbn [pc_after]. intros Hp.
    destruct (IH r1 (set_mpc MRead (set_mgr tm1 s))) as (s' & H1 & Hcr & H2);
      [by destruct Hrun|done..|].
    cbn [mgr set_mpc set_mgr] in H1, H2. rewrite H1, H2. by exists s'.
  - intros [= ->]. destruct (plan_command_panics fuel r p s Hrun Hpc Hc) as (s' & H1 & Hcr & H2).
    rewrite !app_nil_r. by exists s'.
Qed.

Lemma plan_command_main fuel r tm : Forall main_label (plan_command fuel r tm).
Proof.
  unfold plan_command, plan_num, plan_after.
  destruct (TrimSpace _); repeat case_decide; repeat case_match; try by repeat constructor.
  unfold plan_add. constructor; [done|]. apply Forall_app. split; [|by repeat constructor].
  apply dialogue_labels_main.
Qed.

Lemma plan_loop_main fuel r tm : Forall main_label (plan_loop fuel r tm).
Proof.
  revert r tm. induction fuel as [|fuel IH]; intros r tm; simpl; [done|].
  apply Forall_app. split; [apply plan_command_main|].
  destruct (result _) as [[[[[] r1] tm1]|]|p]; by try apply IH.
Qed.

End lines.

(** ** From the start of the goroutines *)

(** main from its go statements on, when its loop returns: the first
    screen, the first prompt and then the schedule of the loop, with the
    events of main in order. *)
Lemma main_screen_then_loop fuel r tm r' tm' :
  returns (main_loop fuel r tm) (Some (r', tm')) ->
  csteps (initial tm) (first_screen ++ plan_loop fuel r tm)
         (set_mpc MReturned (at_prompt tm')) /\
  trace (first_screen ++ plan_loop fuel r tm) (initial tm) =
    map Main (Print clearDisplay :: Print (displayTimers false tm) :: Print prompt ::
              events (main_loop fuel r tm)).
Proof.
  intros Hret. destruct (first_screen_run tm) as [H1 Ht1].
  destruct (plan_loop_refines fuel r r' tm' (at_prompt tm)) as [H2 Ht2]; [done..|].
  split; [eapply csteps_app; [done|by apply csteps_iff]|].
  apply csteps_iff in H1. change (mgr (at_prompt tm)) with tm in Ht2.
  by rewrite (trace_app _ _ _ _ H1), Ht1, Ht2.
Qed.

(** ** No goroutine waits for another *)

(** As long as the process runs, the ticker has a step and main has a
    step: the send of the ticker does not block when a request is
    pending, and no step of one goroutine needs a step of another first.
    Only the renderer waits, for a request. *)
Section progress.
Implicit Types (s : sys).

Lemma ticker_progress s : running s -> exists l s', ~ main_label l /\ cstep s l s'.
Proof.
  intros Hrun. destruct (tpc s) eqn:Ht.
  - destruct (result (sweep (mgr s))) as [[ts flag]|p] eqn:Hr; exists LTick; eexists;
      (split; [by intros []|]); [by eapply step_tick|by eapply step_tick_panic].
  - exists LSend. eexists. split; [by intros []|]. by apply step_send.
Qed.

Lemma main_progress s : running s -> exists l s', main_label l /\ cstep s l s'.
Proof.
  intros Hrun. destruct (mpc s) as [| |st|t c|c num| | | |] eqn:Hm.
  - exists LStart. eexists. split; [done|]. by apply step_start.
  - exists LOther, s. split; [done|]. by apply step_other.
  - exists (LLine st EmptyString).
    destruct (result (answer st (TrimSpace EmptyString))) as [[st'|[t c]]|p] eqn:Ha; eexists;
      (split; [done|]);
      [by apply step_line|by apply step_line_end|by apply step_line_panic].
  - exists LAdd. eexists. split; [done|]. by apply step_add.
  - exists LAct. destruct (result (@act MainEvent c num (mgr s))) as [tm'|p] eqn:Ha; eexists;
      (split; [done|]); [by eapply step_act|by eapply step_act_panic].
  - exists LSave. eexists. split; [done|]. by apply step_save.
  - exists LShow. eexists. split; [done|]. by apply step_show.
  - exists LPrompt. eexists. split; [done|]. by apply step_prompt.
  - by destruct Hrun.
Qed.

(** The renderer has a step exactly when it is about to draw or a request
    is pending. *)
Lemma renderer_progress s :
  running s ->
  (rpc s = RDraw \/ displayChan (mgr s) <> []) <->
  exists l s', (l = LRecv \/ exists text, l = LDraw text) /\ cstep s l s'.
Proof.
  intros Hrun. split.
  - destruct (rpc s) eqn:Hr; intros [?|Hch]; try done.
    + destruct (displayChan (mgr s)) as [|v ch] eqn:Hd; [done|].
      exists LRecv. eexists. split; [by left|]. eapply step_recv; [done..|].
      by rewrite Hd.
    + exists (LDraw (displayTimers true (mgr s))). eexists. split; [by right; eexists|].
      by apply step_draw.
    + exists (LDraw (displayTimers true (mgr s))). eexists. split; [by right; eexists|].
      by apply step_draw.
  - intros (l & s' & [->|[text ->]] & Hstep); inversion Hstep; subst; [right|by left].
    match goal with H : recv _ = Some _ |- _ => by destruct (displayChan (mgr s)) end.
Qed.

End progress.

(** ** The steps of the dialogue commute with the other goroutines *)

(** createTimer runs without the lock and touches nothing of the manager:
    a step of the ticker or of the renderer taken before a step of the
    dialogue can be taken after it, with the same end and the same events
    of each.  So the schedules of [plan_add], in which the dialogue is
    not interrupted, reach every state a dialogue can reach; what the
    others add is the order of their events among the prompts. *)
Definition dialogue_label (l : label) : Prop :=
  match l with
  | LOpen | LLine _ _ => True
  | _ => False
  end.

Section commute.
Implicit Types (s : sys) (l d : label) (pc : main_pc).

(** A step of the ticker or the renderer does not look at where main is. *)
Lemma background_set_mpc s l s1 pc :
  ~ main_label l -> cstep s l s1 -> crash s1 = None -> pc <> MReturned ->
  cstep (set_mpc pc s) l (set_mpc pc s1) /\ emits (set_mpc pc s) l = emits s l /\
  mpc s1 = mpc s /\ running s.
Proof.
  intros Hl H1 Hc Hpc.
  destruct H1 as [? ? ? [] ?|? ? [] ?|? [] ?|? ? ? [] ?|? [] ?| | | | | | | | | | | | | | |];
    try done; (split_and!; [|done..]).
  - by apply (step_tick (set_mpc pc s)).
  - by apply (step_send (set_mpc pc s)).
  - by eapply (step_recv (set_mpc pc s)).
  - by apply (step_draw (set_mpc pc s)).
Qed.

Lemma dialogue_commutes s l s1 d s2 :
  ~ main_label l -> dialogue_label d -> cstep s l s1 -> cstep s1 d s2 -> crash s2 = None ->
  exists s1', cstep s d s1' /\ cstep s1' l s2 /\
    emits s1' l = emits s l /\ emits s d = emits s1 d.
Proof.
  intros Hl Hd H1 H2 Hc.
  destruct H2 as [| | | | | | | | | |s1 [Hc1 _] Hpc|s1 st line st' [Hc1 _] Hpc Ha
                 |s1 st line t c [Hc1 _] Hpc Ha|s1 st line p _ _ _| | | | | |]; try done.
  - destruct (background_set_mpc s l s1 (MDialogue AskName) Hl H1 Hc1) as (H & He & Hm & Hr);
      [done|]. exists (set_mpc (MDialogue AskName) s). split_and!; try done.
    apply step_open; [done|congruence].
  - destruct (background_set_mpc s l s1 (MDialogue st') Hl H1 Hc1) as (H & He & Hm & Hr);
      [done|]. exists (set_mpc (MDialogue st') s). split_and!; try done.
    apply step_line; [done|congruence|done].
  - destruct (background_set_mpc s l s1 (MCreated t c) Hl H1 Hc1) as (H & He & Hm & Hr);
      [done|]. exists (set_mpc (MCreated t c) s). split_and!; try done.
    apply step_line_end; [done|congruence|done].
Qed.

End commute.

(** C11: the command loop of Command.v is one schedule of the system of
    Concurrency.v, the one in which only main moves.  When the loop on the
    input [r] returns (at q) with the manager [tm'], the steps of
    [plan_loop] lead the system from main's first read on [tm] to [tm'] with
    main returned and
    the two other goroutines where they were, and send exactly the events
    of the loop, in order; when the loop panics, the schedule ends in the
    crash of the process with the same panic, after the same events. *)
Theorem main_loop_refines fuel r tm :
  Forall main_label (plan_loop fuel r tm) /\
  (forall r' tm', returns (main_loop fuel r tm) (Some (r', tm')) ->
     csteps (at_prompt tm) (plan_loop fuel r tm) (set_mpc MReturned (at_prompt tm')) /\
     trace (plan_loop fuel r tm) (at_prompt tm) = map Main (events (main_loop fuel r tm))) /\
  (forall p, result (main_loop fuel r tm) = Panicked p ->
     exists s', csteps (at_prompt tm) (plan_loop fuel r tm) s' /\ crash s' = Some p /\
       trace (plan_loop fuel r tm) (at_prompt tm) = map Main (events (main_loop fuel r tm))).
Proof.
  split_and!; [apply plan_loop_main| |].
  - intros r' tm' Hret. rewrite csteps_iff.
    by apply (plan_loop_refines fuel r r' tm' (at_prompt tm)).
  - intros p Hp. destruct (plan_loop_panics fuel r p (at_prompt tm)) as (s' & ? & ? & ?); try done.
    exists s'. by rewrite csteps_iff.
Qed.

(** The session of Command.v as a schedule. *)
Example example_session_schedule :
  plan_loop 20 example_session NewTimerManager =
    LOpen :: dialogue_labels 8 AskName [" tea "; "drink"; "0:02"; "x"; "0:02"; "0:01"; "n"; "2"]
    ++ [LAdd; LSave; LShow; LPrompt;
        LCheck CPause 1; LAct; LShow; LPrompt;
        LCheck CPause 0; LPrompt;
        LCheck CReset 1; LAct; LShow; LPrompt;
        LCheck CDelete 2; LPrompt;
        LCheck CDelete 1; LAct; LSave; LShow; LPrompt;
        LOther; LOther; LQuit].
Proof. by vm_compute. Qed.
