(* ===== verification/Persist.v ===== *)
(** * Persist: the configuration file timers.json

    saveTimerConfigs writes the slice of configurations with
    encoding/json, loadTimerConfigs reads it back at the start of main.
    The file's content is modelled as the JSON value it holds ([json]); the
    text of a value (escapes, white space, the final newline) is the
    library's and is not modelled.  saveTimerConfigs fails when the file
    system says so ([fs_answer]): os.Create without touching the file, a
    write after the file has been truncated.

    [TimerPhase_MarshalJSON] and [TimerPhase_UnmarshalJSON] are the two
    methods of main.go; the encoding of TimerConfig and of the slice is
    the default one of encoding/json, which the file follows: exported
    fields in the order of declaration under their names, strings coerced
    to valid UTF-8 on the way out; on the way in, keys matched to fields
    without regard to case, unknown keys skipped, null leaving a field as
    it is, a value of the wrong type or an integer outside int64 an error.

    The theorems: what is saved is read back, bit-exact in the durations
    and the cycle bound, with names coerced to valid UTF-8; a file whose
    value has a configuration without phases is accepted by the decoder
    and makes main panic before the first prompt; a session of the command
    loop followed by a restart resumes with the configurations the
    session ended with. *)

From Stdlib Require Import ZArith Lia Ascii String.
From stdpp Require Import base tactics option list numbers strings.
From S2P Require Import Prelude GoLib Duration Parse Timer Sweep Manager Display Command.

#[local] Open Scope Z_scope.

(** ** JSON values *)

(** A JSON value as the decoder sees it.  [JFrac] stands for a number with
    a fraction or an exponent, which no field of the program accepts. *)
#[warnings="-register-all"]
Inductive json : Type :=
  | JNull
  | JBool (b : bool)
  | JNum (n : Z)
  | JFrac
  | JStr (s : string)
  | JArr (items : list json)
  | JObj (fields : list (string * json)).

(** ** Strings on the way out: coercion to valid UTF-8 *)

Definition between (lo hi : N) (c : ascii) : bool :=
  ((lo <=? N_of_ascii c) && (N_of_ascii c <=? hi))%N.

(** A continuation byte. *)
Definition cont : ascii -> bool := between 128 191.

(** The second byte of a sequence of three and of four bytes: the ranges
    that exclude overlong encodings, surrogates and code points above
    U+10FFFF. *)
Definition second3 (c0 c1 : ascii) : bool :=
  if (N_of_ascii c0 =? 224)%N then between 160 191 c1
  else if (N_of_ascii c0 =? 237)%N then between 128 159 c1
  else cont c1.

Definition second4 (c0 c1 : ascii) : bool :=
  if (N_of_ascii c0 =? 240)%N then between 144 191 c1
  else if (N_of_ascii c0 =? 244)%N then between 128 143 c1
  else cont c1.

(** utf8.DecodeRuneInString: the width of the encoding at the head of
    [s]; 0 stands for RuneError of width 1 (and for the empty string). *)
Definition rune_size (s : string) : nat :=
  match s with
  | EmptyString => 0
  | String c0 s0 =>
      if between 0 127 c0 then 1
      else match s0 with
      | EmptyString => 0
      | String c1 s1 =>
          if between 194 223 c0 then (if cont c1 then 2 else 0)
          else match s1 with
          | EmptyString => 0
          | String c2 s2 =>
              if between 224 239 c0 then (if second3 c0 c1 && cont c2 then 3 else 0)
              else match s2 with
              | EmptyString => 0
              | String c3 _ =>
                  if between 240 244 c0 && second4 c0 c1 && cont c2 && cont c3
                  then 4 else 0
              end
          end
      end
  end%nat.

(** U+FFFD, as its three bytes. *)
Definition replacement : string := String "239" (String "191" (String "189" EmptyString)).

(** The string the encoder writes: every byte that starts no valid
    encoding becomes U+FFFD; [skip] counts the bytes still to copy of the
    encoding in progress. *)
Fixpoint valid_from (skip : nat) (s : string) : string :=
  match s with
  | EmptyString => EmptyString
  | String c s' =>
      match skip with
      | S k => String c (valid_from k s')
      | O =>
          match rune_size s with
          | O => replacement +:+ valid_from 0 s'
          | S k => String c (valid_from k s')
          end
      end
  end.

Definition ToValidUTF8 (s : string) : string := valid_from 0 s.

(** ** Marshal *)

(** TimerPhase.MarshalJSON: the two durations as int64. *)
Definition TimerPhase_MarshalJSON (p : TimerPhase) : json :=
  JObj [("WorkDuration", JNum (WorkDuration p)); ("BreakDuration", JNum (BreakDuration p))].

(** The default encoding of TimerConfig. *)
Definition marshal_config (c : TimerConfig) : json :=
  JObj [("Name", JStr (ToValidUTF8 (Name c)));
        ("NotifText", JStr (ToValidUTF8 (NotifText c)));
        ("Phases", JArr (map TimerPhase_MarshalJSON (Phases c)));
        ("MaxCycles", JNum (MaxCycles c))].

Definition marshal_configs (cs : list TimerConfig) : json := JArr (map marshal_config cs).

(** ** Unmarshal *)

(** A key names a field when they are equal up to the case of letters. *)
Definition field_is (key name : string) : bool :=
  bool_decide (ToLower key = ToLower name).

(** A value for a field of type int or int64 that holds [old]. *)
Definition as_int (j : json) (old : Z) : option Z :=
  match j with
  | JNull => Some old
  | JNum n => if decide (in_int64 n) then Some n else None
  | _ => None
  end.

(** A value for a field of type string that holds [old]. *)
Definition as_string (j : json) (old : string) : option string :=
  match j with
  | JNull => Some old
  | JStr s => Some s
  | _ => None
  end.

(** The members of an object, in order, each stored by [set]. *)
Fixpoint decode_fields {A} (set : A -> string * json -> option A)
    (fields : list (string * json)) (a : A) : option A :=
  match fields with
  | [] => Some a
  | kv :: rest => a' ← set a kv; decode_fields set rest a'
  end.

Definition phase_field (p : TimerPhase) (kv : string * json) : option TimerPhase :=
  if field_is kv.1 "WorkDuration" then
    w ← as_int kv.2 (WorkDuration p); Some (mkTimerPhase w (BreakDuration p))
  else if field_is kv.1 "BreakDuration" then
    b ← as_int kv.2 (BreakDuration p); Some (mkTimerPhase (WorkDuration p) b)
  else Some p.

(** TimerPhase.UnmarshalJSON: the value is decoded into a fresh auxiliary
    struct, whose two fields become the durations. *)
Definition TimerPhase_UnmarshalJSON (data : json) : option TimerPhase :=
  match data with
  | JNull => Some (mkTimerPhase 0 0)
  | JObj fields => decode_fields phase_field fields (mkTimerPhase 0 0)
  | _ => None
  end.

(** A value for the field Phases. *)
Definition as_phases (j : json) : option (list TimerPhase) :=
  match j with
  | JNull => Some []
  | JArr items => mapM TimerPhase_UnmarshalJSON items
  | _ => None
  end.

Definition config_field (c : TimerConfig) (kv : string * json) : option TimerConfig :=
  if field_is kv.1 "Name" then
    s ← as_string kv.2 (Name c); Some (mkTimerConfig s (NotifText c) (Phases c) (MaxCycles c))
  else if field_is kv.1 "NotifText" then
    s ← as_string kv.2 (NotifText c); Some (mkTimerConfig (Name c) s (Phases c) (MaxCycles c))
  else if field_is kv.1 "Phases" then
    ps ← as_phases kv.2; Some (mkTimerConfig (Name c) (NotifText c) ps (MaxCycles c))
  else if field_is kv.1 "MaxCycles" then
    n ← as_int kv.2 (MaxCycles c); Some (mkTimerConfig (Name c) (NotifText c) (Phases c) n)
  else Some c.

(** The zero value of TimerConfig. *)
Definition zero_config : TimerConfig := mkTimerConfig "" "" [] 0.

Definition unmarshal_config (j : json) : option TimerConfig :=
  match j with
  | JNull => Some zero_config
  | JObj fields => decode_fields config_field fields zero_config
  | _ => None
  end.

(** [Decode(&configs)] on a first value [j]. *)
Definition unmarshal_configs (j : json) : option (list TimerConfig) :=
  match j with
  | JNull => Some []
  | JArr items => mapM unmarshal_config items
  | _ => None
  end.

(** ** The file *)

(** The file timers.json as the two functions meet it: absent, not to be
    opened for another reason, holding text whose first value is not
    well-formed JSON (with the decoder's error), or holding a value. *)
Inductive file : Type :=
  | Absent
  | Unreadable (err : string)
  | Garbled (err : string)
  | Holds (j : json).

(** The error of a value of the wrong shape; the library's text names the
    field and the types. *)
Definition type_error : string := "json: cannot unmarshal".

Definition loadTimerConfigs (f : file) : string + list TimerConfig :=
  match f with
  | Absent => inr []
  | Unreadable err => inl err
  | Garbled err => inl err
  | Holds j =>
      match unmarshal_configs j with
      | Some cs => inr cs
      | None => inl type_error
      end
  end.

(** The file after a save that succeeded: it holds the encoding of the
    slice. *)
Definition written (cs : list TimerConfig) : file := Holds (marshal_configs cs).

(** What the file system answers to a save: it goes through; os.Create
    fails with an error; os.Create succeeds, which truncates the file,
    and the write fails with an error after a prefix of the text, either
    the whole value (only the final newline is missing) or a part of it,
    on which the decoder will fail with [rest]. *)
Inductive fs_answer : Type :=
  | FsOk
  | CreateFails (err : string)
  | WriteFails (err : string) (rest : option string).

#[export] Instance fs_answer_eq_dec : EqDecision fs_answer.
Proof. solve_decision. Defined.

(** saveTimerConfigs on the file [f] when the file system answers [a]:
    the error it returns, and the file afterwards. *)
Definition saveTimerConfigs (a : fs_answer) (cs : list TimerConfig) (f : file)
  : option string * file :=
  match a with
  | FsOk => (None, written cs)
  | CreateFails err => (Some err, f)
  | WriteFails err None => (Some err, written cs)
  | WriteFails err (Some rest) => (Some err, Garbled rest)
  end.

(** The slice main continues with: empty after an error. *)
Definition configs_of (loaded : string + list TimerConfig) : list TimerConfig :=
  match loaded with
  | inl _ => configs NewTimerManager
  | inr cs => cs
  end.

(** The file after the saves among the events of the main goroutine, when
    every save succeeds. *)
Definition store_after (es : list MainEvent) (f : file) : file :=
  foldl (fun f e => match e with SaveConfigs cs => written cs | Print _ => f end) f es.

(** The slice last saved among the events, [cs] if there is none. *)
Definition last_saved (es : list MainEvent) (cs : list TimerConfig) : list TimerConfig :=
  foldl (fun cs e => match e with SaveConfigs cs' => cs' | Print _ => cs end) cs es.

(** ** What can be stored *)

(** The integers of a configuration are int64 values (in the program they
    are by their type). *)
Definition storable_phase (p : TimerPhase) : Prop :=
  in_int64 (WorkDuration p) /\ in_int64 (BreakDuration p).

Definition storable (c : TimerConfig) : Prop :=
  Forall storable_phase (Phases c) /\ in_int64 (MaxCycles c).

#[export] Instance storable_phase_dec p : Decision (storable_phase p).
Proof. unfold storable_phase. apply _. Defined.

#[export] Instance storable_dec c : Decision (storable c).
Proof. unfold storable. apply _. Defined.

(** The configuration read back: the names as the encoder wrote them. *)
Definition stored (c : TimerConfig) : TimerConfig :=
  mkTimerConfig (ToValidUTF8 (Name c)) (ToValidUTF8 (NotifText c)) (Phases c) (MaxCycles c).

(** ** Valid UTF-8 *)

Lemma valid_from_ascii s : all_chars (between 0 127) s = true -> valid_from 0 s = s.
Proof.
  induction s as [|c s IH]; [done|]. intros [Hc Hs]%andb_prop. cbn [valid_from rune_size].
  rewrite Hc. cbn [valid_from]. by rewrite IH.
Qed.

(** Text in ASCII is written as it is. *)
Lemma ToValidUTF8_ascii s : all_chars (between 0 127) s = true -> ToValidUTF8 s = s.
Proof. apply valid_from_ascii. Qed.

(** ** The round trip *)

Section round_trip.
Implicit Types (p : TimerPhase) (c : TimerConfig) (cs : list TimerConfig).

Lemma mapM_map_Some {A B} (enc : A -> B) (dec : B -> option A) (back : A -> A) (l : list A) :
  Forall (fun x => dec (enc x) = Some (back x)) l ->
  mapM dec (map enc l) = Some (map back l).
Proof.
  induction 1 as [|x l Hx _ IH]; [done|]. simpl. rewrite Hx.
  change (mapM dec (map enc l) ≫= (fun k => mret (back x :: k)) = Some (map back (x :: l))).
  by rewrite IH.
Qed.

Lemma phase_round_trip p :
  storable_phase p -> TimerPhase_UnmarshalJSON (TimerPhase_MarshalJSON p) = Some p.
Proof.
  intros [Hw Hb]. destruct p as [w b]. simpl in *.
  unfold phase_field, field_is. simpl. by rewrite !decide_True by done.
Qed.

Lemma phases_round_trip ps :
  Forall storable_phase ps ->
  mapM TimerPhase_UnmarshalJSON (map TimerPhase_MarshalJSON ps) = Some ps.
Proof.
  intros H. rewrite <- (list_fmap_id ps) at 2.
  apply (mapM_map_Some _ _ id). eapply Forall_impl; [done|]. apply phase_round_trip.
Qed.

Lemma config_round_trip c :
  storable c -> unmarshal_config (marshal_config c) = Some (stored c).
Proof.
  intros [Hp Hm]. destruct c as [n t ps m]. simpl in *.
  unfold config_field, field_is. simpl. rewrite phases_round_trip by done.
  by rewrite decide_True by done.
Qed.

Lemma configs_round_trip cs :
  Forall storable cs -> unmarshal_configs (marshal_configs cs) = Some (map stored cs).
Proof.
  intros H. apply mapM_map_Some. eapply Forall_impl; [done|]. apply config_round_trip.
Qed.

End round_trip.

(** Names in ASCII. *)
Definition plain (c : TimerConfig) : Prop :=
  all_chars (between 0 127) (Name c) = true /\ all_chars (between 0 127) (NotifText c) = true.

#[export] Instance plain_dec c : Decision (plain c).
Proof. unfold plain. apply _. Defined.

Lemma stored_plain c : plain c -> stored c = c.
Proof.
  intros [Hn Ht]. destruct c as [n t ps m]. unfold stored. simpl in *.
  by rewrite !ToValidUTF8_ascii by done.
Qed.

Lemma map_stored_plain cs : Forall plain cs -> map stored cs = cs.
Proof. induction 1 as [|c cs Hc _ IH]; [done|]. simpl. by rewrite stored_plain, IH. Qed.

Lemma load_save cs :
  Forall storable cs -> loadTimerConfigs (written cs) = inr (map stored cs).
Proof. intros H. unfold loadTimerConfigs, written. by rewrite configs_round_trip. Qed.

(** C15: the round trip through the file.  A slice of configurations that
    is saved and loaded comes back with the same phases, durations to the
    nanosecond, and the same cycle bound; the two texts come back coerced
    to valid UTF-8, which for texts in ASCII is as they were. *)
Theorem save_load_round_trip cs f :
  Forall storable cs ->
  fst (saveTimerConfigs FsOk cs f) = None /\
  loadTimerConfigs (snd (saveTimerConfigs FsOk cs f)) = inr (map stored cs) /\
  (Forall plain cs -> loadTimerConfigs (snd (saveTimerConfigs FsOk cs f)) = inr cs).
Proof.
  intros H. cbn [saveTimerConfigs fst snd]. rewrite load_save by done. split_and!; [done..|].
  intros Hp. by rewrite map_stored_plain.
Qed.

Lemma save_load_round_trip_witness :
  fst (saveTimerConfigs FsOk [config_A; config_B] Absent) = None /\
  loadTimerConfigs (snd (saveTimerConfigs FsOk [config_A; config_B] Absent)) =
    inr (map stored [config_A; config_B]) /\
  (Forall plain [config_A; config_B] ->
   loadTimerConfigs (snd (saveTimerConfigs FsOk [config_A; config_B] Absent)) =
     inr [config_A; config_B]).
Proof. apply (save_load_round_trip [config_A; config_B] Absent). by_decide. Defined.

(** A name that is not valid UTF-8 does not come back: the byte 0xFF is
    read back as U+FFFD. *)
Example invalid_name_not_restored :
  loadTimerConfigs (written [mkTimerConfig (String "255" "") "" [] (-1)]) =
    inr [mkTimerConfig replacement "" [] (-1)].
Proof. by vm_compute. Qed.

(** ** What the decoder lets through *)

Section decoder.
Implicit Types (j : json) (c : TimerConfig) (cs : list TimerConfig).

(** A property of the struct that every member keeps holds of the result. *)
Lemma decode_fields_inv {A} (P : A -> Prop) (set : A -> string * json -> option A) fields a a' :
  (forall a kv a', P a -> set a kv = Some a' -> P a') ->
  P a -> decode_fields set fields a = Some a' -> P a'.
Proof.
  intros Hset. revert a. induction fields as [|kv fields IH]; intros a Ha; simpl.
  - by intros [= <-].
  - destruct (set a kv) as [a1|] eqn:H1; [|done]. apply IH. by eapply Hset.
Qed.

Lemma as_int_in_int64 j old n : in_int64 old -> as_int j old = Some n -> in_int64 n.
Proof. destruct j; simpl; try case_decide; try done; by intros ? [= <-]. Qed.

Lemma phase_field_storable p kv p' :
  storable_phase p -> phase_field p kv = Some p' -> storable_phase p'.
Proof.
  intros [Hw Hb]. unfold phase_field.
  destruct (field_is _ _); [|destruct (field_is _ _); [|by intros [= <-]]];
    (destruct (as_int _ _) as [n|] eqn:Hn; [|done]); intros [= <-];
    split; simpl; try done; (eapply as_int_in_int64; [|exact Hn]; done).
Qed.

Lemma UnmarshalJSON_storable j p : TimerPhase_UnmarshalJSON j = Some p -> storable_phase p.
Proof.
  destruct j; simpl; try done; [by intros [= <-]|].
  apply (decode_fields_inv storable_phase); [apply phase_field_storable|done].
Qed.

Lemma as_phases_storable j ps : as_phases j = Some ps -> Forall storable_phase ps.
Proof.
  destruct j; simpl; try done; [by intros [= <-]|]. intros H%mapM_Some_1.
  induction H as [|?? ?? Hx _ IH]; constructor; [by eapply UnmarshalJSON_storable|done].
Qed.

Lemma config_field_storable c kv c' :
  storable c -> config_field c kv = Some c' -> storable c'.
Proof.
  intros [Hp Hm]. unfold config_field.
  destruct (field_is _ _); [|destruct (field_is _ _); [|destruct (field_is _ _);
    [|destruct (field_is _ _); [|by intros [= <-]]]]].
  - destruct (as_string _ _); [|done]. by intros [= <-].
  - destruct (as_string _ _); [|done]. by intros [= <-].
  - destruct (as_phases _) eqn:Hps; [|done]. intros [= <-].
    split; [by eapply as_phases_storable|done].
  - destruct (as_int _ _) eqn:Hn; [|done]. intros [= <-].
    split; [done|]. eapply as_int_in_int64; [|exact Hn]. done.
Qed.

Lemma unmarshal_config_storable j c : unmarshal_config j = Some c -> storable c.
Proof.
  destruct j; simpl; try done; [by intros [= <-]|].
  apply (decode_fields_inv storable); [apply config_field_storable|done].
Qed.

(** Whatever the file holds, the integers the decoder returns are int64
    values. *)
Lemma loaded_storable f cs : loadTimerConfigs f = inr cs -> Forall storable cs.
Proof.
  destruct f as [| | |j]; simpl; try done; [by intros [= <-]|].
  destruct (unmarshal_configs j) as [cs'|] eqn:Hj; [|done]. intros [= <-].
  destruct j; simpl in Hj; try done; [by simplify_eq|]. apply mapM_Some_1 in Hj.
  induction Hj as [|?? ?? Hx _ IH]; constructor; [by eapply unmarshal_config_storable|done].
Qed.

End decoder.

(** C35: nothing validates what is loaded.  When the value in the file
    decodes to a slice in which some configuration has no phase, main
    reports no error and panics before the first prompt: timerFromConfig
    indexes Phases[0]. *)
Theorem load_without_phases_panics fuel r j cs :
  unmarshal_configs j = Some cs -> Exists (fun c => Phases c = []) cs ->
  panics (main fuel (loadTimerConfigs (Holds j)) r).
Proof.
  intros Hj Hex. unfold main, loadTimerConfigs. rewrite Hj, bind_ret_l.
  apply panics_bind_l. unfold startup. by apply panics_bind_l, load_timers_panics.
Qed.

(** The file [[{}]]: one configuration, every field at its zero value. *)
Definition example_hostile : json := JArr [JObj []].

Lemma load_without_phases_panics_witness :
  panics (main 5 (loadTimerConfigs (Holds example_hostile)) ["q"]).
Proof.
  apply (load_without_phases_panics 5 ["q"] example_hostile [zero_config]); [done|].
  by constructor.
Defined.

(** ** The file follows the configurations of the manager *)

Definition is_print (e : MainEvent) : Prop :=
  match e with
  | Print _ => True
  | SaveConfigs _ => False
  end.

#[export] Instance is_print_dec e : Decision (is_print e).
Proof. destruct e; apply _. Defined.

(** [prints m]: the call writes to the terminal and not to the file. *)
Definition prints {A} (m : GoM MainEvent A) : Prop := Forall is_print (events m).

Section prints_lemmas.
Context {A B : Type}.
Implicit Types (m : GoM MainEvent A) (f : A -> GoM MainEvent B).

Lemma prints_bind m f : prints m -> (forall a, prints (f a)) -> prints (m ≫= f).
Proof.
  unfold prints. intros Hm Hf. rewrite events_bind. apply Forall_app. split; [done|].
  destruct (result m); [apply Hf|done].
Qed.

Lemma prints_mret (a : A) : prints (mret a : GoM MainEvent A).
Proof. by constructor. Qed.

Lemma prints_emit s : prints (emit (Print s)).
Proof. by repeat constructor. Qed.

Lemma prints_index (s : list A) i : prints (index s i).
Proof. unfold prints. by rewrite events_index. Qed.

Lemma prints_remove_at (s : list A) i : prints (remove_at s i).
Proof. unfold prints. by rewrite events_remove_at. Qed.

End prints_lemmas.

(** Proves that a call composed of calls that only print only prints. *)
Ltac solve_prints :=
  repeat first
    [ apply prints_mret | apply prints_emit | apply prints_index | apply prints_remove_at
    | apply prints_bind; [|intros ?] | case_decide ].

Section file_follows.
Implicit Types (tm : TimerManager) (num : Z) (r : reader) (fuel : nat)
               (es : list MainEvent) (cs : list TimerConfig).

Lemma last_saved_app es1 es2 cs :
  last_saved (es1 ++ es2) cs = last_saved es2 (last_saved es1 cs).
Proof. apply foldl_app. Qed.

Lemma last_saved_prints es cs : Forall is_print es -> last_saved es cs = cs.
Proof. induction 1 as [|[] es He _ IH]; done. Qed.

(** The saves of a sequence of two calls. *)
Lemma last_saved_bind {A B} (m : GoM MainEvent A) (f : A -> GoM MainEvent B) a cs :
  returns m a ->
  last_saved (events (m ≫= f)) cs = last_saved (events (f a)) (last_saved (events m) cs).
Proof. unfold returns. intros Hm. by rewrite events_bind, Hm, last_saved_app. Qed.

(** The file after the events holds the slice last saved, and is the old
    file when there was no save. *)
Lemma store_after_last_saved es f cs :
  configs_of (loadTimerConfigs f) = map stored cs ->
  Forall storable (last_saved es cs) ->
  configs_of (loadTimerConfigs (store_after es f)) = map stored (last_saved es cs).
Proof.
  revert f cs. induction es as [|e es IH] using rev_ind; intros f cs Hf Hs; [done|].
  unfold store_after, last_saved in *. rewrite !foldl_app in *. cbn [foldl] in *.
  destruct e as [s|cs']; [by apply IH|]. by rewrite load_save.
Qed.

Lemma prints_show tm : prints (show tm).
Proof. apply prints_emit. Qed.

Lemma prints_readLine r p : prints (readLine r p).
Proof. unfold readLine. solve_prints. Qed.

Lemma prints_read_phases fuel r acc : prints (read_phases fuel r acc).
Proof.
  revert r acc. induction fuel as [|fuel IH]; intros r acc; simpl; [solve_prints|].
  do 3 (apply prints_bind; [solve_prints; apply prints_readLine|intros ?]).
  destruct (parseDuration _); [solve_prints; apply IH|].
  do 2 (apply prints_bind; [solve_prints; apply prints_readLine|intros ?]).
  destruct (parseDuration _); [solve_prints; apply IH|].
  do 2 (apply prints_bind; [solve_prints; apply prints_readLine|intros ?]).
  case_decide; [solve_prints|apply IH].
Qed.

Lemma prints_createTimer fuel r : prints (createTimer fuel r).
Proof.
  unfold createTimer. do 2 (apply prints_bind; [apply prints_readLine|intros ?]).
  apply prints_bind; [apply prints_read_phases|]. intros [[ps r']|]; [|solve_prints].
  apply prints_bind; [apply prints_readLine|intros ?]. solve_prints.
Qed.

Lemma prints_cmd_pause num tm : prints (cmd_pause num tm).
Proof. unfold cmd_pause, toggle_pause. solve_prints. Qed.

Lemma prints_cmd_reset num tm : prints (cmd_reset num tm).
Proof. unfold cmd_reset, reset_timer. solve_prints. Qed.

Lemma prints_cmd_delete_out num tm : ~ in_range num tm -> prints (cmd_delete num tm).
Proof. intros H. rewrite cmd_delete_out_of_range by done. by repeat constructor. Qed.

(** *** What createTimer returns can be stored *)

Lemma parseDuration_in_int64 s d : parseDuration s = inr d -> in_int64 d.
Proof.
  unfold parseDuration, of_minutes. repeat case_match; try done; intros [= <-];
    apply wrap64_range.
Qed.

Lemma read_phases_storable fuel r acc ps r' :
  Forall storable_phase acc -> returns (read_phases fuel r acc) (Some (ps, r')) ->
  Forall storable_phase ps.
Proof.
  unfold returns. revert r acc. induction fuel as [|fuel IH]; intros r acc Hacc; [done|].
  rewrite read_phases_result_S. destruct (parseDuration _) as [e|w] eqn:Hw; [by apply IH|].
  simpl. destruct (parseDuration (TrimSpace (ReadString (ReadString r).2).1))
    as [e|b] eqn:Hb; [by apply IH|].
  assert (Forall storable_phase (acc ++ [mkTimerPhase w b])) as Hacc'.
  { apply Forall_app. split; [done|]. repeat constructor; by eapply parseDuration_in_int64. }
  case_decide; [by intros [= <- <-]|by apply IH].
Qed.

Lemma createTimer_storable fuel r t c r' :
  returns (createTimer fuel r) (Some (t, c, r')) -> storable c.
Proof.
  unfold returns. rewrite createTimer_result. simpl.
  destruct (result (read_phases _ _ _)) as [[[ps r3]|]|p] eqn:Hps; [|done..].
  destruct ps as [|p0 ps]; [done|]. intros [= <- <- <-]. split; simpl.
  - by eapply (read_phases_storable _ _ []).
  - destruct (read_maxCycles_range (TrimSpace (ReadString r3).1)) as [->|?]; int64_lia.
Qed.

(** *** The commands *)

Lemma cmd_pause_configs num tm tm' : returns (cmd_pause num tm) tm' -> configs tm' = configs tm.
Proof.
  unfold cmd_pause, toggle_pause. intros (tm1 & H1 & H2)%returns_bind_inv.
  apply returns_bind_inv in H2 as (_ & _ & <-%returns_mret).
  case_decide; [|by apply returns_mret in H1 as <-].
  apply returns_bind_inv in H1 as (tm2 & H1 & H2).
  apply returns_bind_inv in H2 as (_ & _ & <-%returns_mret).
  by apply returns_bind_inv in H1 as (t & _ & <-%returns_mret).
Qed.

Lemma cmd_reset_configs num tm tm' : returns (cmd_reset num tm) tm' -> configs tm' = configs tm.
Proof.
  unfold cmd_reset, reset_timer. intros (tm1 & H1 & H2)%returns_bind_inv.
  apply returns_bind_inv in H2 as (_ & _ & <-%returns_mret).
  case_decide; [|by apply returns_mret in H1 as <-].
  apply returns_bind_inv in H1 as (tm2 & H1 & H2).
  apply returns_bind_inv in H2 as (_ & _ & <-%returns_mret).
  apply returns_bind_inv in H1 as (t & _ & H1).
  by apply returns_bind_inv in H1 as (p0 & _ & <-%returns_mret).
Qed.

(** [follows m cs cs']: the saves of [m], started when the file held the
    configurations [cs], leave it holding [cs'], which can be stored if
    [cs] could. *)
Definition follows {A} (m : GoM MainEvent A) (cs cs' : list TimerConfig) : Prop :=
  last_saved (events m) cs = cs' /\ (Forall storable cs -> Forall storable cs').

Lemma follows_prints {A} (m : GoM MainEvent A) cs cs' :
  prints m -> cs' = cs -> follows m cs cs'.
Proof. intros Hm Hc. split; [by rewrite last_saved_prints|by rewrite Hc]. Qed.

Lemma follows_bind {A B} (m : GoM MainEvent A) (f : A -> GoM MainEvent B) a cs cs1 cs' :
  returns m a -> follows m cs cs1 -> follows (f a) cs1 cs' -> follows (m ≫= f) cs cs'.
Proof.
  intros Hm [H1 S1] [H2 S2]. split; [|by auto].
  by rewrite (last_saved_bind _ _ a), H1.
Qed.

Lemma delete_timer_configs num tm tm' :
  returns (@delete_timer MainEvent num tm) tm' ->
  prints (@delete_timer MainEvent num tm) /\
  (Forall storable (configs tm) -> Forall storable (configs tm')).
Proof.
  unfold delete_timer. intros (ts & _ & H)%returns_bind_inv. split; [solve_prints|].
  apply returns_bind_inv in H as (cs & [_ ->]%remove_at_returns & <-%returns_mret).
  apply Forall_delete.
Qed.

Lemma cmd_delete_follows num tm tm' :
  returns (cmd_delete num tm) tm' -> follows (cmd_delete num tm) (configs tm) (configs tm').
Proof.
  intros H. destruct (decide (in_range num tm)) as [Hr|Hr].
  - revert H. unfold cmd_delete. rewrite decide_True by done.
    intros (tm1 & H1 & H2)%returns_bind_inv.
    apply returns_bind_inv in H2 as (_ & _ & <-%returns_mret).
    apply returns_bind_inv in H1 as (tm2 & Hd & H2).
    apply returns_bind_inv in H2 as (_ & _ & H2).
    apply returns_bind_inv in H2 as (_ & _ & <-%returns_mret).
    destruct (delete_timer_configs num tm tm2 Hd) as [Hp Hs]. split; [|done].
    rewrite (last_saved_bind _ _ tm2), (last_saved_bind _ _ tm2 _ Hd); [done|].
    eapply returns_bind; [done|]. done.
  - pose proof H as H'. unfold returns in H'.
    rewrite cmd_delete_out_of_range in H' by done. injection H' as <-.
    by apply follows_prints; [apply prints_cmd_delete_out|].
Qed.

Lemma cmd_add_follows t c tm :
  storable c -> follows (cmd_add t c tm) (configs tm) (configs (add_timer t c tm)).
Proof.
  intros Hc. split; [done|]. intros Hs. apply Forall_app. split; [done|by constructor].
Qed.

(** *** The loop *)

Lemma command_follows fuel r tm ctl r' tm' :
  returns (command fuel r tm) (Some (ctl, r', tm')) ->
  follows (command fuel r tm) (configs tm) (configs tm').
Proof.
  unfold command. destruct (TrimSpace (ReadString r).1) as [|c s].
  { intros [= <- <- <-]. by apply follows_prints; [repeat constructor|]. }
  repeat case_decide; intros Hret.
  - apply returns_bind_inv in Hret as ([[[t cfg] r1]|] & Hc & H'); [|done].
    apply returns_bind_inv in H' as (tm1 & Ha & [= <- <- <-]).
    eapply follows_bind; [done|by apply follows_prints; [apply prints_createTimer|]|].
    assert (tm1 = add_timer t cfg tm) as -> by (by injection Ha as <-).
    eapply follows_bind; [done|apply cmd_add_follows; by eapply createTimer_storable|].
    by apply follows_prints; [solve_prints|].
  - apply returns_bind_inv in Hret as (tm1 & Hp & [= <- <- <-]).
    apply follows_prints; [apply prints_bind; [apply prints_cmd_pause|intros ?; solve_prints]|].
    by eapply cmd_pause_configs.
  - apply returns_bind_inv in Hret as (tm1 & Hp & [= <- <- <-]).
    apply follows_prints; [apply prints_bind; [apply prints_cmd_reset|intros ?; solve_prints]|].
    by eapply cmd_reset_configs.
  - apply returns_bind_inv in Hret as (tm1 & Hd & [= <- <- <-]).
    eapply follows_bind; [done|by apply cmd_delete_follows|].
    by apply follows_prints; [solve_prints|].
  - injection Hret as <- <- <-. by apply follows_prints; [solve_prints|].
  - injection Hret as <- <- <-. by apply follows_prints; [repeat constructor|].
Qed.

Lemma main_loop_follows fuel r tm r' tm' :
  returns (main_loop fuel r tm) (Some (r', tm')) ->
  follows (main_loop fuel r tm) (configs tm) (configs tm').
Proof.
  revert r tm. induction fuel as [|fuel IH]; intros r tm; [done|]. simpl.
  intros ([[[[] r1] tm1]|] & Hc & H)%returns_bind_inv; [| |done].
  - eapply follows_bind; [done|by eapply command_follows|by apply (IH _ _)].
  - injection H as <- <-. eapply follows_bind; [done|by eapply command_follows|].
    by apply follows_prints; [solve_prints|].
Qed.

End file_follows.

(** ** A run of main and the next start *)

Section restart.
Implicit Types (fuel : nat) (r : reader) (f : file) (cs : list TimerConfig).

Lemma prints_load_timers cs ts : prints (@load_timers MainEvent cs ts).
Proof.
  revert ts. induction cs as [|c cs IH]; intros ts; simpl; [solve_prints|].
  apply prints_bind; [unfold timerFromConfig; solve_prints|intros ?; apply IH].
Qed.

Lemma startup_configs cs tm : returns (@startup MainEvent cs) tm -> configs tm = cs.
Proof. unfold startup. by intros (ts & _ & <-%returns_mret)%returns_bind_inv. Qed.

(** After the start: the first screen, the prompt and the loop. *)
Lemma main_tail_follows fuel r tm r' tm' :
  returns (_ ← emit (Print clearDisplay); _ ← show tm; _ ← emit (Print prompt);
           main_loop fuel r tm) (Some (r', tm')) ->
  follows (_ ← emit (Print clearDisplay); _ ← show tm; _ ← emit (Print prompt);
           main_loop fuel r tm) (configs tm) (configs tm').
Proof.
  intros H. do 3 (apply returns_bind_inv in H as (? & ? & H);
    eapply follows_bind; [done|by apply follows_prints; [solve_prints|]|]).
  by apply (main_loop_follows _ _ _ r').
Qed.

(** The saves of a run of main that returned. *)
Lemma main_follows fuel loaded r r' tm' :
  returns (main fuel loaded r) (Some (r', tm')) ->
  follows (main fuel loaded r) (configs_of loaded) (configs tm').
Proof.
  unfold main. intros (cs & Hcs & H)%returns_bind_inv.
  assert (cs = configs_of loaded) as ->.
  { destruct loaded; [|by apply returns_mret in Hcs].
    by apply returns_bind_inv in Hcs as (_ & _ & <-%returns_mret). }
  eapply follows_bind; [done|apply follows_prints; [destruct loaded; solve_prints|done]|].
  apply returns_bind_inv in H as (tm & Hs & H).
  eapply follows_bind; [done| |].
  { apply follows_prints; [|done]. unfold startup. solve_prints. apply prints_load_timers. }
  rewrite <- (startup_configs _ _ Hs).
  by apply (main_tail_follows _ _ _ r').
Qed.

Lemma configs_of_storable f : Forall storable (configs_of (loadTimerConfigs f)).
Proof.
  destruct (loadTimerConfigs f) as [e|cs] eqn:Hf; [by constructor|]. by eapply loaded_storable.
Qed.

End restart.

(** The two texts of a configuration are valid UTF-8, as are those the
    decoder returns. *)
Definition valid_names (c : TimerConfig) : Prop := stored c = c.

#[export] Instance valid_names_dec c : Decision (valid_names c).
Proof. unfold valid_names. apply _. Defined.

Lemma map_stored_valid cs : Forall valid_names cs -> map stored cs = cs.
Proof. induction 1 as [|c cs Hc _ IH]; [done|]. simpl. by rewrite Hc, IH. Qed.

(** C9: a run of main and the next start.  Whatever the file holds at the
    start (nothing, something unreadable, or a value), when main has run
    on the input [r] and returned at q with the manager [tm'], the file as
    the saves of the run left it loads to the configurations of [tm']
    (their texts coerced to valid UTF-8): the next start resumes with the
    configurations this run ended with.  Here main is the main goroutine
    alone; the ticker never writes tm.configs or the file. *)
Theorem restart_resumes fuel r f r' tm' :
  Forall valid_names (configs_of (loadTimerConfigs f)) ->
  returns (main fuel (loadTimerConfigs f) r) (Some (r', tm')) ->
  configs_of (loadTimerConfigs (store_after (events (main fuel (loadTimerConfigs f) r)) f))
    = map stored (configs tm').
Proof.
  intros Hv Hr. destruct (main_follows _ _ _ _ _ Hr) as [<- Hs].
  apply store_after_last_saved; [by rewrite map_stored_valid|].
  apply Hs, configs_of_storable.
Qed.

(** A run that adds one timer to an absent file and quits. *)
Definition example_run : reader := ["a"; "tea"; "drink"; "0:02"; "0:01"; "n"; "2"; "q"].

Definition example_end : TimerManager :=
  mkTimerManager
    [mkTimer (mkTimerState true (2 * Second) 1 0 "tea" "drink")
             [mkTimerPhase (2 * Second) (1 * Second)] 2 false]
    [mkTimerConfig "tea" "drink" [mkTimerPhase (2 * Second) (1 * Second)] 2] [].

Lemma restart_resumes_witness :
  configs_of (loadTimerConfigs
                (store_after (events (main 10 (loadTimerConfigs Absent) example_run)) Absent))
    = map stored (configs example_end).
Proof. apply (restart_resumes 10 example_run Absent [] example_end); by_decide. Defined.

Example restart_example :
  loadTimerConfigs (store_after (events (main 10 (loadTimerConfigs Absent) example_run)) Absent)
    = inr (configs example_end).
Proof. by vm_compute. Qed.
