(* ===== verification/World.v ===== *)
(** * World: the terminal, the file and the notification sink

    The goroutines act on the outside through three calls: fmt.Print on
    the terminal, saveTimerConfigs on the file timers.json, and
    beeep.Notify on the notification sink.  In the other files a call is
    an event ([Print], [SaveConfigs], [Notify]); here the events are
    interpreted in a [world], by a handler per kind of event.

    The two calls that can fail do so when the outside says so: the world
    holds the answers of the file system and of the sink to the calls to
    come.  The error branches of main.go are in the handlers: [notify]
    prints "Error sending notification:" and the error, the commands a
    and d print "Error saving timer configurations:" and the error, and
    in neither case does the program do anything else with the error.

    The theorems: in every state the three goroutines reach, if the last
    save succeeded and main is not between a critical section and its
    save, the file loads to the configurations of the manager; a delete
    whose save fails is reported, stays deleted in memory, and comes back
    at the next start; a tick sends one notification for every timer
    that rings, the last timer's first, and every notification is shown
    or reported, in order. *)

From Stdlib Require Import ZArith Lia Ascii String.
From stdpp Require Import base tactics option list numbers strings.
From S2P Require Import Prelude GoLib Duration Parse Timer Sweep Manager Display Command.
From S2P Require Import Dialogue Concurrency Schedule Persist.

#[local] Open Scope Z_scope.

(** ** Handlers *)

(** A handler interprets the events of type [E] in a state of type [W]. *)
Class Handler (E W : Type) : Type := handle : E -> W -> W.

#[global] Hint Mode Handler ! - : typeclass_instances.

(** The state after a list of events, oldest first. *)
Definition interp {E W} `{!Handler E W} (es : list E) (w : W) : W :=
  foldl (fun w e => handle e w) w es.

Section interp.
Context {E W : Type} `{!Handler E W}.
Implicit Types (es : list E) (w : W).

Lemma interp_nil w : interp (@nil E) w = w.
Proof. done. Qed.

Lemma interp_cons e es w : interp (e :: es) w = interp es (handle e w).
Proof. done. Qed.

Lemma interp_app es1 es2 w : interp (es1 ++ es2) w = interp es2 (interp es1 w).
Proof. apply foldl_app. Qed.

(** A property of the state that every event keeps. *)
Lemma interp_inv (P : W -> Prop) es w :
  (forall e w, e ∈ es -> P w -> P (handle e w)) -> P w -> P (interp es w).
Proof.
  revert w. induction es as [|e es IH]; intros w He Hw; [done|]. rewrite interp_cons.
  apply IH; [|apply He; [by left|done]]. intros e' w' Hin. apply He. by right.
Qed.

End interp.

(** ** The world *)

(** The text on the terminal, piece by piece; the file; the notifications
    shown; the answers of the file system to the saves to come and of the
    sink to the notifications to come (success when the list is empty);
    and whether the last save returned an error, a history of the run. *)
Record world : Type := mkWorld {
  terminal : list string;
  disk : file;
  popups : list Notification;
  fs_answers : list fs_answer;
  sink_answers : list (option string);
  save_failed : bool
}.

(** A world in which every call succeeds. *)
Definition calm (f : file) : world := mkWorld [] f [] [] [] false.

(** fmt.Println of a text and an error. *)
Definition error_line (what err : string) : string := what +:+ " " +:+ err +:+ NL.

Definition print (text : string) (w : world) : world :=
  mkWorld (terminal w ++ [text]) (disk w) (popups w) (fs_answers w) (sink_answers w)
          (save_failed w).

(** notify: the call of beeep.Notify and the report of its error. *)
#[export] Instance handle_notify : Handler Notification world := fun n w =>
  match sink_answers w with
  | Some err :: rest =>
      mkWorld (terminal w ++ [error_line "Error sending notification:" err]) (disk w)
              (popups w) (fs_answers w) rest (save_failed w)
  | None :: rest =>
      mkWorld (terminal w) (disk w) (popups w ++ [n]) (fs_answers w) rest (save_failed w)
  | [] =>
      mkWorld (terminal w) (disk w) (popups w ++ [n]) (fs_answers w) [] (save_failed w)
  end.

(** The call of saveTimerConfigs in the cases a and d, and the report of
    its error. *)
Definition save (cs : list TimerConfig) (w : world) : world :=
  let r := saveTimerConfigs (hd FsOk (fs_answers w)) cs (disk w) in
  mkWorld (terminal w ++ match r.1 with
                         | Some err => [error_line "Error saving timer configurations:" err]
                         | None => []
                         end)
          r.2 (popups w) (tl (fs_answers w)) (sink_answers w) (bool_decide (r.1 <> None)).

#[export] Instance handle_main : Handler MainEvent world := fun e w =>
  match e with
  | Print text => print text w
  | SaveConfigs cs => save cs w
  end.

#[export] Instance handle_io : Handler io world := fun e w =>
  match e with
  | Popup n => handle n w
  | Main e => handle e w
  | Draw text => print text w
  end.

(** The file loads to the configurations of the manager, texts coerced to
    valid UTF-8. *)
Definition synced (w : world) (tm : TimerManager) : Prop :=
  configs_of (loadTimerConfigs (disk w)) = map stored (configs tm).

#[export] Instance synced_dec w tm : Decision (synced w tm).
Proof. unfold synced. apply _. Defined.


(** [keeps_file e]: the event is not a save. *)
Definition keeps_file (e : io) : Prop :=
  match e with
  | Main (SaveConfigs _) => False
  | _ => True
  end.

#[export] Instance keeps_file_dec e : Decision (keeps_file e).
Proof. destruct e as [|[]|]; apply _. Defined.

(** [in_sync w tm]: unless the last save failed, the file holds the
    configurations of the manager. *)
Definition in_sync (w : world) (tm : TimerManager) : Prop :=
  save_failed w = false -> synced w tm.

(** What main holds of a configuration to come can be stored: the
    phases the dialogue has collected, the configuration it has built. *)
Definition storable_pc (pc : main_pc) : Prop :=
  match pc with
  | MDialogue st => collected storable_phase in_int64 st
  | MCreated _ c => storable c
  | _ => True
  end.

(** What holds of the file between two commands, at every step of the
    three goroutines: the configurations can be stored, so can the one
    the dialogue is building, and the file holds the configurations
    unless main is about to save them. *)
Definition file_inv (s : sys) (w : world) : Prop :=
  Forall storable (configs (mgr s)) /\
  storable_pc (mpc s) /\
  (mpc s <> MSave -> in_sync w (mgr s)).

(** The world of a run: the events of its steps, handled in order. *)
Definition world_after (ls : list label) (s : sys) (w : world) : world :=
  interp (trace ls s) w.

(** ** The handlers *)

Section handlers.
Implicit Types (w : world) (es : list io) (ns : list Notification) (tm : TimerManager).

Lemma interp_Main (es : list MainEvent) w : interp (map Main es) w = interp es w.
Proof. revert w. induction es as [|e es IH]; intros w; [done|]. apply IH. Qed.

Lemma interp_Popup ns w : interp (map Popup ns) w = interp ns w.
Proof. revert w. induction ns as [|n ns IH]; intros w; [done|]. apply IH. Qed.

(** The part of the world that the saves act on. *)
Definition file_part w : file * list fs_answer * bool :=
  (disk w, fs_answers w, save_failed w).

Lemma handle_keeps_file e w : keeps_file e -> file_part (handle e w) = file_part w.
Proof.
  destruct e as [n|[]|]; try done. intros _. unfold handle, handle_io, handle, handle_notify.
  by repeat case_match.
Qed.

Lemma interp_keeps_file es w :
  Forall keeps_file es -> file_part (interp es w) = file_part w.
Proof.
  intros Hes. apply (interp_inv (fun w' => file_part w' = file_part w)); [|done].
  intros e w' He <-. apply handle_keeps_file. by eapply Forall_forall in Hes.
Qed.

Lemma in_sync_file_part w w' tm :
  file_part w' = file_part w -> in_sync w tm -> in_sync w' tm.
Proof. unfold in_sync, synced. by intros [= -> _ ->]. Qed.

Lemma keeps_file_Popup ns : Forall keeps_file (map Popup ns).
Proof. by apply Forall_map, Forall_true. Qed.

Lemma keeps_file_prints (es : list MainEvent) :
  Forall is_print es -> Forall keeps_file (map Main es).
Proof. intros H. apply Forall_map. eapply Forall_impl; [done|]. by intros []. Qed.

Lemma prints_ask st : Forall is_print (ask st).
Proof. destruct st; by repeat constructor. Qed.

Lemma prints_answer st text : prints (answer st text).
Proof. destruct st; simpl; repeat case_match; solve_prints. Qed.

(** A step of the dialogue only prints. *)
Lemma prints_dialogue_step st r : Forall is_print (events (dialogue_step st r)).
Proof.
  unfold dialogue_step. apply prints_bind; [apply prints_answer|].
  intros [st'|tc]; [|solve_prints]. apply prints_bind; [apply prints_ask|]. intros _.
  solve_prints.
Qed.

(** A save that succeeds leaves the file in step with what it saved. *)
Lemma save_in_sync tm w : Forall storable (configs tm) -> in_sync (save (configs tm) w) tm.
Proof.
  unfold in_sync, synced, save. simpl. intros Hcs.
  destruct (hd FsOk (fs_answers w)) as [| |? []]; try done. intros _.
  cbn [saveTimerConfigs snd]. by rewrite load_save.
Qed.

End handlers.

(** ** The sequential program in a world without faults *)

Section calm.
Implicit Types (es : list MainEvent) (cs : list TimerConfig) (w : world).

(** A save that the file system lets through. *)
Lemma save_ok cs w :
  hd FsOk (fs_answers w) = FsOk ->
  disk (save cs w) = written cs /\ save_failed (save cs w) = false /\
  fs_answers (save cs w) = tl (fs_answers w).
Proof. unfold save. simpl. by intros ->. Qed.

(** When the file system answers no error, the file after the events of
    main is the file of [store_after], and no save is reported failed. *)
Lemma interp_calm es w :
  fs_answers w = [] -> save_failed w = false ->
  disk (interp es w) = store_after es (disk w) /\
  fs_answers (interp es w) = [] /\ save_failed (interp es w) = false.
Proof.
  revert w. induction es as [|e es IH]; intros w Hfs Hsf; [done|]. rewrite interp_cons.
  change (store_after (e :: es) (disk w))
    with (store_after es match e with SaveConfigs cs => written cs | Print _ => disk w end).
  destruct e as [text|cs]; [by apply (IH (print text w))|].
  change (handle (SaveConfigs cs) w) with (save cs w).
  destruct (save_ok cs w) as (Hd & Hf & Ht); [by rewrite Hfs|].
  destruct (IH (save cs w)) as (-> & ? & ?); [by rewrite Ht, Hfs|done|]. by rewrite Hd.
Qed.

End calm.

(** ** The file follows the manager, at every step *)

Section file_follows_steps.
Implicit Types (s : sys) (w : world) (l : label) (ls : list label) (tm : TimerManager).

(** An invariant of the system and the world that every step keeps holds
    along every run. *)
Lemma csteps_world_inv (I : sys -> world -> Prop) :
  (forall s l s' w, cstep s l s' -> I s w -> I s' (interp (emits s l) w)) ->
  forall s ls s' w, csteps s ls s' -> I s w -> I s' (world_after ls s w).
Proof.
  intros Hstep s ls s' w Hrun. revert w. unfold world_after.
  induction Hrun as [|s l s1 ls s2 H1 _ IH]; intros w Hw; [done|].
  rewrite (trace_cons _ _ _ _ H1), interp_app. by apply IH, Hstep.
Qed.

Lemma act_configs c num tm tm' :
  returns (@act MainEvent c num tm) tm' ->
  configs tm' = match c with
                | CDelete => delete (Z.to_nat (wrap64 (num - 1))) (configs tm)
                | _ => configs tm
                end.
Proof.
  intros H. apply act_returns in H as [_ H].
  destruct c; [destruct H as (? & _ & ->)|destruct H as (? & ? & _ & _ & ->)|subst]; done.
Qed.

(** A step that does not save, does not change the configurations and
    does not leave [MSave] keeps the invariant. *)
Lemma file_inv_quiet s s' w es :
  file_inv s w -> Forall keeps_file es -> configs (mgr s') = configs (mgr s) ->
  (mpc s' <> MSave -> mpc s <> MSave) -> storable_pc (mpc s') ->
  file_inv s' (interp es w).
Proof.
  intros (Hcs & Hc & Hsync) Hes Heq Hpc Hnew. unfold file_inv. rewrite Heq.
  split_and!; [done..|]. intros Hs'%Hpc.
  apply (in_sync_file_part w); [by apply interp_keeps_file|].
  unfold in_sync, synced in *. rewrite Heq. auto.
Qed.

(** A step into [MSave] has only to keep the configurations storable. *)
Lemma file_inv_to_save s' w :
  Forall storable (configs (mgr s')) -> mpc s' = MSave -> file_inv s' w.
Proof. intros Hcs Hpc. split_and!; [done|by rewrite Hpc..]. Qed.

(** An answer keeps what the dialogue has collected storable, and the
    configuration it ends with is. *)
Lemma answer_storable st text :
  collected storable_phase in_int64 st ->
  match result (answer st text) with
  | Ok (inl st') => collected storable_phase in_int64 st'
  | Ok (inr (_, c)) => storable c
  | Panicked _ => True
  end.
Proof.
  intros Hst. pose proof (answer_keeps storable_phase in_int64 (fun x y Hx Hy => conj Hx Hy)
    st text (parseDuration_in_int64 text) Hst) as H.
  destruct (result (answer st text)) as [[st'|[t c]]|p]; [done| |done].
  destruct H as (p0 & ps' & [= -> ->] & Hps). split; [done|]. simpl.
  destruct (read_maxCycles_range text) as [->|?]; int64_lia.
Qed.

Lemma act_file_inv s c num tm' w :
  mpc s = MChecked c num -> returns (@act MainEvent c num (mgr s)) tm' -> file_inv s w ->
  file_inv (set_mpc (after_act c) (set_mgr tm' s)) w.
Proof.
  intros Hpc Hact%act_configs Hinv. destruct c.
  1,2: by apply (file_inv_quiet s _ w []); simpl; [done|constructor|done|by rewrite Hpc|done].
  apply file_inv_to_save; [|done]. simpl. rewrite Hact. apply Forall_delete, Hinv.
Qed.

Lemma cstep_file_inv s l s' w :
  cstep s l s' -> file_inv s w -> file_inv s' (interp (emits s l) w).
Proof.
  destruct 1 as [| | | | | | | | | | |? st line st' _ Hpc Hret|? st line t c _ Hpc Hret
                |? st line p _ Hpc Hret|? t c _ Hpc|? _ Hpc| | | |];
    intros Hinv; pose proof Hinv as (_ & Hst & _); cbn [emits];
    try by eapply act_file_inv.
  all: try by (apply (file_inv_quiet s); simpl;
    [done|first [apply keeps_file_Popup|by repeat constructor]|done|congruence|done]).
  all: try (rewrite Hpc in Hst; pose proof (answer_storable st (TrimSpace line) Hst) as Ha;
            unfold returns in Hret; rewrite Hret in Ha).
  1-3: apply (file_inv_quiet s); [done|apply keeps_file_prints, prints_dialogue_step|done
                                 |simpl; congruence|simpl; by rewrite ?Hpc].
  - apply file_inv_to_save; [|done]. simpl. apply Forall_app. split; [apply Hinv|].
    constructor; [|done]. by rewrite Hpc in Hst.
  - destruct Hinv as (Hcs & _ & _). split_and!; [done..|]. intros _. by apply save_in_sync.
Qed.

End file_follows_steps.

(** ** The invariant of the file *)

(** C12: in every state the three goroutines reach from a manager whose
    configurations can be stored and are in the file, under every
    schedule and whatever the file system and the sink answer: unless
    main stands between a critical section and its save, or the last save
    returned an error, loading the file gives the configurations of the
    manager (texts coerced to valid UTF-8). *)
Theorem file_follows_configs tm ls s' w :
  Forall storable (configs tm) -> in_sync w tm -> csteps (initial tm) ls s' ->
  mpc s' <> MSave -> save_failed (world_after ls (initial tm) w) = false ->
  configs_of (loadTimerConfigs (disk (world_after ls (initial tm) w)))
    = map stored (configs (mgr s')).
Proof.
  intros Hcs Hw Hrun. apply (csteps_world_inv file_inv cstep_file_inv _ _ _ w) in Hrun.
  - destruct Hrun as (_ & _ & Hsync). exact Hsync.
  - by split_and!.
Qed.

(** The second timer is deleted; the ticker removes the first, which
    completes, before the save. *)
Definition example_delete : list label :=
  first_screen ++ [LCheck CDelete 2; LAct; LTick; LSave; LShow; LPrompt].

Definition example_deleted : sys :=
  mkSys (mkTimerManager [] [config_A] []) MRead TSend RWait None.

Definition example_world : world :=
  mkWorld [] (written [config_A; config_B]) [] [FsOk] [] false.

Lemma file_follows_configs_witness :
  configs_of (loadTimerConfigs
                (disk (world_after example_delete (initial example_manager) example_world)))
    = map stored (configs (mgr example_deleted)).
Proof.
  apply (file_follows_configs example_manager example_delete example_deleted example_world);
    by_decide.
Defined.

(** ** What has completed comes back *)

Section restart.
Implicit Types (s : sys) (w : world) (l : label) (ls : list label) (tm : TimerManager).

(** The ticker and the renderer leave the configurations and the file
    alone. *)
Lemma background_keeps s l s' w :
  ~ main_label l -> cstep s l s' ->
  configs (mgr s') = configs (mgr s) /\ file_part (interp (emits s l) w) = file_part w.
Proof.
  intros Hl. destruct 1; try done; (split; [done|]); apply interp_keeps_file;
    cbn [emits]; first [apply keeps_file_Popup|by repeat constructor].
Qed.

Lemma background_run s ls s' w :
  Forall (fun l => ~ main_label l) ls -> csteps s ls s' ->
  configs (mgr s') = configs (mgr s) /\ file_part (world_after ls s w) = file_part w.
Proof.
  intros Hls Hrun. revert w. unfold world_after.
  induction Hrun as [|s l s1 ls s2 H1 _ IH]; intros w; [done|].
  apply Forall_cons in Hls as [Hl Hls]. rewrite (trace_cons _ _ _ _ H1), interp_app.
  destruct (background_keeps s l s1 w Hl H1) as [<- <-]. by apply IH.
Qed.

Lemma stored_phases cs :
  Forall (fun c => Phases c <> []) cs -> Forall (fun c => Phases c <> []) (map stored cs).
Proof. intros H. apply Forall_map. by eapply Forall_impl. Qed.

End restart.

(** C13: a timer that has completed is back at the next start.  However
    long the ticker and the renderer run, whatever completes and is
    removed from the active timers, the configurations and the file stay
    as they were: a start from the file builds a fresh timer for every
    configuration the manager started with. *)
Theorem completed_timers_return tm ls s' w :
  Forall (fun c => Phases c <> []) (configs tm) -> synced w tm ->
  Forall (fun l => ~ main_label l) ls -> csteps (initial tm) ls s' ->
  configs (mgr s') = configs tm /\
  @startup MainEvent (configs_of (loadTimerConfigs (disk (world_after ls (initial tm) w)))) =
    mret (mkTimerManager (fresh_timers (map stored (configs tm))) (map stored (configs tm)) []).
Proof.
  intros Hps Hw Hls Hrun. destruct (background_run _ _ _ w Hls Hrun) as [Hcs [= Hd _ _]].
  split; [done|]. rewrite Hd, Hw. by apply startup_eq_fresh, stored_phases.
Qed.

(** The first timer of [example_manager] completes on the first tick; the
    file still holds both. *)
Definition example_ticked : sys :=
  Eval vm_compute in default (initial example_manager) (run [LTick; LSend] (initial example_manager)).

Lemma completed_timers_return_witness :
  length (activeTimers (mgr example_ticked)) = 1%nat /\
  exists t1 t2,
    @startup MainEvent
      (configs_of (loadTimerConfigs
                     (disk (world_after [LTick; LSend] (initial example_manager) example_world))))
      = mret (mkTimerManager [t1; t2] [config_A; config_B] []).
Proof.
  split; [done|].
  destruct (completed_timers_return example_manager [LTick; LSend] example_ticked example_world)
    as [_ ->]; [by_decide..|]. by eexists _, _.
Defined.

(** ** A save that fails *)

(** C30: a delete whose save returns an error.  The timer and its
    configuration are removed from the manager, the error is printed,
    the list and the prompt follow as after a save that succeeded, and
    the loop goes on; the file is what the failed call left, so when
    os.Create failed it still holds the deleted timer, which the next
    start restores. *)
Theorem delete_save_fails tm num tm' w a err rest :
  in_int64 num -> in_range num tm -> returns (@act MainEvent CDelete num tm) tm' ->
  fs_answers w = a :: rest -> fst (saveTimerConfigs a (configs tm') (disk w)) = Some err ->
  csteps (at_prompt tm) (plan_num CDelete num tm) (at_prompt tm') /\
  configs tm' = delete (Z.to_nat (wrap64 (num - 1))) (configs tm) /\
  world_after (plan_num CDelete num tm) (at_prompt tm) w =
    mkWorld (terminal w ++ [error_line "Error saving timer configurations:" err;
                            displayTimers false tm'; prompt])
            (snd (saveTimerConfigs a (configs tm') (disk w)))
            (popups w) rest (sink_answers w) true /\
  (forall e, a = CreateFails e ->
     disk (world_after (plan_num CDelete num tm) (at_prompt tm) w) = disk w).
Proof.
  intros Hn Hr Ha Hfs Herr.
  destruct (plan_num_returns CDelete num tm' (at_prompt tm)) as [Hrun Htr]; [done..|].
  assert (world_after (plan_num CDelete num tm) (at_prompt tm) w =
    print prompt (print (displayTimers false tm') (save (configs tm') w))) as ->.
  { unfold world_after. change (mgr (at_prompt tm)) with tm in Htr.
    by rewrite Htr, interp_Main, (command_of_events _ _ _ tm'). }
  split_and!; [by apply csteps_iff|by apply act_configs in Ha| |by intros e ->; simpl; rewrite Hfs].
  unfold print, save. simpl. rewrite Hfs. simpl. rewrite Herr. by rewrite <- !app_assoc.
Qed.

(** The file system refuses the save of the delete of [example_delete]. *)
Definition example_full : world :=
  mkWorld [] (written [config_A; config_B]) [] [CreateFails "no space left on device"] [] false.

Lemma delete_save_fails_witness :
  csteps (at_prompt example_manager) (plan_num CDelete 2 example_manager)
         (at_prompt (mkTimerManager [example_A] [config_A] [])) /\
  loadTimerConfigs
    (disk (world_after (plan_num CDelete 2 example_manager) (at_prompt example_manager)
             example_full)) = inr [config_A; config_B].
Proof.
  destruct (delete_save_fails example_manager 2 (mkTimerManager [example_A] [config_A] [])
              example_full (CreateFails "no space left on device")
              "no space left on device" []) as (Hrun & _ & _ & Hdisk); [by_decide..|].
  split; [exact Hrun|]. by rewrite (Hdisk _ eq_refl).
Defined.

(** ** The notification sink *)

(** The notifications the sink shows, and the lines printed for those it
    refuses, when it answers [answers] to the calls for [ns]. *)
Fixpoint delivered (ns : list Notification) (answers : list (option string))
    : list Notification :=
  match ns, answers with
  | [], _ => []
  | ns, [] => ns
  | n :: ns, None :: answers => n :: delivered ns answers
  | _ :: ns, Some _ :: answers => delivered ns answers
  end.

Fixpoint refused (ns : list Notification) (answers : list (option string)) : list string :=
  match ns, answers with
  | [], _ | _, [] => []
  | _ :: ns, None :: answers => refused ns answers
  | _ :: ns, Some err :: answers =>
      error_line "Error sending notification:" err :: refused ns answers
  end.

Section sink.
Implicit Types (ns : list Notification) (w : world) (answers : list (option string)).

Lemma interp_notify ns w :
  interp ns w =
    mkWorld (terminal w ++ refused ns (sink_answers w)) (disk w)
            (popups w ++ delivered ns (sink_answers w)) (fs_answers w)
            (drop (length ns) (sink_answers w)) (save_failed w).
Proof.
  revert w. induction ns as [|n ns IH]; intros [t d p fa sa sf].
  { simpl. by rewrite !app_nil_r, drop_0. }
  rewrite interp_cons, IH. unfold handle, handle_notify. simpl.
  destruct sa as [|[err|] sa]; simpl; rewrite <- ?app_assoc; try done.
  by destruct ns.
Qed.

Lemma delivered_refused_length ns answers :
  (length (delivered ns answers) + length (refused ns answers) = length ns)%nat.
Proof.
  revert answers. induction ns as [|n ns IH]; intros [|[err|] answers]; simpl; try lia.
  all: specialize (IH answers); lia.
Qed.

End sink.

(** The notifications of a tick of the manager: the notices of its
    timers, the last timer's first. *)
Definition tick_notices (tm : TimerManager) : list Notification :=
  omap notice (reverse (activeTimers tm)).

Section tick_notices.
Implicit Types (ts : list Timer) (tm : TimerManager).

Lemma events_notices ts :
  Forall wf_timer ts -> flat_map (fun t => events (update t)) ts = omap notice ts.
Proof.
  induction 1 as [|t ts Ht _ IH]; [done|]. csimpl. rewrite IH, (update_notice t Ht).
  by destruct (notice t).
Qed.

Lemma sweep_notices tm :
  Forall wf_timer (activeTimers tm) -> events (sweep tm) = tick_notices tm.
Proof.
  intros Hts. rewrite (sweep_wf tm Hts). unfold tick_notices, sweep_events. simpl.
  by apply events_notices, Forall_reverse.
Qed.

(** One notice per timer that rings. *)
Lemma length_notices ts : length (omap notice ts) = length (filter ringing ts).
Proof.
  induction ts as [|t ts IH]; [done|]. csimpl. rewrite filter_cons. unfold notice at 1.
  case_decide; csimpl; by rewrite IH.
Qed.

Lemma length_tick_notices tm :
  length (tick_notices tm) = length (filter ringing (activeTimers tm)).
Proof.
  unfold tick_notices. rewrite length_notices, filter_reverse. apply length_reverse.
Qed.

End tick_notices.

(** C31: the notifications of a tick.  On well-formed timers the sweep
    sends one notification for every timer that is not paused and whose
    countdown is at zero, and none for the others, the last timer's
    first: "Break: ..." at the end of a work period, "All phases
    completed: ..." after the last cycle of the last phase, the bare text
    when the next work period starts.  Each one is shown, or the sink's
    error is printed on the terminal and the notification is lost (there
    is no retry, and the timers move on all the same); the file is not
    touched.  When the sink accepts everything the notifications shown
    are exactly those. *)
Theorem tick_notifications s w :
  Forall wf_timer (activeTimers (mgr s)) ->
  emits s LTick = map Popup (tick_notices (mgr s)) /\
  length (tick_notices (mgr s)) = length (filter ringing (activeTimers (mgr s))) /\
  interp (emits s LTick) w =
    mkWorld (terminal w ++ refused (tick_notices (mgr s)) (sink_answers w)) (disk w)
            (popups w ++ delivered (tick_notices (mgr s)) (sink_answers w)) (fs_answers w)
            (drop (length (tick_notices (mgr s))) (sink_answers w)) (save_failed w) /\
  (sink_answers w = [] ->
   popups (interp (emits s LTick) w) = popups w ++ tick_notices (mgr s)).
Proof.
  intros Hts. cbn [emits]. rewrite (sweep_notices _ Hts), interp_Popup, interp_notify.
  split_and!; [done|apply length_tick_notices|done|]. intros ->. simpl.
  by destruct (tick_notices (mgr s)).
Qed.

(** Three timers: the first rings at the end of a break with a cycle to
    go, the second is paused at zero, the third rings at the end of its
    last break.  The sink refuses the first notification it is sent, that
    of the third timer. *)
Definition example_ringing : TimerManager :=
  mkTimerManager
    [mkTimer (mkTimerState false 0 1 0 "tea" "drink") [mkTimerPhase Second Second] 2 false;
     mkTimer (mkTimerState true 0 1 0 "nap" "sleep") [mkTimerPhase Second Second] 2 true;
     example_A]
    [] [].

Lemma tick_notifications_witness :
  let w := interp (emits (at_prompt example_ringing) LTick)
                  (mkWorld [] Absent [] [] [Some "no bus"; None] false) in
  popups w = [Notify "tea" "drink"] /\
  terminal w = [error_line "Error sending notification:" "no bus"].
Proof.
  destruct (tick_notifications (at_prompt example_ringing)
              (mkWorld [] Absent [] [] [Some "no bus"; None] false)) as (_ & _ & -> & _);
    [by_decide|]. by vm_compute.
Defined.
