(* ===== verification/Stdin.v ===== *)
(** * Stdin: os.Stdin and the two bufio.Readers

    main reads its commands through one bufio.Reader on os.Stdin, and
    every call of createTimer reads the dialogue through a new one.  A
    bufio.Reader reads ahead: what a read of the file descriptor returns
    beyond the line asked for stays in the buffer of the reader that made
    the read, where the other reader does not see it.

    Command.v takes standard input as the list of lines to come and lets
    the dialogue read from the same list.  This file has the bytes: the
    chunks the reads of the descriptor return ([stdin]), the buffer of a
    reader ([bufio]), and ReadString on the two.  The theorems: a reader
    returns the lines of the bytes ahead of it, so the list of Command.v
    is what one reader sees; when every read returns one line, as from a
    terminal, the buffers are empty between the calls and two readers
    used in any order read the lines in order, which is the convention of
    Command.v; when a read returns more, as from a pipe, the lines behind
    the command a are in the buffer of main's reader, and the dialogue
    meets the end of input and does not return. *)

From Stdlib Require Import ZArith Lia Ascii String.
From stdpp Require Import base tactics option list numbers strings.
From S2P Require Import Prelude GoLib Timer Manager Display Command.

(** ** Bytes *)

Definition newline : ascii := "010"%char.

(** The prefix of [s] up to and including its first line end, and the
    rest; [None] when [s] has no line end. *)
Fixpoint cut (s : string) : option (string * string) :=
  match s with
  | EmptyString => None
  | String c s' =>
      if decide (c = newline) then Some (String c EmptyString, s')
      else match cut s' with
           | Some (l, rest) => Some (String c l, rest)
           | None => None
           end
  end.

(** The lines of [s], each with its line end; the last one without, when
    [s] does not end in a line end.  [acc] is the line begun. *)
Fixpoint lines_from (acc s : string) : list string :=
  match s with
  | EmptyString => if decide (acc = EmptyString) then [] else [acc]
  | String c s' =>
      if decide (c = newline) then (acc +:+ String c EmptyString) :: lines_from EmptyString s'
      else lines_from (acc +:+ String c EmptyString) s'
  end.

Definition lines_of (s : string) : list string := lines_from EmptyString s.

(** ** The descriptor and the readers *)

(** What the reads of file descriptor 0 will return, in order; when none
    is left a read returns end of file. *)
Definition stdin : Type := list string.

(** A bufio.Reader on os.Stdin: the bytes read and not yet returned. *)
Definition bufio : Type := string.

(** [bufio.NewReader(os.Stdin)]. *)
Definition NewReader : bufio := EmptyString.

(** [reader.ReadString('\n')] with its error dropped: the text up to and
    including the next line end, reading from the descriptor until there
    is one; at end of file, what is left. *)
Fixpoint bufio_ReadString (buf : bufio) (input : stdin) : string * bufio * stdin :=
  match cut buf with
  | Some (l, rest) => (l, rest, input)
  | None =>
      match input with
      | [] => (buf, EmptyString, [])
      | chunk :: input' => bufio_ReadString (buf +:+ chunk) input'
      end
  end.

(** The bytes ahead of a reader, and their lines: the [reader] of
    Command.v that the reader is. *)
Definition bytes_ahead (buf : bufio) (input : stdin) : string :=
  buf +:+ foldr String.append EmptyString input.

Definition ahead (buf : bufio) (input : stdin) : reader := lines_of (bytes_ahead buf input).

(** ** Two readers on one descriptor *)

(** What main and the dialogues do to standard input: main reads a
    command; createTimer makes its reader; a readLine of the dialogue. *)
Inductive op : Type :=
  | MainRead
  | DialogueOpen
  | DialogueRead.

#[export] Instance op_eq_dec : EqDecision op.
Proof. solve_decision. Defined.

(** The buffer of main's reader, the buffer of the reader of the
    dialogue, and the descriptor. *)
Record readers : Type := mkReaders {
  main_buf : bufio;
  dialogue_buf : bufio;
  fd : stdin
}.

(** The texts the reads among [ops] return, in order. *)
Fixpoint read_all (ops : list op) (st : readers) : list string :=
  match ops with
  | [] => []
  | MainRead :: ops =>
      let r := bufio_ReadString (main_buf st) (fd st) in
      r.1.1 :: read_all ops (mkReaders r.1.2 (dialogue_buf st) r.2)
  | DialogueOpen :: ops => read_all ops (mkReaders (main_buf st) NewReader (fd st))
  | DialogueRead :: ops =>
      let r := bufio_ReadString (dialogue_buf st) (fd st) in
      r.1.1 :: read_all ops (mkReaders (main_buf st) r.1.2 r.2)
  end.

(** The texts [n] calls of ReadString return on the reader of Command.v. *)
Fixpoint read_lines (n : nat) (r : reader) : list string :=
  match n with
  | O => []
  | S n => (ReadString r).1 :: read_lines n (ReadString r).2
  end.

(** The number of reads among [ops]. *)
Fixpoint count_reads (ops : list op) : nat :=
  match ops with
  | [] => O
  | DialogueOpen :: ops => count_reads ops
  | _ :: ops => S (count_reads ops)
  end.

(** [is_line chunk]: one line with its line end, what a read of a
    terminal returns. *)
Definition is_line (chunk : string) : Prop := cut chunk = Some (chunk, EmptyString).

#[export] Instance is_line_dec chunk : Decision (is_line chunk).
Proof. unfold is_line. apply _. Defined.

(** ** Strings *)

Section strings.
Implicit Types (s t u l rest acc : string) (c : ascii).

Lemma app_String c s t : String c s +:+ t = String c (s +:+ t).
Proof. done. Qed.

Lemma app_empty_r s : s +:+ EmptyString = s.
Proof. induction s as [|c s IH]; [done|]. by rewrite app_String, IH. Qed.

Lemma string_app_assoc s t u : (s +:+ t) +:+ u = s +:+ (t +:+ u).
Proof. induction s as [|c s IH]; [done|]. by rewrite !app_String, IH. Qed.

Lemma cut_app s l rest t : cut s = Some (l, rest) -> cut (s +:+ t) = Some (l, rest +:+ t).
Proof.
  revert l. induction s as [|c s IH]; intros l; [done|]. rewrite app_String. simpl.
  case_decide; [by intros [= <- <-]|].
  destruct (cut s) as [[l' rest']|]; [|done]. intros [= <- <-]. by rewrite (IH l').
Qed.

Lemma cut_Some s l rest : cut s = Some (l, rest) -> s = l +:+ rest.
Proof.
  revert l. induction s as [|c s IH]; intros l; [done|]. simpl.
  case_decide; [by intros [= <- <-]|].
  destruct (cut s) as [[l' rest']|]; [|done]. intros [= <- <-].
  by rewrite app_String, <- (IH l').
Qed.

(** [lines_from] line by line. *)
Lemma lines_from_cut acc s :
  lines_from acc s =
    match cut s with
    | Some (l, rest) => (acc +:+ l) :: lines_of rest
    | None => if decide (acc +:+ s = EmptyString) then [] else [acc +:+ s]
    end.
Proof.
  revert acc. induction s as [|c s IH]; intros acc; simpl.
  { by rewrite app_empty_r. }
  case_decide; [done|]. rewrite IH.
  destruct (cut s) as [[l rest]|]; by rewrite string_app_assoc.
Qed.

Lemma lines_of_cut s :
  lines_of s =
    match cut s with
    | Some (l, rest) => l :: lines_of rest
    | None => if decide (s = EmptyString) then [] else [s]
    end.
Proof. unfold lines_of at 1. by rewrite lines_from_cut. Qed.

End strings.

(** ** One reader *)

Section one_reader.
Implicit Types (buf : bufio) (input : stdin) (chunk : string).

Lemma bufio_ReadString_ready buf input l rest :
  cut buf = Some (l, rest) -> bufio_ReadString buf input = (l, rest, input).
Proof. intros H. destruct input; simpl; by rewrite H. Qed.

Lemma bufio_ReadString_fill buf chunk input :
  cut buf = None ->
  bufio_ReadString buf (chunk :: input) = bufio_ReadString (buf +:+ chunk) input.
Proof. intros H. simpl. by rewrite H. Qed.

Lemma bufio_ReadString_eof buf :
  cut buf = None -> bufio_ReadString buf [] = (buf, NewReader, []).
Proof. intros H. simpl. by rewrite H. Qed.

(** A reader is the list of the lines ahead of it: ReadString on the
    bytes and ReadString of Command.v on the lines return the same text
    and leave the same reader. *)
Lemma ReadString_ahead buf input :
  ReadString (ahead buf input) =
    ((bufio_ReadString buf input).1.1,
     ahead (bufio_ReadString buf input).1.2 (bufio_ReadString buf input).2).
Proof.
  revert buf. induction input as [|chunk input IH]; intros buf;
    destruct (cut buf) as [[l rest]|] eqn:Hcut.
  - rewrite (bufio_ReadString_ready _ _ _ _ Hcut). unfold ahead, bytes_ahead.
    by rewrite lines_of_cut, (cut_app _ _ _ _ Hcut).
  - rewrite (bufio_ReadString_eof _ Hcut). unfold ahead, bytes_ahead. simpl.
    rewrite app_empty_r, lines_of_cut, Hcut. by case_decide; subst.
  - rewrite (bufio_ReadString_ready _ _ _ _ Hcut). unfold ahead, bytes_ahead.
    by rewrite lines_of_cut, (cut_app _ _ _ _ Hcut).
  - rewrite (bufio_ReadString_fill _ _ _ Hcut), <- IH. unfold ahead, bytes_ahead. simpl.
    by rewrite string_app_assoc.
Qed.

(** What a terminal sends: a read returns the line, and the buffer is
    empty again. *)
Lemma bufio_ReadString_line chunk input :
  is_line chunk -> bufio_ReadString NewReader (chunk :: input) = (chunk, NewReader, input).
Proof. intros H. rewrite bufio_ReadString_fill by done. by apply bufio_ReadString_ready. Qed.

Lemma ahead_lines input : Forall is_line input -> ahead NewReader input = input.
Proof.
  induction 1 as [|chunk input Hc _ IH]; [done|].
  change (lines_of (chunk +:+ foldr String.append EmptyString input) = chunk :: input).
  rewrite lines_of_cut, (cut_app _ _ _ _ Hc). f_equal. exact IH.
Qed.

End one_reader.

(** ** Two readers *)

Section two_readers.
Implicit Types (buf : bufio) (input : stdin) (ops : list op) (n : nat).

(** Two readers with empty buffers on a descriptor that returns lines. *)
Lemma read_all_lines ops input :
  Forall is_line input ->
  read_all ops (mkReaders NewReader NewReader input) = read_lines (count_reads ops) input.
Proof.
  revert input. induction ops as [|[] ops IH]; intros input Hin; simpl; [done| |by apply IH|].
  all: destruct Hin as [|chunk input Hc Hin]; [by rewrite <- IH|].
  all: change (bufio_ReadString EmptyString (chunk :: input))
         with (bufio_ReadString NewReader (chunk :: input)).
  all: rewrite (bufio_ReadString_line _ _ Hc); simpl; by rewrite <- IH.
Qed.

(** A reader at the end of file returns the empty text for ever. *)
Lemma read_all_eof buf n :
  read_all (replicate n DialogueRead) (mkReaders buf NewReader []) = replicate n EmptyString.
Proof. induction n as [|n IH]; [done|]. simpl. by rewrite <- IH. Qed.

End two_readers.

(** C28: on a terminal, where every read of standard input returns one
    line, main's reader and the readers of the dialogues, used in any
    order, return the lines in the order typed and none is lost: the
    texts read are those that ReadString of the command loop's model
    returns on the list of lines, which is also what a single reader has
    ahead of it. *)
Theorem two_readers_on_terminal ops input :
  Forall is_line input ->
  read_all ops (mkReaders NewReader NewReader input) = read_lines (count_reads ops) input /\
  ahead NewReader input = input.
Proof. intros Hin. split; [by apply read_all_lines|by apply ahead_lines]. Qed.

(** A command, then a dialogue of two lines, then a command. *)
Definition example_ops : list op :=
  [MainRead; DialogueOpen; DialogueRead; DialogueRead; MainRead].

Definition example_typed : stdin :=
  ["a" +:+ NL; "tea" +:+ NL; "drink" +:+ NL; "q" +:+ NL].

Lemma two_readers_on_terminal_witness :
  read_all example_ops (mkReaders NewReader NewReader example_typed) = example_typed /\
  ahead NewReader example_typed = example_typed.
Proof. apply (two_readers_on_terminal example_ops example_typed). by_decide. Defined.

(** C29: when the read that brought a command emptied standard input (a
    pipe or a file that fits the buffer), the lines behind the command
    are in the buffer of main's reader.  The reader createTimer makes is
    at the end of file: every read of the dialogue returns the empty
    text, the phase loop asks again for ever, and createTimer does not
    return, whatever the fuel. *)
Theorem piped_dialogue_starves fuel n buf input :
  (bufio_ReadString buf input).2 = [] ->
  read_all (MainRead :: DialogueOpen :: replicate n DialogueRead)
           (mkReaders buf NewReader input)
    = (bufio_ReadString buf input).1.1 :: replicate n EmptyString /\
  createTimer fuel (ahead NewReader (bufio_ReadString buf input).2) =
    mkGoM (Print "Enter timer name: " :: Print "Enter notification text: "
           :: concat (replicate fuel (eof_iteration [])))
          (Ok None).
Proof.
  intros Hfd. cbn [read_all fd main_buf dialogue_buf]. rewrite Hfd. split.
  - f_equal. apply read_all_eof.
  - apply createTimer_eof.
Qed.

(** The whole session arrives with the first read. *)
Definition example_piped : stdin :=
  ["a" +:+ NL +:+ "tea" +:+ NL +:+ "drink" +:+ NL +:+ "25" +:+ NL +:+ "5" +:+ NL
   +:+ "n" +:+ NL +:+ "2" +:+ NL +:+ "q" +:+ NL].

Lemma piped_dialogue_starves_witness :
  read_all [MainRead; DialogueOpen; DialogueRead; DialogueRead]
           (mkReaders NewReader NewReader example_piped)
    = ["a" +:+ NL; EmptyString; EmptyString] /\
  result (createTimer 7 []) = Ok None.
Proof.
  destruct (piped_dialogue_starves 7 2 NewReader example_piped) as [H1 H2]; [by vm_compute|].
  split; [exact H1|]. change (ahead NewReader _) with (@nil string) in H2. by rewrite H2.
Defined.

(** In two reads: the dialogue gets the second chunk, and main's reader
    takes the name typed for the dialogue as its next command. *)
Example two_readers_on_pipe :
  read_all [MainRead; DialogueOpen; DialogueRead; MainRead]
           (mkReaders NewReader NewReader ["a" +:+ NL +:+ "tea" +:+ NL; "drink" +:+ NL])
    = ["a" +:+ NL; "drink" +:+ NL; "tea" +:+ NL].
Proof. by vm_compute. Qed.
